(* ===== verification/_CoqProject ===== *)
-Q . S2P
Prelude.v
GoStrings.v
GoPath.v
Regexp.v
SqlPatterns.v
Pagination.v
GoTime.v
GoJson.v
GoFloat.v
GoCsv.v
Cells.v
TableModel.v
SqlStatements.v
SqlRecognition.v
Partitioning.v
Pruning.v
TableStore.v
TableInvariants.v
TableWrites.v
Datasets.v
Sink.v
StorageWrite.v
StreamingInserts.v
JsonText.v
Uploads.v
Jobs.v
MetadataStore.v
JobsRun.v
Sessions.v
EnginePool.v
EnginePoolRun.v
SqlText.v
QueryParams.v
FileFormats.v
FileRoundtrip.v
StorageArrow.v
SchemaDetect.v
EngineValues.v
SqlResolve.v
SqlResolution.v
StorageRead.v
SqlExec.v
TableRest.v
TableConfig.v
InformationSchema.v
QueryDispatch.v
QueryResults.v
FileJobs.v
FakeGcs.v
FakeGcsStore.v
Workspace.v
WorkspaceApply.v
Supervisor.v
