(* ===== verification/Prelude.v ===== *)
(** * LocaQL: the emulator's catalog, statements, write paths, jobs and files

    LocaQL is a local BigQuery emulator written in Go.  This library models the
    parts of it that keep state and decide what happens to it, as executable
    Rocq functions, and proves what makes them correct.  Paths below are under
    [src/]; [server/] stands for [internal/server/].

    ** The program and its parts

    An HTTP and gRPC server offers BigQuery's REST and Storage APIs.  Requests
    end in a handful of services, each a struct behind a mutex:
    - the dataset catalog ([server/datasets_service.go]) and the table catalog
      ([server/tables_service.go]), which holds every schema and row.  Rows are
      lists of string cells ([server/cell_storage.go]); partitioned tables
      assign rows to partitions ([server/table_partitioning.go],
      [server/partition_pruning.go]);
    - the table handlers of the REST API ([server/bigquery.go]), which check a
      client's JSON and change the catalog;
    - SQL: a query text is tried as session control, INFORMATION_SCHEMA, DDL or
      DML on the catalog ([server/sql_statements.go]) and else run as a query
      over the tables it refers to ([server/sql_engine.go]) on a pool of
      embedded engines ([server/sql_engine_pool.go]);
    - the write paths into the table catalog: the Storage Write API
      ([server/storage_write_service.go]), streaming inserts
      ([server/streaming_inserts.go]), load and copy jobs, and DML and DDL
      statements, which commit with a compare-and-swap on the table version;
    - the read path beside queries: the Storage Read API
      ([server/storage_read_service.go], [server/storage_arrow.go]);
    - files: uploads ([server/bigquery_upload.go]), the readers and writers of
      load and extract jobs, schema detection ([server/schema_autodetect.go]),
      and a local object store with the API of Cloud Storage
      ([server/fake_gcs_service.go]);
    - the job service ([server/jobs_service.go]): one goroutine per job over
      three kinds of semaphores, with idempotent submission and a snapshot file;
    - sessions with temporary tables and transactions
      ([server/session_service.go]);
    - routine and model metadata ([server/routines_service.go],
      [server/models_service.go]).
    Beside the server there are the workspace tool ([internal/workspace]) and
    the process supervisor ([internal/procsupervisor]).

    ** How the code is modelled

    A method that holds its service's mutex is one function from the state (and
    the time it reads) to the new state and the result.  A record is the Go
    struct; a field that Go reaches through a pointer and may be nil is an
    [option]; maps are [gmap]; a [Has...] flag with its field is an [option].
    Copies the code makes to avoid sharing are the identity, since the model has
    no aliasing.  A Go error is a constructor of the component's error type, a
    panic is [Panic] ([Prelude.res]).  A function that calls several services is
    a program of a state monad ([SqlResolve.M], [SqlExec.X], [TableRest],
    [FileJobs.W]).  Where code runs outside a mutex - a job's goroutine, a query
    that leases an engine, a statement between its snapshot and its commit - the
    sections under the mutex are the steps of a relation, or an arbitrary change
    of the state happens in between, and theorems hold for every interleaving.
    [int], [int64] and [time.Duration] are [Z] with the 64-bit wrap-around
    written out where it can matter; times are nanoseconds since 1970 in UTC.

    - [Prelude]: record update, results, machine integers, tactics.
    - [GoStrings], [GoPath], [GoTime], [GoJson], [GoFloat], [GoCsv], [Regexp]:
      the parts of Go's [strings], [strconv], [sort], [path/filepath], [time],
      [encoding/json], [encoding/csv] and [regexp] the code uses; [JsonText]:
      what is printed as JSON is parsed back.
    - [Pagination]: page tokens and slices ([server/bigquery.go]).
    - [Cells]: stored cells and row validation.
    - [TableModel], [TableStore]: the table catalog's records and methods;
      [TableInvariants], [TableWrites]: its theorems.
    - [Partitioning]: partition ids, assignment, listing, expiration and the
      bookkeeping of ingestion time; [Pruning]: references, pruning and the
      required partition filter, on parsed statements.
    - [TableRest]: the table handlers, with the parsing of partitioning,
      clustering, schemas and external data, and the rendering of a table;
      [TableConfig]: its theorems.
    - [Datasets]: the dataset catalog, with the delete and undelete handlers.
    - [Sink]: the interface through which the write services reach the catalog,
      its laws, and the catalog as an instance.
    - [StorageWrite], [StreamingInserts]: the two services, proved against
      [Sink]'s laws.
    - [SqlPatterns], [SqlStatements]: the recognisers of statements;
      [SqlRecognition]: their theorems.
    - [SqlText], [QueryParams]: the rewriting of a query's text and its
      parameters.  [SqlResolve]: the tables a query reads; [SqlResolution]: its
      theorems.  [SqlExec]: DDL and DML on the catalog.  [InformationSchema]:
      the views over the services' listings.  [QueryDispatch]: the one entry of
      every statement, and query jobs.
    - [EngineValues]: the statements that fill the engine's tables and the values
      read from its rows ([server/sql_engine.go]).
    - [StorageRead], [StorageArrow]: read sessions, and Arrow record batches in
      both directions.
    - [FakeGcs]: the handlers of the object store on a directory tree;
      [FakeGcsStore]: the abstract store and its refinement.
    - [EnginePool]: leases, signatures and materialization; [EnginePoolRun]:
      concurrent queries.
    - [Uploads]: multipart and resumable uploads.  [FileFormats]: the file
      readers and writers, sharding and paths; [FileRoundtrip]: its theorems.
      [SchemaDetect]: schema detection.  [FileJobs]: load, extract and copy jobs.
    - [Jobs]: the job service's calls; [JobsRun]: its goroutines.
    - [Sessions]: sessions and their statements.
    - [Workspace]: validation, diff and apply; [WorkspaceApply]: its theorems.
    - [MetadataStore]: routines and models.
    - [Supervisor]: the restart loop.

    ** What the theorems show

    - Catalog: every table is stored under its own name with a positive version
      ([catalog_invariant]); a version identifies a content while the table
      lives ([version_identifies_content]), so a compare-and-swap commit never
      loses an update ([cas_no_lost_update]).
    - Configuration: whatever table requests a client sends, tables keep a sound
      configuration ([table_configs_sound]); an accepted schema change keeps the
      rows valid ([schema_evolution_keeps_rows]); what is shown of a partitioning
      is accepted back ([rendered_partitioning_accepted]).
    - Partitions: expiration removes exactly what expired
      ([purgeExpiredPartitions_exact]); pruning drops only rows the filter
      rejects, under the conditions stated ([pruning_sound]); a required filter
      is enforced ([partition_filter_enforced]).
    - Statements: every spelling of a statement is recognised
      ([statement_recognised]); one that fails changes nothing
      ([failed_statement_changes_nothing]); one that is not classified as
      mutating only reads ([unguarded_statement_only_reads]).
    - Queries: resolution ends ([resolution_terminates]) and two resolutions of
      a table at one version agree ([versioned_resolutions_agree]), so a query on
      a shared engine reads exactly the tables it resolved
      ([shared_engine_reads_resolved]); leases are exclusive
      ([pool_leases_exclusive]); the rows the engine returns can be stored and
      loaded again ([engine_row_roundtrip]); parameters reach the engine with their types
      ([query_arguments_typed]); INFORMATION_SCHEMA rows fit their schemas
      ([information_schema_typed]).
    - Write paths: a write stream takes a client's batches exactly once and in
      order whatever is retried ([append_exactly_once]); a batch commit is all or
      nothing ([BatchCommitWriteStreams_atomic]); streaming inserts are at most
      once ([insertAll_at_most_once]).
    - Read sessions: a session is a snapshot that any later offset resumes
      ([read_session_snapshot]); what is sent as Arrow is stored as the same rows
      ([arrow_batches_read_back]).
    - Object store: no request reaches outside the root
      ([gcs_requests_contained]); over well-formed names the API is a flat map
      from buckets and objects to contents ([storage_api_refines_store]).
    - Files: an upload is submitted once and whole ([upload_submits_file_once])
      and does complete ([upload_completes]); load and copy jobs write what their
      sources say ([load_job_result], [copy_job_result]) or nothing
      ([failed_file_job_changes_nothing]); extracted files are read back
      ([csv_extract_load], [ndjson_extract_load], [typed_extract_load]); a
      detected schema fits its file ([detected_schema_loads]) whatever order a
      map is visited in ([ndjson_detection_deterministic]).
    - Jobs: per-table exclusion and the configured limits in every interleaving
      ([executor_mutual_exclusion]), no deadlock and a bound on the steps of a
      job ([executor_terminates]), monotone states ([job_lifecycle]), idempotent
      submission ([jobs_insert_idempotent]).
    - Sessions: transactions are atomic ([transaction_atomic]).  Metadata
      services implement a flat map ([metadata_services_refine]).  Paging is
      complete ([walk_complete]).  Workspaces: apply converges
      ([apply_converges]).  The supervisor restarts within its window
      ([Supervise_restarts_bounded]).
    - The other theorems of the files - cells and validation, partition ids,
      dispositions, tombstones, counters, contained paths - support these.  The
      examples of several files show behaviours at the edge of the guarantees
      that differ from what the code's comments say or a caller would expect.

    ** Fuel and bounds

    No operation of the program is cut short by fuel: each bound is proved or
    evidently enough.  The JSON parser recurses on twice the length of its input
    plus two, and at most two of its calls start at the same byte; scanners of
    text run on its length; the regular-expression matcher's fuel is bounded in
    [Regexp]; views recurse once per view of the project ([resolution_terminates]);
    the rows of an extract are cut into at most as many shards as there are rows.
    [Pagination.walk] and [Uploads.send_chunks] are clients.  The job executor's
    termination is a bound on the length of its runs.

    ** Parameters

    Code outside the repository is a parameter with the laws the code relies on:
    the GoogleSQL parser ([Pruning.GoogleSqlParser]) and engine
    ([SqlResolve.QueryEngine], [SqlExec.StatementEngine], [EnginePool.SqlEngine]),
    and its database driver ([EngineValues.SqlDriver], [DriverText]), Protobuf
    decoding ([StorageWrite.ProtoRuntime]), the Arrow IPC and Avro formats
    ([StorageArrow.ArrowLib], [StorageRead.AvroBinary]; [StorageWrite.ArrowRuntime]
    is what [StorageArrow] gives the write service), MD5 and the readers of
    multipart bodies ([FakeGcs]),
    gzip and the Avro and Parquet containers ([FileFormats.FileCodecs],
    [SchemaDetect.EmbeddedSchemas]), float64 and its texts
    ([QueryParams.GoFloats], [FileFormats.FloatText],
    [StreamingInserts.Float64Text]), the timestamp parser
    ([Partitioning.TimestampParser]), SHA-256 and the working directory
    ([Workspace]).  Go's order over the keys of a map is an argument
    ([SchemaDetect]'s [iterate]), and so is what other requests do while a
    statement runs ([QueryDispatch]'s [meanwhile]).  [SqlResolve.ExternalFiles]
    and [TableRest.SchemaDetector] are the interfaces through which the catalog's
    readers and handlers use files; [FileJobs] gives their implementation.

    ** What is not modelled

    HTTP routing, headers and the JSON of datasets, jobs and query results;
    request metrics and logging; the UI, the benchmark, the conformance runner
    and process start-up. *)

From stdpp Require Export gmap strings list sorting.
From Stdlib Require Export ZArith Lia.

#[global] Open Scope Z_scope.

(** ** Record update

    Go mutates struct fields in place ([t.Version++]).  The model rebuilds the
    record; [r <| f := v |>] keeps that readable.  A record type gives its
    eta expansion as an [Eta] instance and the setter of each field is derived
    from it. *)

Class Eta (R : Type) := eta_of : R → R.
#[global] Hint Mode Eta ! : typeclass_instances.

Class Setter {R E : Type} (getter : R → E) := set : (E → E) → R → R.
Arguments set {R E} getter {_} _ _ /.

Ltac derive_setter R getter :=
  let i := constr:(_ : Eta R) in
  let e := eval cbv beta in i in
  let h := lazymatch e with ?h => h end in
  let body := eval unfold h in h in
  lazymatch eval pattern getter in body with
  | ?upd _ =>
      let u := eval cbv beta in (fun updE => upd (fun r => updE (getter r))) in
      exact u
  end.

#[global] Hint Extern 1 (@Setter ?R ?E ?getter) =>
  derive_setter R getter : typeclass_instances.

Declare Scope record_scope.
Delimit Scope record_scope with rec.
#[global] Open Scope record_scope.

Notation "x <| proj ::= f |>" := (set proj f x)
  (at level 1, f at level 99, left associativity) : record_scope.
Notation "x <| proj := v |>" := (set proj (λ _, v) x)
  (at level 1, v at level 99, left associativity) : record_scope.

(** ** Results of Go functions

    A Go function returns normally ([Ok]), returns a non-nil [error] ([Err],
    with one constructor per message of the component), or panics ([Panic]:
    index out of range, negative capacity, nil dereference). *)

Inductive res (E A : Type) : Type :=
| Ok (a : A)
| Err (e : E)
| Panic.
Arguments Ok {E A} a.
Arguments Err {E A} e.
Arguments Panic {E A}.

#[export] Instance res_ret E : MRet (res E) := λ A a, Ok a.
#[export] Instance res_bind E : MBind (res E) := λ A B f m,
  match m with Ok a => f a | Err e => Err e | Panic => Panic end.

Definition is_ok {E A} (r : res E A) : bool :=
  match r with Ok _ => true | _ => false end.
Definition is_panic {E A} (r : res E A) : bool :=
  match r with Panic => true | _ => false end.

Lemma res_bind_ok {E A B} (m : res E A) (f : A → res E B) b :
  (m ≫= f) = Ok b ↔ ∃ a, m = Ok a ∧ f a = Ok b.
Proof. destruct m; simpl; naive_solver. Qed.

(** ** Machine integers

    Go's [int], [int64] and [time.Duration] are 64-bit two's complement. *)

Definition min_i64 : Z := -9223372036854775808.
Definition max_i64 : Z := 9223372036854775807.
Definition in_i64 (z : Z) : Prop := min_i64 ≤ z ≤ max_i64.
Definition in_i64b (z : Z) : bool := (min_i64 <=? z) && (z <=? max_i64).
Definition wrap64 (z : Z) : Z := (z + 9223372036854775808) `mod` 18446744073709551616 - 9223372036854775808.

Definition i64_add (a b : Z) : Z := wrap64 (a + b).
Definition i64_sub (a b : Z) : Z := wrap64 (a - b).
Definition i64_mul (a b : Z) : Z := wrap64 (a * b).
(** Go's integer division truncates towards zero. *)
Definition i64_quot (a b : Z) : Z := wrap64 (Z.quot a b).

Lemma wrap64_id z : in_i64 z → wrap64 z = z.
Proof. unfold wrap64, in_i64, min_i64, max_i64. intros. rewrite Z.mod_small; lia. Qed.

Lemma wrap64_range z : in_i64 (wrap64 z).
Proof.
  unfold wrap64, in_i64, min_i64, max_i64.
  pose proof (Z.mod_pos_bound (z + 9223372036854775808) 18446744073709551616).
  lia.
Qed.

Lemma in_i64b_spec z : in_i64b z = true ↔ in_i64 z.
Proof. unfold in_i64b, in_i64. rewrite andb_true_iff, !Z.leb_le. done. Qed.

#[export] Instance in_i64_dec z : Decision (in_i64 z).
Proof. apply _. Defined.

(** ** Lists *)

(** [take]/[drop] recombine when one continues where the other stopped: the
    fact every page-walking argument rests on. *)
Lemma take_app_drop_take {A} (l : list A) (i k : nat) :
  take i l ++ take k (drop i l) = take (i + k) l.
Proof. rewrite take_take_drop. done. Qed.

Lemma fmap_replicate_const {A B} (f : A → B) n x :
  f <$> replicate n x = replicate n (f x).
Proof. apply fmap_replicate. Qed.

Lemma Forall_replicate_elem {A} (P : A → Prop) n x : P x → Forall P (replicate n x).
Proof. intros. induction n; simpl; constructor; auto. Qed.

Lemma filter_full {A} (P : A → Prop) `{∀ x, Decision (P x)} (l : list A) :
  length (filter P l) = length l → filter P l = l.
Proof.
  induction l as [|x l IH]; [done|]. rewrite filter_cons. case_decide; simpl.
  - intros. f_equal. apply IH. lia.
  - pose proof (length_filter P l). lia.
Qed.

Lemma filter_all {A} (P : A → Prop) `{∀ x, Decision (P x)} (l : list A) :
  (∀ x, x ∈ l → P x) → filter P l = l.
Proof.
  induction l as [|x l IH]; intros Hl; [done|].
  rewrite filter_cons_True by (apply Hl; left). f_equal. apply IH. intros y Hy. apply Hl. by right.
Qed.

(** ** Automation *)

Create HintDb locaql discriminated.

(** Case analysis on every [match]/[if] of the goal and the hypotheses, with
    the equations it yields turned into substitutions. *)
Ltac go_cases := repeat (case_match; simplify_eq/=; try done).

(** Unfold a list of state-passing operations and run their branches. *)
Ltac go_step := repeat (simplify_option_eq; try case_match; simplify_eq/=; try done).

(** Split a boolean guard hypothesis into its conjuncts. *)
Ltac bools :=
  repeat match goal with
  | H : _ && _ = true |- _ => apply andb_true_iff in H as [? ?]
  | H : _ || _ = false |- _ => apply orb_false_iff in H as [? ?]
  | H : negb _ = true |- _ => apply negb_true_iff in H
  | H : negb _ = false |- _ => apply negb_false_iff in H
  | H : bool_decide _ = true |- _ => apply bool_decide_eq_true in H
  | H : bool_decide _ = false |- _ => apply bool_decide_eq_false in H
  | H : (_ =? _)%Z = true |- _ => apply Z.eqb_eq in H
  | H : (_ =? _)%Z = false |- _ => apply Z.eqb_neq in H
  | H : (_ <? _)%Z = true |- _ => apply Z.ltb_lt in H
  | H : (_ <? _)%Z = false |- _ => apply Z.ltb_ge in H
  | H : (_ <=? _)%Z = true |- _ => apply Z.leb_le in H
  | H : (_ <=? _)%Z = false |- _ => apply Z.leb_gt in H
  | H : String.eqb _ _ = true |- _ => apply String.eqb_eq in H
  | H : String.eqb _ _ = false |- _ => apply String.eqb_neq in H
  end.

(** [lia] with [`div`] and [`mod`] by constants, and [Z.quot]/[Z.rem]. *)
Ltac zlia := Z.to_euclidean_division_equations; lia.
