(* ===== verification/GoStrings.v ===== *)
(** * Go strings

    The parts of Go's [strings], [strconv] and [sort] packages the source uses,
    on byte strings ([string] is a list of 8-bit characters, as in Go).
    [TrimSpace] is exact on every byte string: it recognises the UTF-8
    encodings of the 25 code points of [unicode.IsSpace].  [ToUpper], [ToLower]
    and [EqualFold] are exact on ASCII strings; they leave bytes from 0x80 up
    unchanged, where Go maps the runes they encode. *)

From S2P Require Import Prelude.
From Stdlib Require Import Ascii DecimalString DecimalZ.
From Stdlib Require String.
From Stdlib Require DecimalPos.

(** ** Slicing *)

Fixpoint str_drop (n : nat) (s : string) : string :=
  match n, s with
  | O, _ => s
  | S n, String _ s => str_drop n s
  | S _, EmptyString => EmptyString
  end.

Definition has_prefix (s p : string) : bool := String.prefix p s.

(** [strings.TrimPrefix] *)
Definition trim_prefix (s p : string) : string :=
  if has_prefix s p then str_drop (String.length p) s else s.

Lemma str_app_nil (b : string) : "" +:+ b = b.
Proof. done. Qed.
Lemma str_app_cons c (a b : string) : String c a +:+ b = String c (a +:+ b).
Proof. done. Qed.

Lemma str_drop_app (p s : string) : str_drop (String.length p) (p +:+ s) = s.
Proof. induction p; [done|]. rewrite str_app_cons. done. Qed.

Lemma prefix_app (p s : string) : String.prefix p (p +:+ s) = true.
Proof.
  induction p as [|c p IH]; [by destruct s|].
  rewrite str_app_cons. simpl. by destruct (ascii_dec c c).
Qed.

Lemma has_prefix_spec (s p : string) : has_prefix s p = true ↔ ∃ r, s = p +:+ r.
Proof.
  unfold has_prefix. split.
  - revert s. induction p as [|c p IH]; intros s H; [by exists s|].
    destruct s as [|d s]; simpl in H; [done|].
    destruct (ascii_dec c d) as [->|]; [|done].
    apply IH in H as [r ->]. by exists r.
  - intros [r ->]. apply prefix_app.
Qed.

Lemma has_prefix_app (p s : string) : has_prefix (p +:+ s) p = true.
Proof. apply prefix_app. Qed.

Lemma trim_prefix_app (p s : string) : trim_prefix (p +:+ s) p = s.
Proof. unfold trim_prefix, has_prefix. rewrite prefix_app. apply str_drop_app. Qed.

Lemma str_app_assoc (a b c : string) : (a +:+ b) +:+ c = a +:+ (b +:+ c).
Proof. induction a as [|? a IH]; [done|]. rewrite !str_app_cons. by f_equal. Qed.

Lemma str_length_app (a b : string) :
  String.length (a +:+ b) = (String.length a + String.length b)%nat.
Proof. induction a as [|? a IH]; [done|]. rewrite str_app_cons. simpl. by rewrite IH. Qed.

Lemma str_app_inv_head (p a b : string) : p +:+ a = p +:+ b → a = b.
Proof. apply (inj (String.append p)). Qed.

Lemma str_app_nil_r (a : string) : a +:+ "" = a.
Proof. induction a as [|c a IH]; [done|]. rewrite str_app_cons. by rewrite IH. Qed.

(** ** Reversal *)

Lemma rev_app_spec (a b : string) : String.rev_app a b = String.rev a +:+ b.
Proof.
  revert b. induction a as [|c a IH]; intros b; [done|]. unfold String.rev. simpl. rewrite !IH.
  by rewrite str_app_assoc.
Qed.
Lemma rev_cons c (a : string) : String.rev (String c a) = String.rev a +:+ String c "".
Proof. unfold String.rev at 1. simpl. by rewrite rev_app_spec. Qed.
Lemma rev_append (a b : string) : String.rev (a +:+ b) = String.rev b +:+ String.rev a.
Proof.
  induction a as [|c a IH]; [by rewrite str_app_nil_r|].
  by rewrite str_app_cons, !rev_cons, IH, str_app_assoc.
Qed.
Lemma rev_rev (a : string) : String.rev (String.rev a) = a.
Proof. induction a as [|c a IH]; [done|]. by rewrite rev_cons, rev_append, IH. Qed.

Lemma str_app_inv_tail (a b c : string) : a +:+ c = b +:+ c → a = b.
Proof.
  intros E. apply (f_equal String.rev) in E. rewrite !rev_append in E. apply str_app_inv_head in E.
  by rewrite <-(rev_rev a), <-(rev_rev b), E.
Qed.

(** Concatenation with a separator character absent from the left parts is
    injective: composite map keys [a + sep + b] identify their components. *)
Fixpoint str_mem (c : ascii) (s : string) : bool :=
  match s with
  | EmptyString => false
  | String d r => bool_decide (c = d) || str_mem c r
  end.

Lemma str_sep_inj (c : ascii) (a a' b b' : string) :
  str_mem c a = false → str_mem c a' = false →
  a +:+ String c b = a' +:+ String c b' → a = a' ∧ b = b'.
Proof.
  revert a'. induction a as [|d a IH]; intros a' Ha Ha'; destruct a' as [|d' a'];
    rewrite ?str_app_nil, ?str_app_cons; simpl in Ha, Ha'; intros H; injection H; clear H; intros; subst.
  - done.
  - by rewrite bool_decide_true in Ha' by done.
  - by rewrite bool_decide_true in Ha by done.
  - apply orb_false_iff in Ha as [_ Ha], Ha' as [_ Ha'].
    edestruct (IH a'); eauto; by subst.
Qed.

(** ** [strings.TrimSpace] *)

Definition str1 (n : nat) : string := String (ascii_of_nat n) EmptyString.
Fixpoint bytes (l : list nat) : string :=
  match l with [] => EmptyString | n :: r => String (ascii_of_nat n) (bytes r) end.

(** UTF-8 encodings of the runes for which [unicode.IsSpace] holds. *)
Definition space_encodings : list string :=
  [str1 9; str1 10; str1 11; str1 12; str1 13; str1 32;
   bytes [194; 133]; bytes [194; 160]; bytes [225; 154; 128];
   bytes [226; 128; 128]; bytes [226; 128; 129]; bytes [226; 128; 130];
   bytes [226; 128; 131]; bytes [226; 128; 132]; bytes [226; 128; 133];
   bytes [226; 128; 134]; bytes [226; 128; 135]; bytes [226; 128; 136];
   bytes [226; 128; 137]; bytes [226; 128; 138]; bytes [226; 128; 168];
   bytes [226; 128; 169]; bytes [226; 128; 175]; bytes [226; 129; 159];
   bytes [227; 128; 128]]%nat.

(** Length of the first listed encoding that begins [s]; 0 when none does. *)
Fixpoint head_enc (encs : list string) (s : string) : nat :=
  match encs with
  | [] => O
  | e :: r => if has_prefix s e then String.length e else head_enc r s
  end.

(** Drop the listed encodings from the front as long as one is there; [skip]
    counts the bytes of the current encoding still to be dropped. *)
Fixpoint trim_go (encs : list string) (skip : nat) (s : string) : string :=
  match s with
  | EmptyString => EmptyString
  | String _ r =>
      match skip with
      | S k => trim_go encs k r
      | O => match head_enc encs s with
             | O => s
             | S k => trim_go encs k r
             end
      end
  end.

Definition trim_left (s : string) : string := trim_go space_encodings 0 s.
Definition trim_right (s : string) : string :=
  String.rev (trim_go (String.rev <$> space_encodings) 0 (String.rev s)).
Definition trim_space (s : string) : string := trim_right (trim_left s).

(** ** Case mapping *)

Definition upper_ascii (c : ascii) : ascii :=
  let n := nat_of_ascii c in
  if ((97 <=? n) && (n <=? 122))%nat then ascii_of_nat (n - 32) else c.
Definition lower_ascii (c : ascii) : ascii :=
  let n := nat_of_ascii c in
  if ((65 <=? n) && (n <=? 90))%nat then ascii_of_nat (n + 32) else c.
Fixpoint str_map (f : ascii → ascii) (s : string) : string :=
  match s with EmptyString => EmptyString | String c r => String (f c) (str_map f r) end.
Definition to_upper : string → string := str_map upper_ascii.
Definition to_lower : string → string := str_map lower_ascii.
Definition equal_fold (a b : string) : bool := String.eqb (to_lower a) (to_lower b).

Lemma equal_fold_spec a b : equal_fold a b = true ↔ to_lower a = to_lower b.
Proof. apply String.eqb_eq. Qed.
Lemma equal_fold_refl a : equal_fold a a = true.
Proof. by apply equal_fold_spec. Qed.
Lemma equal_fold_sym a b : equal_fold a b = equal_fold b a.
Proof. apply String.eqb_sym. Qed.
Lemma equal_fold_trans a b c :
  equal_fold a b = true → equal_fold b c = true → equal_fold a c = true.
Proof. rewrite !equal_fold_spec. congruence. Qed.

(** ** Splitting, joining, searching *)

(** [strings.Split(s, sep)] for a one-byte separator. *)
Fixpoint split_on (c : ascii) (s : string) : list string :=
  match s with
  | EmptyString => [EmptyString]
  | String d r =>
      if bool_decide (c = d) then EmptyString :: split_on c r
      else match split_on c r with
           | h :: t => String d h :: t
           | [] => [String d EmptyString]
           end
  end.

Fixpoint join (sep : string) (l : list string) : string :=
  match l with
  | [] => EmptyString
  | [s] => s
  | s :: r => s +:+ sep +:+ join sep r
  end.

(** [strings.Contains] *)
Fixpoint contains (s sub : string) : bool :=
  has_prefix s sub || match s with EmptyString => false | String _ r => contains r sub end.

(** [strings.Trim(s, cutset)] for a one-byte cutset. *)
Definition trim_char (c : ascii) (s : string) : string :=
  let e := [String c EmptyString] in
  String.rev (trim_go e 0 (String.rev (trim_go e 0 s))).

Lemma split_on_ne c s : split_on c s ≠ [].
Proof. destruct s; simpl; [done|]. destruct (split_on c s); by case_bool_decide. Qed.

(** Splitting and joining with the same separator round-trips. *)
Lemma join_split c s : join (String c EmptyString) (split_on c s) = s.
Proof.
  induction s as [|d s IH]; [done|]. simpl.
  pose proof (split_on_ne c s) as Hne. destruct (split_on c s) as [|h t]; [done|].
  case_bool_decide; subst.
  - trans (String d (join (String d "") (h :: t))); [done|]. by f_equal.
  - by destruct t.
Qed.

Lemma split_on_no_sep c s : Forall (λ p, str_mem c p = false) (split_on c s).
Proof.
  induction s as [|d s IH]; simpl; [by repeat constructor|].
  destruct (split_on c s) as [|h t]; case_bool_decide; try (by constructor).
  - constructor; [|constructor]. simpl. by rewrite bool_decide_false.
  - inversion_clear IH. constructor; [|done]. simpl. by rewrite bool_decide_false.
Qed.

(** ** [strconv.FormatInt(_, 10)], [strconv.ParseInt(_, 10, 64)], [strconv.Atoi] *)

Definition format_int (z : Z) : string := NilZero.string_of_int (Z.to_int z).

(** An optional sign, at least one digit, nothing else, value in range. *)
Definition parse_int (s : string) : option Z :=
  let unsigned (r : string) : option Z := Z.of_uint <$> NilZero.uint_of_string r in
  z ← match s with
      | String "+" r => unsigned r
      | String "-" r => Z.opp <$> unsigned r
      | _ => unsigned s
      end;
  if in_i64b z then Some z else None.

(** ** [sort.Strings]: bytewise lexicographic order *)

Definition sort_strings (l : list string) : list string := merge_sort String.le l.

Lemma sort_strings_sorted l : StronglySorted String.le (sort_strings l).
Proof. apply StronglySorted_merge_sort; apply _. Qed.
Lemma sort_strings_perm l : sort_strings l ≡ₚ l.
Proof. apply merge_sort_Permutation. Qed.
Lemma elem_of_sort_strings x l : x ∈ sort_strings l ↔ x ∈ l.
Proof. by rewrite sort_strings_perm. Qed.
Lemma NoDup_sort_strings l : NoDup l → NoDup (sort_strings l).
Proof. by rewrite sort_strings_perm. Qed.
Lemma length_sort_strings l : length (sort_strings l) = length l.
Proof. by rewrite sort_strings_perm. Qed.

(** The sorted key list a Go [for id := range m] plus [sort.Strings] builds. *)
Definition sorted_keys {A} (m : gmap string A) : list string :=
  sort_strings (elements (dom m)).

Lemma elem_of_sorted_keys {A} (m : gmap string A) k :
  k ∈ sorted_keys m ↔ is_Some (m !! k).
Proof. unfold sorted_keys. by rewrite elem_of_sort_strings, elem_of_elements, elem_of_dom. Qed.
Lemma NoDup_sorted_keys {A} (m : gmap string A) : NoDup (sorted_keys m).
Proof. apply NoDup_sort_strings, NoDup_elements. Qed.
Lemma sorted_keys_sorted {A} (m : gmap string A) : StronglySorted String.le (sorted_keys m).
Proof. apply sort_strings_sorted. Qed.

(** ** Numbers: printing then parsing gives the number back *)

Lemma uint_of_string_signed (c : ascii) (r : string) :
  c = "+"%char ∨ c = "-"%char → NilZero.uint_of_string (String c r) = None.
Proof. intros [-> | ->]; simpl; by destruct (NilEmpty.uint_of_string r). Qed.

Lemma parse_unsigned s u :
  NilZero.uint_of_string s = Some u → in_i64 (Z.of_uint u) → parse_int s = Some (Z.of_uint u).
Proof.
  intros Hs Hr. unfold parse_int.
  assert (match s with
          | String "+" r => Z.of_uint <$> NilZero.uint_of_string r
          | String "-" r => Z.opp <$> (Z.of_uint <$> NilZero.uint_of_string r)
          | _ => Z.of_uint <$> NilZero.uint_of_string s
          end = Some (Z.of_uint u)) as ->.
  { destruct s as [|c r]; [by rewrite Hs|].
    destruct (decide (c = "+"%char)) as [->|]; [by rewrite uint_of_string_signed in Hs by auto|].
    destruct (decide (c = "-"%char)) as [->|]; [by rewrite uint_of_string_signed in Hs by auto|].
    rewrite Hs. destruct c as [[] [] [] [] [] [] [] []]; done. }
  simpl. apply in_i64b_spec in Hr. by rewrite Hr.
Qed.

Lemma uint_of_string_of_pos p :
  NilZero.uint_of_string (NilZero.string_of_uint (Pos.to_uint p)) = Some (Pos.to_uint p).
Proof. apply NilZero.usu. apply DecimalPos.Unsigned.to_uint_nonnil. Qed.

Lemma parse_format_int z : in_i64 z → parse_int (format_int z) = Some z.
Proof.
  intros Hz. pose proof (DecimalZ.of_to z) as Hot. destruct z as [|p|p].
  - done.
  - simpl in Hot. rewrite <-Hot at 2. apply parse_unsigned.
    + apply uint_of_string_of_pos.
    + by rewrite Hot.
  - simpl in Hot. unfold parse_int, format_int. simpl.
    rewrite uint_of_string_of_pos. simpl. rewrite Hot.
    apply in_i64b_spec in Hz. by rewrite Hz.
Qed.

Lemma format_int_inj a b : in_i64 a → in_i64 b → format_int a = format_int b → a = b.
Proof.
  intros Ha Hb H. apply parse_format_int in Ha, Hb. congruence.
Qed.

Lemma parse_int_range s z : parse_int s = Some z → in_i64 z.
Proof.
  unfold parse_int. intros H. apply bind_Some in H as (y & _ & H).
  case_match eqn:E; simplify_eq. by apply in_i64b_spec.
Qed.

(** Printing is injective on all integers. *)
Lemma to_int_nonnil z : Z.to_int z ≠ Decimal.Pos Decimal.Nil ∧ Z.to_int z ≠ Decimal.Neg Decimal.Nil.
Proof.
  destruct z as [|p|p]; simpl; split; try done; intros [= E];
    by apply (DecimalPos.Unsigned.to_uint_nonnil p).
Qed.

Lemma format_int_injective a b : format_int a = format_int b → a = b.
Proof.
  unfold format_int. intros E. apply (f_equal NilZero.int_of_string) in E.
  destruct (to_int_nonnil a), (to_int_nonnil b). rewrite !NilZero.isi in E by done.
  injection E as E. apply (f_equal Z.of_int) in E. by rewrite !DecimalZ.of_to in E.
Qed.

(** ** Joining with a separator the parts do not contain *)

Lemma str_mem_app c a b : str_mem c (a +:+ b) = str_mem c a || str_mem c b.
Proof. induction a as [|x a IH]; [done|]. rewrite str_app_cons. simpl. rewrite IH. by rewrite orb_assoc. Qed.

Lemma uint_text_no_bar u : str_mem "|" (NilEmpty.string_of_uint u) = false.
Proof. by induction u. Qed.

Lemma format_int_no_bar z : str_mem "|" (format_int z) = false.
Proof.
  unfold format_int, NilZero.string_of_int. assert (∀ u, str_mem "|" (NilZero.string_of_uint u) = false) as Hu.
  { intros []; try done; apply uint_text_no_bar. }
  destruct (Z.to_int z); simpl; apply Hu.
Qed.

Lemma split_on_plain c s : str_mem c s = false → split_on c s = [s].
Proof.
  induction s as [|d r IH]; [done|]. simpl. intros [Hd Hr]%orb_false_iff.
  rewrite bool_decide_false, IH; [done..|]. intros ->. by rewrite bool_decide_true in Hd.
Qed.

Lemma split_on_sep c s r :
  str_mem c s = false → split_on c (s +:+ String c r) = s :: split_on c r.
Proof.
  induction s as [|d s IH]; intros Hs.
  - rewrite str_app_nil. simpl. by rewrite bool_decide_true.
  - simpl in Hs. apply orb_false_iff in Hs as [Hd Hs]. rewrite str_app_cons. simpl.
    rewrite bool_decide_false, IH; [done..|]. intros ->. by rewrite bool_decide_true in Hd.
Qed.

Lemma split_join c l :
  l ≠ [] → Forall (λ s, str_mem c s = false) l → split_on c (join (String c "") l) = l.
Proof.
  intros Hne Hl. induction Hl as [|s l Hs Hl IH]; [done|]. destruct l as [|s' l]; [by apply split_on_plain|].
  simpl join. rewrite str_app_cons, str_app_nil, split_on_sep by done. f_equal. by apply IH.
Qed.

(** ** Strings of one kind of byte *)

Fixpoint all_chars (f : ascii → bool) (s : string) : bool :=
  match s with EmptyString => true | String c r => f c && all_chars f r end.

Lemma all_chars_impl (f g : ascii → bool) s :
  (∀ c, f c = true → g c = true) → all_chars f s = true → all_chars g s = true.
Proof.
  intros Hfg. induction s as [|c s IH]; [done|]. simpl. rewrite !andb_true_iff. naive_solver.
Qed.

Lemma all_chars_app f a b : all_chars f (a +:+ b) = all_chars f a && all_chars f b.
Proof. induction a as [|c a IH]; [done|]. rewrite str_app_cons. simpl. by rewrite IH, andb_assoc. Qed.

Lemma all_chars_rev f s : all_chars f (String.rev s) = all_chars f s.
Proof.
  induction s as [|c s IH]; [done|]. rewrite rev_cons, all_chars_app, IH. simpl. by rewrite andb_true_r, andb_comm.
Qed.

Lemma has_prefix_chars P s e : has_prefix s e = true → all_chars P s = true → all_chars P e = true.
Proof. intros [r ->]%has_prefix_spec. rewrite all_chars_app. by intros [? ?]%andb_true_iff. Qed.

Lemma head_enc_outside P encs s :
  Forall (λ e, all_chars P e = false) encs → all_chars P s = true → head_enc encs s = O.
Proof.
  intros He Hs. induction He as [|e encs He _ IH]; [done|]. cbn [head_enc].
  destruct (has_prefix s e) eqn:E; [|exact IH]. apply (has_prefix_chars P) in E; congruence.
Qed.

Lemma trim_go_outside_id P encs s :
  Forall (λ e, all_chars P e = false) encs → all_chars P s = true → trim_go encs 0 s = s.
Proof.
  intros He Hs. destruct s as [|c s]; [done|]. cbn [trim_go]. by rewrite (head_enc_outside P).
Qed.

(** Trimming white space keeps a text without the bytes of white space. *)
Lemma trim_space_outside P s :
  Forall (λ e, all_chars P e = false) space_encodings → Forall (λ e, all_chars P e = false) (String.rev <$> space_encodings) →
  all_chars P s = true → trim_space s = s.
Proof.
  intros H1 H2 Hs. unfold trim_space, trim_right, trim_left. rewrite (trim_go_outside_id P space_encodings s) by done.
  rewrite (trim_go_outside_id P); [apply rev_rev|done|by rewrite all_chars_rev].
Qed.
Lemma trim_char_outside P c s : P c = false → all_chars P s = true → trim_char c s = s.
Proof.
  intros Hc Hs. unfold trim_char. assert (Forall (λ e, all_chars P e = false) [String c ""]) as He.
  { constructor; [simpl; by rewrite Hc|constructor]. }
  rewrite (trim_go_outside_id P _ s) by done. rewrite (trim_go_outside_id P); [apply rev_rev|done|by rewrite all_chars_rev].
Qed.
