(* ===== verification/GoPath.v ===== *)
(** * path/filepath on Unix

    [Clean], [Dir] of a clean relative path and [Join], as the workspace tool and
    the local object store use them. *)

From S2P Require Import Prelude GoStrings.
From Stdlib Require Import Ascii.

(** One component of [filepath.Clean]; the stack is kept in reverse. *)
Definition clean_step (rooted : bool) (stack : list string) (c : string) : list string :=
  if String.eqb c "" || String.eqb c "." then stack
  else if String.eqb c ".." then
    match stack with
    | top :: rest => if String.eqb top ".." then c :: stack else rest
    | [] => if rooted then [] else [c]
    end
  else c :: stack.

Definition is_abs (p : string) : bool := has_prefix p "/".

Definition clean_parts (p : string) : list string :=
  rev (foldl (clean_step (is_abs p)) [] (split_on "/" p)).

Definition clean (p : string) : string :=
  let out := join "/" (clean_parts p) in
  if is_abs p then "/" +:+ out else if String.eqb out "" then "." else out.

(** [filepath.Dir] of a clean relative path. *)
Definition dir (p : string) : string :=
  match rev (split_on "/" p) with
  | [] | [_] => "."
  | _ :: up => join "/" (rev up)
  end.

(** [filepath.Join]: empty elements are ignored. *)
Definition join_path (elems : list string) : string :=
  match filter (.≠ "") elems with
  | [] => ""
  | l => clean (join "/" l)
  end.

(** ** Plain paths *)

(** A component that names an entry of its directory. *)
Definition plain (c : string) : Prop := c ≠ "" ∧ c ≠ "." ∧ c ≠ "..".

Lemma clean_plain rooted stack cs : Forall plain cs → foldl (clean_step rooted) stack cs = rev cs ++ stack.
Proof.
  intros Hcs. revert stack. induction Hcs as [|c cs (H1 & H2 & H3) _ IH]; intros stack; [done|]. simpl.
  unfold clean_step at 2.
  destruct (String.eqb_spec c ""), (String.eqb_spec c "."), (String.eqb_spec c ".."); try done. simpl.
  rewrite IH, <-app_assoc. done.
Qed.

Lemma plain_path_ne p : Forall plain (split_on "/" p) → p ≠ "" ∧ p ≠ ".".
Proof. intros Hp. split; intros ->; inversion Hp as [|? ? (? & ? & ?)]; done. Qed.

Lemma clean_ne p : clean p ≠ "".
Proof. unfold clean. destruct (is_abs p); [done|]. by destruct (String.eqb_spec (join "/" (clean_parts p)) ""). Qed.

(** The absolute path of a list of components. *)
Definition abs_path (cs : list string) : string := "/" +:+ join "/" cs.

(** A component without a separator in it. *)
Definition file_name (c : string) : Prop := plain c ∧ str_mem "/" c = false.

Lemma split_abs_path cs : Forall file_name cs → cs ≠ [] → split_on "/" (abs_path cs) = "" :: cs.
Proof.
  intros Hcs Hne. unfold abs_path. rewrite str_app_cons, str_app_nil.
  change (split_on "/" (String "/" (join "/" cs))) with (split_on "/" ("" +:+ String "/" (join "/" cs))).
  rewrite split_on_sep by done. f_equal. apply split_join; [done|].
  eapply Forall_impl; [exact Hcs|]. by intros c [_ ?].
Qed.

Lemma abs_path_inj cs ds : Forall file_name cs → Forall file_name ds → abs_path cs = abs_path ds → cs = ds.
Proof.
  intros Hcs Hds E. destruct (decide (cs = [])) as [->|H1], (decide (ds = [])) as [->|H2]; [done|..].
  - pose proof (split_abs_path ds Hds H2) as E2. rewrite <-E in E2. injection E2 as <-.
    inversion Hds as [|? ? ((Hne & _) & _)]; done.
  - pose proof (split_abs_path cs Hcs H1) as E2. rewrite E in E2. injection E2 as <-.
    inversion Hcs as [|? ? ((Hne & _) & _)]; done.
  - pose proof (split_abs_path cs Hcs H1) as E1. rewrite E, split_abs_path in E1 by done. by injection E1.
Qed.

Lemma join_app l m : l ≠ [] → m ≠ [] → join "/" (l ++ m) = join "/" l +:+ "/" +:+ join "/" m.
Proof.
  intros Hl Hm. induction l as [|x l IH]; [done|]. destruct l as [|y l].
  - destruct m as [|z m]; [done|]. simpl. by rewrite ?str_app_assoc.
  - change (join "/" ((x :: y :: l) ++ m)) with (x +:+ "/" +:+ join "/" ((y :: l) ++ m)).
    rewrite IH by done. change (join "/" (x :: y :: l)) with (x +:+ "/" +:+ join "/" (y :: l)).
    by rewrite !str_app_assoc.
Qed.

Lemma abs_path_app cs ds : cs ≠ [] → ds ≠ [] → abs_path (cs ++ ds) = abs_path cs +:+ "/" +:+ join "/" ds.
Proof. intros. unfold abs_path. rewrite join_app by done. by rewrite !str_app_assoc. Qed.

Lemma clean_abs_path cs : Forall file_name cs → cs ≠ [] → clean (abs_path cs) = abs_path cs.
Proof.
  intros Hcs Hne. unfold clean, clean_parts. rewrite split_abs_path by done.
  assert (is_abs (abs_path cs) = true) as -> by apply has_prefix_app. simpl foldl.
  change (clean_step true [] "") with (@nil string).
  rewrite clean_plain, app_nil_r, rev_involutive; [done|].
  eapply Forall_impl; [exact Hcs|]. by intros c [? _].
Qed.
