(* ===== verification/Regexp.v ===== *)
(** * Go regular expressions

    The part of Go's [regexp] package (RE2 syntax, leftmost-first matching with
    captures) that the SQL recognisers use, on byte strings.  [re] is the syntax
    after expansion of [r?], [r+] and [r{1,2}]; [run] is the matcher, which tries
    the alternatives of a pattern in the order of Perl and RE2 and so finds the
    match Go reports; [matches] is the meaning of a pattern, and [run] is proved
    sound and complete for it.

    Go matches runes where this model matches bytes.  Every class of the source's
    patterns is a set of ASCII characters or the complement of one, where the two
    views agree: a negated class or [.] takes each byte of a multi-byte rune.
    Under [(?i)] Go also folds two non-ASCII runes onto ASCII letters, U+017F onto
    [s] and U+212A onto [k]; their encodings are alternatives of those letters. *)

From S2P Require Import Prelude GoStrings.
From Stdlib Require Import Ascii.
From Stdlib Require String.

(** ** Syntax *)

Inductive re : Type :=
| REps
| RSet (f : ascii → bool)
| RCat (a b : re)
| RAlt (a b : re)
| RStar (a : re)
| RLazy (a : re)
| RGroup (n : nat) (a : re)
| RBegin
| REnd
| RWordB.

Declare Scope re_scope.
Delimit Scope re_scope with re.
Notation "a ⋅ b" := (RCat a b) (at level 45, right associativity) : re_scope.
Notation "a ∥ b" := (RAlt a b) (at level 50, left associativity) : re_scope.

(** [r?], [r+] *)
Definition ropt (a : re) : re := RAlt a REps.
Definition rplus (a : re) : re := RCat a (RStar a).

(** ** Matching *)

(** What the matcher knows at a position: the byte before it, the rest of the
    subject, the offset, and the captured groups with their start and text, the
    latest first. *)
Record rst := RSt {
  r_prev : option ascii; r_rest : string; r_pos : nat; r_caps : list (nat * (nat * string)) }.

Fixpoint str_take (n : nat) (s : string) : string :=
  match n, s with
  | S n, String c r => String c (str_take n r)
  | _, _ => EmptyString
  end.

Definition advance (c : ascii) (t : string) (x : rst) : rst :=
  RSt (Some c) t (S (r_pos x)) (r_caps x).

(** Group [n] spans from [x] to [y]. *)
Definition record (n : nat) (x y : rst) : rst :=
  RSt (r_prev y) (r_rest y) (r_pos y)
    ((n, (r_pos x, str_take (r_pos y - r_pos x) (r_rest x))) :: r_caps y).

Definition word_char (c : ascii) : bool :=
  let n := nat_of_ascii c in
  ((65 <=? n) && (n <=? 90) || (97 <=? n) && (n <=? 122) || (48 <=? n) && (n <=? 57) || (n =? 95))%nat.
Definition word_before (x : rst) : bool :=
  match r_prev x with Some c => word_char c | None => false end.
Definition word_after (x : rst) : bool :=
  match r_rest x with String c _ => word_char c | EmptyString => false end.

Definition rlen (x : rst) : nat := String.length (r_rest x).

(** Greedy repetition: one more round first, if it consumes something. *)
Fixpoint star_loop (body : (rst → option rst) → rst → option rst) (k : rst → option rst)
    (fuel : nat) (x : rst) : option rst :=
  match fuel with
  | O => k x
  | S fuel =>
      match body (λ y, if (rlen y <? rlen x)%nat then star_loop body k fuel y else None) x with
      | Some z => Some z
      | None => k x
      end
  end.

(** Lazy repetition ([r*?]): the rest of the pattern first. *)
Fixpoint lazy_loop (body : (rst → option rst) → rst → option rst) (k : rst → option rst)
    (fuel : nat) (x : rst) : option rst :=
  match k x with
  | Some z => Some z
  | None =>
      match fuel with
      | O => None
      | S fuel => body (λ y, if (rlen y <? rlen x)%nat then lazy_loop body k fuel y else None) x
      end
  end.

Fixpoint run (r : re) (k : rst → option rst) (x : rst) : option rst :=
  match r with
  | REps => k x
  | RSet f =>
      match r_rest x with
      | String c t => if f c then k (advance c t x) else None
      | EmptyString => None
      end
  | RCat a b => run a (run b k) x
  | RAlt a b => match run a k x with Some z => Some z | None => run b k x end
  | RStar a => star_loop (run a) k (S (rlen x)) x
  | RLazy a => lazy_loop (run a) k (S (rlen x)) x
  | RGroup n a => run a (λ y, k (record n x y)) x
  | RBegin => match r_prev x with None => k x | Some _ => None end
  | REnd => match r_rest x with EmptyString => k x | String _ _ => None end
  | RWordB => if xorb (word_before x) (word_after x) then k x else None
  end.

(** The leftmost match at or after a position. *)
Fixpoint search (r : re) (prev : option ascii) (s : string) (pos : nat) : option rst :=
  match run r Some (RSt prev s pos []) with
  | Some z => Some z
  | None => match s with EmptyString => None | String c t => search r (Some c) t (S pos) end
  end.

(** [FindStringSubmatch]: group 0 is the whole match. *)
Definition find (r : re) (s : string) : option rst := search (RGroup 0 r) None s 0.
Definition match_string (r : re) (s : string) : bool := bool_decide (is_Some (find r s)).

Fixpoint cap_lookup (n : nat) (caps : list (nat * (nat * string))) : option (nat * string) :=
  match caps with
  | [] => None
  | (m, c) :: rest => if (m =? n)%nat then Some c else cap_lookup n rest
  end.
Definition cap (n : nat) (z : rst) : option (nat * string) := cap_lookup n (r_caps z).
(** [m[n]], which is empty for a group that did not take part. *)
Definition sub (z : rst) (n : nat) : string := default "" (snd <$> cap n z).
Definition sub_start (z : rst) (n : nat) : nat := default O (fst <$> cap n z).
Definition sub_end (z : rst) (n : nat) : nat := (sub_start z n + String.length (sub z n))%nat.

(** [FindAllStringSubmatch(s, -1)]: matches from left to right that do not
    overlap.  An empty match moves on by one byte, and is not reported where the
    match before it ended. *)
Fixpoint find_all_from (fuel : nat) (r : re) (prevEnd : option nat)
    (prev : option ascii) (s : string) (pos : nat) : list rst :=
  match fuel with
  | O => []
  | S fuel =>
      match search (RGroup 0 r) prev s pos with
      | None => []
      | Some z =>
          if (pos <? r_pos z)%nat
          then z :: find_all_from fuel r (Some (r_pos z)) (r_prev z) (r_rest z) (r_pos z)
          else (if bool_decide (prevEnd = Some (sub_start z 0)) then [] else [z]) ++
               match s with
               | EmptyString => []
               | String c t => find_all_from fuel r (Some (r_pos z)) (Some c) t (S pos)
               end
      end
  end.
Definition find_all (r : re) (s : string) : list rst :=
  find_all_from (2 + 2 * String.length s) r None None s 0.

(** [ReplaceAllString] with a template computed from the match. *)
Fixpoint splice (s : string) (pos : nat) (zs : list rst) (template : rst → string) : string :=
  match zs with
  | [] => s
  | z :: zs =>
      str_take (sub_start z 0 - pos) s +:+ template z +:+ splice (r_rest z) (r_pos z) zs template
  end.
Definition replace_all (r : re) (template : rst → string) (s : string) : string :=
  splice s 0 (find_all r s) template.

(** ** Patterns *)

Definition char_is (c : ascii) : ascii → bool := Ascii.eqb c.
Definition byte (n : nat) : re := RSet (char_is (ascii_of_nat n)).

(** A literal, and a literal under [(?i)]. *)
Fixpoint lit (s : string) : re :=
  match s with
  | EmptyString => REps
  | String c EmptyString => RSet (char_is c)
  | String c r => RCat (RSet (char_is c)) (lit r)
  end.
Definition same_letter (c d : ascii) : bool := Ascii.eqb (lower_ascii c) (lower_ascii d).
Definition long_s : re := RCat (byte 197) (byte 191).
Definition kelvin : re := RCat (byte 226) (RCat (byte 132) (byte 170)).
Definition folded (c : ascii) : re :=
  if same_letter "s" c then RAlt (RSet (same_letter c)) long_s
  else if same_letter "k" c then RAlt (RSet (same_letter c)) kelvin
  else RSet (same_letter c).
Fixpoint ilit (s : string) : re :=
  match s with
  | EmptyString => REps
  | String c EmptyString => folded c
  | String c r => RCat (folded c) (ilit r)
  end.

(** A class of ASCII characters with all the letters, under [(?i)]. *)
Definition iclass (f : ascii → bool) : re := RAlt (RSet f) (RAlt long_s kelvin).

Definition space_char (c : ascii) : bool :=
  let n := nat_of_ascii c in ((n =? 9) || (n =? 10) || (n =? 12) || (n =? 13) || (n =? 32))%nat.
Definition rspace : re := RSet space_char.
Definition spaces : re := rplus rspace.
Definition spaces0 : re := RStar rspace.
(** [.] under [(?s)] *)
Definition any : re := RSet (λ _, true).

(** ** The meaning of a pattern *)

Inductive matches : re → rst → rst → Prop :=
| matches_eps x : matches REps x x
| matches_set f x c t : r_rest x = String c t → f c = true → matches (RSet f) x (advance c t x)
| matches_cat a b x y z : matches a x y → matches b y z → matches (RCat a b) x z
| matches_alt_l a b x y : matches a x y → matches (RAlt a b) x y
| matches_alt_r a b x y : matches b x y → matches (RAlt a b) x y
| matches_star_nil a x : matches (RStar a) x x
| matches_star_step a x y z :
    matches a x y → (rlen y < rlen x)%nat → matches (RStar a) y z → matches (RStar a) x z
| matches_lazy_nil a x : matches (RLazy a) x x
| matches_lazy_step a x y z :
    matches a x y → (rlen y < rlen x)%nat → matches (RLazy a) y z → matches (RLazy a) x z
| matches_group n a x y : matches a x y → matches (RGroup n a) x (record n x y)
| matches_begin x : r_prev x = None → matches RBegin x x
| matches_end x : r_rest x = EmptyString → matches REnd x x
| matches_wordb x : xorb (word_before x) (word_after x) = true → matches RWordB x x.

Lemma run_sound r : ∀ k x z, run r k x = Some z → ∃ y, matches r x y ∧ k y = Some z.
Proof.
  induction r as [| |a IHa b IHb|a IHa b IHb|a IHa|a IHa|n a IHa| | |]; simpl; intros k x z H.
  - eexists; split; [constructor|done].
  - destruct (r_rest x) as [|c t] eqn:E; [done|]. destruct (f c) eqn:Ef; [|done].
    eexists; split; [by econstructor|done].
  - apply IHa in H as (y & Ha & Hk). apply IHb in Hk as (z' & Hb & Hk).
    eexists; split; [by econstructor|done].
  - destruct (run a k x) eqn:E; simplify_eq.
    + apply IHa in E as (y & Ha & Hk). eexists; split; [by apply matches_alt_l|done].
    + apply IHb in H as (y & Hb & Hk). eexists; split; [by apply matches_alt_r|done].
  - change (star_loop (run a) k (S (rlen x)) x = Some z) in H. revert H. generalize (S (rlen x)).
    intros fuel. revert x. induction fuel as [|fuel IH]; intros x H; simpl in H.
    + eexists; split; [constructor|done].
    + case_match eqn:E; simplify_eq; [|eexists; split; [constructor|done]].
      apply IHa in E as (y & Ha & Hk). case_match eqn:El; [|done].
      apply IH in Hk as (w & Hw & Hk). exists w. split; [|done].
      eapply matches_star_step; [done| |done]. by apply Nat.ltb_lt.
  - change (lazy_loop (run a) k (S (rlen x)) x = Some z) in H. revert H. generalize (S (rlen x)).
    intros fuel. revert x. induction fuel as [|fuel IH]; intros x H; simpl in H.
    + destruct (k x) eqn:E; simplify_eq. eexists; split; [constructor|done].
    + destruct (k x) eqn:Ek; simplify_eq; [eexists; split; [constructor|done]|].
      apply IHa in H as (y & Ha & Hk). case_match eqn:El; [|done].
      apply IH in Hk as (w & Hw & Hk). exists w. split; [|done].
      eapply matches_lazy_step; [done| |done]. by apply Nat.ltb_lt.
  - apply IHa in H as (y & Ha & Hk). eexists; split; [by constructor|done].
  - destruct (r_prev x) eqn:E; [done|]. eexists; split; [by constructor|done].
  - destruct (r_rest x) eqn:E; [|done]. eexists; split; [by constructor|done].
  - destruct (xorb _ _) eqn:E; [|done]. eexists; split; [by constructor|done].
Qed.

Lemma run_cat a b k x : run (RCat a b) k x = run a (run b k) x.
Proof. done. Qed.
Lemma run_grp n a k x : run (RGroup n a) k x = run a (λ y, k (record n x y)) x.
Proof. done. Qed.

(** The matcher depends on its continuation pointwise. *)
Lemma star_loop_ext body k k' fuel : ∀ x,
  (∀ g g' x, (∀ y, g y = g' y) → body g x = body g' x) → (∀ y, k y = k' y) →
  star_loop body k fuel x = star_loop body k' fuel x.
Proof.
  induction fuel as [|fuel IH]; intros x Hb Hk; simpl; [done|].
  rewrite (Hb _ (λ y, if (rlen y <? rlen x)%nat then star_loop body k' fuel y else None)).
  - by rewrite Hk.
  - intros y. case_match; [|done]. by apply IH.
Qed.

Lemma lazy_loop_ext body k k' fuel : ∀ x,
  (∀ g g' x, (∀ y, g y = g' y) → body g x = body g' x) → (∀ y, k y = k' y) →
  lazy_loop body k fuel x = lazy_loop body k' fuel x.
Proof.
  induction fuel as [|fuel IH]; intros x Hb Hk; simpl; rewrite Hk; [done|].
  case_match; [done|]. apply Hb. intros y. case_match; [|done]. by apply IH.
Qed.

Lemma run_ext r : ∀ k k' x, (∀ y, k y = k' y) → run r k x = run r k' x.
Proof.
  induction r as [| |a IHa b IHb|a IHa b IHb|a IHa|a IHa|n a IHa| | |]; simpl; intros k k' x H; try done.
  - repeat case_match; auto.
  - apply IHa. intros y. by apply IHb.
  - by rewrite (IHa _ _ _ H), (IHb _ _ _ H).
  - by apply (star_loop_ext (run a) k k' (S (rlen x))).
  - by apply (lazy_loop_ext (run a) k k' (S (rlen x))).
  - apply IHa. intros y. apply H.
  - case_match; auto.
  - case_match; auto.
  - case_match; auto.
Qed.

(** More fuel than bytes changes nothing. *)
Lemma star_loop_fuel a k : ∀ f1 f2 x,
  (rlen x < f1)%nat → (rlen x < f2)%nat →
  star_loop (run a) k f1 x = star_loop (run a) k f2 x.
Proof.
  induction f1 as [|f1 IH]; intros f2 x H1 H2; [lia|]. destruct f2 as [|f2]; [lia|]. simpl.
  rewrite (run_ext a _ (λ y, if (rlen y <? rlen x)%nat then star_loop (run a) k f2 y else None)); [done|].
  intros y. case_match eqn:E; [|done]. apply Nat.ltb_lt in E. apply IH; lia.
Qed.

Lemma lazy_loop_fuel a k : ∀ f1 f2 x,
  (rlen x < f1)%nat → (rlen x < f2)%nat →
  lazy_loop (run a) k f1 x = lazy_loop (run a) k f2 x.
Proof.
  induction f1 as [|f1 IH]; intros f2 x H1 H2; [lia|]. destruct f2 as [|f2]; [lia|]. simpl.
  case_match; [done|]. apply run_ext. intros y. case_match eqn:E; [|done]. apply Nat.ltb_lt in E. apply IH; lia.
Qed.

Lemma run_complete r x y : matches r x y → ∀ k, is_Some (k y) → is_Some (run r k x).
Proof.
  induction 1 as [x|f x c t E Ef|a b x y z _ IHa _ IHb|a b x y _ IH|a b x y _ IH|a x|
    a x y z _ IHa Hl _ IHs|a x|a x y z _ IHa Hl _ IHs|n a x y _ IH|x E|x E|x E]; intros k Hk; simpl.
  - done.
  - by rewrite E, Ef.
  - apply IHa, IHb, Hk.
  - destruct (IH k Hk) as [w ->]. by eexists.
  - destruct (run a k x); [by eexists|]. by apply IH.
  - case_match; [by eexists|done].
  - destruct (run a _ x) eqn:E; [by eexists|]. exfalso.
    destruct (IHa (λ y, if (rlen y <? rlen x)%nat then star_loop (run a) k (rlen x) y else None)) as [w Hw].
    { apply Nat.ltb_lt in Hl as Hl'. rewrite Hl'.
      rewrite (star_loop_fuel a k (rlen x) (S (rlen y)) y) by lia. by apply IHs. }
    congruence.
  - destruct Hk as [w ->]. by eexists.
  - destruct (k x); [by eexists|].
    apply (IHa (λ y, if (rlen y <? rlen x)%nat then lazy_loop (run a) k (rlen x) y else None)).
    apply Nat.ltb_lt in Hl as Hl'. rewrite Hl'.
    rewrite (lazy_loop_fuel a k (rlen x) (S (rlen y)) y) by lia. by apply IHs.
  - by apply IH.
  - by rewrite E.
  - by rewrite E.
  - by rewrite E.
Qed.

(** A match consumes a prefix of the rest. *)
Lemma str_take_app (w t : string) : str_take (String.length w) (w +:+ t) = w.
Proof. induction w as [|c w IH]; [by destruct t|]. rewrite str_app_cons. simpl. by rewrite IH. Qed.

Lemma matches_consume r x y :
  matches r x y → ∃ w, r_rest x = w +:+ r_rest y ∧ r_pos y = (r_pos x + String.length w)%nat.
Proof.
  induction 1 as [x|f x c t E Ef|a b x y z _ (w & E1 & P1) _ (v & E2 & P2)|a b x y _ IH|a b x y _ IH|a x|
    a x y z _ (w & E1 & P1) _ _ (v & E2 & P2)|a x|
    a x y z _ (w & E1 & P1) _ _ (v & E2 & P2)|n a x y _ IH|x E|x E|x E]; try done.
  all: try (exists ""; rewrite str_app_nil; simpl; split; [done|lia]).
  - exists (String c ""). rewrite E. simpl. split; [done|lia].
  - exists (w +:+ v). rewrite E1, E2, str_app_assoc. split; [done|]. rewrite str_length_app. lia.
  - exists (w +:+ v). rewrite E1, E2, str_app_assoc. split; [done|]. rewrite str_length_app. lia.
  - exists (w +:+ v). rewrite E1, E2, str_app_assoc. split; [done|]. rewrite str_length_app. lia.
Qed.

(** What a group captures is what its body consumed. *)
Lemma matches_group_text n a x z :
  matches (RGroup n a) x z →
  ∃ w y, matches a x y ∧ r_rest x = w +:+ r_rest y ∧ r_rest z = r_rest y ∧
         cap n z = Some (r_pos x, w).
Proof.
  inversion 1 as [| | | | | | | | |? ? ? y Ha| | |]; subst. destruct (matches_consume _ _ _ Ha) as (w & E & P).
  exists w, y. split_and!; try done. unfold cap, record. simpl. rewrite Nat.eqb_refl.
  rewrite P, E. by rewrite Nat.add_comm, Nat.add_sub, str_take_app.
Qed.

Fixpoint groups (r : re) : list nat :=
  match r with
  | RCat a b | RAlt a b => groups a ++ groups b
  | RStar a | RLazy a => groups a
  | RGroup n a => n :: groups a
  | _ => []
  end.

(** A pattern leaves the groups it does not have alone. *)
Lemma matches_cap_frame r x y n : matches r x y → n ∉ groups r → cap n y = cap n x.
Proof.
  induction 1 as [| |a b x y z _ IHa _ IHb|a b x y _ IH|a b x y _ IH|a x|
    a x y z _ IHa _ _ IHb|a x|a x y z _ IHa _ _ IHb|m a x y _ IH| | |]; simpl; intros Hn; try done.
  - rewrite IHb, IHa; [done|set_solver..].
  - apply IH. set_solver.
  - apply IH. set_solver.
  - by rewrite IHb, IHa.
  - by rewrite IHb, IHa.
  - unfold cap, record. simpl. destruct (m =? n)%nat eqn:E; [|apply IH; set_solver].
    apply Nat.eqb_eq in E. set_solver.
Qed.

(** ** Searching *)

Lemma search_sound r prev s pos z :
  search r prev s pos = Some z →
  ∃ w prev', (w = EmptyString → prev' = prev) ∧ (w ≠ EmptyString → is_Some prev') ∧
    ∃ t, s = w +:+ t ∧ matches r (RSt prev' t (pos + String.length w) []) z.
Proof.
  revert prev pos. induction s as [|c s IH]; intros prev pos H; simpl in H.
  - case_match eqn:E; [|done]. simplify_eq. apply run_sound in E as (y & Hm & [= ->]).
    exists "", prev. split_and!; [done|done|]. exists "". split; [done|]. by rewrite Nat.add_0_r.
  - case_match eqn:E.
    + simplify_eq. apply run_sound in E as (y & Hm & [= ->]).
      exists "", prev. split_and!; [done|done|]. exists (String c s). split; [done|]. by rewrite Nat.add_0_r.
    + apply IH in H as (w & prev' & H1 & H2 & t & -> & Hm). exists (String c w), prev'.
      split_and!; [done| |].
      * intros _. destruct w; [rewrite H1 by done; by eexists|by apply H2].
      * exists t. split; [done|]. simpl. by rewrite Nat.add_succ_r.
Qed.

(** A pattern that starts with [^] matches at the start only. *)
Lemma find_anchored_sound r s z :
  find (RCat RBegin r) s = Some z → ∃ y, matches r (RSt None s 0 []) y ∧ z = record 0 (RSt None s 0 []) y.
Proof.
  intros H. apply search_sound in H as (w & prev' & H1 & H2 & t & -> & Hm).
  inversion Hm as [| | | | | | | | |? ? ? y Ha| | |]; subst.
  inversion Ha as [| |? ? ? ? ? Hb Hc| | | | | | | | | |]; subst.
  inversion Hb as [| | | | | | | | | |? Hp| |]; subst. simpl in Hp. destruct w as [|c w].
  - rewrite str_app_nil. rewrite H1 in Hc by done. rewrite H1 by done. by exists y.
  - destruct H2 as [? H2]; [done|]. congruence.
Qed.


(** Post-processing a result commutes with matching. *)
Lemma run_natural (g : rst → rst) r : ∀ h x, run r (λ y, g <$> h y) x = g <$> run r h x.
Proof.
  induction r as [| |a IHa b IHb|a IHa b IHb|a IHa|a IHa|n a IHa| | |]; intros h x; simpl; try done.
  - by repeat case_match.
  - rewrite (run_ext a _ (λ y, g <$> run b h y)) by (intros; apply IHb). apply IHa.
  - rewrite IHa, IHb. by destruct (run a h x).
  - change (star_loop (run a) (λ y, g <$> h y) (S (rlen x)) x = g <$> star_loop (run a) h (S (rlen x)) x).
    generalize (S (rlen x)). intros fuel. revert x. induction fuel as [|fuel IH]; intros x; [done|]. simpl.
    rewrite (run_ext a _ (λ y, g <$> (if (rlen y <? rlen x)%nat then star_loop (run a) h fuel y else None))).
    + rewrite IHa. by destruct (run a _ x).
    + intros y. case_match; [apply IH|done].
  - change (lazy_loop (run a) (λ y, g <$> h y) (S (rlen x)) x = g <$> lazy_loop (run a) h (S (rlen x)) x).
    generalize (S (rlen x)). intros fuel. revert x. induction fuel as [|fuel IH]; intros x; simpl;
      destruct (h x); try done. simpl.
    rewrite (run_ext a _ (λ y, g <$> (if (rlen y <? rlen x)%nat then lazy_loop (run a) h fuel y else None))).
    + apply IHa.
    + intros y. case_match; [apply IH|done].
  - by case_match.
  - by case_match.
  - by case_match.
Qed.

Lemma search_anchored r c s pos : search (RGroup 0 (RCat RBegin r)) (Some c) s pos = None.
Proof. revert c pos. induction s as [|d s IH]; intros c pos; simpl; [done|]. apply IH. Qed.

Lemma find_anchored r s :
  find (RCat RBegin r) s = record 0 (RSt None s 0 []) <$> run r Some (RSt None s 0 []).
Proof.
  unfold find. assert (run (RGroup 0 (RCat RBegin r)) Some (RSt None s 0 []) =
    record 0 (RSt None s 0 []) <$> run r Some (RSt None s 0 [])) as Hr.
  { simpl. by rewrite <-run_natural. }
  destruct s as [|c s]; simpl search; simpl in Hr; rewrite Hr.
  - by destruct (run r Some _).
  - destruct (run r Some _); [done|]. simpl. apply search_anchored.
Qed.

(** ** Running a pattern on a known text *)

Fixpoint last_byte (prev : option ascii) (s : string) : option ascii :=
  match s with EmptyString => prev | String c r => last_byte (Some c) r end.
(** The position after [w], with [t] left. *)
Definition skip (w t : string) (x : rst) : rst :=
  RSt (last_byte (r_prev x) w) t (r_pos x + String.length w) (r_caps x).

Lemma skip_nil x : skip "" (r_rest x) x = x.
Proof. destruct x. unfold skip. simpl. by rewrite Nat.add_0_r. Qed.
Lemma advance_skip c t x : advance c t x = skip (String c "") t x.
Proof. unfold skip, advance. simpl. by rewrite Nat.add_1_r. Qed.
Lemma skip_cons c w t x u : skip w t (advance c u x) = skip (String c w) t x.
Proof. unfold skip, advance. simpl. by rewrite Nat.add_succ_r. Qed.
Lemma last_byte_app prev w v : last_byte prev (w +:+ v) = last_byte (last_byte prev w) v.
Proof. revert prev. induction w as [|c w IH]; intros prev; [done|]. apply IH. Qed.
Lemma skip_skip w v t u x : skip v t (skip w u x) = skip (w +:+ v) t x.
Proof. unfold skip. simpl. rewrite last_byte_app, str_length_app. f_equal. lia. Qed.

(** The first bytes of the folded runes. *)
Definition lead_byte (c : ascii) : bool := Ascii.eqb c (ascii_of_nat 197) || Ascii.eqb c (ascii_of_nat 226).
Definition stops (f : ascii → bool) (t : string) : bool :=
  match t with EmptyString => true | String c _ => negb (f c) && negb (lead_byte c) end.
(** [body] reads one byte of the class [f], as long as no folded rune begins. *)
Definition reads (body : re) (f : ascii → bool) : Prop :=
  (∀ k x c t, r_rest x = String c t → f c = true → run body k x = k (advance c t x)) ∧
  (∀ k x, stops f (r_rest x) = true → run body k x = None).

Lemma run_byte_other n k x c t :
  r_rest x = String c t → Ascii.eqb (ascii_of_nat n) c = false → run (byte n) k x = None.
Proof. intros E Hn. simpl. unfold char_is. by rewrite E, Hn. Qed.

Lemma run_folded_runes k x c t :
  r_rest x = String c t → lead_byte c = false → run long_s k x = None ∧ run kelvin k x = None.
Proof.
  unfold lead_byte. rewrite orb_false_iff, !(Ascii.eqb_sym c). intros E [H1 H2].
  split; [apply (run_byte_other 197 (run (byte 191) k) x c t)|
          apply (run_byte_other 226 (run (RCat (byte 132) (byte 170)) k) x c t)]; done.
Qed.

Lemma reads_set f : reads (RSet f) f.
Proof.
  split.
  - intros k x c t E Hf. simpl. by rewrite E, Hf.
  - intros k x Hs. simpl. destruct (r_rest x) as [|c t]; [done|]. simpl in Hs.
    apply andb_true_iff in Hs as [Hs _]. apply negb_true_iff in Hs. by rewrite Hs.
Qed.

Lemma reads_iclass f : (∀ c, f c = true → lead_byte c = false) → reads (iclass f) f.
Proof.
  intros Hlead. split.
  - intros k x c t E Hf. simpl run at 1. destruct (run_folded_runes k x c t E) as [H1 H2]; [auto|].
    change (match run (RSet f) k x with Some z => Some z | None =>
      match run long_s k x with Some z => Some z | None => run kelvin k x end end = k (advance c t x)).
    rewrite H1, H2. destruct (reads_set f) as [Hr _]. rewrite (Hr _ _ _ _ E Hf). by case_match.
  - intros k x Hs.
    change (match run (RSet f) k x with Some z => Some z | None =>
      match run long_s k x with Some z => Some z | None => run kelvin k x end end = None).
    destruct (reads_set f) as [_ Hr]. rewrite Hr by done.
    destruct (r_rest x) as [|c t] eqn:E; [simpl; by rewrite E|].
    simpl in Hs. apply andb_true_iff in Hs as [_ Hs]. apply negb_true_iff in Hs.
    destruct (run_folded_runes k x c t E Hs) as [-> ->]. done.
Qed.

Section Greedy.
Context (body : re) (f : ascii → bool) (Hreads : reads body f).

Lemma run_star_stop k x : stops f (r_rest x) = true → run (RStar body) k x = k x.
Proof.
  intros Hs. change (star_loop (run body) k (S (rlen x)) x = k x). simpl.
  destruct Hreads as [_ Hr]. by rewrite Hr.
Qed.

Lemma run_star_step k x c t :
  r_rest x = String c t → f c = true →
  run (RStar body) k x =
  match run (RStar body) k (advance c t x) with Some z => Some z | None => k x end.
Proof.
  intros E Hc. change (star_loop (run body) k (S (rlen x)) x =
    match star_loop (run body) k (S (rlen (advance c t x))) (advance c t x) with
    | Some z => Some z | None => k x end).
  cbn [star_loop]. destruct Hreads as [Hr _]. rewrite (Hr _ _ _ _ E Hc).
  assert (rlen (advance c t x) < rlen x)%nat as Hl by (unfold rlen; rewrite E; simpl; lia).
  apply Nat.ltb_lt in Hl as Hl'. rewrite Hl'.
  rewrite (star_loop_fuel body k (rlen x) (S (rlen (advance c t x)))) by lia. done.
Qed.

(** Repetition takes the longest run of the class when the rest then matches. *)
Lemma run_star_greedy w : ∀ t k x z,
  r_rest x = w +:+ t → all_chars f w = true → k (skip w t x) = Some z →
  stops f t = true → run (RStar body) k x = Some z.
Proof.
  induction w as [|c w IH]; intros t k x z E Hw Hk Hs.
  - rewrite run_star_stop by (by rewrite E). rewrite <-Hk. f_equal. rewrite str_app_nil in E.
    rewrite <-E. symmetry. apply skip_nil.
  - rewrite str_app_cons in E. simpl in Hw. apply andb_true_iff in Hw as [Hc Hw].
    rewrite (run_star_step _ _ _ _ E Hc).
    rewrite (IH t k (advance c (w +:+ t) x) z); [done..| |done]. by rewrite skip_cons.
Qed.

Lemma run_plus_greedy w t k x z :
  w ≠ "" → r_rest x = w +:+ t → all_chars f w = true → k (skip w t x) = Some z →
  stops f t = true → run (rplus body) k x = Some z.
Proof.
  intros Hne E Hw Hk Hs. destruct w as [|c w]; [done|]. simpl in Hw. apply andb_true_iff in Hw as [Hc Hw].
  rewrite str_app_cons in E. change (run body (run (RStar body) k) x = Some z).
  destruct Hreads as [Hr _]. rewrite (Hr _ _ _ _ E Hc).
  apply (run_star_greedy w t); [done..| |done]. by rewrite skip_cons.
Qed.

Lemma run_plus_stop k x : stops f (r_rest x) = true → run (rplus body) k x = None.
Proof. intros Hs. destruct Hreads as [_ Hr]. simpl. by rewrite Hr. Qed.
End Greedy.

Lemma run_opt_hit a k x z : run a k x = Some z → run (ropt a) k x = Some z.
Proof. intros H. simpl. by rewrite H. Qed.
Lemma run_opt_miss a k x : run a k x = None → run (ropt a) k x = k x.
Proof. intros H. simpl. by rewrite H. Qed.

(** ** Keywords *)

Definition plain (s : string) : bool := all_chars (λ c, negb (lead_byte c)) s.

Lemma reads_folded c : reads (folded c) (λ d, same_letter c d && negb (lead_byte d)).
Proof.
  unfold folded. split.
  - intros k x d t E Hd. apply andb_true_iff in Hd as [Hd Hl]. apply negb_true_iff in Hl.
    destruct (run_folded_runes k x d t E Hl) as [H1 H2].
    assert (run (RSet (same_letter c)) k x = k (advance d t x)) as H0 by (simpl; by rewrite E, Hd).
    repeat case_match; [| |done].
    + change (match run (RSet (same_letter c)) k x with Some z => Some z | None => run long_s k x end =
        k (advance d t x)). rewrite H0, H1. by case_match.
    + change (match run (RSet (same_letter c)) k x with Some z => Some z | None => run kelvin k x end =
        k (advance d t x)). rewrite H0, H2. by case_match.
  - intros k x Hs. destruct (r_rest x) as [|d t] eqn:E.
    { repeat case_match; simpl; by rewrite E. }
    simpl in Hs. apply andb_true_iff in Hs as [Hs Hl]. rewrite Hl, andb_true_r in Hs.
    apply negb_true_iff in Hs, Hl.
    destruct (run_folded_runes k x d t E Hl) as [H1 H2].
    assert (run (RSet (same_letter c)) k x = None) as H0 by (simpl; by rewrite E, Hs).
    repeat case_match; [| |done].
    + change (match run (RSet (same_letter c)) k x with Some z => Some z | None => run long_s k x end = None).
      by rewrite H0.
    + change (match run (RSet (same_letter c)) k x with Some z => Some z | None => run kelvin k x end = None).
      by rewrite H0.
Qed.

Lemma run_ilit_cons c s k x : run (ilit (String c s)) k x = run (folded c) (run (ilit s) k) x.
Proof. by destruct s. Qed.

(** A keyword matches each of its spellings. *)
Lemma run_ilit kw : ∀ w t k x,
  to_lower w = to_lower kw → plain w = true → r_rest x = w +:+ t → run (ilit kw) k x = k (skip w t x).
Proof.
  induction kw as [|c kw IH]; intros w t k x Hl Hp E.
  - destruct w; [|done]. simpl. rewrite str_app_nil in E. rewrite <-E. by rewrite skip_nil.
  - destruct w as [|d w]; [done|]. simpl in Hl. injection Hl as Hd Hl.
    rewrite str_app_cons in E. unfold plain in Hp. simpl in Hp. apply andb_true_iff in Hp as [Hp Hp'].
    rewrite run_ilit_cons. destruct (reads_folded c) as [Hr _].
    rewrite (Hr _ _ _ _ E) by (unfold same_letter; by rewrite Hd, Ascii.eqb_refl, Hp).
    rewrite (IH w t); [by rewrite skip_cons|done..].
Qed.

(** Two keywords differ at some letter they both have. *)
Fixpoint clash (kw w : string) : bool :=
  match kw, w with
  | String c kw, String d w => negb (same_letter c d) || clash kw w
  | _, _ => false
  end.

Lemma clash_lower kw w w' : to_lower w = to_lower w' → clash kw w = clash kw w'.
Proof.
  revert w w'. induction kw as [|c kw IH]; intros [|d w] [|d' w'] H; try done.
  simpl in H. injection H as Hd H. simpl. unfold same_letter. rewrite Hd. f_equal. by apply IH.
Qed.

Lemma run_ilit_clash kw : ∀ w t k x,
  clash kw w = true → plain w = true → r_rest x = w +:+ t → run (ilit kw) k x = None.
Proof.
  induction kw as [|c kw IH]; intros w t k x Hc Hp E; [done|]. destruct w as [|d w]; [done|].
  rewrite str_app_cons in E. unfold plain in Hp. simpl in Hc, Hp. apply andb_true_iff in Hp as [Hp Hp'].
  rewrite run_ilit_cons. destruct (reads_folded c) as [Hr Hr'].
  destruct (same_letter c d) eqn:Es.
  - rewrite (Hr _ _ _ _ E) by (by rewrite Es, Hp). by apply (IH w t).
  - apply Hr'. rewrite E. simpl. by rewrite Es, Hp.
Qed.
