(* ===== verification/SqlPatterns.v ===== *)
(** * The statement patterns (sql_statements.go, session_service.go)

    The regular expressions with which the server recognises the statements it
    executes itself, written piece by piece as in the source.  All of them carry
    the flags [(?is)] or [(?i)]. *)

From S2P Require Import Prelude GoStrings Regexp.
From Stdlib Require Import Ascii.

Local Open Scope re_scope.

(** ** Classes *)

Definition letter_char (c : ascii) : bool :=
  let n := nat_of_ascii c in ((65 <=? n) && (n <=? 90) || (97 <=? n) && (n <=? 122))%nat.
Definition digit_char (c : ascii) : bool :=
  let n := nat_of_ascii c in ((48 <=? n) && (n <=? 57))%nat.
(** [[A-Za-z0-9_-]] *)
Definition name_char (c : ascii) : bool := word_char c || Ascii.eqb c "-".
Definition name_class : re := iclass name_char.
(** [[A-Za-z0-9_]], [[A-Za-z_]], [[A-Za-z]] *)
Definition word_class : re := iclass word_char.
Definition ident_start : re := iclass (λ c, letter_char c || Ascii.eqb c "_").
Definition letter_class : re := iclass letter_char.

Definition backtick : ascii := "096"%char.
Definition tick : re := ropt (RSet (char_is backtick)).

(** [`?[A-Za-z0-9_-]+`?] and [`?[A-Za-z_][A-Za-z0-9_]*`?] with its group *)
Definition segment : re := tick ⋅ rplus name_class ⋅ tick.
Definition column (n : nat) : re := tick ⋅ RGroup n (ident_start ⋅ RStar word_class) ⋅ tick.

Definition dot_segment : re := lit "." ⋅ segment.
Definition persistentTargetExpression (n : nat) : re :=
  RGroup n (segment ⋅ dot_segment ⋅ ropt dot_segment).

Definition or_replace (n : nat) : re :=
  ropt (RGroup n (ilit "OR" ⋅ spaces ⋅ ilit "REPLACE" ⋅ spaces)).
Definition if_not_exists (n : nat) : re :=
  ropt (RGroup n (ilit "IF" ⋅ spaces ⋅ ilit "NOT" ⋅ spaces ⋅ ilit "EXISTS" ⋅ spaces)).
Definition if_exists (n : nat) : re := ropt (RGroup n (ilit "IF" ⋅ spaces ⋅ ilit "EXISTS" ⋅ spaces)).
Definition materialized (n : nat) : re := ropt (RGroup n (ilit "MATERIALIZED" ⋅ spaces)).
Definition space_or_end : re := rspace ∥ REnd.

(** ** sql_statements.go *)

Definition insertTargetPattern : re :=
  RBegin ⋅ spaces0 ⋅ ilit "INSERT" ⋅ spaces ⋅ ropt (ilit "INTO" ⋅ spaces) ⋅
  persistentTargetExpression 1 ⋅ (rspace ∥ lit "(").
Definition updateTargetPattern : re :=
  RBegin ⋅ spaces0 ⋅ ilit "UPDATE" ⋅ spaces ⋅ persistentTargetExpression 1 ⋅ space_or_end.
Definition deleteTargetPattern : re :=
  RBegin ⋅ spaces0 ⋅ ilit "DELETE" ⋅ spaces ⋅ ropt (ilit "FROM" ⋅ spaces) ⋅
  persistentTargetExpression 1 ⋅ space_or_end.
Definition mergeTargetPattern : re :=
  RBegin ⋅ spaces0 ⋅ ilit "MERGE" ⋅ spaces ⋅ ropt (ilit "INTO" ⋅ spaces) ⋅
  persistentTargetExpression 1 ⋅ space_or_end.
Definition truncateTargetPattern : re :=
  RBegin ⋅ spaces0 ⋅ ilit "TRUNCATE" ⋅ spaces ⋅ ilit "TABLE" ⋅ spaces ⋅
  persistentTargetExpression 1 ⋅ space_or_end.
Definition createTargetPattern : re :=
  RBegin ⋅ spaces0 ⋅ ilit "CREATE" ⋅ spaces ⋅ or_replace 1 ⋅ ilit "TABLE" ⋅ spaces ⋅ if_not_exists 2 ⋅
  persistentTargetExpression 3 ⋅ (rspace ∥ lit "(" ∥ REnd).
Definition dropTargetPattern : re :=
  RBegin ⋅ spaces0 ⋅ ilit "DROP" ⋅ spaces ⋅ ilit "TABLE" ⋅ spaces ⋅ if_exists 1 ⋅
  persistentTargetExpression 2 ⋅ spaces0 ⋅ REnd.
Definition createViewTargetPattern : re :=
  RBegin ⋅ spaces0 ⋅ ilit "CREATE" ⋅ spaces ⋅ or_replace 1 ⋅ materialized 2 ⋅ ilit "VIEW" ⋅ spaces ⋅
  if_not_exists 3 ⋅ persistentTargetExpression 4 ⋅ spaces0.
Definition dropViewTargetPattern : re :=
  RBegin ⋅ spaces0 ⋅ ilit "DROP" ⋅ spaces ⋅ materialized 1 ⋅ ilit "VIEW" ⋅ spaces ⋅ if_exists 2 ⋅
  persistentTargetExpression 3 ⋅ spaces0 ⋅ REnd.
Definition viewAsClausePattern : re := RBegin ⋅ ilit "AS" ⋅ spaces ⋅ RGroup 1 (rplus any) ⋅ REnd.
Definition createSchemaTargetPattern : re :=
  RBegin ⋅ spaces0 ⋅ ilit "CREATE" ⋅ spaces ⋅ ilit "SCHEMA" ⋅ spaces ⋅ if_not_exists 1 ⋅
  tick ⋅ RGroup 2 (rplus name_class) ⋅ tick ⋅ spaces0 ⋅ REnd.
Definition alterTableTargetPattern : re :=
  RBegin ⋅ spaces0 ⋅ ilit "ALTER" ⋅ spaces ⋅ ilit "TABLE" ⋅ spaces ⋅ if_exists 1 ⋅
  persistentTargetExpression 2 ⋅ spaces ⋅ RGroup 3 (rplus any) ⋅ REnd.
Definition addColumnClausePattern : re :=
  RBegin ⋅ ilit "ADD" ⋅ spaces ⋅ ilit "COLUMN" ⋅ spaces ⋅ if_not_exists 1 ⋅ column 2 ⋅ spaces ⋅
  RGroup 3 (letter_class ⋅ RStar word_class) ⋅ REnd.
Definition dropColumnClausePattern : re :=
  RBegin ⋅ ilit "DROP" ⋅ spaces ⋅ ilit "COLUMN" ⋅ spaces ⋅ if_exists 1 ⋅ column 2 ⋅ REnd.
Definition renameColumnClausePattern : re :=
  RBegin ⋅ ilit "RENAME" ⋅ spaces ⋅ ilit "COLUMN" ⋅ spaces ⋅ if_exists 1 ⋅ column 2 ⋅ spaces ⋅
  ilit "TO" ⋅ spaces ⋅ column 3 ⋅ REnd.
Definition renameTableToPattern : re :=
  RBegin ⋅ ilit "RENAME" ⋅ spaces ⋅ ilit "TO" ⋅ spaces ⋅ tick ⋅ RGroup 1 (rplus name_class) ⋅ tick ⋅ REnd.
Definition setOptionsLeadPattern : re :=
  RBegin ⋅ ilit "SET" ⋅ spaces ⋅ ilit "OPTIONS" ⋅ spaces0 ⋅ lit "(".

Definition persistentLeadPattern : re :=
  RBegin ⋅ spaces0 ⋅
  RGroup 1 (ilit "INSERT" ∥ ilit "UPDATE" ∥ ilit "DELETE" ∥ ilit "MERGE" ∥ ilit "TRUNCATE" ∥
    (ilit "CREATE" ⋅ spaces ⋅ ropt (ilit "OR" ⋅ spaces ⋅ ilit "REPLACE" ⋅ spaces) ⋅ ilit "TABLE") ∥
    (ilit "DROP" ⋅ spaces ⋅ ilit "TABLE")) ⋅ RWordB.

Definition temp_kw : re := ilit "TEMP" ⋅ ropt (ilit "ORARY").
Definition other_object : re := ilit "SCHEMA" ∥ ilit "FUNCTION" ∥ ilit "PROCEDURE" ∥ ilit "MODEL".
Definition unsupportedMutationLeadPattern : re :=
  RBegin ⋅ spaces0 ⋅
  RGroup 1 ((ilit "ALTER" ⋅ spaces ⋅ ilit "TABLE") ∥
    (ilit "CREATE" ⋅ spaces ⋅ ropt (ilit "OR" ⋅ spaces ⋅ ilit "REPLACE" ⋅ spaces) ⋅
       ((temp_kw ⋅ spaces ⋅ ilit "TABLE") ∥ (ropt (temp_kw ⋅ spaces) ⋅ other_object))) ∥
    (ilit "DROP" ⋅ spaces ⋅ other_object) ∥
    ilit "CALL" ∥ ilit "GRANT" ∥ ilit "REVOKE" ∥ (ilit "EXPORT" ⋅ spaces ⋅ ilit "DATA") ∥
    (ilit "LOAD" ⋅ spaces ⋅ ilit "DATA") ∥ ilit "BEGIN" ∥ (ilit "START" ⋅ spaces ⋅ ilit "TRANSACTION") ∥
    ilit "COMMIT" ∥ ilit "ROLLBACK") ⋅ RWordB.

(** [_PARTITIONTIME] or [_PARTITIONDATE], perhaps quoted *)
Definition partition_pseudocolumn : re :=
  tick ⋅ ilit "_PARTITION" ⋅ (ilit "TIME" ∥ ilit "DATE") ⋅ tick.
Definition ingestionPseudocolumnWritePattern : re :=
  ((RWordB ⋅ ilit "SET" ⋅ RWordB) ∥ lit ",") ⋅ spaces0 ⋅
  ropt (tick ⋅ ident_start ⋅ RStar word_class ⋅ tick ⋅ lit ".") ⋅ partition_pseudocolumn ⋅ spaces0 ⋅ lit "=".
Definition not_space_or_paren : re := RSet (λ c, negb (space_char c || Ascii.eqb c "(")).
Definition not_close_paren : re := RSet (λ c, negb (Ascii.eqb c ")")).
Definition ingestionPseudocolumnInsertPattern : re :=
  RWordB ⋅ ilit "INSERT" ⋅ spaces0 ⋅ ropt (ilit "INTO" ⋅ spaces ⋅ rplus not_space_or_paren ⋅ spaces0) ⋅
  lit "(" ⋅ RStar not_close_paren ⋅ partition_pseudocolumn ⋅ lit ")".

(** ** session_service.go *)

Definition opt_transaction : re := spaces0 ⋅ ropt (ilit "TRANSACTION") ⋅ REnd.
Definition sessionBeginPattern : re := RBegin ⋅ (ilit "BEGIN" ∥ ilit "START") ⋅ opt_transaction.
Definition sessionCommitPattern : re := RBegin ⋅ ilit "COMMIT" ⋅ opt_transaction.
Definition sessionRollbackPattern : re := RBegin ⋅ ilit "ROLLBACK" ⋅ opt_transaction.
Definition sessionCreateTempTablePattern : re :=
  RBegin ⋅ ilit "CREATE" ⋅ spaces ⋅ (ilit "TEMP" ∥ ilit "TEMPORARY") ⋅ spaces ⋅ ilit "TABLE" ⋅ spaces ⋅
  tick ⋅ RGroup 1 (rplus word_class) ⋅ tick ⋅ spaces ⋅ ilit "AS" ⋅ spaces ⋅ RGroup 2 (rplus any) ⋅ REnd.

(** ** sql_engine.go, table_partitioning.go *)

Definition dotted_names : re :=
  rplus name_class ⋅ (lit "." ⋅ rplus name_class) ⋅ ropt (lit "." ⋅ rplus name_class).
Definition legacyTableRefPattern : re :=
  RWordB ⋅ (ilit "FROM" ∥ ilit "JOIN") ⋅ spaces ⋅ tick ⋅ RGroup 1 dotted_names ⋅ tick.

(** The three spellings of a reference in the project; the group is what is
    left of it. *)
Definition a_tick : re := RSet (char_is backtick).
Definition two_names : re := rplus name_class ⋅ lit "." ⋅ rplus name_class.
Definition wholeQuoted (project : string) : re :=
  a_tick ⋅ ilit project ⋅ lit "." ⋅ RGroup 1 two_names ⋅ a_tick.
Definition perSegmentQuoted (project : string) : re :=
  a_tick ⋅ ilit project ⋅ a_tick ⋅ lit "." ⋅
  RGroup 1 (tick ⋅ rplus name_class ⋅ tick ⋅ lit "." ⋅ tick ⋅ rplus name_class ⋅ tick).
Definition bareProject (project : string) : re :=
  RWordB ⋅ ilit project ⋅ lit "." ⋅ RGroup 1 two_names ⋅ RWordB.

Definition direct_projection (name : string) : re :=
  RBegin ⋅ ropt (tick ⋅ ident_start ⋅ RStar word_class ⋅ tick ⋅ lit ".") ⋅ tick ⋅ ilit name ⋅ tick ⋅ REnd.
Definition directPartitionTimeProjection : re := direct_projection "_PARTITIONTIME".
Definition directPartitionDateProjection : re := direct_projection "_PARTITIONDATE".

Definition keyword_by (kw : string) : re := RWordB ⋅ ilit kw ⋅ spaces ⋅ ilit "BY" ⋅ RWordB.
Definition keyword (kw : string) : re := RWordB ⋅ ilit kw ⋅ RWordB.
Definition whereClausePattern : re :=
  keyword "WHERE" ⋅ RGroup 1 (RLazy any) ⋅
  (keyword_by "GROUP" ∥ keyword_by "ORDER" ∥ keyword "HAVING" ∥ keyword "QUALIFY" ∥ keyword "LIMIT" ∥ REnd).
(** A column name with no word character around it. *)
Definition not_word : re := RSet (λ c, negb (word_char c)).
Definition whole_column (column : string) : re := (RBegin ∥ not_word) ⋅ ilit column ⋅ (not_word ∥ REnd).
