(* ===== verification/Pagination.v ===== *)
(** * REST pagination (internal/server/bigquery.go)

    The [maxResults]/[pageToken] query parameters, the opaque page tokens and
    the slice every [list] method takes of its sorted ids.  The last section
    walks a whole collection page by page through the tokens, as a client
    does. *)

From S2P Require Import Prelude GoStrings.
From Stdlib Require Import Ascii.

(** ** base64.RawURLEncoding *)

Definition code (c : ascii) : Z := Z.of_N (N_of_ascii c).
Definition char_of (z : Z) : ascii := ascii_of_N (Z.to_N z).

Definition b64_alphabet : list ascii :=
  ["A"; "B"; "C"; "D"; "E"; "F"; "G"; "H"; "I"; "J"; "K"; "L"; "M"; "N"; "O"; "P";
   "Q"; "R"; "S"; "T"; "U"; "V"; "W"; "X"; "Y"; "Z"; "a"; "b"; "c"; "d"; "e"; "f";
   "g"; "h"; "i"; "j"; "k"; "l"; "m"; "n"; "o"; "p"; "q"; "r"; "s"; "t"; "u"; "v";
   "w"; "x"; "y"; "z"; "0"; "1"; "2"; "3"; "4"; "5"; "6"; "7"; "8"; "9"; "-"; "_"]%char.

Definition b64_char (v : Z) : ascii := default "A"%char (b64_alphabet !! Z.to_nat v).
Definition b64_val (c : ascii) : option Z :=
  (λ p, Z.of_nat p.1) <$> list_find (λ d, d = c) b64_alphabet.

(** [EncodeToString]: six bits per character, no padding. *)
Fixpoint b64_encode (s : string) : string :=
  match s with
  | String a (String b (String c r)) =>
      let '(x, y, z) := (code a, code b, code c) in
      String (b64_char (x `div` 4))
      (String (b64_char ((x `mod` 4) * 16 + y `div` 16))
      (String (b64_char ((y `mod` 16) * 4 + z `div` 64))
      (String (b64_char (z `mod` 64)) (b64_encode r))))
  | String a (String b EmptyString) =>
      let '(x, y) := (code a, code b) in
      String (b64_char (x `div` 4))
      (String (b64_char ((x `mod` 4) * 16 + y `div` 16))
      (String (b64_char ((y `mod` 16) * 4)) EmptyString))
  | String a EmptyString =>
      let x := code a in
      String (b64_char (x `div` 4)) (String (b64_char ((x `mod` 4) * 16)) EmptyString)
  | EmptyString => EmptyString
  end.

(** [DecodeString] skips carriage returns and line feeds, rejects any other
    character outside the alphabet, rejects a lone trailing character, and
    ignores trailing bits (the decoder is not [Strict]). *)
Fixpoint b64_values (s : string) : option (list Z) :=
  match s with
  | EmptyString => Some []
  | String c r =>
      if bool_decide (c = "010"%char) || bool_decide (c = "013"%char) then b64_values r
      else v ← b64_val c; vs ← b64_values r; Some (v :: vs)
  end.

Fixpoint b64_quads (l : list Z) : option string :=
  match l with
  | a :: b :: c :: d :: r =>
      t ← b64_quads r;
      Some (String (char_of (a * 4 + b `div` 16))
           (String (char_of ((b `mod` 16) * 16 + c `div` 4))
           (String (char_of ((c `mod` 4) * 64 + d)) t)))
  | [a; b; c] =>
      Some (String (char_of (a * 4 + b `div` 16))
           (String (char_of ((b `mod` 16) * 16 + c `div` 4)) EmptyString))
  | [a; b] => Some (String (char_of (a * 4 + b `div` 16)) EmptyString)
  | [_] => None
  | [] => Some EmptyString
  end.

Definition b64_decode (s : string) : option string := b64_values s ≫= b64_quads.

(** ** Page tokens and page sizes *)

Definition encodePageToken (start : Z) : string :=
  let start := if start <? 0 then 0 else start in
  b64_encode ("idx:" +:+ format_int start).

Definition decodePageToken (token : string) : option Z :=
  let opaque :=
    text ← b64_decode token;
    if has_prefix text "idx:" then
      n ← parse_int (trim_prefix text "idx:");
      if n <? 0 then None else Some n
    else None in
  match parse_int token with
  | Some n => if 0 <=? n then Some n else opaque
  | None => opaque
  end.

(** [maxResults] and [pageToken] are the raw query values, empty when absent. *)
Definition parsePagination (maxResults pageToken : string) (defaultSize maxSize : Z) : Z * Z :=
  let size :=
    if bool_decide (maxResults = "") then defaultSize
    else match parse_int maxResults with
         | Some n => if 0 <? n then n else defaultSize
         | None => defaultSize
         end in
  let size := if maxSize <? size then maxSize else size in
  let start :=
    if bool_decide (pageToken = "") then 0
    else default 0 (decodePageToken pageToken) in
  (start, size).

Definition clampEnd (start size total : Z) : Z :=
  let start := if total <? start then total else start in
  let e := i64_add start size in
  if total <? e then total else e.

(** The slice of sorted ids a [list] method returns, with the index of the next
    page ([-1] after the last one).  A negative bound makes Go's slice
    expression panic. *)
Definition page_slice {A} (l : list A) (start size : Z) : res Empty_set (list A * Z) :=
  let len := Z.of_nat (length l) in
  let start := if len <? start then len else start in
  let e := i64_add start size in
  let e := if len <? e then len else e in
  if (start <? 0) || (e <? start) then Panic
  else Ok (take (Z.to_nat (e - start)) (drop (Z.to_nat start) l),
           if e <? len then e else -1).

(** ** Round trip of the encoding *)

Lemma code_range c : 0 ≤ code c < 256.
Proof. unfold code. pose proof (N_ascii_bounded c). lia. Qed.
Lemma char_of_code c : char_of (code c) = c.
Proof. unfold char_of, code. by rewrite N2Z.id, ascii_N_embedding. Qed.

Lemma char_of_eq z c : z = code c → char_of z = c.
Proof. intros ->. apply char_of_code. Qed.

Lemma b64_val_char v : 0 ≤ v < 64 → b64_val (b64_char v) = Some v.
Proof.
  intros Hv.
  assert (Forall (λ v, b64_val (b64_char v) = Some v) (seqZ 0 64)) as H
    by (apply (bool_decide_unpack _); vm_compute; exact I).
  rewrite Forall_forall in H. apply H. apply elem_of_seqZ. lia.
Qed.

Lemma b64_char_not_newline v :
  0 ≤ v < 64 → b64_char v ≠ "010"%char ∧ b64_char v ≠ "013"%char.
Proof.
  intros Hv.
  assert (Forall (λ v, b64_char v ≠ "010"%char ∧ b64_char v ≠ "013"%char) (seqZ 0 64)) as H
    by (apply (bool_decide_unpack _); vm_compute; exact I).
  rewrite Forall_forall in H. apply H. apply elem_of_seqZ. lia.
Qed.

Lemma b64_values_char v s :
  0 ≤ v < 64 → b64_values (String (b64_char v) s) = (v ::.) <$> b64_values s.
Proof.
  intros Hv. simpl. destruct (b64_char_not_newline v Hv).
  rewrite !bool_decide_false by done. simpl. rewrite b64_val_char by done.
  simpl. by destruct (b64_values s).
Qed.

(** Induction three characters at a time, the step of the encoder. *)
Lemma string_ind3 (P : string → Prop) :
  P "" → (∀ a, P (String a "")) → (∀ a b, P (String a (String b ""))) →
  (∀ a b c r, P r → P (String a (String b (String c r)))) → ∀ s, P s.
Proof.
  intros H0 H1 H2 H3. fix IH 1. intros [|a [|b [|c r]]];
    [exact H0|apply H1|apply H2|apply H3, IH].
Qed.

Lemma b64_roundtrip s : b64_decode (b64_encode s) = Some s.
Proof.
  unfold b64_decode.
  induction s as [|a|a b|a b c r IH] using string_ind3; [done|..]; cbn [b64_encode];
    pose proof (code_range a); try pose proof (code_range b); try pose proof (code_range c);
    rewrite !b64_values_char by zlia.
  - simpl. do 2 f_equal. apply char_of_eq. zlia.
  - simpl. do 2 f_equal; [|f_equal].
    + apply char_of_eq. zlia.
    + apply char_of_eq. zlia.
  - destruct (b64_values (b64_encode r)) as [vs|]; [|done]. simpl in *. rewrite IH.
    simpl. do 2 f_equal; [|f_equal; [|f_equal]].
    + apply char_of_eq. zlia.
    + apply char_of_eq. zlia.
    + apply char_of_eq. zlia.
Qed.

(** An encoded token never reads as a legacy numeric token: it starts with the
    encoding of ["idx"]. *)
Lemma encode_idx_head r : ∃ t, b64_encode ("idx:" +:+ r) = String "a" (String "W" t).
Proof. destruct r as [|x [|y r]]; eexists; reflexivity. Qed.

Lemma encode_idx_not_number r : parse_int (b64_encode ("idx:" +:+ r)) = None.
Proof. destruct (encode_idx_head r) as [t ->]. unfold parse_int. simpl. by destruct (_ t). Qed.

Lemma decode_page_token_id (n : Z) :
  0 ≤ n ≤ max_i64 → decodePageToken (encodePageToken n) = Some n.
Proof.
  intros Hn. unfold decodePageToken, encodePageToken.
  assert ((n <? 0) = false) as -> by lia.
  rewrite encode_idx_not_number, b64_roundtrip. cbn [mbind option_bind].
  rewrite has_prefix_app, trim_prefix_app, parse_format_int by (unfold in_i64, min_i64; lia).
  cbn [mbind option_bind]. by assert ((n <? 0) = false) as -> by lia.
Qed.

(** A page token is opaque to the client and lossless to the server:
    decoding the token of any page index gives that index back, over the whole
    non-negative range of a 64-bit [int]. *)
Theorem decode_encode_page_token (n : Z) :
  0 ≤ n ≤ max_i64 → decodePageToken (encodePageToken n) = Some n.
Proof. apply decode_page_token_id. Qed.

Lemma decode_encode_page_token_witness :
  0 ≤ 37 ≤ max_i64 ∧ decodePageToken (encodePageToken 37) = Some 37.
Proof. split; [by vm_compute|]. apply (decode_encode_page_token 37). by vm_compute. Defined.

Lemma decodePageToken_range t n : decodePageToken t = Some n → 0 ≤ n ≤ max_i64.
Proof.
  unfold decodePageToken. intros H.
  assert (∀ m, (m0 ← parse_int m; if m0 <? 0 then None else Some m0) = Some n →
    0 ≤ n ≤ max_i64) as Hop.
  { intros m Hm. apply bind_Some in Hm as (z & Hz & Hm).
    apply parse_int_range in Hz. unfold in_i64 in Hz. case_match; simplify_eq. lia. }
  assert (∀ o : option string,
    (text ← o; if has_prefix text "idx:" then
       m0 ← parse_int (trim_prefix text "idx:"); if m0 <? 0 then None else Some m0
     else None) = Some n → 0 ≤ n ≤ max_i64) as Ho.
  { intros o Hm. apply bind_Some in Hm as (z & _ & Hm). case_match; [eauto|done]. }
  destruct (parse_int t) as [m|] eqn:Hp; [|eauto].
  case_match; [|eauto]. simplify_eq. apply parse_int_range in Hp. unfold in_i64 in Hp. lia.
Qed.

Lemma page_slice_ok {A} (l : list A) (start size : Z) :
  0 ≤ start → 0 ≤ size → Z.of_nat (length l) + size ≤ max_i64 →
  page_slice l start size =
    Ok (take (Z.to_nat size) (drop (Z.to_nat start) l),
        if start + size <? Z.of_nat (length l) then start + size else -1).
Proof.
  intros Hst Hsz Hlen. unfold page_slice. set (len := Z.of_nat (length l)) in *.
  unfold i64_add. destruct (Z.ltb_spec len start) as [Hlt|Hge];
    rewrite wrap64_id by (unfold in_i64, min_i64; lia).
  - replace (if len <? len + size then len else len + size) with len by (case_match; bools; lia).
    rewrite (proj2 (Z.ltb_ge len 0)), !(proj2 (Z.ltb_ge len len)), (proj2 (Z.ltb_ge (start + size) len))
      by lia.
    simpl. do 2 f_equal. rewrite !drop_ge, !take_nil by lia. done.
  - destruct (Z.ltb_spec len (start + size)).
    + rewrite (proj2 (Z.ltb_ge start 0)), (proj2 (Z.ltb_ge len start)), !(proj2 (Z.ltb_ge len len)),
        (proj2 (Z.ltb_ge (start + size) len)) by lia.
      simpl. do 2 f_equal. rewrite !take_ge; [done|rewrite length_drop; lia..].
    + rewrite (proj2 (Z.ltb_ge start 0)), (proj2 (Z.ltb_ge (start + size) start)) by lia.
      simpl. do 3 f_equal. lia.
Qed.

Lemma parsePagination_bounds (maxResults pageToken : string) (dflt maxSize : Z) :
  1 ≤ dflt → 1 ≤ maxSize →
  let '(start, size) := parsePagination maxResults pageToken dflt maxSize in
  0 ≤ start ≤ max_i64 ∧ 1 ≤ size ≤ maxSize.
Proof.
  intros Hd Hm. unfold parsePagination. split.
  - case_bool_decide; [by vm_compute|].
    destruct (decodePageToken pageToken) eqn:E; simpl;
      [eauto using decodePageToken_range|by vm_compute].
  - case_bool_decide; repeat case_match; bools; lia.
Qed.

(** Whatever the client sends as [maxResults] and [pageToken], the page
    size lies between 1 and the endpoint's maximum and the start index is a
    non-negative [int]; so slicing any collection with the result neither
    overflows nor panics, and the next index is the end of the page exactly
    when something is left. *)
Theorem parsePagination_safe {A} (maxResults pageToken : string) (dflt maxSize : Z) (l : list A) :
  1 ≤ dflt → 1 ≤ maxSize → Z.of_nat (length l) + maxSize ≤ max_i64 →
  let '(start, size) := parsePagination maxResults pageToken dflt maxSize in
  0 ≤ start ≤ max_i64 ∧ 1 ≤ size ≤ maxSize ∧
  page_slice l start size =
    Ok (take (Z.to_nat size) (drop (Z.to_nat start) l),
        if start + size <? Z.of_nat (length l) then start + size else -1).
Proof.
  intros Hd Hm Hlen. pose proof (parsePagination_bounds maxResults pageToken dflt maxSize Hd Hm).
  destruct (parsePagination _ _ _ _). destruct_and!. do 2 (split; [done|]).
  apply page_slice_ok; lia.
Qed.

Lemma parsePagination_safe_witness :
  page_slice [1; 2; 3; 4; 5] 0 2 = Ok ([1; 2], 2).
Proof.
  pose proof (parsePagination_safe "2" "" 50 1000 [1; 2; 3; 4; 5]) as H.
  vm_compute in H. vm_compute. destruct H as (_ & _ & H); [done..|]. exact H.
Defined.

(** ** Walking a collection *)

(** A client reading a whole collection: it requests a page, appends its items
    and follows [nextPageToken] until a page comes without one. *)
Fixpoint walk {A} (fuel : nat) (maxResults : string) (dflt maxSize : Z) (l : list A)
    (token : string) : option (list A) :=
  match fuel with
  | O => None
  | S fuel =>
      let '(start, size) := parsePagination maxResults token dflt maxSize in
      match page_slice l start size with
      | Ok (items, next) =>
          if next <? 0 then Some items
          else (items ++.) <$> walk fuel maxResults dflt maxSize l (encodePageToken next)
      | _ => None
      end
  end.

(** The server reads its own token back. *)
Lemma parse_own_token maxResults start dflt maxSize :
  0 ≤ start ≤ max_i64 →
  ∃ size, parsePagination maxResults (encodePageToken start) dflt maxSize = (start, size).
Proof.
  intros Hs. unfold parsePagination. eexists. f_equal. destruct (encode_idx_head (format_int start)) as [t Ht].
  rewrite bool_decide_false.
  { by rewrite decode_page_token_id by lia. }
  unfold encodePageToken. rewrite (proj2 (Z.ltb_ge start 0)) by lia. by rewrite Ht.
Qed.

Lemma walk_from {A} fuel maxResults dflt maxSize (l : list A) start :
  1 ≤ dflt → 1 ≤ maxSize → Z.of_nat (length l) + maxSize ≤ max_i64 →
  0 ≤ start ≤ Z.of_nat (length l) → (length l - Z.to_nat start < fuel)%nat →
  walk fuel maxResults dflt maxSize l (encodePageToken start) = Some (drop (Z.to_nat start) l).
Proof.
  intros Hd Hm Hlen. revert start. induction fuel as [|fuel IH]; intros start Hs Hf; [lia|].
  cbn [walk]. pose proof (parsePagination_bounds maxResults (encodePageToken start) dflt maxSize Hd Hm) as Hb.
  destruct (parsePagination _ _ _ _) as [st sz] eqn:E. destruct Hb as [_ Hsz].
  assert (st = start) as ->.
  { destruct (parse_own_token maxResults start dflt maxSize) as [sz' E']; [lia|congruence]. }
  rewrite page_slice_ok by lia. destruct (Z.ltb_spec (start + sz) (Z.of_nat (length l))).
  - assert ((start + sz <? 0) = false) as -> by lia. rewrite IH by lia. simpl. f_equal.
    rewrite Z2Nat.inj_add by lia. rewrite <-drop_drop. apply take_drop.
  - simpl. f_equal. rewrite take_ge; [done|]. rewrite length_drop. lia.
Qed.

(** C35. Paging is complete and terminates: following [nextPageToken] from the
    first request on reads every item of an unchanged collection exactly once
    and in order, for every page size a client may ask for, within one request
    per item plus one. *)
Theorem walk_complete {A} (maxResults : string) (dflt maxSize : Z) (l : list A) :
  1 ≤ dflt → 1 ≤ maxSize → Z.of_nat (length l) + maxSize ≤ max_i64 →
  walk (S (length l)) maxResults dflt maxSize l "" = Some l.
Proof.
  intros Hd Hm Hlen.
  trans (walk (S (length l)) maxResults dflt maxSize l (encodePageToken 0)); [done|].
  rewrite walk_from by lia. done.
Qed.

Lemma walk_complete_witness : walk 5 "3" 2 1000 ["a"; "b"; "c"; "d"] "" = Some ["a"; "b"; "c"; "d"].
Proof. apply (walk_complete "3" 2 1000 ["a"; "b"; "c"; "d"]); by vm_compute. Defined.
