(* ===== verification/GoTime.v ===== *)
(** * Go time values

    A [time.Time] is the number of nanoseconds since the Unix epoch, in UTC
    (the source normalises with [.UTC()] everywhere it compares or formats).
    [time.Duration] is nanoseconds too.  The calendar is the proleptic
    Gregorian one.  The layouts modelled are those of partition ids and DATE
    cells: [2006], [200601], [20060102], [2006010215] and [2006-01-02]. *)

From S2P Require Import Prelude GoStrings.
From Stdlib Require Import Ascii.

Definition nanosecond : Z := 1.
Definition millisecond : Z := 1000000.
Definition second : Z := 1000000000.
Definition minute : Z := 60000000000.
Definition hour : Z := 3600000000000.
Definition day : Z := 86400000000000.

(** [time.Time{}], January 1 of year 1, the value for which [IsZero] holds. *)
Definition zero_time : Z := -62135596800 * second.
Definition is_zero_time (t : Z) : bool := t =? zero_time.
(** [t.UnixMilli()] *)
Definition unix_milli (t : Z) : Z := t `div` millisecond.

(** ** Calendar *)

Definition days_from_civil (y m d : Z) : Z :=
  let y' := if m <=? 2 then y - 1 else y in
  let era := y' `div` 400 in
  let yoe := y' `mod` 400 in
  let mp := if m <=? 2 then m + 9 else m - 3 in
  let doy := (153 * mp + 2) `div` 5 + d - 1 in
  era * 146097 + (yoe * 365 + yoe `div` 4 - yoe `div` 100 + doy) - 719468.

(** Year and day of the year within a 400-year cycle, by centuries, four-year
    groups and years, the last of each cut short; years start in March. *)
Definition year_of_doe (doe : Z) : Z * Z :=
  let c := doe `div` 36524 in
  let n100 := c - c `div` 4 in
  let d1 := doe - 36524 * n100 in
  let n4 := d1 `div` 1461 in
  let d2 := d1 - 1461 * n4 in
  let a := d2 `div` 365 in
  let n1 := a - a `div` 4 in
  (100 * n100 + 4 * n4 + n1, d2 - 365 * n1).

Definition civil_of_doe (doe : Z) : Z * Z * Z :=
  let '(yoe, doy) := year_of_doe doe in
  let mp := (5 * doy + 2) `div` 153 in
  (yoe, mp, doy - (153 * mp + 2) `div` 5 + 1).

Definition civil_from_days (n : Z) : Z * Z * Z :=
  let z := n + 719468 in
  let '(yoe, mp, d) := civil_of_doe (z `mod` 146097) in
  let y := z `div` 146097 * 400 + yoe in
  if mp <? 10 then (y, mp + 3, d) else (y + 1, mp - 9, d).

Definition is_leap (y : Z) : bool :=
  ((y `mod` 4) =? 0) && (negb ((y `mod` 100) =? 0) || ((y `mod` 400) =? 0)).

Definition days_in (m y : Z) : Z :=
  if m =? 2 then (if is_leap y then 29 else 28)
  else if (m =? 4) || (m =? 6) || (m =? 9) || (m =? 11) then 30 else 31.

Definition date_of (t : Z) : Z * Z * Z := civil_from_days (t `div` day).
Definition hour_of (t : Z) : Z := (t `mod` day) `div` hour.

(** ** Layouts *)

(** [appendInt(n, width)] on a non-negative number: zero-padded decimal. *)
Fixpoint pad (width : nat) (s : string) : string :=
  match width with
  | O => s
  | S w => if (String.length s <? width)%nat then pad w (String "0" s) else s
  end.

Definition digit (z : Z) : ascii := ascii_of_nat (48 + Z.to_nat z).
(** Two and four digits of a number in range. *)
Definition fmt2 (z : Z) : string := String (digit (z `div` 10)) (String (digit (z `mod` 10)) "").
Definition fmt4 (z : Z) : string :=
  String (digit (z `div` 1000)) (String (digit ((z `div` 100) `mod` 10))
    (String (digit ((z `div` 10) `mod` 10)) (String (digit (z `mod` 10)) ""))).

(** The year: four digits, more when needed, a sign before a negative year. *)
Definition fmt_year (y : Z) : string :=
  if (0 <=? y) && (y <=? 9999) then fmt4 y
  else if y <? 0 then String "-" (pad 4 (format_int (- y))) else format_int y.

Inductive layout := LYear | LMonth | LDay | LHour.

Definition format_layout (l : layout) (t : Z) : string :=
  let '(y, m, d) := date_of t in
  match l with
  | LYear => fmt_year y
  | LMonth => fmt_year y +:+ fmt2 m
  | LDay => fmt_year y +:+ fmt2 m +:+ fmt2 d
  | LHour => fmt_year y +:+ fmt2 m +:+ fmt2 d +:+ fmt2 (hour_of t)
  end.

Definition digit_val (c : ascii) : option Z :=
  let n := Z.of_nat (nat_of_ascii c) in
  if (48 <=? n) && (n <=? 57) then Some (n - 48) else None.

(** Exactly [n] digits, then the rest. *)
Fixpoint take_num (n : nat) (acc : Z) (s : string) : option (Z * string) :=
  match n, s with
  | O, _ => Some (acc, s)
  | S n, String c r => v ← digit_val c; take_num n (acc * 10 + v) r
  | S _, EmptyString => None
  end.

Definition check (b : bool) : option unit := if b then Some tt else None.

Definition take_month (s : string) : option (Z * string) :=
  '(m, r) ← take_num 2 0 s; _ ← check ((1 <=? m) && (m <=? 12)); Some (m, r).

Definition take_day (y m : Z) (s : string) : option (Z * string) :=
  '(d, r) ← take_num 2 0 s; _ ← check ((1 <=? d) && (d <=? days_in m y)); Some (d, r).

(** The hour ([15]) takes one or two digits. *)
Definition take_hour (s : string) : option (Z * string) :=
  '(h, r) ← match take_num 2 0 s with Some p => Some p | None => take_num 1 0 s end;
  _ ← check (h <=? 23); Some (h, r).

Definition parse_layout (l : layout) (s : string) : option Z :=
  '(y, r) ← take_num 4 0 s;
  match l with
  | LYear => _ ← check (bool_decide (r = "")); Some (days_from_civil y 1 1 * day)
  | LMonth =>
      '(m, r) ← take_month r; _ ← check (bool_decide (r = ""));
      Some (days_from_civil y m 1 * day)
  | LDay =>
      '(m, r) ← take_month r; '(d, r) ← take_day y m r; _ ← check (bool_decide (r = ""));
      Some (days_from_civil y m d * day)
  | LHour =>
      '(m, r) ← take_month r; '(d, r) ← take_day y m r;
      '(h, r) ← take_hour r; _ ← check (bool_decide (r = ""));
      Some (days_from_civil y m d * day + h * hour)
  end.

(** [time.Parse("2006-01-02", s)] *)
Definition parse_date (s : string) : option Z :=
  '(y, r) ← take_num 4 0 s;
  match r with
  | String "-" r =>
      '(m, r) ← take_month r;
      match r with
      | String "-" r =>
          '(d, r) ← take_day y m r; _ ← check (bool_decide (r = ""));
          Some (days_from_civil y m d * day)
      | _ => None
      end
  | _ => None
  end.

Definition format_date (t : Z) : string :=
  let '(y, m, d) := date_of t in fmt_year y +:+ "-" +:+ fmt2 m +:+ "-" +:+ fmt2 d.

(** The first instant of the period a layout identifies. *)
Definition truncate (l : layout) (t : Z) : Z :=
  let '(y, m, d) := date_of t in
  match l with
  | LYear => days_from_civil y 1 1 * day
  | LMonth => days_from_civil y m 1 * day
  | LDay => t `div` day * day
  | LHour => t `div` day * day + hour_of t * hour
  end.

(** ** The calendar conversions are inverse *)

Lemma year_of_doe_spec doe yoe doy :
  0 ≤ doe < 146097 → year_of_doe doe = (yoe, doy) →
  0 ≤ yoe < 400 ∧ 0 ≤ doy ≤ 365 ∧
  yoe * 365 + yoe `div` 4 - yoe `div` 100 + doy = doe ∧
  (doy = 365 → is_leap (yoe + 1) = true).
Proof.
  unfold year_of_doe. intros Hdoe [= <- <-].
  set (c := doe `div` 36524). set (n100 := c - c `div` 4).
  set (d1 := doe - 36524 * n100). set (n4 := d1 `div` 1461).
  set (d2 := d1 - 1461 * n4). set (a := d2 `div` 365). set (n1 := a - a `div` 4).
  assert (0 ≤ n100 ≤ 3) by (subst n100 c; zlia).
  assert (0 ≤ d1 ≤ 36524 ∧ (n100 < 3 → d1 < 36524)) by (subst d1 n100 c; zlia).
  assert (0 ≤ n4 ≤ 24 ∧ 0 ≤ d2 ≤ 1460) by (subst d2 n4; zlia).
  assert (0 ≤ n1 ≤ 3 ∧ 0 ≤ d2 - 365 * n1 ≤ 365 ∧ (d2 - 365 * n1 = 365 → n1 = 3 ∧ d2 = 1460))
    by (subst n1 a; zlia).
  replace ((100 * n100 + 4 * n4 + n1) `div` 4) with (25 * n100 + n4) by zlia.
  replace ((100 * n100 + 4 * n4 + n1) `div` 100) with n100 by zlia.
  repeat split; try lia.
  intros Hd. assert (n1 = 3 ∧ d2 = 1460) as [Hn1 Hd2] by lia. rewrite Hn1.
  unfold is_leap.
  assert ((100 * n100 + 4 * n4 + 3 + 1) `mod` 4 = 0) as -> by zlia. simpl.
  destruct (decide (n4 = 24)) as [->|].
  - assert (n100 = 3) as -> by lia. reflexivity.
  - assert ((100 * n100 + 4 * n4 + 3 + 1) `mod` 100 ≠ 0) by zlia.
    apply orb_true_iff. left. apply negb_true_iff, Z.eqb_neq. done.
Qed.

Definition doe_ok (doe : Z) : bool :=
  let '(yoe, mp, d) := civil_of_doe doe in
  (0 <=? yoe) && (yoe <? 400) && (0 <=? mp) && (mp <? 12) && (1 <=? d) &&
  (d <=? (if mp <? 10 then days_in (mp + 3) yoe else days_in (mp - 9) (yoe + 1))).

Lemma month_lengths yoe mp d :
  0 ≤ mp < 12 → d ≤ (153 * (mp + 1) + 2) `div` 5 - (153 * mp + 2) `div` 5 →
  (mp = 11 → d ≤ 28 ∨ (d ≤ 29 ∧ is_leap (yoe + 1) = true)) →
  d ≤ (if mp <? 10 then days_in (mp + 3) yoe else days_in (mp - 9) (yoe + 1)).
Proof.
  intros Hmp Hd H11.
  assert (mp = 0 ∨ mp = 1 ∨ mp = 2 ∨ mp = 3 ∨ mp = 4 ∨ mp = 5 ∨ mp = 6 ∨ mp = 7 ∨ mp = 8 ∨
          mp = 9 ∨ mp = 10 ∨ mp = 11) as Hc by lia.
  destruct_or! Hc; subst mp; try exact Hd.
  unfold days_in. simpl. destruct H11 as [?|[? ->]]; [done|..]; [|done].
  destruct (is_leap _); lia.
Qed.

Lemma doe_ok_all doe : 0 ≤ doe < 146097 → doe_ok doe = true.
Proof.
  intros H. unfold doe_ok, civil_of_doe. destruct (year_of_doe doe) as [yoe doy] eqn:E.
  apply year_of_doe_spec in E as (Hy & Hdoy & _ & Hleap); [|done].
  set (mp := (5 * doy + 2) `div` 153).
  assert (0 ≤ mp < 12) by (subst mp; zlia).
  repeat (apply andb_true_iff; split); try lia.
  - subst mp. zlia.
  - apply Z.leb_le, month_lengths; [done| |].
    + subst mp. zlia.
    + intros ->. change ((153 * 11 + 2) `div` 5) with 337.
      destruct (decide (doy = 365)); [right; split; [lia|auto]|left; lia].
Qed.

Lemma is_leap_period e y : is_leap (e * 400 + y) = is_leap y.
Proof.
  unfold is_leap.
  replace ((e * 400 + y) `mod` 4) with (y `mod` 4) by zlia.
  replace ((e * 400 + y) `mod` 100) with (y `mod` 100) by zlia.
  replace ((e * 400 + y) `mod` 400) with (y `mod` 400) by zlia. done.
Qed.

Lemma days_in_period m e y : days_in m (e * 400 + y) = days_in m y.
Proof. unfold days_in. by rewrite is_leap_period. Qed.

(** The date of a day number is a valid calendar date. *)
Lemma civil_from_days_valid n :
  let '(y, m, d) := civil_from_days n in 1 ≤ m ≤ 12 ∧ 1 ≤ d ≤ days_in m y.
Proof.
  unfold civil_from_days. pose proof (doe_ok_all ((n + 719468) `mod` 146097)) as H.
  unfold doe_ok in H. destruct (civil_of_doe _) as [[yoe mp] d].
  destruct (mp <? 10) eqn:E; (destruct (andb_prop _ _ (H ltac:(zlia))) as [H1 H2]; bools).
  - rewrite days_in_period. lia.
  - rewrite <-Z.add_assoc, days_in_period. lia.
Qed.

Lemma days_from_civil_from_days n :
  let '(y, m, d) := civil_from_days n in days_from_civil y m d = n.
Proof.
  unfold civil_from_days. pose proof (doe_ok_all ((n + 719468) `mod` 146097)) as H.
  unfold doe_ok in H. specialize (H ltac:(zlia)).
  destruct (civil_of_doe _) as [[yoe mp] d] eqn:Hc.
  assert (yoe * 365 + yoe `div` 4 - yoe `div` 100 + ((153 * mp + 2) `div` 5 + d - 1)
          = (n + 719468) `mod` 146097) as Hdoe.
  { unfold civil_of_doe in Hc. destruct (year_of_doe _) as [y0 doy] eqn:E. simplify_eq.
    apply year_of_doe_spec in E; [|zlia]. lia. }
  clear Hc. bools. unfold days_from_civil. destruct (Z.ltb_spec mp 10).
  - rewrite (proj2 (Z.leb_gt (mp + 3) 2)) by lia.
    replace ((((n + 719468) `div` 146097) * 400 + yoe) `div` 400) with ((n + 719468) `div` 146097) by zlia.
    replace ((((n + 719468) `div` 146097) * 400 + yoe) `mod` 400) with yoe by zlia.
    replace (mp + 3 - 3) with mp by lia. rewrite Hdoe. zlia.
  - rewrite (proj2 (Z.leb_le (mp - 9) 2)) by lia.
    replace (((n + 719468) `div` 146097 * 400 + yoe + 1 - 1) `div` 400)
      with ((n + 719468) `div` 146097) by zlia.
    replace (((n + 719468) `div` 146097 * 400 + yoe + 1 - 1) `mod` 400) with yoe by zlia.
    replace (mp - 9 + 9) with mp by lia. rewrite Hdoe. zlia.
Qed.

(** ** Formatting then parsing a period gives its first instant *)

Lemma digit_val_digit z : 0 ≤ z < 10 → digit_val (digit z) = Some z.
Proof.
  intros H.
  assert (z = 0 ∨ z = 1 ∨ z = 2 ∨ z = 3 ∨ z = 4 ∨ z = 5 ∨ z = 6 ∨ z = 7 ∨ z = 8 ∨ z = 9) as Hc by lia.
  by destruct_or! Hc; subst z.
Qed.

Lemma take_num_digit n acc z s :
  0 ≤ z < 10 → take_num (S n) acc (String (digit z) s) = take_num n (acc * 10 + z) s.
Proof. intros. cbn [take_num]. by rewrite digit_val_digit. Qed.

Lemma take_num_fmt2 z r : 0 ≤ z < 100 → take_num 2 0 (fmt2 z +:+ r) = Some (z, r).
Proof.
  intros. unfold fmt2. rewrite !str_app_cons, !take_num_digit by zlia.
  cbn [take_num]. rewrite str_app_nil. do 2 f_equal. zlia.
Qed.

Lemma take_num_fmt4 z r : 0 ≤ z < 10000 → take_num 4 0 (fmt4 z +:+ r) = Some (z, r).
Proof.
  intros. unfold fmt4. rewrite !str_app_cons, !take_num_digit by zlia.
  cbn [take_num]. rewrite str_app_nil. do 2 f_equal. zlia.
Qed.

Lemma take_num_year y r : 0 ≤ y ≤ 9999 → take_num 4 0 (fmt_year y +:+ r) = Some (y, r).
Proof.
  intros. unfold fmt_year. assert ((0 <=? y) && (y <=? 9999) = true) as -> by lia.
  apply take_num_fmt4. lia.
Qed.

Lemma take_month_fmt m r : 1 ≤ m ≤ 12 → take_month (fmt2 m +:+ r) = Some (m, r).
Proof.
  intros. unfold take_month. rewrite take_num_fmt2 by lia. cbn [mbind option_bind].
  by assert ((1 <=? m) && (m <=? 12) = true) as -> by lia.
Qed.

Lemma days_in_le m y : 28 ≤ days_in m y ≤ 31.
Proof. unfold days_in. repeat case_match; lia. Qed.

Lemma take_day_fmt y m d r :
  1 ≤ d ≤ days_in m y → take_day y m (fmt2 d +:+ r) = Some (d, r).
Proof.
  intros. pose proof (days_in_le m y). unfold take_day.
  rewrite take_num_fmt2 by lia. cbn [mbind option_bind].
  by assert ((1 <=? d) && (d <=? days_in m y) = true) as -> by lia.
Qed.

Lemma take_hour_fmt h r : 0 ≤ h ≤ 23 → take_hour (fmt2 h +:+ r) = Some (h, r).
Proof.
  intros. unfold take_hour. rewrite take_num_fmt2 by lia. cbn [mbind option_bind].
  by assert ((h <=? 23) = true) as -> by lia.
Qed.

Lemma hour_of_range t : 0 ≤ hour_of t ≤ 23.
Proof. unfold hour_of, day, hour. zlia. Qed.

Lemma fmt2_nil z : fmt2 z +:+ "" = fmt2 z.
Proof. done. Qed.

Lemma date_of_valid t y m d :
  date_of t = (y, m, d) →
  1 ≤ m ≤ 12 ∧ 1 ≤ d ≤ days_in m y ∧ days_from_civil y m d = t `div` day.
Proof.
  unfold date_of. pose proof (civil_from_days_valid (t `div` day)) as Hv.
  pose proof (days_from_civil_from_days (t `div` day)) as Hr.
  intros E. rewrite E in Hv, Hr. tauto.
Qed.

Definition year_of (t : Z) : Z := (date_of t).1.1.

Lemma parse_format_layout l t :
  0 ≤ year_of t ≤ 9999 → parse_layout l (format_layout l t) = Some (truncate l t).
Proof.
  unfold year_of, parse_layout, format_layout, truncate.
  destruct (date_of t) as [[y m] d] eqn:E. cbn [fst snd]. intros Hy.
  apply date_of_valid in E as (Hm & Hd & Hdays). pose proof (hour_of_range t).
  destruct l.
  - replace (fmt_year y) with (fmt_year y +:+ "") by (unfold fmt_year;
      assert ((0 <=? y) && (y <=? 9999) = true) as -> by lia; done).
    by rewrite take_num_year by lia.
  - rewrite take_num_year by lia. cbn [mbind option_bind]. rewrite <-fmt2_nil.
    by rewrite take_month_fmt by lia.
  - rewrite take_num_year by lia. cbn [mbind option_bind]. rewrite <-(fmt2_nil d).
    rewrite take_month_fmt by lia. cbn [mbind option_bind].
    rewrite take_day_fmt by lia. cbn. by rewrite Hdays.
  - rewrite take_num_year by lia. cbn [mbind option_bind]. rewrite <-(fmt2_nil (hour_of t)).
    rewrite take_month_fmt by lia. cbn [mbind option_bind].
    rewrite take_day_fmt by lia. cbn [mbind option_bind].
    rewrite take_hour_fmt by lia. cbn. by rewrite Hdays.
Qed.

Lemma days_from_civil_year_start y m d :
  1 ≤ m ≤ 12 → 1 ≤ d → days_from_civil y 1 1 ≤ days_from_civil y m d.
Proof.
  intros Hm Hd. unfold days_from_civil. cbn [Z.leb Z.compare Pos.compare Pos.compare_cont].
  destruct (Z.leb_spec m 2); zlia.
Qed.

(** A period starts no later than the instants it contains. *)
Lemma truncate_le l t : truncate l t ≤ t.
Proof.
  unfold truncate. destruct (date_of t) as [[y m] d] eqn:E.
  apply date_of_valid in E as (Hm & Hd & Hdays). pose proof (hour_of_range t).
  assert (t `div` day * day ≤ t) by (unfold day; zlia).
  destruct l.
  - pose proof (days_from_civil_year_start y m d). unfold day in *. lia.
  - assert (days_from_civil y m 1 ≤ days_from_civil y m d) by (unfold days_from_civil; lia).
    unfold day in *. lia.
  - done.
  - unfold hour_of, hour, day. zlia.
Qed.

(** ** A period is named by its first instant *)

Lemma forallb_range (f : Z → bool) lo n i :
  forallb f (seqZ lo n) = true → lo ≤ i < lo + n → f i = true.
Proof. rewrite forallb_forall. intros H Hi. apply H. by rewrite <-list_elem_of_In, elem_of_seqZ. Qed.

Definition month_starts_ok (y : Z) : bool :=
  forallb (λ m, bool_decide (civil_from_days (days_from_civil y m 1) = (y, m, 1))) (seqZ 1 12).
Lemma month_starts_checked : forallb month_starts_ok (seqZ 0 400) = true.
Proof. vm_compute. reflexivity. Qed.

(** The calendar repeats every 400 years. *)
Lemma days_from_civil_era e y m d : days_from_civil (e * 400 + y) m d = e * 146097 + days_from_civil y m d.
Proof.
  unfold days_from_civil. destruct (m <=? 2).
  - replace (e * 400 + y - 1) with ((y - 1) + e * 400) by lia. rewrite Z.div_add, Z_mod_plus_full by lia. lia.
  - replace (e * 400 + y) with (y + e * 400) by lia. rewrite Z.div_add, Z_mod_plus_full by lia. lia.
Qed.
Lemma civil_from_days_era e n y m d :
  civil_from_days n = (y, m, d) → civil_from_days (e * 146097 + n) = (e * 400 + y, m, d).
Proof.
  unfold civil_from_days. replace (e * 146097 + n + 719468) with (n + 719468 + e * 146097) by lia.
  rewrite Z.div_add, Z_mod_plus_full by lia. destruct (civil_of_doe _) as [[yoe mp] d'].
  destruct (mp <? 10); intros [= <- <- <-]; f_equal; f_equal; lia.
Qed.

Lemma month_starts_spec y m :
  month_starts_ok y = true → 1 ≤ m ≤ 12 → civil_from_days (days_from_civil y m 1) = (y, m, 1).
Proof.
  intros H Hm. unfold month_starts_ok in H. eapply (forallb_range _ 1 12 m) in H; [|lia].
  by apply bool_decide_eq_true in H.
Qed.
Lemma month_starts_cycle y : 0 ≤ y < 400 → month_starts_ok y = true.
Proof. intros Hy. eapply forallb_range; [exact month_starts_checked|lia]. Qed.
Lemma month_start y m : 1 ≤ m ≤ 12 → civil_from_days (days_from_civil y m 1) = (y, m, 1).
Proof.
  intros Hm. assert (0 ≤ y `mod` 400 < 400) as Hr by (apply Z.mod_pos_bound; lia).
  pose proof (month_starts_spec _ m (month_starts_cycle _ Hr) Hm) as H.
  apply (civil_from_days_era (y `div` 400)) in H. rewrite <-days_from_civil_era in H.
  assert (y `div` 400 * 400 + y `mod` 400 = y) as E by (pose proof (Z_div_mod_eq_full y 400); lia).
  by rewrite E in H.
Qed.

Lemma date_of_midnight n : date_of (n * day) = civil_from_days n.
Proof. unfold date_of, day. by rewrite Z.div_mul. Qed.
Lemma date_of_hour n h : 0 ≤ h ≤ 23 → date_of (n * day + h * hour) = civil_from_days n ∧ hour_of (n * day + h * hour) = h.
Proof.
  intros Hh. unfold date_of, hour_of, day, hour.
  assert ((n * 86400000000000 + h * 3600000000000) `div` 86400000000000 = n) as -> by zlia.
  split; [done|]. zlia.
Qed.

Lemma format_truncate l t : format_layout l (truncate l t) = format_layout l t.
Proof.
  destruct (date_of t) as [[y m] d] eqn:E.
  apply date_of_valid in E as Hv. destruct Hv as (Hm & Hd & Hdays).
  unfold truncate, format_layout. rewrite E. destruct l.
  - rewrite date_of_midnight, month_start by lia. done.
  - rewrite date_of_midnight, month_start by lia. done.
  - rewrite date_of_midnight. change (civil_from_days (t `div` day)) with (date_of t). by rewrite E.
  - destruct (date_of_hour (t `div` day) (hour_of t) (hour_of_range t)) as [-> ->].
    change (civil_from_days (t `div` day)) with (date_of t). by rewrite E.
Qed.
