(* ===== verification/GoJson.v ===== *)
(** * encoding/json

    The decoder [json.Unmarshal] into an [any] and the encoder of a [[]string],
    as the source uses them.  A number keeps its literal text (Go converts it
    to a float64 and rejects a literal outside the float64 range, which the
    model accepts); the decoder's nesting limit of 10000 is not modelled.
    Invalid UTF-8 inside a string becomes U+FFFD, as in Go. *)

From S2P Require Import Prelude GoStrings.
From Stdlib Require Import Ascii.

#[warnings="-register-all"]
Inductive json :=
| JNull
| JBool (b : bool)
| JNum (lit : string)
| JStr (s : string)
| JArr (items : list json)
| JObj (members : list (string * json)).

(** [obj[key]] of a decoded object: a later duplicate key overwrites an earlier
    one; a missing key reads as [nil]. *)
Definition obj_lookup (ms : list (string * json)) (key : string) : option json :=
  snd <$> (List.find (λ p, String.eqb p.1 key) (reverse ms)).
Definition obj_get (ms : list (string * json)) (key : string) : json :=
  default JNull (obj_lookup ms key).

(** ** UTF-8 *)

Definition byte_in (lo hi : nat) (c : ascii) : bool :=
  ((lo <=? nat_of_ascii c) && (nat_of_ascii c <=? hi))%nat.
Definition cont (c : ascii) : bool := byte_in 128 191 c.

(** Length of the valid UTF-8 sequence at the head of the string, 0 if none. *)
Definition utf8_len (s : string) : nat :=
  match s with
  | EmptyString => 0
  | String a r =>
      if byte_in 0 127 a then 1
      else match r with
      | String b r2 =>
          if byte_in 194 223 a then (if cont b then 2 else 0)
          else match r2 with
          | String c r3 =>
              if (byte_in 224 224 a && byte_in 160 191 b || byte_in 225 236 a && cont b ||
                  byte_in 237 237 a && byte_in 128 159 b || byte_in 238 239 a && cont b)
              then (if cont c then 3 else 0)
              else match r3 with
              | String d _ =>
                  if (byte_in 240 240 a && byte_in 144 191 b || byte_in 241 243 a && cont b ||
                      byte_in 244 244 a && byte_in 128 143 b)
                  then (if cont c && cont d then 4 else 0)
                  else 0
              | EmptyString => 0
              end
          | EmptyString => 0
          end
      | EmptyString => 0
      end
  end%nat.

Definition chr (z : Z) : ascii := ascii_of_N (Z.to_N z).

(** The UTF-8 encoding of a code point outside the surrogate range. *)
Definition utf8_encode (r : Z) : string :=
  if r <? 128 then String (chr r) ""
  else if r <? 2048 then
    String (chr (192 + r `div` 64)) (String (chr (128 + r `mod` 64)) "")
  else if r <? 65536 then
    String (chr (224 + r `div` 4096))
      (String (chr (128 + (r `div` 64) `mod` 64)) (String (chr (128 + r `mod` 64)) ""))
  else
    String (chr (240 + r `div` 262144)) (String (chr (128 + (r `div` 4096) `mod` 64))
      (String (chr (128 + (r `div` 64) `mod` 64)) (String (chr (128 + r `mod` 64)) ""))).

Definition replacement : string := bytes [239; 191; 189]%nat.

Fixpoint str_take (n : nat) (s : string) : string :=
  match n, s with
  | S n, String c r => String c (str_take n r)
  | _, _ => EmptyString
  end.

(** ** Decoder *)

Definition is_ws (c : ascii) : bool :=
  bool_decide (c = " "%char) || bool_decide (c = "009"%char) ||
  bool_decide (c = "010"%char) || bool_decide (c = "013"%char).
Fixpoint skip_ws (s : string) : string :=
  match s with
  | String c r => if is_ws c then skip_ws r else s
  | EmptyString => EmptyString
  end.

Definition hex_val (c : ascii) : option Z :=
  let n := Z.of_nat (nat_of_ascii c) in
  if (48 <=? n) && (n <=? 57) then Some (n - 48)
  else if (65 <=? n) && (n <=? 70) then Some (n - 55)
  else if (97 <=? n) && (n <=? 102) then Some (n - 87)
  else None.
Definition hex4 (s : string) : option (Z * string) :=
  match s with
  | String a (String b (String c (String d r))) =>
      x ← hex_val a; y ← hex_val b; z ← hex_val c; w ← hex_val d;
      Some (x * 4096 + y * 256 + z * 16 + w, r)
  | _ => None
  end.

(** [\uXXXX], with a following low surrogate joined to a high one and a lone
    surrogate replaced by U+FFFD. *)
Definition unicode_escape (s : string) : option (string * string) :=
  '(r, rest) ← hex4 s;
  if (55296 <=? r) && (r <? 57344) then
    match rest with
    | String "\" (String "u" rest2) =>
        match hex4 rest2 with
        | Some (r2, rest3) =>
            if (r <? 56320) && (56320 <=? r2) && (r2 <? 57344)
            then Some (utf8_encode ((r - 55296) * 1024 + (r2 - 56320) + 65536), rest3)
            else Some (replacement, rest)
        | None => Some (replacement, rest)
        end
    | _ => Some (replacement, rest)
    end
  else Some (utf8_encode r, rest).

Definition simple_escape (c : ascii) : option string :=
  match c with
  | "034" => Some (str1 34) | "\" => Some (str1 92) | "/" => Some (str1 47)
  | "b" => Some (str1 8) | "f" => Some (str1 12) | "n" => Some (str1 10)
  | "r" => Some (str1 13) | "t" => Some (str1 9)
  | _ => None
  end%char.

(** The body of a string literal, after the opening quote. *)
Fixpoint parse_string (fuel : nat) (s : string) : option (string * string) :=
  match fuel with
  | O => None
  | S fuel =>
      match s with
      | EmptyString => None
      | String "034" r => Some ("", r)
      | String "\" (String "u" r) =>
          '(x, r) ← unicode_escape r; '(t, r) ← parse_string fuel r; Some (x +:+ t, r)
      | String "\" (String c r) =>
          x ← simple_escape c; '(t, r) ← parse_string fuel r; Some (x +:+ t, r)
      | String "\" EmptyString => None
      | String c r =>
          if byte_in 0 31 c then None
          else match utf8_len s with
               | O => '(t, r) ← parse_string fuel r; Some (replacement +:+ t, r)
               | n => '(t, r) ← parse_string fuel (str_drop n s); Some (str_take n s +:+ t, r)
               end
      end
  end.

Definition is_digit (c : ascii) : bool := byte_in 48 57 c.
Fixpoint span_digits (s : string) : string * string :=
  match s with
  | String c r => if is_digit c then let '(a, b) := span_digits r in (String c a, b) else ("", s)
  | EmptyString => ("", "")
  end.
Definition digits1 (s : string) : option (string * string) :=
  let '(a, b) := span_digits s in if bool_decide (a = "") then None else Some (a, b).

(** Optional minus, [0] or digits with no leading zero, optional fraction,
    optional exponent. *)
Definition parse_number (s : string) : option (string * string) :=
  let '(sign, s) := match s with String "-" r => ("-", r) | _ => ("", s) end in
  '(int, s) ← match s with
               | String "0" r => Some ("0", r)
               | _ => digits1 s
               end;
  '(frac, s) ← match s with
                | String "." r => '(d, r) ← digits1 r; Some ("." +:+ d, r)
                | _ => Some ("", s)
                end;
  '(exp, s) ← match s with
               | String "e" r | String "E" r =>
                   let '(sg, r) := match r with
                                   | String "+" r => ("+", r)
                                   | String "-" r => ("-", r)
                                   | _ => ("", r)
                                   end in
                   '(d, r) ← digits1 r; Some ("e" +:+ sg +:+ d, r)
               | _ => Some ("", s)
               end;
  Some (sign +:+ int +:+ frac +:+ exp, s).

Fixpoint parse_value (fuel : nat) (s : string) : option (json * string) :=
  match fuel with
  | O => None
  | S fuel =>
      let s := skip_ws s in
      match s with
      | String "{" r =>
          match skip_ws r with
          | String "}" r => Some (JObj [], r)
          | _ => '(ms, r) ← parse_members fuel r; Some (JObj ms, r)
          end
      | String "[" r =>
          match skip_ws r with
          | String "]" r => Some (JArr [], r)
          | _ => '(l, r) ← parse_elems fuel r; Some (JArr l, r)
          end
      | String "034" r => '(x, r) ← parse_string (S (String.length r)) r; Some (JStr x, r)
      | _ =>
          if has_prefix s "null" then Some (JNull, str_drop 4 s)
          else if has_prefix s "true" then Some (JBool true, str_drop 4 s)
          else if has_prefix s "false" then Some (JBool false, str_drop 5 s)
          else '(n, r) ← parse_number s; Some (JNum n, r)
      end
  end
with parse_elems (fuel : nat) (s : string) : option (list json * string) :=
  match fuel with
  | O => None
  | S fuel =>
      '(v, r) ← parse_value fuel s;
      match skip_ws r with
      | String "," r => '(l, r) ← parse_elems fuel r; Some (v :: l, r)
      | String "]" r => Some ([v], r)
      | _ => None
      end
  end
with parse_members (fuel : nat) (s : string) : option (list (string * json) * string) :=
  match fuel with
  | O => None
  | S fuel =>
      match skip_ws s with
      | String "034" r =>
          '(k, r) ← parse_string (S (String.length r)) r;
          match skip_ws r with
          | String ":" r =>
              '(v, r) ← parse_value fuel r;
              match skip_ws r with
              | String "," r => '(ms, r) ← parse_members fuel r; Some ((k, v) :: ms, r)
              | String "}" r => Some ([(k, v)], r)
              | _ => None
              end
          | _ => None
          end
      | _ => None
      end
  end.

(** One value and nothing but white space after it.  Every second recursive
    call consumes a byte, so twice the length is enough fuel. *)
Definition json_unmarshal (s : string) : option json :=
  '(v, r) ← parse_value (2 * String.length s + 2) s;
  if bool_decide (skip_ws r = "") then Some v else None.

(** ** Encoder of a string slice *)

Definition hex_digit (z : Z) : ascii := if z <? 10 then chr (48 + z) else chr (87 + z).

Definition escape_byte (c : ascii) : option string :=
  let n := Z.of_nat (nat_of_ascii c) in
  match c with
  | "034"%char => Some (bytes [92; 34]%nat)
  | "\"%char => Some (bytes [92; 92]%nat)
  | "<"%char => Some "\u003c" | ">"%char => Some "\u003e" | "&"%char => Some "\u0026"
  | _ =>
      if n =? 8 then Some "\b" else if n =? 12 then Some "\f" else if n =? 10 then Some "\n"
      else if n =? 13 then Some "\r" else if n =? 9 then Some "\t"
      else if n <? 32 then
        Some ("\u00" +:+ String (hex_digit (n `div` 16)) (String (hex_digit (n `mod` 16)) ""))
      else None
  end.

Fixpoint quote_body (fuel : nat) (s : string) : string :=
  match fuel, s with
  | S fuel, String c r =>
      match utf8_len s with
      | O => "\ufffd" +:+ quote_body fuel r
      | 1%nat => default (String c "") (escape_byte c) +:+ quote_body fuel r
      | n =>
          let x := str_take n s in
          (if bool_decide (x = bytes [226; 128; 168]%nat) then "\u2028"
           else if bool_decide (x = bytes [226; 128; 169]%nat) then "\u2029" else x)
          +:+ quote_body fuel (str_drop n s)
      end
  | _, _ => ""
  end.
Definition json_quote (s : string) : string :=
  str1 34 +:+ quote_body (String.length s) s +:+ str1 34.

(** [json.Marshal] of a [[]string]; a nil slice prints as [null]. *)
Definition json_marshal_strings (l : list string) : string :=
  match l with
  | [] => "null"
  | _ => "[" +:+ join "," (json_quote <$> l) +:+ "]"
  end.
