(* ===== verification/GoFloat.v ===== *)
(** * Numbers of decoded JSON

    [encoding/json] turns a number literal into the nearest float64 (ties to
    even), and fails when it is out of range.  A finite float64 is an integer
    [f_m] times a power of two [f_e]; the sign of zero is not kept, since the
    code never looks at it. *)

From S2P Require Import Prelude GoStrings GoJson.
From Stdlib Require Import Ascii DecimalString DecimalZ.

Record f64 := F64 { f_m : Z; f_e : Z }.

(** ** Decimal literals *)

(** The value of a string of digits. *)
Definition digits_value (s : string) : Z :=
  match NilEmpty.uint_of_string s with Some u => Z.of_uint u | None => 0 end.

(** [-?int frac? exp?] as sign, digits and power of ten. *)
Definition decimal_parts (lit : string) : bool * Z * Z :=
  let '(neg, s) := match lit with String "-" s => (true, s) | _ => (false, lit) end in
  let '(int, s) := span_digits s in
  let '(frac, s) := match s with String "." s => span_digits s | _ => ("", s) end in
  let exp := match s with
             | String _ (String "-" s) => - digits_value s
             | String _ (String "+" s) => digits_value s
             | String _ s => digits_value s
             | EmptyString => 0
             end in
  (neg, digits_value (int +:+ frac), exp - Z.of_nat (String.length frac)).

(** ** Rounding *)

(** [n / d] rounded to an integer, ties to even. *)
Definition div_even (n d : Z) : Z :=
  let q := n `div` d in
  match Z.compare (2 * (n `mod` d)) d with
  | Lt => q
  | Eq => if Z.even q then q else q + 1
  | Gt => q + 1
  end.

(** [n * 2^-e] over [d], as a quotient of integers. *)
Definition scaled (n d e : Z) : Z * Z := if 0 <=? e then (n, d * 2 ^ e) else (n * 2 ^ (- e), d).

(** The float64 nearest to [n / d], for positive [n] and [d]: 53 significant
    bits, fewer below the smallest normal number. *)
Definition round_ratio (n d : Z) : f64 :=
  let e := Z.log2 n - Z.log2 d - 53 in
  let e := let '(a, b) := scaled n d e in if 2 ^ 53 <=? a `div` b then e + 1 else e in
  let e := Z.max e (-1074) in
  let '(a, b) := scaled n d e in
  F64 (div_even a b) e.

Definition float_of_literal (lit : string) : option f64 :=
  let '(neg, digits, exp) := decimal_parts lit in
  if digits =? 0 then Some (F64 0 0)
  else
    let f := if 0 <=? exp then round_ratio (digits * 10 ^ exp) 1 else round_ratio digits (10 ^ (- exp)) in
    if 1024 <=? Z.log2 (f_m f) + f_e f then None
    else Some (if neg then F64 (- f_m f) (f_e f) else f).

(** ** Integers *)

(** The integer a float64 is, if [v == math.Trunc(v)]. *)
Definition float_integer (f : f64) : option Z :=
  if 0 <=? f_e f then Some (f_m f * 2 ^ f_e f)
  else if f_m f `mod` 2 ^ (- f_e f) =? 0 then Some (f_m f `div` 2 ^ (- f_e f)) else None.

(** [int64(v)]: truncation; what is out of range becomes the smallest int64
    (amd64). *)
Definition float_to_int64 (f : f64) : Z :=
  let t := if 0 <=? f_e f then f_m f * 2 ^ f_e f else Z.quot (f_m f) (2 ^ (- f_e f)) in
  if in_i64b t then t else min_i64.

Example float_of_tenth : float_of_literal "0.1" = Some (F64 7205759403792794 (-56)).
Proof. vm_compute. reflexivity. Qed.
Example float_ties_to_even : (f ← float_of_literal "9007199254740993"; float_integer f) = Some 9007199254740992.
Proof. vm_compute. reflexivity. Qed.
Example float_fraction : (f ← float_of_literal "-2.5e0"; Some (float_integer f, float_to_int64 f)) = Some (None, -2).
Proof. vm_compute. reflexivity. Qed.
Example float_out_of_range : float_of_literal "1e309" = None.
Proof. vm_compute. reflexivity. Qed.

Lemma div_even_exact n : div_even n 1 = n.
Proof. unfold div_even. by rewrite Z.mod_1_r, Z.div_1_r. Qed.

(** Integers below 2^53 are read exactly: shifted to 53 bits. *)
Lemma small_integer_float n : 0 < n < 2 ^ 53 → round_ratio n 1 = F64 (n * 2 ^ (52 - Z.log2 n)) (- (52 - Z.log2 n)).
Proof.
  intros Hn. pose proof (Z.log2_spec n ltac:(lia)) as [Hlo Hhi]. pose proof (Z.log2_nonneg n).
  assert (Z.log2 n < 53) by (apply Z.log2_lt_pow2; lia).
  assert (2 ^ 53 = 2 ^ Z.log2 n * 2 ^ (53 - Z.log2 n)) as Hp by (rewrite <-Z.pow_add_r by lia; f_equal; lia).
  pose proof (Z.pow_pos_nonneg 2 (53 - Z.log2 n) ltac:(lia) ltac:(lia)) as Hq.
  assert (scaled n 1 (Z.log2 n - 53) = (n * 2 ^ (53 - Z.log2 n), 1)) as Hs.
  { unfold scaled. rewrite (proj2 (Z.leb_gt _ _)) by lia. repeat f_equal. lia. }
  unfold round_ratio. cbv zeta. change (Z.log2 1) with 0. rewrite Z.sub_0_r, Hs, Z.div_1_r.
  assert ((2 ^ 53 <=? n * 2 ^ (53 - Z.log2 n)) = true) as -> by (apply Z.leb_le; nia).
  rewrite Z.max_l by lia. replace (Z.log2 n - 53 + 1) with (- (52 - Z.log2 n)) by lia. unfold scaled.
  destruct (0 <=? - (52 - Z.log2 n)) eqn:E; bools.
  - assert (52 - Z.log2 n = 0) as -> by lia. simpl. by rewrite div_even_exact, Z.mul_1_r.
  - by rewrite div_even_exact, Z.opp_involutive.
Qed.

Lemma shifted_integer m k : 0 ≤ k → float_integer (F64 (m * 2 ^ k) (- k)) = Some m.
Proof.
  intros Hk. unfold float_integer. cbn [f_m f_e]. destruct (0 <=? - k) eqn:E; bools.
  - assert (k = 0) as -> by lia. simpl. by rewrite !Z.mul_1_r.
  - pose proof (Z.pow_pos_nonneg 2 k ltac:(lia) ltac:(lia)). by rewrite Z.opp_involutive, Z.mod_mul, Z.div_mul by lia.
Qed.
