(* ===== verification/GoCsv.v ===== *)
(** * encoding/csv

    The reader and the writer the source uses: [FieldsPerRecord] is -1 (records
    of any width), no comments, no lazy quotes, a delimiter of one rune.  The
    reader is an automaton over the bytes of a file whose line ends are already
    normalised, as [Reader.readLine] does line by line. *)

From S2P Require Import Prelude GoStrings GoJson.
From Stdlib Require Import Ascii.

Abbreviation quote := ("034"%char).
Abbreviation newline := ("010"%char).
Abbreviation return_ := ("013"%char).

(** ** Delimiters *)

(** [[]rune(s)[0]], as its encoding; a byte that is not UTF-8 decodes to U+FFFD. *)
Definition first_rune (s : string) : string :=
  match utf8_len s with O => replacement | n => str_take n s end.
Definition csv_comma (fieldDelimiter : string) : string :=
  if bool_decide (fieldDelimiter = "") then "," else first_rune fieldDelimiter.
Definition validDelim (comma : string) : bool :=
  negb (bool_decide (comma ∈ [str1 0; str1 34; str1 13; str1 10; replacement])).

(** ** Reader *)

Inductive csvErr := InvalidDelim | BareQuote | BadQuote.

Definition starts_line (s : string) : bool :=
  match s with String c _ => bool_decide (c = newline) | EmptyString => false end.
(** "\r\n" becomes "\n". *)
Fixpoint crlf (s : string) : string :=
  match s with
  | EmptyString => EmptyString
  | String c r => if bool_decide (c = return_) && starts_line r then crlf r else String c (crlf r)
  end.
(** A carriage return before the end of the file is dropped. *)
Fixpoint drop_final_return (s : string) : string :=
  match s with
  | EmptyString => EmptyString
  | String c EmptyString => if bool_decide (c = return_) then EmptyString else s
  | String c r => String c (drop_final_return r)
  end.

Inductive csvState :=
| LineStart
| FieldStart (fields : list string)
| Plain (fields : list string) (acc : string)
| Quoted (fields : list string) (acc : string)
| Closed (fields : list string) (acc : string).   (* after a quote in a quoted field *)

Definition snoc (acc : string) (c : ascii) : string := acc +:+ String c EmptyString.

Inductive csvStep :=
| Next (st : csvState)                               (* one byte *)
| EndField (fields : list string)                    (* a delimiter *)
| EndRecord (fields : list string)
| Bad (e : csvErr).

(** What happens at byte [c]; [at_comma] when a delimiter starts there. *)
Definition csv_field_start (fields : list string) (at_comma : bool) (c : ascii) : csvStep :=
  if bool_decide (c = quote) then Next (Quoted fields "")
  else if at_comma then EndField (fields ++ [""])
  else if bool_decide (c = newline) then EndRecord (fields ++ [""])
  else Next (Plain fields (String c "")).
Definition csv_step (st : csvState) (at_comma : bool) (c : ascii) : csvStep :=
  match st with
  | LineStart => if bool_decide (c = newline) then Next LineStart else csv_field_start [] at_comma c
  | FieldStart fields => csv_field_start fields at_comma c
  | Plain fields acc =>
      if at_comma then EndField (fields ++ [acc])
      else if bool_decide (c = newline) then EndRecord (fields ++ [acc])
      else if bool_decide (c = quote) then Bad BareQuote
      else Next (Plain fields (snoc acc c))
  | Quoted fields acc =>
      if bool_decide (c = quote) then Next (Closed fields acc) else Next (Quoted fields (snoc acc c))
  | Closed fields acc =>
      if bool_decide (c = quote) then Next (Quoted fields (snoc acc quote))
      else if at_comma then EndField (fields ++ [acc])
      else if bool_decide (c = newline) then EndRecord (fields ++ [acc])
      else Bad BadQuote
  end.

Definition csv_eof (st : csvState) : res csvErr (list (list string)) :=
  match st with
  | LineStart => Ok []
  | FieldStart fields => Ok [fields ++ [""]]
  | Plain fields acc | Closed fields acc => Ok [fields ++ [acc]]
  | Quoted _ _ => Err BadQuote
  end.

(** [skip] counts the bytes of the current delimiter still to be passed. *)
Fixpoint csv_scan (comma : string) (st : csvState) (skip : nat) (s : string) : res csvErr (list (list string)) :=
  match s with
  | EmptyString => csv_eof st
  | String c r =>
      match skip with
      | S k => csv_scan comma st k r
      | O =>
          match csv_step st (has_prefix s comma) c with
          | Next st => csv_scan comma st 0 r
          | EndField fields => csv_scan comma (FieldStart fields) (String.length comma - 1) r
          | EndRecord fields => records ← csv_scan comma LineStart 0 r; Ok (fields :: records)
          | Bad e => Err e
          end
      end
  end.

(** [reader.ReadAll()] *)
Definition csv_read (comma data : string) : res csvErr (list (list string)) :=
  if validDelim comma then csv_scan comma LineStart 0 (drop_final_return (crlf data)) else Err InvalidDelim.

(** ** Writer *)

Definition fieldNeedsQuotes (comma field : string) : bool :=
  if bool_decide (field = "") then false
  else bool_decide (field = "\.") || contains field comma || str_mem quote field || str_mem return_ field ||
       str_mem newline field || (0 <? head_enc space_encodings field)%nat.

Fixpoint double_quotes (s : string) : string :=
  match s with
  | EmptyString => EmptyString
  | String c r => if bool_decide (c = quote) then String c (String c (double_quotes r)) else String c (double_quotes r)
  end.

Definition csv_field (comma field : string) : string :=
  if fieldNeedsQuotes comma field then String quote (double_quotes field +:+ String quote "") else field.

Definition csv_record (comma : string) (record : list string) : string :=
  join comma (csv_field comma <$> record) +:+ String newline "".

(** [writer.Write] for every record. *)
Definition csv_write (comma : string) (records : list (list string)) : res csvErr string :=
  if validDelim comma then Ok (foldr (λ r text, csv_record comma r +:+ text) "" records)
  else match records with [] => Ok "" | _ => Err InvalidDelim end.

(** ** What the reader makes of the writer's output *)

(** A delimiter is one rune: its first byte does not occur in the rest. *)
Definition rune_like (comma : string) : Prop :=
  ∃ c rest, comma = String c rest ∧ str_mem c rest = false ∧ c ≠ quote ∧ c ≠ newline ∧ c ≠ return_ ∧
    str_mem newline rest = false ∧ str_mem return_ rest = false.

Lemma cont_not_ascii c : cont c = true → c ≠ quote ∧ c ≠ newline ∧ c ≠ return_.
Proof. destruct c as [[] [] [] [] [] [] [] []]; vm_compute; done. Qed.
Lemma cont_not_lead a b : byte_in 194 255 a = true → cont b = true → a ≠ b.
Proof.
  unfold cont, byte_in. rewrite !andb_true_iff, !Nat.leb_le. intros Ha Hb ->. lia.
Qed.

Lemma mem_one c d : str_mem c (String d "") = bool_decide (c = d).
Proof. simpl. apply orb_false_r. Qed.

Lemma rune_like_bytes a rest :
  byte_in 194 255 a = true → (∀ c, str_mem c rest = true → cont c = true) → rune_like (String a rest).
Proof.
  intros Ha Hr.
  assert (∀ c, cont c = false → str_mem c rest = false) as Hn.
  { intros c Hc. destruct (str_mem c rest) eqn:E; [|done]. apply Hr in E. congruence. }
  exists a, rest. split_and!; [done| |..].
  - apply Hn. destruct (cont a) eqn:E; [|done]. by destruct (cont_not_lead a a).
  - intros ->; by vm_compute in Ha.
  - intros ->; by vm_compute in Ha.
  - intros ->; by vm_compute in Ha.
  - by apply Hn.
  - by apply Hn.
Qed.

Lemma byte_in_wider lo hi lo' hi' c :
  (lo' <= lo)%nat → (hi <= hi')%nat → byte_in lo hi c = true → byte_in lo' hi' c = true.
Proof. unfold byte_in. rewrite !andb_true_iff, !Nat.leb_le. lia. Qed.

Lemma first_rune_like s : s ≠ "" → validDelim (first_rune s) = true → rune_like (first_rune s).
Proof.
  unfold validDelim. rewrite negb_true_iff, bool_decide_eq_false. unfold first_rune. intros Hs Hv.
  destruct s as [|a r]; [done|]. unfold utf8_len in *.
  destruct (byte_in 0 127 a) eqn:Ea.
  { simpl in *. exists a, "". split_and!; try done; intros ->; apply Hv; set_solver. }
  destruct r as [|b r]; [simpl in Hv; set_solver|].
  destruct (byte_in 194 223 a) eqn:Ea2.
  { destruct (cont b) eqn:Eb; [|simpl in Hv; set_solver]. simpl. apply rune_like_bytes; [|intros c; rewrite mem_one; intros; by bools; subst].
    eapply byte_in_wider; [| |exact Ea2]; lia. }
  destruct r as [|c r]; [simpl in Hv; set_solver|]. destruct (_ || _) eqn:E3.
  { destruct (cont c) eqn:Ec; [|simpl in Hv; set_solver]. simpl. unfold cont, byte_in in *.
    rewrite !orb_true_iff, !andb_true_iff, !Nat.leb_le in *.
    apply rune_like_bytes; [unfold byte_in; rewrite andb_true_iff, !Nat.leb_le; lia|].
    intros x. cbn [str_mem]. rewrite !orb_true_iff, !bool_decide_eq_true.
    unfold cont, byte_in. rewrite andb_true_iff, !Nat.leb_le. intros [->|[->|?]]; [lia..|done]. }
  clear E3. destruct r as [|d r]; [simpl in Hv; set_solver|]. destruct (_ || _) eqn:E4; [|simpl in Hv; set_solver].
  destruct (cont c && cont d) eqn:Ec; [|simpl in Hv; set_solver]. clear Ea Ea2. simpl. unfold cont, byte_in in *.
  rewrite !orb_true_iff, !andb_true_iff, !Nat.leb_le in *.
  apply rune_like_bytes; [unfold byte_in; rewrite andb_true_iff, !Nat.leb_le; lia|].
  intros x. cbn [str_mem]. rewrite !orb_true_iff, !bool_decide_eq_true.
  unfold cont, byte_in. rewrite andb_true_iff, !Nat.leb_le. intros [->|[->|[->|?]]]; [lia..|done].
Qed.

Lemma comma_like fieldDelimiter : validDelim (csv_comma fieldDelimiter) = true → rune_like (csv_comma fieldDelimiter).
Proof.
  unfold csv_comma. case_bool_decide as Hd; [|by apply first_rune_like].
  intros _. exists ","%char, "". split_and!; done.
Qed.

(** *** Line ends *)

Lemma crlf_cons c s : c ≠ return_ → crlf (String c s) = String c (crlf s).
Proof. intros Hc. simpl. by rewrite bool_decide_false. Qed.

Lemma crlf_app s t : str_mem return_ s = false → crlf (s +:+ t) = s +:+ crlf t.
Proof.
  induction s as [|c s IH]; [done|]. cbn [str_mem]. rewrite orb_false_iff. intros [Hc Hs]. bools.
  rewrite !str_app_cons, crlf_cons by congruence. by rewrite IH.
Qed.

Lemma crlf_plain s : str_mem return_ s = false → crlf s = s.
Proof. intros Hs. rewrite <-(str_app_nil_r s) at 1. by rewrite crlf_app, str_app_nil_r. Qed.

(** Line ends inside a quoted field are normalised there. *)
Lemma crlf_quoted s t :
  crlf (double_quotes s +:+ String quote t) = double_quotes (crlf s) +:+ String quote (crlf t).
Proof.
  induction s as [|c s IH]; [change (crlf (String quote t) = String quote (crlf t)); by apply crlf_cons|]. cbn [double_quotes]. case_bool_decide as Hc.
  - subst. rewrite !str_app_cons, !(crlf_cons quote) by done. cbn [double_quotes]. rewrite bool_decide_true by done.
    by rewrite !str_app_cons, IH.
  - rewrite str_app_cons. cbn [crlf].
    assert (starts_line (double_quotes s +:+ String quote t) = starts_line s) as ->.
    { destruct s as [|d s]; [done|]. cbn [double_quotes]. by case_bool_decide; subst. }
    destruct (_ && _); [done|]. cbn [double_quotes]. rewrite (bool_decide_false (c = quote)) by done. by rewrite str_app_cons, IH.
Qed.

(** *** Scanning what was written *)

(** The text after a field: a delimiter or the end of the line. *)
Definition after_field (comma t : string) : Prop := (∃ r, t = comma +:+ r) ∨ ∃ r, t = String newline r.

Lemma prefix_cons c s d p : has_prefix (String c s) (String d p) = bool_decide (d = c) && has_prefix s p.
Proof.
  unfold has_prefix. simpl. destruct (ascii_dec d c) as [->|Hn]; [by rewrite bool_decide_true|by rewrite bool_decide_false].
Qed.

(** No delimiter starts inside a field that does not contain one. *)
Lemma no_straddle comma s t :
  rune_like comma → s ≠ "" → has_prefix s comma = false → after_field comma t → has_prefix (s +:+ t) comma = false.
Proof.
  intros (c & rest & -> & Hc & _ & Hn & _ & Hnl & _) Hs Hp Ht. destruct s as [|d s]; [done|].
  rewrite str_app_cons, prefix_cons in *. case_bool_decide as Hd; [|done]. simpl in *. subst d. clear Hs.
  assert (∀ p, str_mem c p = false → str_mem newline p = false → has_prefix s p = false → has_prefix (s +:+ t) p = false) as Hgen; [|by apply Hgen].
  clear Hc Hnl Hp. induction s as [|e s IH]; intros p Hc Hnl Hp.
  - rewrite str_app_nil. destruct p as [|f p]; [done|]. simpl in Hc, Hnl. apply orb_false_iff in Hc as [Hc _], Hnl as [Hnl _]. bools.
    destruct Ht as [[r ->]|[r ->]]; rewrite ?str_app_cons, prefix_cons; by rewrite bool_decide_false by congruence.
  - destruct p as [|f p]; [done|]. rewrite str_app_cons, prefix_cons in *. case_bool_decide; [|done]. simpl in *.
    apply orb_false_iff in Hc as [_ Hc], Hnl as [_ Hnl]. by apply IH.
Qed.

Lemma contains_tail c s p : contains (String c s) p = false → has_prefix (String c s) p = false ∧ contains s p = false.
Proof. simpl. by rewrite orb_false_iff. Qed.

Definition plain_text (comma s : string) : Prop :=
  contains s comma = false ∧ str_mem quote s = false ∧ str_mem newline s = false.

Lemma plain_tail comma c s : plain_text comma (String c s) →
  has_prefix (String c s) comma = false ∧ c ≠ quote ∧ c ≠ newline ∧ plain_text comma s.
Proof.
  intros (H1 & H2 & H3). apply contains_tail in H1 as [Hp H1]. simpl in H2, H3.
  apply orb_false_iff in H2 as [Hq H2], H3 as [Hn H3]. bools. split_and!; [done|congruence|congruence|done].
Qed.

Lemma snoc_app acc c s : snoc acc c +:+ s = acc +:+ String c s.
Proof. unfold snoc. by rewrite str_app_assoc. Qed.

Lemma scan_plain comma s t : ∀ fields acc,
  rune_like comma → plain_text comma s → after_field comma t →
  csv_scan comma (Plain fields acc) 0 (s +:+ t) = csv_scan comma (Plain fields (acc +:+ s)) 0 t.
Proof.
  induction s as [|c s IH]; intros fields acc Hl Hs Ht; [by rewrite str_app_nil_r|].
  destruct (plain_tail _ _ _ Hs) as (Hp & Hq & Hn & Hs'). pose proof (no_straddle comma (String c s) t Hl ltac:(done) Hp Ht) as Hc.
  rewrite str_app_cons in *. cbn [csv_scan]. rewrite Hc. cbn [csv_step]. rewrite !bool_decide_false by done.
  rewrite IH by done. by rewrite snoc_app.
Qed.

Lemma scan_quoted comma s t : ∀ fields acc,
  csv_scan comma (Quoted fields acc) 0 (double_quotes s +:+ String quote t) =
  csv_scan comma (Closed fields (acc +:+ s)) 0 t.
Proof.
  induction s as [|c s IH]; intros fields acc.
  { rewrite str_app_nil_r, str_app_nil. cbn [csv_scan csv_step]. by rewrite bool_decide_true. }
  cbn [double_quotes]. case_bool_decide as Hc.
  - subst c. rewrite !str_app_cons. cbn [csv_scan csv_step]. rewrite bool_decide_true by done. cbn [csv_scan csv_step].
    rewrite bool_decide_true by done. rewrite IH. by rewrite snoc_app.
  - rewrite str_app_cons. cbn [csv_scan csv_step]. rewrite bool_decide_false by done. rewrite IH. by rewrite snoc_app.
Qed.

(** What is left after the field text [acc] has been read, quoted or not. *)
Definition field_end (comma : string) (fields : list string) (t : string) : res csvErr (list (list string)) :=
  match t with
  | EmptyString => Ok [fields]
  | String c r =>
      if has_prefix t comma then csv_scan comma (FieldStart fields) (String.length comma - 1) r
      else records ← csv_scan comma LineStart 0 r; Ok (fields :: records)
  end.

Lemma comma_not_newline comma r : rune_like comma → has_prefix (String newline r) comma = false.
Proof. intros (c & rest & -> & _ & _ & Hn & _). rewrite prefix_cons. by rewrite bool_decide_false by congruence. Qed.

Lemma comma_head comma r : rune_like comma → ∃ c s, comma +:+ r = String c s ∧ c ≠ quote ∧ c ≠ newline.
Proof. intros (c & rest & -> & _ & Hq & Hn & _). exists c, (rest +:+ r). by rewrite str_app_cons. Qed.

Lemma scan_ends comma fields acc t st :
  rune_like comma → after_field comma t → st = Plain fields acc ∨ st = Closed fields acc →
  csv_scan comma st 0 t = field_end comma (fields ++ [acc]) t.
Proof.
  intros Hl [[r ->]|[r ->]] Hst.
  - destruct (comma_head comma r Hl) as (c & s & E & Hq & Hn). rewrite E. cbn [csv_scan field_end].
    rewrite <-E, has_prefix_app. destruct Hst as [-> | ->]; cbn [csv_step]; by rewrite ?bool_decide_false by done.
  - cbn [csv_scan field_end]. rewrite comma_not_newline by done. by destruct Hst as [-> | ->].
Qed.

Lemma needs_no_quotes comma f : fieldNeedsQuotes comma f = false → f ≠ "" →
  plain_text comma f ∧ str_mem return_ f = false.
Proof.
  unfold fieldNeedsQuotes, plain_text. intros H Hf. rewrite bool_decide_false in H by done.
  rewrite !orb_false_iff in H. naive_solver.
Qed.

(** One field of a record, at its start. *)
Lemma scan_field comma f fields t st :
  rune_like comma → after_field comma t → st = FieldStart fields ∨ st = LineStart ∧ fields = [] ∧ (f ≠ "" ∨ ∃ r, t = comma +:+ r) →
  csv_scan comma st 0 (crlf (csv_field comma f) +:+ t) = field_end comma (fields ++ [crlf f]) t.
Proof.
  intros Hl Ht Hst. unfold csv_field. destruct (fieldNeedsQuotes comma f) eqn:Eq.
  - rewrite (crlf_cons quote) by done. rewrite crlf_quoted, str_app_cons, str_app_assoc, str_app_cons, str_app_nil.
    assert (csv_scan comma st 0 (String quote (double_quotes (crlf f) +:+ String quote t)) =
            csv_scan comma (Quoted fields "") 0 (double_quotes (crlf f) +:+ String quote t)) as ->.
    { destruct Hst as [-> |(-> & -> & _)]; reflexivity. }
    rewrite scan_quoted. apply scan_ends; auto.
  - destruct (decide (f = "")) as [->|Hf].
    + rewrite str_app_nil. destruct Ht as [[r ->]|[r ->]].
      * destruct (comma_head comma r Hl) as (c & s & E & Hq & Hn). rewrite E. cbn [csv_scan field_end].
        rewrite <-E, has_prefix_app.
        destruct Hst as [-> |(-> & -> & _)]; cbn [csv_step]; unfold csv_field_start; by rewrite ?bool_decide_false by done.
      * destruct Hst as [-> |(-> & -> & [?|[s E]])]; [|done|].
        -- cbn [csv_scan field_end]. by rewrite comma_not_newline.
        -- destruct (comma_head comma s Hl) as (c & s' & E' & _ & Hn). rewrite <-E in E'. congruence.
    + destruct (needs_no_quotes _ _ Eq Hf) as [Hp Hr].
      rewrite (crlf_plain f Hr).
      destruct f as [|c f]; [done|]. destruct (plain_tail _ _ _ Hp) as (Hc & Hq & Hn & Hp').
      pose proof (no_straddle comma (String c f) t Hl ltac:(done) Hc Ht) as Hcc. rewrite str_app_cons in *.
      assert (csv_scan comma st 0 (String c (f +:+ t)) = csv_scan comma (Plain fields (String c "")) 0 (f +:+ t)) as ->.
      { cbn [csv_scan]. rewrite Hcc. destruct Hst as [-> |(-> & -> & _)]; cbn [csv_step]; unfold csv_field_start; by rewrite !bool_decide_false by done. }
      rewrite scan_plain by done. apply scan_ends; auto.
Qed.

Lemma scan_skip comma st p t : csv_scan comma st (String.length p) (p +:+ t) = csv_scan comma st 0 t.
Proof. induction p as [|c p IH]; [done|]. rewrite str_app_cons. exact IH. Qed.

Lemma field_end_comma comma fields t :
  rune_like comma → field_end comma fields (comma +:+ t) = csv_scan comma (FieldStart fields) 0 t.
Proof.
  intros Hl. pose proof (has_prefix_app comma t) as Hp. pose proof Hl as (c & rest & -> & _). rewrite str_app_cons in *.
  cbn [field_end]. rewrite Hp. replace (String.length (String c rest) - 1)%nat with (String.length rest) by (simpl; lia). apply scan_skip.
Qed.
Lemma field_end_line comma fields t :
  rune_like comma → field_end comma fields (String newline t) = (records ← csv_scan comma LineStart 0 t; Ok (fields :: records)).
Proof. intros Hl. cbn [field_end]. by rewrite comma_not_newline. Qed.

Lemma join_cons2 sep a b l : join sep (a :: b :: l) = a +:+ sep +:+ join sep (b :: l).
Proof. done. Qed.

Lemma scan_fields comma r t : ∀ st fields, rune_like comma → r ≠ [] →
  st = FieldStart fields ∨ st = LineStart ∧ fields = [] ∧ r ≠ [""] →
  csv_scan comma st 0 (join comma (crlf ∘ csv_field comma <$> r) +:+ String newline t) =
  (records ← csv_scan comma LineStart 0 t; Ok ((fields ++ (crlf <$> r)) :: records)).
Proof.
  induction r as [|f r IH]; intros st fields Hl Hr Hst; [done|]. destruct r as [|g r].
  - change (join comma (crlf ∘ csv_field comma <$> [f])) with (crlf (csv_field comma f)).
    rewrite (scan_field comma f fields); [by rewrite field_end_line|done|by right; eexists|].
    destruct Hst as [->|(-> & -> & Hn)]; [by left|right]. split_and!; [done|done|left; congruence].
  - change (crlf ∘ csv_field comma <$> f :: g :: r) with (crlf (csv_field comma f) :: (crlf ∘ csv_field comma <$> g :: r)).
    change (crlf ∘ csv_field comma <$> g :: r) with (crlf (csv_field comma g) :: (crlf ∘ csv_field comma <$> r)).
    rewrite join_cons2. change (crlf (csv_field comma g) :: (crlf ∘ csv_field comma <$> r)) with (crlf ∘ csv_field comma <$> g :: r).
    rewrite !str_app_assoc. rewrite (scan_field comma f fields); [|done|by left; eexists|].
    + rewrite field_end_comma by done. rewrite (IH (FieldStart (fields ++ [crlf f])) (fields ++ [crlf f])); [|done|done|by left].
      by rewrite <-app_assoc.
    + destruct Hst as [->|(-> & -> & _)]; [by left|right]. split_and!; [done|done|right; eauto].
Qed.

(** Records that are written as an empty line. *)
Definition blank (r : list string) : bool := bool_decide (r = []) || bool_decide (r = [""]).

Lemma scan_record comma r t : rune_like comma →
  csv_scan comma LineStart 0 (join comma (crlf ∘ csv_field comma <$> r) +:+ String newline t) =
  if blank r then csv_scan comma LineStart 0 t
  else (records ← csv_scan comma LineStart 0 t; Ok ((crlf <$> r) :: records)).
Proof.
  intros Hl. unfold blank. destruct (bool_decide (r = [])) eqn:E1; bools; [by subst|].
  destruct (bool_decide (r = [""])) eqn:E2; bools; [by subst|]. rewrite (scan_fields comma r t LineStart []); auto.
Qed.

Lemma crlf_field comma f t : crlf (csv_field comma f +:+ t) = crlf (csv_field comma f) +:+ crlf t.
Proof.
  unfold csv_field. destruct (fieldNeedsQuotes comma f) eqn:E.
  - rewrite str_app_cons, !(crlf_cons quote), str_app_assoc, !crlf_quoted, str_app_cons by done.
    rewrite str_app_cons, str_app_assoc, str_app_cons, !str_app_nil. by rewrite crlf_quoted.
  - destruct (decide (f = "")) as [->|Hf]; [done|]. destruct (needs_no_quotes _ _ E Hf) as [_ Hr].
    by rewrite crlf_app, (crlf_plain f).
Qed.

Lemma crlf_comma comma t : rune_like comma → crlf (comma +:+ t) = comma +:+ crlf t.
Proof.
  intros (c & rest & -> & _ & _ & _ & Hr & _ & Hrr). apply crlf_app. simpl. by rewrite bool_decide_false, Hrr by congruence.
Qed.

Lemma crlf_record comma r t : rune_like comma →
  crlf (csv_record comma r +:+ t) = join comma (crlf ∘ csv_field comma <$> r) +:+ String newline (crlf t).
Proof.
  intros Hl. unfold csv_record. rewrite str_app_assoc, str_app_cons, str_app_nil.
  assert (crlf (String newline t) = String newline (crlf t)) as Hn by (by apply crlf_cons). rewrite <-Hn.
  generalize (String newline t). clear Hn t. intros t. induction r as [|f r IH]; [done|]. destruct r as [|g r]; [apply crlf_field|].
  change (csv_field comma <$> f :: g :: r) with (csv_field comma f :: (csv_field comma <$> g :: r)) in *.
  change (crlf ∘ csv_field comma <$> f :: g :: r) with (crlf (csv_field comma f) :: (crlf ∘ csv_field comma <$> g :: r)) in *.
  change (csv_field comma <$> g :: r) with (csv_field comma g :: (csv_field comma <$> r)) in *.
  change (crlf ∘ csv_field comma <$> g :: r) with (crlf (csv_field comma g) :: (crlf ∘ csv_field comma <$> r)) in *.
  rewrite !join_cons2, !str_app_assoc, crlf_field, crlf_comma by done. by rewrite IH.
Qed.

Lemma drop_final_line a t : drop_final_return (a +:+ String newline t) = a +:+ String newline (drop_final_return t).
Proof.
  induction a as [|c a IH]; [by destruct t|]. rewrite !str_app_cons, <-IH. by destruct a.
Qed.

Definition normalised (r : list string) : list string := crlf <$> r.

(** Reading back what was written gives the records, in order, with the line ends
    inside their fields normalised, and without the records that look like an
    empty line. *)
Lemma csv_read_write fieldDelimiter records :
  let comma := csv_comma fieldDelimiter in
  validDelim comma = true →
  ∃ text, csv_write comma records = Ok text ∧
    csv_read comma text = Ok (normalised <$> filter (λ r, blank r = false) records).
Proof.
  intros comma Hv. pose proof (comma_like _ Hv) as Hl. fold comma in Hl. unfold csv_write, csv_read. rewrite Hv.
  eexists. split; [done|]. clear Hv. induction records as [|r records IH]; [done|]. cbn [foldr].
  rewrite crlf_record, drop_final_line, scan_record, IH by done. rewrite filter_cons.
  destruct (blank r) eqn:E; [by rewrite decide_False|by rewrite decide_True].
Qed.

Example csv_read_demo :
  csv_read "," (String.concat (String newline "")
    ["a,b"; ""; String quote ("x,y" +:+ String quote (String return_ "")); ",z"]) =
  Ok [["a"; "b"]; ["x,y"]; [""; "z"]].
Proof. vm_compute. reflexivity. Qed.

Example csv_bare_quote : csv_read ";" (String "a" (String quote "b;c")) = Err BareQuote.
Proof. vm_compute. reflexivity. Qed.
