(* ===== verification/Cells.v ===== *)
(** * Schemas and stored cells (cell_storage.go, tables_service.go)

    A schema is a list of [tableField]s; a row is a list of string cells, one
    per column.  A cell is either SQL NULL (a reserved tag), an escaped value
    or a plain value; nested and repeated values are stored as JSON text. *)

From S2P Require Import Prelude GoStrings GoJson.
From Stdlib Require Import Ascii.

#[warnings="-register-all"]
Inductive tableField := TableField {
  Name : string;
  Type_ : string;
  Mode : string;
  Fields : list tableField;
}.

(** A scalar column. *)
Definition col (name typ : string) : tableField := TableField name typ "" [].

Abbreviation schema := (list tableField).
Abbreviation row := (list string).

Definition normalizeMode (mode : string) : string :=
  if bool_decide (mode = "") then "NULLABLE" else mode.

Definition isRecordType (t : string) : bool :=
  let u := to_upper (trim_space t) in
  bool_decide (u = "RECORD") || bool_decide (u = "STRUCT").

(** ** Cells *)

Definition storedNullCell : string := String "000" "locaql:null".
Definition storedEscapedCellPrefix : string := String "000" "locaql:value:".

Definition storeStringCell (value : string) : string :=
  if bool_decide (value = storedNullCell) || has_prefix value storedEscapedCellPrefix
  then storedEscapedCellPrefix +:+ value else value.

Definition loadStoredCell (cell : string) : string * bool :=
  if bool_decide (cell = storedNullCell) then ("", true)
  else if has_prefix cell storedEscapedCellPrefix
  then (trim_prefix cell storedEscapedCellPrefix, false)
  else (cell, false).

Definition storedCellIsNull (cell : string) : bool := bool_decide (cell = storedNullCell).

(** [row[i]] when the row is long enough, SQL NULL otherwise: the reading every
    validation and partitioning loop starts with. *)
Definition cell_at (r : row) (i : nat) : string := default storedNullCell (r !! i).

(** ** REQUIRED and nesting validation *)

Inductive cellErr :=
| RequiredNull                      (* REQUIRED field is NULL or absent *)
| InvalidNestedJSON                 (* invalid stored nested JSON *)
| RepeatedNotArray                  (* REPEATED field is not an array *)
| RepeatedElementNull (i : nat)     (* REPEATED element i is NULL *)
| RepeatedElement (i : nat) (e : cellErr)
| RecordNotObject                   (* RECORD field is not an object *)
| NestedField (name : string) (e : cellErr).

(** First error of a loop that stops at it. *)
Fixpoint first_err {A} (f : nat → A → option cellErr) (i : nat) (l : list A) : option cellErr :=
  match l with
  | [] => None
  | x :: r => match f i x with Some e => Some e | None => first_err f (S i) r end
  end.

(** The recursive call of the REPEATED branch is made on the same field with
    mode NULLABLE and a non-null element, where only the RECORD branch is left
    to run: [as_record] is that call. *)
Fixpoint validateDecodedField (field : tableField) (value : json) : option cellErr :=
  let as_record (value : json) : option cellErr :=
    if isRecordType (Type_ field) then
      match value with
      | JObj obj =>
          (fix subs (l : list tableField) : option cellErr :=
             match l with
             | [] => None
             | sub :: r =>
                 match validateDecodedField sub (obj_get obj (Name sub)) with
                 | Some e => Some (NestedField (Name sub) e)
                 | None => subs r
                 end
             end) (Fields field)
      | _ => Some RecordNotObject
      end
    else None in
  match value with
  | JNull => if bool_decide (normalizeMode (Mode field) = "REQUIRED") then Some RequiredNull else None
  | _ =>
      if bool_decide (Mode field = "REPEATED") then
        match value with
        | JArr items =>
            first_err (λ i item,
              match item with
              | JNull => Some (RepeatedElementNull i)
              | _ => RepeatedElement i <$> as_record item
              end) 0 items
        | _ => Some RepeatedNotArray
        end
      else as_record value
  end.

Definition validateStoredField (field : tableField) (cell : string) : option cellErr :=
  let '(raw, isNull) := loadStoredCell cell in
  if isNull then
    if bool_decide (normalizeMode (Mode field) = "REQUIRED") then Some RequiredNull else None
  else if negb (bool_decide (Mode field = "REPEATED")) && negb (isRecordType (Type_ field)) then None
  else match json_unmarshal raw with
       | None => Some InvalidNestedJSON
       | Some decoded => validateDecodedField field decoded
       end.

(** The first offending cell: 1-based row number, column name and reason. *)
Record rowErr := RowErr { errRow : nat; errColumn : string; errReason : cellErr }.

Fixpoint validateStoredRow (rowIndex columnIndex : nat) (sch : schema) (r : row) : option rowErr :=
  match sch with
  | [] => None
  | field :: rest =>
      match validateStoredField field (cell_at r columnIndex) with
      | Some e => Some (RowErr (S rowIndex) (Name field) e)
      | None => validateStoredRow rowIndex (S columnIndex) rest r
      end
  end.

Fixpoint validateStoredRows_from (rowIndex : nat) (sch : schema) (rows : list row) : option rowErr :=
  match rows with
  | [] => None
  | r :: rest =>
      match validateStoredRow rowIndex 0 sch r with
      | Some e => Some e
      | None => validateStoredRows_from (S rowIndex) sch rest
      end
  end.
Definition validateStoredRows (sch : schema) (rows : list row) : option rowErr :=
  validateStoredRows_from 0 sch rows.

(** ** The encoding of cells is lossless *)

Lemma null_not_escaped : has_prefix storedNullCell storedEscapedCellPrefix = false.
Proof. reflexivity. Qed.

Lemma load_store_cell v : loadStoredCell (storeStringCell v) = (v, false).
Proof.
  unfold loadStoredCell, storeStringCell.
  destruct (bool_decide (v = storedNullCell) || _) eqn:E.
  - rewrite bool_decide_false by done.
    by rewrite has_prefix_app, trim_prefix_app.
  - apply orb_false_iff in E as [-> ->]. done.
Qed.

(** Every Go string survives being stored as a cell: reading it back gives
    the same string, it never reads back as SQL NULL, and only the NULL tag
    does - including for user data that looks like one of the two tags. *)
Theorem cell_roundtrip (v : string) :
  loadStoredCell (storeStringCell v) = (v, false) ∧
  storedCellIsNull (storeStringCell v) = false ∧
  (∀ c, snd (loadStoredCell c) = true ↔ c = storedNullCell).
Proof.
  split; [apply load_store_cell|]. split.
  - pose proof (load_store_cell v) as H. unfold storedCellIsNull. apply bool_decide_eq_false.
    intros E. rewrite E in H. done.
  - intros c. unfold loadStoredCell. case_bool_decide; [done|]. case_match; naive_solver.
Qed.

(** ** What validation promises

    [conforms field v]: the JSON value is one the field admits.  REQUIRED
    admits no null; REPEATED is an array without nulls; a RECORD (or each
    element of a repeated one) is an object whose members conform, a missing
    member counting as null. *)
#[warnings="-register-all"]
Inductive conforms : tableField → json → Prop :=
| conforms_null f :
    normalizeMode (Mode f) ≠ "REQUIRED" → conforms f JNull
| conforms_repeated f items :
    Mode f = "REPEATED" → Forall (λ x, x ≠ JNull) items → Forall (shaped f) items →
    conforms f (JArr items)
| conforms_single f v :
    v ≠ JNull → Mode f ≠ "REPEATED" → shaped f v → conforms f v
with shaped : tableField → json → Prop :=
| shaped_scalar f v : isRecordType (Type_ f) = false → shaped f v
| shaped_record f obj :
    isRecordType (Type_ f) = true →
    Forall (λ sub, conforms sub (obj_get obj (Name sub))) (Fields f) →
    shaped f (JObj obj).

Lemma tableField_nested_ind (P : tableField → Prop) :
  (∀ f, Forall P (Fields f) → P f) → ∀ f, P f.
Proof.
  intros H. fix IH 1. intros [n t m fs]. apply H. simpl.
  induction fs as [|f fs IHfs]; constructor; [apply IH|done].
Qed.

Lemma first_err_none {A} (f : nat → A → option cellErr) i l :
  first_err f i l = None ↔ ∀ k x, l !! k = Some x → f (i + k)%nat x = None.
Proof.
  revert i. induction l as [|x l IH]; intros i; simpl; [done|].
  destruct (f i x) eqn:E.
  - split; [done|]. intros H. specialize (H O x eq_refl). rewrite Nat.add_0_r in H. congruence.
  - rewrite IH. split; intros H.
    + intros [|k] y Hy; simpl in Hy; [rewrite Nat.add_0_r; congruence|].
      replace (i + S k)%nat with (S i + k)%nat by lia. eauto.
    + intros k y Hy. replace (S i + k)%nat with (i + S k)%nat by lia. eauto.
Qed.

(** The object check inside [validateDecodedField], named for the proofs. *)
Definition check_record (field : tableField) (value : json) : option cellErr :=
  if isRecordType (Type_ field) then
    match value with
    | JObj obj =>
        (fix subs (l : list tableField) : option cellErr :=
           match l with
           | [] => None
           | sub :: r =>
               match validateDecodedField sub (obj_get obj (Name sub)) with
               | Some e => Some (NestedField (Name sub) e)
               | None => subs r
               end
           end) (Fields field)
    | _ => Some RecordNotObject
    end
  else None.

Lemma validateDecodedField_unfold field value :
  validateDecodedField field value =
  match value with
  | JNull => if bool_decide (normalizeMode (Mode field) = "REQUIRED") then Some RequiredNull else None
  | _ =>
      if bool_decide (Mode field = "REPEATED") then
        match value with
        | JArr items =>
            first_err (λ i item,
              match item with
              | JNull => Some (RepeatedElementNull i)
              | _ => RepeatedElement i <$> check_record field item
              end) 0 items
        | _ => Some RepeatedNotArray
        end
      else check_record field value
  end.
Proof. destruct field; reflexivity. Qed.

#[export] Instance is_null_dec (v : json) : Decision (v = JNull).
Proof. refine (match v with JNull => left _ | _ => right _ end); congruence. Defined.

Lemma check_record_spec f :
  Forall (λ sub, ∀ v, validateDecodedField sub v = None ↔ conforms sub v) (Fields f) →
  ∀ v, check_record f v = None ↔ shaped f v.
Proof.
  intros IH v. unfold check_record. destruct (isRecordType (Type_ f)) eqn:Er.
  - destruct v as [| | | | |obj];
      try (split; [done|inversion 1; congruence]).
    trans (Forall (λ sub, conforms sub (obj_get obj (Name sub))) (Fields f)).
    + induction IH as [|sub l Hs _ IHl]; [by split|].
      rewrite Forall_cons, <-IHl, <-Hs. destruct (validateDecodedField _ _); by intuition.
    + split; [by constructor|]. inversion 1; congruence.
  - split; [by constructor|done].
Qed.

Lemma validateDecodedField_spec f v : validateDecodedField f v = None ↔ conforms f v.
Proof.
  revert v. induction f as [f IH] using tableField_nested_ind. intros v.
  pose proof (check_record_spec f IH) as Hrec.
  rewrite validateDecodedField_unfold. destruct (decide (v = JNull)) as [->|Hn].
  { case_bool_decide; split; try done; [inversion 1; congruence|by constructor]. }
  destruct (decide (Mode f = "REPEATED")) as [Hm|Hm];
    [rewrite (bool_decide_true (Mode f = _)) by done|rewrite (bool_decide_false (Mode f = _)) by done].
  - trans (∃ items, v = JArr items ∧ Forall (λ x, x ≠ JNull) items ∧ Forall (shaped f) items).
    + destruct v as [| | | |items|]; try (split; [done|by intros (? & ? & _)]).
      rewrite first_err_none. setoid_rewrite Forall_lookup. split.
      * intros H. eexists; split; [done|]. split; intros k x Hx; specialize (H k x Hx); [by destruct x|].
        apply Hrec. destruct x; try done; by destruct (check_record f _).
      * intros (l & [= <-] & H1 & H2) k x Hx. specialize (H1 k x Hx).
        apply H2, Hrec in Hx. destruct x; try done; by rewrite Hx.
    + split; [intros (l & -> & ? & ?); by constructor|]. inversion 1; naive_solver.
  - trans (check_record f v = None); [by destruct v|]. rewrite Hrec.
    split; [by constructor|]. inversion 1; congruence.
Qed.

(** A stored cell is admissible for its column. *)
Definition cell_conforms (f : tableField) (cell : string) : Prop :=
  let '(raw, isNull) := loadStoredCell cell in
  if isNull then normalizeMode (Mode f) ≠ "REQUIRED"
  else (Mode f ≠ "REPEATED" ∧ isRecordType (Type_ f) = false) ∨
       ∃ v, json_unmarshal raw = Some v ∧ conforms f v.

Lemma validateStoredField_spec f c : validateStoredField f c = None ↔ cell_conforms f c.
Proof.
  unfold validateStoredField, cell_conforms. destruct (loadStoredCell c) as [raw [|]].
  { case_bool_decide; naive_solver. }
  destruct (_ && _) eqn:E; bools.
  - split; [|done]. intros _. left. by split.
  - assert (¬ (Mode f ≠ "REPEATED" ∧ isRecordType (Type_ f) = false)) as Hn.
    { intros [H1 H2]. rewrite bool_decide_false, H2 in E by done. done. }
    destruct (json_unmarshal raw) as [v|]; [rewrite validateDecodedField_spec|]; naive_solver.
Qed.

Definition row_conforms (sch : schema) (r : row) : Prop :=
  ∀ i f, sch !! i = Some f → cell_conforms f (cell_at r i).

Lemma validateStoredRow_spec n k sch r :
  validateStoredRow n k sch r = None ↔
  ∀ i f, sch !! i = Some f → cell_conforms f (cell_at r (k + i)).
Proof.
  revert k. induction sch as [|f sch IH]; intros k; simpl; [done|].
  pose proof (validateStoredField_spec f (cell_at r k)) as Hf.
  destruct (validateStoredField f (cell_at r k)).
  - split; [done|]. intros H. specialize (H O f eq_refl). rewrite Nat.add_0_r in H. by apply Hf in H.
  - rewrite IH. split; intros H.
    + intros [|i] g Hg; simpl in Hg; simplify_eq; [rewrite Nat.add_0_r; by apply Hf|].
      replace (k + S i)%nat with (S k + i)%nat by lia. eauto.
    + intros i g Hg. replace (S k + i)%nat with (k + S i)%nat by lia. eauto.
Qed.

Lemma validateStoredRows_none sch rows :
  validateStoredRows sch rows = None ↔ Forall (row_conforms sch) rows.
Proof.
  unfold validateStoredRows. generalize O. induction rows as [|r rows IH]; intros n; simpl; [done|].
  rewrite Forall_cons. pose proof (validateStoredRow_spec n 0 sch r) as Hr.
  destruct (validateStoredRow n 0 sch r).
  - split; [done|]. intros [H _]. by apply Hr in H.
  - rewrite IH. intuition.
Qed.

(** The catalog's row validation accepts a row image exactly when every
    cell of every row conforms to its column, recursively: no null under a
    REQUIRED field at any depth, no null element in a REPEATED field, an object
    under every RECORD; a cell missing from a short row counts as null. *)
Theorem validateStoredRows_spec (sch : schema) (rows : list row) :
  validateStoredRows sch rows = None ↔
  ∀ r i f, r ∈ rows → sch !! i = Some f → cell_conforms f (cell_at r i).
Proof.
  rewrite validateStoredRows_none, Forall_forall. unfold row_conforms. naive_solver.
Qed.

Lemma row_conforms_app sch rows1 rows2 :
  validateStoredRows sch (rows1 ++ rows2) = None ↔
  validateStoredRows sch rows1 = None ∧ validateStoredRows sch rows2 = None.
Proof. by rewrite !validateStoredRows_none, Forall_app. Qed.
