(* ===== verification/TableModel.v ===== *)
(** * Table resources (tables_service.go, table_partitioning.go: types)

    The records of the table catalog and the requests its service accepts.
    Struct fields keep their Go names behind a prefix ([tr_] for tableRecord,
    [ti_] tableInsert, [tp_] tablePatch, [tu_] tableUpdate).  A nil pointer is
    [None]; a nil slice or map is the empty one. *)

From S2P Require Import Prelude GoStrings GoTime Cells.

Record tableReference := TableRef {
  ref_ProjectID : string; ref_DatasetID : string; ref_TableID : string }.
#[export] Instance tableReference_eq_dec : EqDecision tableReference.
Proof. solve_decision. Defined.

Record viewConfig := ViewConfig { view_Query : string; view_Materialized : bool }.

Record externalTableConfig := ExternalConfig {
  ext_SourceURIs : list string; ext_SourceFormat : string;
  ext_FieldDelimiter : string; ext_SkipLeadingRows : Z; ext_Autodetect : bool }.

Record timePartitioningConfig := TimePartitioning {
  tpc_Type : string; tpc_Field : string; tpc_ExpirationMs : Z }.
Record rangePartitioningConfig := RangePartitioning {
  rpc_Field : string; rpc_Start : Z; rpc_End : Z; rpc_Interval : Z }.

Record tableRecord := TableRecord {
  tr_ProjectID : string;
  tr_DatasetID : string;
  tr_TableID : string;
  tr_FriendlyName : string;
  tr_Description : string;
  tr_Labels : gmap string string;
  tr_Schema : schema;
  tr_Rows : list row;
  tr_IngestionPartitions : list string;
  tr_External : option externalTableConfig;
  tr_View : option viewConfig;
  tr_TimePartitioning : option timePartitioningConfig;
  tr_RangePartitioning : option rangePartitioningConfig;
  tr_Clustering : list string;
  tr_RequirePartitionFilter : bool;
  tr_CreatedAt : Z;
  tr_UpdatedAt : Z;
  tr_Version : Z;
  tr_ExpirationTime : Z }.

#[export] Instance tableRecord_eta : Eta tableRecord := λ t,
  TableRecord (tr_ProjectID t) (tr_DatasetID t) (tr_TableID t) (tr_FriendlyName t)
    (tr_Description t) (tr_Labels t) (tr_Schema t) (tr_Rows t) (tr_IngestionPartitions t)
    (tr_External t) (tr_View t) (tr_TimePartitioning t) (tr_RangePartitioning t)
    (tr_Clustering t) (tr_RequirePartitionFilter t) (tr_CreatedAt t) (tr_UpdatedAt t)
    (tr_Version t) (tr_ExpirationTime t).

Record tableInsert := TableInsert {
  ti_ProjectID : string; ti_DatasetID : string; ti_TableID : string;
  ti_FriendlyName : string; ti_Description : string; ti_Labels : gmap string string;
  ti_Schema : schema; ti_Rows : list row;
  ti_External : option externalTableConfig; ti_View : option viewConfig;
  ti_TimePartitioning : option timePartitioningConfig;
  ti_RangePartitioning : option rangePartitioningConfig;
  ti_Clustering : list string; ti_RequirePartitionFilter : bool; ti_ExpirationTime : Z }.

(** A [Has*] flag with its value is an option. *)
Record tablePatch := TablePatch {
  tp_ProjectID : string; tp_DatasetID : string; tp_TableID : string;
  tp_FriendlyName : option string; tp_Description : option string;
  tp_Labels : option (gmap string string); tp_ExpirationTime : option Z;
  tp_Schema : option schema;
  tp_TimePartitioning : option (option timePartitioningConfig);
  tp_RangePartitioning : option (option rangePartitioningConfig);
  tp_Clustering : option (list string); tp_RequirePartitionFilter : option bool }.

Record tableUpdate := TableUpdate {
  tu_ProjectID : string; tu_DatasetID : string; tu_TableID : string;
  tu_FriendlyName : string; tu_Description : string; tu_Labels : gmap string string;
  tu_ExpirationTime : Z;
  tu_TimePartitioning : option timePartitioningConfig;
  tu_RangePartitioning : option rangePartitioningConfig;
  tu_Clustering : list string; tu_RequirePartitionFilter : bool }.

(** A bare table: what a table created on the fly (copy destination, demo
    data) starts from; every unset field has Go's zero value. *)
Definition new_table (projectID datasetID tableID : string) (sch : schema) (rows : list row)
    (now : Z) (version : Z) : tableRecord :=
  TableRecord projectID datasetID tableID "" "" ∅ sch rows [] None None None None [] false
    now now version zero_time.

(** [existing.UpdatedAt = now; existing.Version++] *)
Definition touch (now : Z) (t : tableRecord) : tableRecord :=
  t <| tr_UpdatedAt := now |> <| tr_Version ::= Z.succ |>.
