(* ===== verification/SqlStatements.v ===== *)
(** * Recognising the statements the server executes (sql_statements.go)

    From the text of a query to the statement the catalog must execute:
    comments, targets, DDL and DML, views, CREATE SCHEMA and the ALTER TABLE
    actions, and the guard that tells statements with effects from queries.  A
    parser's three results in Go, [(value, handled, error)], are [recognised]. *)

From S2P Require Import Prelude GoStrings Regexp SqlPatterns Cells TableModel.
From Stdlib Require Import Ascii.

Inductive recognised (E A : Type) : Type :=
| NotMine
| Refused (e : E)
| Mine (a : A).
Arguments NotMine {E A}.
Arguments Refused {E A} e.
Arguments Mine {E A} a.

(** The [handled] result. *)
Definition is_handled {E A} (r : recognised E A) : bool :=
  match r with NotMine => false | _ => true end.

Inductive parseErr :=
| InvalidTarget (raw : string)
| UnsupportedTargetSyntax
| UnsupportedStatement
| ExpectedAsSelect.

(** ** Text *)

(** What follows the first occurrence of [sub]: [strings.Index] and a slice. *)
Fixpoint text_after (sub s : string) : option string :=
  if has_prefix s sub then Some (str_drop (String.length sub) s)
  else match s with EmptyString => None | String _ r => text_after sub r end.

(** The comments before a statement.  Each round drops at least two bytes, so
    the length of the text is fuel enough ([trim_comments_fuel]). *)
Fixpoint trim_comments (fuel : nat) (remaining : string) : string :=
  match fuel with
  | O => remaining
  | S fuel =>
      if has_prefix remaining "--" then
        match text_after (String "010" "") remaining with
        | None => ""
        | Some r => trim_comments fuel (trim_space r)
        end
      else if has_prefix remaining "/*" then
        match text_after "*/" (str_drop 2 remaining) with
        | None => remaining
        | Some r => trim_comments fuel (trim_space r)
        end
      else remaining
  end.
Definition trimLeadingSQLComments (queryText : string) : string :=
  let remaining := trim_space queryText in trim_comments (String.length remaining) remaining.

Definition trim_suffix (s suf : string) : string :=
  String.rev (trim_prefix (String.rev s) (String.rev suf)).
(** [strings.TrimSpace(strings.TrimSuffix(strings.TrimSpace(s), ";"))] *)
Definition strip_semicolon (s : string) : string := trim_space (trim_suffix (trim_space s) ";").
Definition statement_text (queryText : string) : string := strip_semicolon (trimLeadingSQLComments queryText).

(** A group that took part in the match and is not blank. *)
Definition present (z : rst) (n : nat) : bool := negb (bool_decide (trim_space (sub z n) = "")).

Definition parsePersistentTarget (defaultProjectID raw : string) : parseErr + tableReference :=
  match (λ p, trim_char backtick (trim_space p)) <$> split_on "." (trim_space raw) with
  | [d; t] => inr (TableRef defaultProjectID d t)
  | [p; d; t] => inr (TableRef p d t)
  | _ => inl (InvalidTarget raw)
  end.

Definition with_target {A} (projectID raw : string) (k : tableReference → recognised parseErr A)
    : recognised parseErr A :=
  match parsePersistentTarget projectID raw with inl e => Refused e | inr t => k t end.

(** ** DML, CREATE TABLE and DROP TABLE *)

Record persistentSQLStatement := PersistentSQLStatement {
  ps_statementType : string; ps_target : tableReference;
  ps_dml : bool; ps_create : bool; ps_drop : bool;
  ps_ifExists : bool; ps_ifNotExists : bool; ps_orReplace : bool }.

Record candidate := Candidate {
  c_pattern : re; c_statementType : string;
  c_dml : bool; c_create : bool; c_drop : bool; c_targetGroup : nat }.

Definition candidates : list candidate :=
  [Candidate insertTargetPattern "INSERT" true false false 1;
   Candidate updateTargetPattern "UPDATE" true false false 1;
   Candidate deleteTargetPattern "DELETE" true false false 1;
   Candidate mergeTargetPattern "MERGE" true false false 1;
   Candidate truncateTargetPattern "TRUNCATE_TABLE" true false false 1;
   Candidate createTargetPattern "CREATE_TABLE" false true false 3;
   Candidate dropTargetPattern "DROP_TABLE" false false true 2].

Definition candidate_statement (c : candidate) (z : rst) (target : tableReference) : persistentSQLStatement :=
  PersistentSQLStatement (c_statementType c) target (c_dml c) (c_create c) (c_drop c)
    (c_drop c && present z 1) (c_create c && present z 2) (c_create c && present z 1).

Fixpoint first_candidate (cs : list candidate) (projectID stmt : string)
    : recognised parseErr persistentSQLStatement :=
  match cs with
  | [] => NotMine
  | c :: cs =>
      match find (c_pattern c) stmt with
      | None => first_candidate cs projectID stmt
      | Some z =>
          with_target projectID (sub z (c_targetGroup c)) (λ target, Mine (candidate_statement c z target))
      end
  end.

Definition parsePersistentSQLStatement (projectID queryText : string)
    : recognised parseErr persistentSQLStatement :=
  let stmt := statement_text queryText in
  match first_candidate candidates projectID stmt with
  | NotMine =>
      if match_string persistentLeadPattern stmt then Refused UnsupportedTargetSyntax
      else if match_string unsupportedMutationLeadPattern stmt then Refused UnsupportedStatement
      else NotMine
  | r => r
  end.

(** ** Views *)

Record persistentViewStatement := PersistentViewStatement {
  pv_target : tableReference; pv_materialized : bool; pv_orReplace : bool;
  pv_ifNotExists : bool; pv_ifExists : bool; pv_drop : bool; pv_selectBody : string }.

(** The text after the parenthesis that closes the first one. *)
Fixpoint after_closing (depth : Z) (s : string) : option string :=
  match s with
  | EmptyString => None
  | String c r =>
      if Ascii.eqb c "(" then after_closing (depth + 1) r
      else if Ascii.eqb c ")" then
        if depth - 1 =? 0 then Some r else after_closing (depth - 1) r
      else after_closing depth r
  end.

Definition stripLeadingOptionsClause (text : string) : string :=
  let trimmed := trim_space text in
  if (String.length trimmed <=? 7)%nat || negb (equal_fold (str_take 7 trimmed) "options") then text
  else
    let rest := trim_space (str_drop 7 trimmed) in
    if negb (has_prefix rest "(") then text
    else match after_closing 0 rest with
         | Some r => trim_space r
         | None => text
         end.

Definition parsePersistentViewStatement (projectID queryText : string)
    : recognised parseErr persistentViewStatement :=
  let stmt := statement_text queryText in
  match find dropViewTargetPattern stmt with
  | Some z =>
      with_target projectID (sub z 3) (λ target,
        Mine (PersistentViewStatement target (present z 1) false false (present z 2) true ""))
  | None =>
      match find createViewTargetPattern stmt with
      | None => NotMine
      | Some z =>
          with_target projectID (sub z 4) (λ target,
            let rest := stripLeadingOptionsClause (trim_space (str_drop (String.length (sub z 0)) stmt)) in
            match find viewAsClausePattern rest with
            | None => Refused ExpectedAsSelect
            | Some a =>
                Mine (PersistentViewStatement target (present z 2) (present z 1) (present z 3)
                        false false (trim_space (sub a 1)))
            end)
      end
  end.

(** ** CREATE SCHEMA: the dataset and IF NOT EXISTS *)

Definition parseCreateSchemaStatement (queryText : string) : option (string * bool) :=
  z ← find createSchemaTargetPattern (statement_text queryText);
  Some (sub z 2, present z 1).

(** ** ALTER TABLE *)

Record alterTableLead := AlterTableLead {
  al_target : tableReference; al_ifExists : bool; al_rest : string }.

Definition matchAlterTableLead (projectID queryText : string) : recognised parseErr alterTableLead :=
  match find alterTableTargetPattern (statement_text queryText) with
  | None => NotMine
  | Some z =>
      with_target projectID (sub z 2) (λ target,
        Mine (AlterTableLead target (present z 1) (trim_space (sub z 3))))
  end.

(** An action on a lead that was recognised. *)
Definition on_lead {A} (projectID queryText : string) (k : alterTableLead → recognised parseErr A)
    : recognised parseErr A :=
  match matchAlterTableLead projectID queryText with
  | NotMine => NotMine
  | Refused e => Refused e
  | Mine lead => k lead
  end.

(** One clause per comma, all of the same kind. *)
Definition clauses_of {A} (pattern : re) (clause : rst → A) (rest : string) : option (list A) :=
  mapM (λ text, clause <$> find pattern (trim_space text)) (split_on "," rest).

Definition normalizeAlterTableColumnType (t : string) : string :=
  let u := to_upper t in
  if bool_decide (u = "BOOLEAN") then "BOOL"
  else if bool_decide (u = "INTEGER") then "INT64"
  else if bool_decide (u = "FLOAT") then "FLOAT64"
  else u.

Record alterTableAddColumnClause := AddColumnClause { ac_field : tableField; ac_ifNotExists : bool }.
Record persistentAlterTableAddColumns := AlterTableAddColumns {
  aa_target : tableReference; aa_ifExists : bool; aa_clauses : list alterTableAddColumnClause }.

Definition add_clause (z : rst) : alterTableAddColumnClause :=
  AddColumnClause (TableField (sub z 2) (normalizeAlterTableColumnType (sub z 3)) "NULLABLE" []) (present z 1).

Definition parsePersistentAlterTableAddColumns (projectID queryText : string)
    : recognised parseErr persistentAlterTableAddColumns :=
  on_lead projectID queryText (λ lead,
    match clauses_of addColumnClausePattern add_clause (al_rest lead) with
    | None | Some [] => NotMine
    | Some clauses => Mine (AlterTableAddColumns (al_target lead) (al_ifExists lead) clauses)
    end).

Record alterTableDropColumnClause := DropColumnClause { dc_name : string; dc_ifExists : bool }.
Record persistentAlterTableDropColumns := AlterTableDropColumns {
  ad_target : tableReference; ad_ifExists : bool; ad_clauses : list alterTableDropColumnClause }.

Definition drop_clause (z : rst) : alterTableDropColumnClause := DropColumnClause (sub z 2) (present z 1).

Definition parsePersistentAlterTableDropColumns (projectID queryText : string)
    : recognised parseErr persistentAlterTableDropColumns :=
  on_lead projectID queryText (λ lead,
    match clauses_of dropColumnClausePattern drop_clause (al_rest lead) with
    | None | Some [] => NotMine
    | Some clauses => Mine (AlterTableDropColumns (al_target lead) (al_ifExists lead) clauses)
    end).

Record alterTableRenameColumnClause := RenameColumnClause {
  rc_oldName : string; rc_newName : string; rc_ifExists : bool }.
Record persistentAlterTableRenameColumns := AlterTableRenameColumns {
  ar_target : tableReference; ar_ifExists : bool; ar_clauses : list alterTableRenameColumnClause }.

Definition rename_clause (z : rst) : alterTableRenameColumnClause :=
  RenameColumnClause (sub z 2) (sub z 3) (present z 1).

Definition parsePersistentAlterTableRenameColumns (projectID queryText : string)
    : recognised parseErr persistentAlterTableRenameColumns :=
  on_lead projectID queryText (λ lead,
    match clauses_of renameColumnClausePattern rename_clause (al_rest lead) with
    | None | Some [] => NotMine
    | Some clauses => Mine (AlterTableRenameColumns (al_target lead) (al_ifExists lead) clauses)
    end).

Record persistentAlterTableRenameTo := AlterTableRenameTo {
  at_target : tableReference; at_ifExists : bool; at_newTableID : string }.

Definition parsePersistentAlterTableRenameTo (projectID queryText : string)
    : recognised parseErr persistentAlterTableRenameTo :=
  on_lead projectID queryText (λ lead,
    match find renameTableToPattern (al_rest lead) with
    | None => NotMine
    | Some z => Mine (AlterTableRenameTo (al_target lead) (al_ifExists lead) (sub z 1))
    end).

Record persistentAlterTableSetOptions := AlterTableSetOptions {
  as_target : tableReference; as_ifExists : bool }.

Definition parsePersistentAlterTableSetOptions (projectID queryText : string)
    : recognised parseErr persistentAlterTableSetOptions :=
  on_lead projectID queryText (λ lead,
    if negb (match_string setOptionsLeadPattern (al_rest lead)) then NotMine
    else
      let remainder := stripLeadingOptionsClause (trim_space (str_drop 3 (al_rest lead))) in
      if bool_decide (trim_space remainder = "")
      then Mine (AlterTableSetOptions (al_target lead) (al_ifExists lead))
      else NotMine).

(** ** Statements with effects *)

Definition isPersistentAlterTableStatement (projectID queryText : string) : bool :=
  is_handled (parsePersistentAlterTableAddColumns projectID queryText) ||
  is_handled (parsePersistentAlterTableDropColumns projectID queryText) ||
  is_handled (parsePersistentAlterTableRenameColumns projectID queryText) ||
  is_handled (parsePersistentAlterTableRenameTo projectID queryText) ||
  is_handled (parsePersistentAlterTableSetOptions projectID queryText).

Definition isMutatingOrSessionControlStatement (projectID queryText : string) : bool :=
  is_handled (parsePersistentSQLStatement projectID queryText) ||
  is_handled (parsePersistentViewStatement projectID queryText) ||
  bool_decide (is_Some (parseCreateSchemaStatement queryText)) ||
  isPersistentAlterTableStatement projectID queryText ||
  (let trimmedQuery := strip_semicolon queryText in
   match_string sessionBeginPattern trimmedQuery || match_string sessionCommitPattern trimmedQuery ||
   match_string sessionRollbackPattern trimmedQuery ||
   match_string sessionCreateTempTablePattern trimmedQuery).
