(* ===== verification/SqlRecognition.v ===== *)
(** * The statement recognisers are right (sql_statements.go)

    Targets captured by a pattern always have two or three parts; every
    spelling of a supported statement, in any case, with any spacing and any
    quoting of its target, is recognised as that statement. *)

From S2P Require Import Prelude GoStrings Regexp SqlPatterns Cells TableModel SqlStatements.
From Stdlib Require Import Ascii.
From Stdlib Require String.

Local Open Scope re_scope.

(** ** Character classes *)

(** Facts about one byte are decided by trying all of them. *)
Definition all_bytes : list ascii := ascii_of_nat <$> seq 0 256.
Lemma elem_of_all_bytes c : c ∈ all_bytes.
Proof.
  apply list_elem_of_fmap. exists (nat_of_ascii c). split; [by rewrite ascii_nat_embedding|].
  apply elem_of_seq. pose proof (nat_ascii_bounded c). lia.
Qed.
Lemma byte_fact (A B : ascii → bool) (b : bool) :
  forallb (λ c, implb (A c) (Bool.eqb (B c) b)) all_bytes = true → ∀ c, A c = true → B c = b.
Proof.
  intros Hall c Hc. rewrite forallb_forall in Hall.
  specialize (Hall c). rewrite <-list_elem_of_In, Hc in Hall. apply Bool.eqb_prop.
  by apply Hall, elem_of_all_bytes.
Qed.
Ltac by_bytes :=
  match goal with |- ∀ c, @?A c = true → @?B c = ?b =>
    refine (byte_fact A B b _); vm_compute; reflexivity end.
Ltac each_byte c := destruct c as [[] [] [] [] [] [] [] []]; first [discriminate|reflexivity].

Lemma letter_name c : letter_char c = true → name_char c = true.
Proof. revert c. by_bytes. Qed.
Lemma name_not_lead c : name_char c = true → lead_byte c = false.
Proof. revert c. by_bytes. Qed.
Lemma name_not_tick c : name_char c = true → Ascii.eqb backtick c = false.
Proof. revert c. by_bytes. Qed.


Lemma letters_plain w : all_chars letter_char w = true → plain w = true.
Proof.
  apply all_chars_impl. intros c Hc. by rewrite name_not_lead by (by apply letter_name).
Qed.

Lemma reads_name : reads name_class name_char.
Proof. apply reads_iclass, name_not_lead. Qed.
Lemma reads_space : reads rspace space_char.
Proof. apply reads_set. Qed.

(** ** Trimming text that begins and ends with printable characters *)

Definition printable (c : ascii) : bool :=
  let n := nat_of_ascii c in ((33 <=? n) && (n <=? 126))%nat.

Lemma name_printable c : name_char c = true → printable c = true.
Proof. revert c. by_bytes. Qed.

Lemma head_enc_printable c s : printable c = true → head_enc space_encodings (String c s) = O.
Proof. each_byte c. Qed.
Lemma head_enc_rev_printable c s :
  printable c = true → head_enc (String.rev <$> space_encodings) (String c s) = O.
Proof. each_byte c. Qed.

Definition ends_printable (s : string) : Prop :=
  match s with EmptyString => False | String c _ => printable c = true end ∧
  match String.rev s with EmptyString => False | String c _ => printable c = true end.

Lemma trim_space_id s : ends_printable s → trim_space s = s.
Proof.
  intros [Hf Hl]. unfold trim_space, trim_right, trim_left.
  destruct s as [|c s]; [done|]. assert (trim_go space_encodings 0 (String c s) = String c s) as ->.
  { cbn [trim_go]. by rewrite head_enc_printable. }
  destruct (String.rev (String c s)) as [|d r] eqn:E; [done|].
  assert (trim_go (String.rev <$> space_encodings) 0 (String d r) = String d r) as ->.
  { cbn [trim_go]. by rewrite head_enc_rev_printable. }
  rewrite <-E. apply rev_rev.
Qed.

(** ** Targets *)

(** A part of a target: a name with its optional backticks. *)
Record segment_text := Segment { sg_open : bool; sg_name : string; sg_close : bool }.
Definition opt_tick (b : bool) : string := if b then String backtick "" else "".
Definition seg_text (s : segment_text) : string := opt_tick (sg_open s) +:+ sg_name s +:+ opt_tick (sg_close s).
Definition name_ok (s : string) : Prop := s ≠ "" ∧ all_chars name_char s = true.
Definition target_text (segs : list segment_text) : string := join "." (seg_text <$> segs).

(** What may follow a target: nothing that could continue it. *)
Definition ends_target (t : string) : bool :=
  match t with
  | EmptyString => true
  | String c _ => negb (name_char c) && negb (lead_byte c) && negb (Ascii.eqb backtick c) && negb (Ascii.eqb "." c)
  end.
Definition ends_segment (t : string) : bool :=
  match t with
  | EmptyString => true
  | String c _ => negb (name_char c) && negb (lead_byte c) && negb (Ascii.eqb backtick c)
  end.

Lemma ends_target_segment t : ends_target t = true → ends_segment t = true.
Proof. destruct t as [|c t]; [done|]. simpl. by intros [H _]%andb_true_iff. Qed.

Lemma run_tick b t k x z :
  r_rest x = opt_tick b +:+ t → match t with String c _ => Ascii.eqb backtick c = false | _ => True end →
  k (skip (opt_tick b) t x) = Some z → run tick k x = Some z.
Proof.
  intros E Ht Hk. unfold tick. destruct b; unfold opt_tick in *.
  - apply run_opt_hit. rewrite str_app_cons, str_app_nil in E. cbn [run]. rewrite E.
    by rewrite advance_skip.
  - rewrite run_opt_miss; [rewrite str_app_nil in E; by rewrite <-E, skip_nil in Hk|].
    cbn [run]. rewrite E, str_app_nil. destruct t as [|c t]; [done|]. unfold char_is. by rewrite Ht.
Qed.

Lemma run_segment s t k x z :
  r_rest x = seg_text s +:+ t → name_ok (sg_name s) → ends_segment t = true →
  k (skip (seg_text s) t x) = Some z → run segment k x = Some z.
Proof.
  destruct s as [o n c]. unfold seg_text, name_ok. simpl. intros E [Hne Hn] Ht Hk.
  rewrite !str_app_assoc in E. change (run tick (run (rplus name_class) (run tick k)) x = Some z).
  apply (run_tick o _ _ _ _ E).
  { destruct n as [|d n]; [done|]. rewrite str_app_cons. simpl in Hn. bools. by apply name_not_tick. }
  apply (run_plus_greedy _ _ reads_name n (opt_tick c +:+ t)); [done|done|done| |].
  - apply (run_tick c t); [done| |].
    + destruct t as [|d t]; [done|]. simpl in Ht. by bools.
    + by rewrite !skip_skip.
  - destruct c; [done|]. simpl. destruct t as [|d t]; [done|]. rewrite str_app_nil. simpl in Ht |- *. bools.
    apply andb_true_iff; split; by apply negb_true_iff.
Qed.

Lemma run_dot t k x : r_rest x = String "." t → run (lit ".") k x = k (skip "." t x).
Proof. intros E. cbn. rewrite E. cbn. by rewrite advance_skip. Qed.

Lemma run_dot_segment s t k x z :
  r_rest x = String "." (seg_text s +:+ t) → name_ok (sg_name s) → ends_segment t = true →
  k (skip (String "." (seg_text s)) t x) = Some z → run dot_segment k x = Some z.
Proof.
  intros E Hs Ht Hk. change (run (lit ".") (run segment k) x = Some z). rewrite (run_dot _ _ _ E).
  apply (run_segment s t); [done..|]. by rewrite skip_skip.
Qed.

Lemma run_no_dot k x :
  match r_rest x with String c _ => Ascii.eqb "." c = false | _ => True end → run dot_segment k x = None.
Proof.
  intros H. change (run (RSet (char_is ".")) (run segment k) x = None). cbn [run].
  destruct (r_rest x); [done|]. unfold char_is. by rewrite H.
Qed.

Definition segs_ok (segs : list segment_text) : Prop :=
  (length segs = 2%nat ∨ length segs = 3%nat) ∧ Forall (λ s, name_ok (sg_name s)) segs.

(** The state after a group whose text is known. *)
Definition mark (n : nat) (w t : string) (x : rst) : rst :=
  RSt (last_byte (r_prev x) w) t (r_pos x + String.length w) ((n, (r_pos x, w)) :: r_caps x).
Lemma record_skip n w t x : r_rest x = w +:+ t → record n x (skip w t x) = mark n w t x.
Proof.
  intros E. unfold record, skip, mark. simpl. rewrite E, Nat.add_comm, Nat.add_sub, str_take_app. done.
Qed.
Lemma run_group n a w t k x z :
  r_rest x = w +:+ t →
  (∀ h, h (skip w t x) = Some z → run a h x = Some z) →
  k (mark n w t x) = Some z → run (RGroup n a) k x = Some z.
Proof. intros E Ha Hk. apply (Ha (λ y, k (record n x y))). by rewrite (record_skip _ _ _ _ E). Qed.

Lemma run_target n segs t k x z :
  segs_ok segs → r_rest x = target_text segs +:+ t → ends_target t = true →
  k (mark n (target_text segs) t x) = Some z → run (persistentTargetExpression n) k x = Some z.
Proof.
  intros [Hlen Hok] E Ht Hk. apply (run_group _ _ _ _ _ _ _ E); [|done]. intros h Hh.
  apply ends_target_segment in Ht as Hs.
  change (run segment (run dot_segment (run (ropt dot_segment) h)) x = Some z).
  assert (∀ u v, ends_segment (String "." u) = true ∧ String "." u +:+ v = String "." (u +:+ v)) as Hd by done.
  destruct segs as [|a [|b [|c [|? ?]]]]; simpl in Hlen; try lia;
    repeat match goal with H : Forall _ (_ :: _) |- _ => apply Forall_cons in H as [? ?] end;
    unfold target_text in *; simpl join in *; simpl fmap in *;
    rewrite ?str_app_cons, ?str_app_nil, ?str_app_assoc in *.
  - eapply run_segment; [done|done|done|]. eapply run_dot_segment; [done|done|done|].
    rewrite run_opt_miss.
    + rewrite skip_skip. by rewrite str_app_cons in *.
    + apply run_no_dot. destruct t as [|d t]; [done|]. simpl in Ht. by bools.
  - eapply run_segment; [done|done|done|].
    rewrite ?str_app_cons, ?str_app_nil, ?str_app_assoc in *.
    eapply run_dot_segment; [done|done|done|].
    apply run_opt_hit. eapply run_dot_segment; [done|done|done|].
    by rewrite !skip_skip, ?str_app_cons, ?str_app_assoc in *.
Qed.

(** ** The parts of a target *)

Lemma opt_tick_printable b : all_chars printable (opt_tick b) = true.
Proof. by destruct b. Qed.
Lemma printable_ends s : s ≠ "" → all_chars printable s = true → ends_printable s.
Proof.
  intros Hne Hp. split.
  - destruct s; [done|]. simpl in Hp. by bools.
  - destruct (String.rev s) eqn:E; [|rewrite <-all_chars_rev, E in Hp; simpl in Hp; by bools].
    destruct s; [done|]. rewrite rev_cons in E. by destruct (String.rev s).
Qed.

Lemma str_mem_all c f s : all_chars f s = true → f c = false → str_mem c s = false.
Proof.
  intros Hs Hc. induction s as [|d s IH]; [done|]. simpl in *. bools.
  rewrite bool_decide_false; [by apply IH|]. intros ->. congruence.
Qed.

Lemma seg_chars s : name_ok (sg_name s) → all_chars (λ c, name_char c || Ascii.eqb backtick c) (seg_text s) = true.
Proof.
  intros [_ Hn]. unfold seg_text. rewrite !all_chars_app.
  rewrite (all_chars_impl name_char _ (sg_name s)); [|by intros c ->|done].
  by destruct (sg_open s), (sg_close s).
Qed.

Lemma seg_nonempty s : name_ok (sg_name s) → seg_text s ≠ "".
Proof. intros [Hne _]. unfold seg_text. destruct (sg_open s), (sg_name s); done. Qed.

Lemma seg_printable s : name_ok (sg_name s) → ends_printable (seg_text s).
Proof.
  intros Hs. apply printable_ends; [by apply seg_nonempty|].
  eapply all_chars_impl; [|by apply seg_chars]. by_bytes.
Qed.

(** Trimming backticks off a quoted name. *)
Lemma trim_go_tick (b : bool) c s :
  Ascii.eqb backtick c = false → trim_go [String backtick ""] 0 (opt_tick b +:+ String c s) = String c s.
Proof.
  intros Hc. assert (trim_go [String backtick ""] 0 (String c s) = String c s) as H0.
  { cbn [trim_go head_enc]. unfold has_prefix. cbn [String.prefix].
    destruct (ascii_dec backtick c) as [Heq|]; [|done]. by rewrite Heq, Ascii.eqb_refl in Hc. }
  destruct b; [|by rewrite str_app_nil]. unfold opt_tick. rewrite str_app_cons, str_app_nil. done.
Qed.

Lemma trim_seg s : name_ok (sg_name s) → trim_char backtick (seg_text s) = sg_name s.
Proof.
  destruct s as [o n e]. intros [Hne Hn]. simpl in *. unfold trim_char, seg_text. cbn [sg_open sg_name sg_close].
  destruct n as [|c n]; [done|]. simpl in Hn. bools. rewrite str_app_cons.
  rewrite trim_go_tick by (by apply name_not_tick). rewrite <-str_app_cons.
  rewrite rev_append. destruct (String.rev (String c n)) as [|d r] eqn:E.
  { rewrite rev_cons in E. by destruct (String.rev n). }
  assert (name_char d = true) as Hd.
  { assert (all_chars name_char (String.rev (String c n)) = true) as Hr.
    { rewrite all_chars_rev. simpl. by apply andb_true_iff. }
    rewrite E in Hr. simpl in Hr. by bools. }
  assert (String.rev (opt_tick e) = opt_tick e) as -> by by destruct e.
  rewrite trim_go_tick by (by apply name_not_tick). rewrite <-E. apply rev_rev.
Qed.

Definition seg_target (projectID : string) (segs : list segment_text) : option tableReference :=
  match sg_name <$> segs with
  | [d; t] => Some (TableRef projectID d t)
  | [p; d; t] => Some (TableRef p d t)
  | _ => None
  end.

Lemma target_printable segs :
  segs_ok segs → target_text segs ≠ "" ∧ all_chars printable (target_text segs) = true.
Proof.
  intros [Hlen Hok].
  assert (Forall (λ s, seg_text s ≠ "" ∧ all_chars printable (seg_text s) = true) segs) as Hall.
  { eapply Forall_impl; [exact Hok|]. intros s Hs. split; [by apply seg_nonempty|].
    eapply all_chars_impl; [|by apply seg_chars]. by_bytes. }
  destruct segs as [|a [|b segs]]; simpl in Hlen; [lia|lia|].
  apply Forall_cons in Hall as [[Hne Ha] Hall]. split.
  { unfold target_text. simpl. by destruct (seg_text a). }
  assert (∀ l, Forall (λ s, seg_text s ≠ "" ∧ all_chars printable (seg_text s) = true) l →
    all_chars printable (join "." (seg_text <$> l)) = true) as Hj.
  { clear. induction 1 as [|s l [_ Hs] Hl IH]; [done|]. destruct l as [|s' l]; [done|].
    simpl. rewrite !all_chars_app. simpl in IH. by rewrite Hs, IH. }
  by apply (Hj (a :: b :: segs)), Forall_cons.
Qed.

Lemma parse_target_text projectID segs t :
  segs_ok segs → seg_target projectID segs = Some t →
  parsePersistentTarget projectID (target_text segs) = inr t.
Proof.
  intros Hok Ht. unfold parsePersistentTarget.
  destruct (target_printable segs Hok) as [Hne Hp]. rewrite trim_space_id by (by apply printable_ends).
  destruct Hok as [Hlen Hok]. unfold target_text. rewrite split_join.
  - rewrite <-list_fmap_compose.
    assert (((λ p, trim_char backtick (trim_space p)) ∘ seg_text) <$> segs = sg_name <$> segs) as ->.
    { apply list_fmap_ext. intros i s Hi. simpl. rewrite Forall_lookup in Hok. apply Hok in Hi.
      by rewrite trim_space_id, trim_seg by (by try apply seg_printable). }
    unfold seg_target in Ht. by repeat case_match; simplify_eq.
  - destruct segs; [simpl in Hlen; lia|done].
  - apply Forall_fmap. eapply Forall_impl; [exact Hok|]. intros s Hs. simpl.
    by eapply str_mem_all; [by apply seg_chars|].
Qed.

(** ** Keywords *)

(** [spelled kws text]: the keywords in any case, each followed by white space. *)
Inductive spelled : list string → string → Prop :=
| spelled_nil : spelled [] ""
| spelled_cons kw kws w sp r :
    all_chars letter_char w = true → to_lower w = to_lower kw → w ≠ "" →
    sp ≠ "" → all_chars space_char sp = true → spelled kws r →
    spelled (kw :: kws) (w +:+ sp +:+ r).

(** Text that begins a word or a target. *)
Definition begins_name (t : string) : bool :=
  match t with EmptyString => false | String c _ => name_char c || Ascii.eqb backtick c end.

Lemma begins_name_stops t : begins_name t = true → stops space_char t = true.
Proof. destruct t as [|c t]; [done|]. unfold begins_name, stops. revert c. by_bytes. Qed.
Lemma begins_name_app t u : begins_name t = true → begins_name (t +:+ u) = true.
Proof. by destruct t. Qed.
Lemma word_begins w u : all_chars letter_char w = true → w ≠ "" → begins_name (w +:+ u) = true.
Proof.
  destruct w as [|c w]; [done|]. rewrite str_app_cons. simpl. intros [Hc _]%andb_true_iff _.
  by rewrite letter_name.
Qed.
Lemma spelled_begins kws pre u :
  spelled kws pre → begins_name u = true → begins_name (pre +:+ u) = true.
Proof.
  destruct 1; intros Hu; [by rewrite str_app_nil|]. rewrite str_app_assoc. by apply word_begins.
Qed.

Lemma run_spaces sp t k x z :
  sp ≠ "" → all_chars space_char sp = true → r_rest x = sp +:+ t → stops space_char t = true →
  k (skip sp t x) = Some z → run spaces k x = Some z.
Proof. intros. by eapply (run_plus_greedy _ _ reads_space). Qed.

(** One keyword with the space after it. *)
Lemma run_word kw w sp t R k x z :
  to_lower w = to_lower kw → all_chars letter_char w = true →
  sp ≠ "" → all_chars space_char sp = true →
  r_rest x = w +:+ sp +:+ t → begins_name t = true →
  run R k (skip (w +:+ sp) t x) = Some z → run (ilit kw ⋅ spaces ⋅ R) k x = Some z.
Proof.
  intros Hl Hw Hne Hsp E Ht HR. change (run (ilit kw) (run spaces (run R k)) x = Some z).
  rewrite (run_ilit _ w (sp +:+ t)) by (by try apply letters_plain).
  eapply run_spaces; [done|done|done|by apply begins_name_stops|]. by rewrite skip_skip.
Qed.
(** The same at the end of a pattern. *)
Lemma run_word_last kw w sp t k x z :
  to_lower w = to_lower kw → all_chars letter_char w = true →
  sp ≠ "" → all_chars space_char sp = true →
  r_rest x = w +:+ sp +:+ t → begins_name t = true →
  k (skip (w +:+ sp) t x) = Some z → run (ilit kw ⋅ spaces) k x = Some z.
Proof.
  intros Hl Hw Hne Hsp E Ht HR. change (run (ilit kw) (run spaces k) x = Some z).
  rewrite (run_ilit _ w (sp +:+ t)) by (by try apply letters_plain).
  eapply run_spaces; [done|done|done|by apply begins_name_stops|]. by rewrite skip_skip.
Qed.

(** Another keyword is there instead. *)
Lemma run_word_clash kw kw' w t R k x :
  to_lower w = to_lower kw' → all_chars letter_char w = true → clash kw kw' = true →
  r_rest x = w +:+ t → run (ilit kw ⋅ R) k x = None.
Proof.
  intros Hl Hw Hc E. change (run (ilit kw) (run R k) x = None).
  apply (run_ilit_clash _ w t); [by rewrite (clash_lower kw w kw')|by apply letters_plain|done].
Qed.

Lemma run_spaces0_start R k x : begins_name (r_rest x) = true → run (spaces0 ⋅ R) k x = run R k x.
Proof.
  intros Hb. change (run spaces0 (run R k) x = run R k x).
  apply (run_star_stop _ _ reads_space). by apply begins_name_stops.
Qed.

(** A keyword followed by space is not the start of a target, whatever the
    target's names are: a name is followed by a dot or a backtick. *)
Definition keyword_byte (c : ascii) : bool :=
  letter_char c || Ascii.eqb c "197" || Ascii.eqb c "191" || Ascii.eqb c "226" ||
  Ascii.eqb c "132" || Ascii.eqb c "170".

Lemma same_letter_letter c d : letter_char c = true → same_letter c d = true → letter_char d = true.
Proof.
  unfold same_letter. intros Hc Hd. apply Ascii.eqb_eq in Hd.
  assert (letter_char (lower_ascii c) = true) as Hl by (clear Hd; revert c Hc; by_bytes).
  rewrite Hd in Hl. revert Hl. clear. revert d. by_bytes.
Qed.

Lemma matches_byte n x y :
  matches (byte n) x y → ∃ t, r_rest x = String (ascii_of_nat n) t ∧ r_rest y = t.
Proof.
  inversion 1 as [ |? ? c t E Hc| | | | | | | | | | | ]; subst. exists t. unfold char_is in Hc.
  apply Ascii.eqb_eq in Hc. by rewrite Hc.
Qed.

Lemma matches_folded c x y :
  letter_char c = true → matches (folded c) x y →
  ∃ w, r_rest x = w +:+ r_rest y ∧ all_chars keyword_byte w = true ∧ w ≠ "".
Proof.
  intros Hc Hm.
  assert (∀ y, matches (RSet (same_letter c)) x y →
    ∃ w, r_rest x = w +:+ r_rest y ∧ all_chars keyword_byte w = true ∧ w ≠ "") as Hset.
  { inversion 1 as [ |? ? d t E Hd| | | | | | | | | | | ]; subst. exists (String d ""). rewrite E.
    split_and!; [done| |done]. simpl. unfold keyword_byte. by rewrite (same_letter_letter c d). }
  unfold folded in Hm. repeat case_match; [| |by apply Hset].
  - inversion Hm as [ | | |? ? ? ? Ha|? ? ? ? Ha| | | | | | | | ]; subst; [by apply Hset|].
    inversion Ha as [ | |? ? ? ? ? H1 H2| | | | | | | | | | ]; subst.
    apply matches_byte in H1 as (t & E1 & <-), H2 as (t' & E2 & <-). rewrite E1, E2.
    by exists (bytes [197; 191]%nat).
  - inversion Hm as [ | | |? ? ? ? Ha|? ? ? ? Ha| | | | | | | | ]; subst; [by apply Hset|].
    inversion Ha as [ | |? ? ? ? ? H1 H2| | | | | | | | | | ]; subst.
    inversion H2 as [ | |? ? ? ? ? H3 H4| | | | | | | | | | ]; subst.
    apply matches_byte in H1 as (t & E1 & <-), H3 as (t' & E3 & <-), H4 as (t'' & E4 & <-).
    rewrite E1, E3, E4. by exists (bytes [226; 132; 170]%nat).
Qed.

Lemma matches_ilit kw : ∀ x y,
  all_chars letter_char kw = true → matches (ilit kw) x y →
  ∃ w, r_rest x = w +:+ r_rest y ∧ all_chars keyword_byte w = true.
Proof.
  induction kw as [|c kw IH]; intros x y Hkw Hm.
  - inversion Hm; subst. by exists "".
  - simpl in Hkw. apply andb_true_iff in Hkw as [Hc Hkw]. destruct kw as [|d kw].
    { apply matches_folded in Hm as (w & ? & ? & _); [by exists w|done]. }
    change (matches (RCat (folded c) (ilit (String d kw))) x y) in Hm.
    inversion Hm as [ | |? ? ? ? ? H1 H2| | | | | | | | | | ]; subst.
    apply matches_folded in H1 as (w & E1 & Hw & _); [|done]. apply IH in H2 as (v & E2 & Hv); [|done].
    exists (w +:+ v). by rewrite E1, E2, str_app_assoc, all_chars_app, Hw, Hv.
Qed.

(** Two decompositions at the first character outside a class agree. *)
Lemma first_outside (P : ascii → bool) u v c d r s :
  all_chars P u = true → all_chars P v = true → P c = false → P d = false →
  u +:+ String c r = v +:+ String d s → c = d.
Proof.
  revert v. induction u as [|a u IH]; intros [|b v]; rewrite ?str_app_nil, ?str_app_cons; simpl;
    intros Hu Hv Hc Hd E; injection E; intros; subst; bools; try congruence. by eapply IH.
Qed.

Lemma run_word_not_target kw n k x o name d t :
  all_chars letter_char kw = true → name_ok name → d = "."%char ∨ d = backtick →
  r_rest x = opt_tick o +:+ name +:+ String d t → run (RGroup n (ilit kw ⋅ spaces)) k x = None ∧
  run (ilit kw ⋅ spaces) k x = None ∧ ∀ R, run (RGroup n (ilit kw ⋅ spaces ⋅ R)) k x = None.
Proof.
  intros Hkw [_ Hn] Hd E.
  assert (∀ y z, matches (ilit kw) x y → matches spaces y z → False) as Hno.
  { intros y z Hm Hs. apply matches_ilit in Hm as (w & Ew & Hw); [|done].
    inversion Hs as [ | |? ? ? ? ? H1 H2| | | | | | | | | | ]; subst.
    inversion H1 as [ |? ? c u Ec Hc| | | | | | | | | | | ]; subst. rewrite E, Ec in Ew.
    set (P c := keyword_byte c || name_char c).
    assert (P c = false) as Pc by (unfold P; revert Hc; clear; revert c; by_bytes).
    assert (all_chars P w = true) as Pw by (eapply all_chars_impl; [|exact Hw]; intros a Ha; unfold P; by rewrite Ha).
    destruct o; unfold opt_tick in Ew.
    - rewrite str_app_cons, str_app_nil in Ew.
      assert (backtick = c) as <-; [|done]. eapply (first_outside P "" w); [done..|exact Ew].
    - rewrite str_app_nil in Ew. assert (d = c) as <-.
      { eapply (first_outside P name w); [|done| |done|exact Ew].
        - eapply all_chars_impl; [|exact Hn]. intros a Ha. unfold P. by rewrite Ha, orb_true_r.
        - by destruct Hd as [-> | ->]. }
      by destruct Hd as [-> | ->]. }
  assert (∀ R h, (R = spaces ∨ ∃ Q, R = spaces ⋅ Q) → run (ilit kw ⋅ R) h x = None) as Hrun.
  { intros R h HR. destruct (run (ilit kw ⋅ R) h x) eqn:Er; [|done]. exfalso.
    apply run_sound in Er as (y & Hm & _). inversion Hm as [ | |? ? ? y' ? H1 H2| | | | | | | | | | ]; subst.
    destruct HR as [->|[Q ->]]; [by eapply Hno|].
    inversion H2 as [ | |? ? ? y'' ? H3 H4| | | | | | | | | | ]; subst. by eapply Hno. }
  split_and!; [apply (Hrun spaces (λ y, k (record n x y)))|apply (Hrun spaces)|
    intros R; apply (Hrun (spaces ⋅ R) (λ y, k (record n x y)))]; eauto.
Qed.

(** ** Statements *)

Inductive stmt_form :=
| FInsert (into : bool) | FUpdate | FDelete (from : bool) | FMerge (into : bool) | FTruncate
| FCreate (orReplace ifNotExists : bool) | FDrop (ifExists : bool).

Definition opt_words (b : bool) (ws : list string) : list string := if b then ws else [].
Definition form_words (f : stmt_form) : list string :=
  match f with
  | FInsert into => "INSERT" :: opt_words into ["INTO"]
  | FUpdate => ["UPDATE"]
  | FDelete from => "DELETE" :: opt_words from ["FROM"]
  | FMerge into => "MERGE" :: opt_words into ["INTO"]
  | FTruncate => ["TRUNCATE"; "TABLE"]
  | FCreate r n => "CREATE" :: opt_words r ["OR"; "REPLACE"] ++ "TABLE" :: opt_words n ["IF"; "NOT"; "EXISTS"]
  | FDrop e => "DROP" :: "TABLE" :: opt_words e ["IF"; "EXISTS"]
  end.

(** What follows the target. *)
Definition tail_ok (f : stmt_form) (tail : string) : bool :=
  match f, tail with
  | FInsert _, EmptyString => false
  | FDrop _, _ => all_chars space_char tail
  | (FInsert _ | FCreate _ _), String c _ => space_char c || Ascii.eqb "(" c
  | _, EmptyString => true
  | _, String c _ => space_char c
  end.

Definition form_statement (f : stmt_form) (target : tableReference) : persistentSQLStatement :=
  match f with
  | FInsert _ => PersistentSQLStatement "INSERT" target true false false false false false
  | FUpdate => PersistentSQLStatement "UPDATE" target true false false false false false
  | FDelete _ => PersistentSQLStatement "DELETE" target true false false false false false
  | FMerge _ => PersistentSQLStatement "MERGE" target true false false false false false
  | FTruncate => PersistentSQLStatement "TRUNCATE_TABLE" target true false false false false false
  | FCreate r n => PersistentSQLStatement "CREATE_TABLE" target false true false false n r
  | FDrop e => PersistentSQLStatement "DROP_TABLE" target false false true e false false
  end.

Lemma tail_ends f tail : tail_ok f tail = true → ends_target tail = true.
Proof.
  destruct tail as [|c tail]; [done|]. intros H. assert (space_char c || Ascii.eqb "(" c = true) as Hc.
  { destruct f; simpl in H; try (by rewrite H); [done..|]. by apply andb_true_iff in H as [-> _]. }
  clear H. unfold ends_target. revert c Hc. by_bytes.
Qed.

Lemma target_head segs tail :
  segs_ok segs → ∃ o name d t, target_text segs +:+ tail = opt_tick o +:+ name +:+ String d t ∧
    name_ok name ∧ (d = "."%char ∨ d = backtick).
Proof.
  intros [Hlen Hok]. destruct segs as [|[o n e] [|b segs]]; simpl in Hlen; [lia|lia|].
  apply Forall_cons in Hok as [Hn _]. simpl in Hn. unfold target_text. simpl join.
  unfold seg_text at 1. simpl. destruct e.
  - eexists o, n, backtick, _. split; [|by auto]. by rewrite !str_app_assoc.
  - eexists o, n, "."%char, _. split; [|by auto]. by rewrite !str_app_assoc, str_app_nil, str_app_cons.
Qed.

Lemma target_begins segs tail : segs_ok segs → begins_name (target_text segs +:+ tail) = true.
Proof.
  intros Hok. destruct (target_head segs tail Hok) as (o & n & d & t & -> & [Hne Hn] & _).
  destruct o; [done|]. rewrite str_app_nil. destruct n as [|c n]; [done|]. simpl in Hn. bools.
  rewrite str_app_cons. simpl. by rewrite H.
Qed.

(** An optional keyword that is not there. *)
Lemma run_opt_word_skip kw segs tail k x z :
  all_chars letter_char kw = true → segs_ok segs → r_rest x = target_text segs +:+ tail →
  k x = Some z → run (ropt (ilit kw ⋅ spaces)) k x = Some z.
Proof.
  intros Hkw Hok E Hk. destruct (target_head segs tail Hok) as (o & n & d & t & E' & Hn & Hd). rewrite E' in E.
  destruct (run_word_not_target kw 0 k x o n d t Hkw Hn Hd E) as (_ & H & _). by rewrite run_opt_miss.
Qed.
Lemma run_opt_group_skip kw n R segs tail k x z :
  all_chars letter_char kw = true → segs_ok segs → r_rest x = target_text segs +:+ tail →
  k x = Some z → run (ropt (RGroup n (ilit kw ⋅ spaces ⋅ R))) k x = Some z.
Proof.
  intros Hkw Hok E Hk. destruct (target_head segs tail Hok) as (o & m & d & t & E' & Hn & Hd). rewrite E' in E.
  destruct (run_word_not_target kw n k x o m d t Hkw Hn Hd E) as (_ & _ & H). by rewrite run_opt_miss.
Qed.

Lemma find_clash kw kw' w t R :
  to_lower w = to_lower kw' → all_chars letter_char w = true → w ≠ "" → clash kw kw' = true →
  find (RBegin ⋅ spaces0 ⋅ ilit kw ⋅ R) (w +:+ t) = None.
Proof.
  intros Hl Hw Hne Hc. rewrite find_anchored, run_spaces0_start by (by apply word_begins).
  by rewrite (run_word_clash kw kw' w t).
Qed.

(** A group with a letter in front is not blank. *)
Lemma trim_go_outside encs c s : ∀ u skip,
  Forall (λ e, str_mem c e = false) encs → (skip ≤ String.length u)%nat →
  trim_go encs skip (u +:+ String c s) ≠ "".
Proof.
  assert (∀ e u, has_prefix (u +:+ String c s) e = true → str_mem c e = false →
    (String.length e ≤ String.length u)%nat) as Hpre.
  { intros e u [v Hv]%has_prefix_spec Hc. destruct (decide (String.length e ≤ String.length u)%nat) as [|Hgt]; [done|].
    exfalso. revert e Hv Hc Hgt. induction u as [|a u IH]; intros [|b e]; rewrite ?str_app_nil, ?str_app_cons;
      simpl; intros Hv Hc Hgt; try lia; injection Hv; intros; subst; apply orb_false_iff in Hc as [Hb Hc].
    - by rewrite bool_decide_true in Hb.
    - eapply IH; [done|done|lia]. }
  intros u. induction u as [|a u IH]; intros skip He Hs.
  - simpl in Hs. assert (skip = O) as -> by lia. rewrite str_app_nil.
    assert (head_enc encs (String c s) = O) as Hh.
    { induction He as [|e encs Hc He IH]; [done|]. cbn [head_enc]. destruct (has_prefix (String c s) e) eqn:E; [|exact IH].
      apply (Hpre e "") in E; [simpl in E; lia|done]. }
    cbn [trim_go]. by rewrite Hh.
  - rewrite str_app_cons. cbn [trim_go]. destruct skip as [|skip].
    + destruct (head_enc encs (String a (u +:+ String c s))) as [|m] eqn:Hh; [done|]. apply IH; [done|].
      clear IH Hs. induction He as [|e encs Hc He IH]; [done|]. cbn [head_enc] in Hh.
      destruct (has_prefix (String a (u +:+ String c s)) e) eqn:E; [|by apply IH].
      rewrite <-str_app_cons in E. apply (Hpre e _) in E; [simpl in E; lia|done].
    + apply IH; [done|]. simpl in Hs. lia.
Qed.

Lemma blank_no_letter c s : letter_char c = true → trim_space (String c s) ≠ "".
Proof.
  intros Hc. assert (printable c = true) as Hp by by apply name_printable, letter_name.
  unfold trim_space, trim_left, trim_right.
  assert (trim_go space_encodings 0 (String c s) = String c s) as ->.
  { cbn [trim_go]. by rewrite head_enc_printable. }
  rewrite rev_cons. intros E. apply (f_equal String.rev) in E. rewrite rev_rev in E. revert E.
  apply trim_go_outside; [|lia]. apply Forall_forall. intros e He.
  assert (existsb (str_mem c) (String.rev <$> space_encodings) = false) as Hn by (clear -Hc; revert c Hc; by_bytes).
  destruct (str_mem c e) eqn:Ee; [|done]. apply not_true_iff_false in Hn. exfalso. apply Hn, existsb_exists.
  exists e. by rewrite <-list_elem_of_In.
Qed.

Lemma present_word w sp t z n :
  sub z n = w +:+ sp +:+ t → all_chars letter_char w = true → w ≠ "" → present z n = true.
Proof.
  intros E Hw Hne. unfold present. rewrite E. destruct w as [|c w]; [done|]. simpl in Hw. bools.
  rewrite str_app_cons, bool_decide_false; [done|]. by apply blank_no_letter.
Qed.

(** Read the next keywords of a statement whose spelling is known. *)
Ltac spell :=
  match goal with
  | H : spelled (_ :: _) _ |- _ => inversion H; clear H; subst; spell
  | H : spelled [] _ |- _ => inversion H; clear H; subst; spell
  | _ => idtac
  end.
Ltac begins :=
  first [apply target_begins; assumption|apply word_begins; assumption|
         eapply spelled_begins; [eassumption|begins]].
Ltac next_word := eapply run_word; cycle 4; [reflexivity|begins| |eassumption..].
(** Finish with the continuation after the target. *)
Ltac target_then tac :=
  rewrite run_cat;
  eapply run_target; [eassumption|cbn [r_rest skip mark]; reflexivity|by eapply tail_ends|]; tac.

(** The position after the one character, if any, that ends a target. *)
Definition after_tail (tail : string) (x : rst) : rst :=
  match tail with EmptyString => x | String c t => advance c t x end.
Lemma after_tail_caps tail x : r_caps (after_tail tail x) = r_caps x.
Proof. by destruct tail. Qed.

Definition space_tail (tail : string) : bool :=
  match tail with EmptyString => true | String c _ => space_char c end.
Lemma run_space_or_end tail x :
  r_rest x = tail → space_tail tail = true → run space_or_end Some x = Some (after_tail tail x).
Proof.
  intros E Ht. unfold space_or_end, rspace. cbn [run]. rewrite E. destruct tail as [|c tail]; [done|].
  simpl in Ht. by rewrite Ht.
Qed.
Lemma run_space_or_paren tail x :
  r_rest x = tail → tail_ok (FInsert true) tail = true →
  run (rspace ∥ lit "(") Some x = Some (after_tail tail x).
Proof.
  intros E Ht. unfold rspace. cbn [run lit]. rewrite E. destruct tail as [|c tail]; [done|].
  unfold tail_ok in Ht. destruct (space_char c); [done|]. cbn [orb] in Ht. unfold char_is. by rewrite Ht.
Qed.
Lemma run_space_paren_end tail x :
  r_rest x = tail → tail_ok (FCreate true true) tail = true →
  run (rspace ∥ lit "(" ∥ REnd) Some x = Some (after_tail tail x).
Proof.
  intros E Ht. unfold rspace. cbn [run lit]. rewrite E. destruct tail as [|c tail]; [done|].
  unfold tail_ok in Ht. destruct (space_char c); [done|]. cbn [orb] in Ht. unfold char_is. by rewrite Ht.
Qed.
Lemma run_spaces_end tail x :
  r_rest x = tail → all_chars space_char tail = true →
  run (spaces0 ⋅ REnd) Some x = Some (skip tail "" x).
Proof.
  intros E Ht. change (run spaces0 (run REnd Some) x = Some (skip tail "" x)).
  eapply (run_star_greedy _ _ reads_space tail ""); [by rewrite str_app_nil_r|done|done|done].
Qed.

(** Optional groups of keywords *)
Fixpoint words_re (kws : list string) : re :=
  match kws with
  | [] => REps
  | [kw] => ilit kw ⋅ spaces
  | kw :: kws => ilit kw ⋅ spaces ⋅ words_re kws
  end.

Lemma run_words kws : ∀ text t k x z,
  spelled kws text → r_rest x = text +:+ t → begins_name t = true →
  k (skip text t x) = Some z → run (words_re kws) k x = Some z.
Proof.
  induction kws as [|kw kws IH]; intros text t k x z Hsp E Ht Hk;
    inversion Hsp as [|? ? w sp r Hw Hl Hne Hs1 Hs2 Hr]; subst.
  - simpl. rewrite str_app_nil in E. rewrite <-E, skip_nil in Hk. done.
  - rewrite !str_app_assoc in E. destruct kws as [|kw' kws].
    + inversion Hr; subst. rewrite str_app_nil in E.
      eapply run_word_last; cycle 4; [exact E|done| |done..]. by rewrite str_app_nil_r in Hk.
    + eapply run_word; cycle 4; [exact E|by eapply spelled_begins| |done..].
      eapply IH; [done|done|done|]. by rewrite skip_skip, str_app_assoc.
Qed.

Lemma spelled_split a b pre :
  spelled (a ++ b) pre → ∃ u v, pre = u +:+ v ∧ spelled a u ∧ spelled b v.
Proof.
  revert pre. induction a as [|kw a IH]; intros pre H.
  - exists "", pre. split_and!; [done|constructor|done].
  - inversion H as [|? ? w sp r Hw Hl Hne Hs1 Hs2 Hr]; subst. apply IH in Hr as (u & v & -> & Hu & Hv).
    exists (w +:+ sp +:+ u), v. split_and!; [by rewrite !str_app_assoc|by constructor|done].
Qed.

Definition mark_opt (b : bool) (n : nat) (w t : string) (x : rst) : rst :=
  RSt (last_byte (r_prev x) w) t (r_pos x + String.length w)
    (if b then (n, (r_pos x, w)) :: r_caps x else r_caps x).
Lemma run_opt_words n (b : bool) kws text t k x z :
  spelled (opt_words b kws) text → r_rest x = text +:+ t → begins_name t = true →
  (b = false → run (RGroup n (words_re kws)) k x = None) →
  k (mark_opt b n text t x) = Some z → run (ropt (RGroup n (words_re kws))) k x = Some z.
Proof.
  intros Hsp E Ht Hmiss Hk. destruct b; simpl in Hsp.
  - apply run_opt_hit. eapply run_group; [exact E| |exact Hk]. intros h Hh. by eapply run_words.
  - rewrite run_opt_miss by auto. inversion Hsp; subst. rewrite str_app_nil in E.
    rewrite <-Hk. f_equal. destruct x. unfold mark_opt. simpl in *. by rewrite Nat.add_0_r, E.
Qed.

Lemma present_opt (b : bool) kws text z n :
  spelled (opt_words b kws) text → kws ≠ [] → cap n z = (if b then Some (sub_start z n, text) else None) →
  present z n = b.
Proof.
  intros Hsp Hne Hc. unfold present, sub. rewrite Hc. destruct b; [|done]. simpl in *.
  destruct Hsp as [|kw kws w sp r Hw Hl Hwne _ _ _]; [done|].
  destruct w as [|c w]; [done|]. simpl in Hw. apply andb_true_iff in Hw as [Hw _].
  rewrite str_app_cons, bool_decide_false; [done|]. by apply blank_no_letter.
Qed.

(** A recognised statement: its pattern matches, and the groups are right. *)
Definition finds (c : candidate) (stmt : string) (raw : string) (result : persistentSQLStatement) : Prop :=
  ∃ z, find (c_pattern c) stmt = Some z ∧ sub z (c_targetGroup c) = raw ∧
    candidate_statement c z (ps_target result) = result.

Lemma finds_intro c R stmt y raw result :
  c_pattern c = RBegin ⋅ spaces0 ⋅ R → begins_name stmt = true →
  run R Some (RSt None stmt 0 []) = Some y →
  sub (record 0 (RSt None stmt 0 []) y) (c_targetGroup c) = raw ∧
  candidate_statement c (record 0 (RSt None stmt 0 []) y) (ps_target result) = result →
  finds c stmt raw result.
Proof.
  intros Hp Hb Hr [Hs Hc]. eexists. rewrite Hp, find_anchored, run_spaces0_start, Hr by done. done.
Qed.

Ltac drop_nil :=
  repeat match goal with |- context [String.append EmptyString ?x] =>
    change (String.append EmptyString x) with x end.
Ltac found :=
  rewrite ?str_app_assoc;
  drop_nil; eapply finds_intro; [reflexivity|by apply word_begins| |].
Ltac groups := unfold sub, cap, record, candidate_statement; cbn [r_caps]; rewrite ?after_tail_caps; done.
Ltac opt_word :=
  rewrite run_cat; unfold if_exists, if_not_exists, or_replace.
Ltac skip_word :=
  opt_word; first [eapply run_opt_word_skip|eapply run_opt_group_skip];
  [reflexivity|eassumption|reflexivity|].
Ltac miss_group :=
  edestruct target_head as (o & n & d & t & E & Hn & Hd); [eassumption|];
  edestruct run_word_not_target as (_ & _ & Hm); [| | | |apply Hm];
  [reflexivity|eassumption|eassumption|cbn; exact E].
Ltac clash_group :=
  cbn [words_re]; rewrite run_grp;
  eapply run_word_clash; cycle 3; [reflexivity|eassumption|eassumption|reflexivity].
Ltac last_word :=
  eapply run_word_last; cycle 4; [reflexivity|apply target_begins; assumption| |eassumption..].
Ltac take_word :=
  opt_word; apply run_opt_hit; last_word.

Section Forms.
Context (segs : list segment_text) (tail pre : string) (target : tableReference) (Hok : segs_ok segs).
Let stmt := pre +:+ target_text segs +:+ tail.

Lemma finds_update :
  spelled ["UPDATE"] pre → space_tail tail = true →
  finds (Candidate updateTargetPattern "UPDATE" true false false 1) stmt (target_text segs)
    (form_statement FUpdate target).
Proof.
  intros Hsp Ht. assert (tail_ok FUpdate tail = true) by by destruct tail.
  unfold stmt. spell. found.
  - next_word. target_then idtac. by apply run_space_or_end.
  - split; groups.
Qed.

Lemma finds_insert into :
  spelled (form_words (FInsert into)) pre → tail_ok (FInsert into) tail = true →
  finds (Candidate insertTargetPattern "INSERT" true false false 1) stmt (target_text segs)
    (form_statement (FInsert into) target).
Proof.
  intros Hsp Ht. unfold stmt. destruct into; simpl in Hsp; spell; found.
  - next_word. take_word. target_then idtac. by apply run_space_or_paren.
  - split; groups.
  - next_word. skip_word. target_then idtac. by apply run_space_or_paren.
  - split; groups.
Qed.

Lemma finds_delete from :
  spelled (form_words (FDelete from)) pre → space_tail tail = true →
  finds (Candidate deleteTargetPattern "DELETE" true false false 1) stmt (target_text segs)
    (form_statement (FDelete from) target).
Proof.
  intros Hsp Ht. assert (tail_ok FUpdate tail = true) by by destruct tail.
  unfold stmt. destruct from; simpl in Hsp; spell; found.
  - next_word. take_word. target_then idtac. by apply run_space_or_end.
  - split; groups.
  - next_word. skip_word. target_then idtac. by apply run_space_or_end.
  - split; groups.
Qed.

Lemma finds_merge into :
  spelled (form_words (FMerge into)) pre → space_tail tail = true →
  finds (Candidate mergeTargetPattern "MERGE" true false false 1) stmt (target_text segs)
    (form_statement (FMerge into) target).
Proof.
  intros Hsp Ht. assert (tail_ok FUpdate tail = true) by by destruct tail.
  unfold stmt. destruct into; simpl in Hsp; spell; found.
  - next_word. take_word. target_then idtac. by apply run_space_or_end.
  - split; groups.
  - next_word. skip_word. target_then idtac. by apply run_space_or_end.
  - split; groups.
Qed.

Lemma finds_truncate :
  spelled (form_words FTruncate) pre → space_tail tail = true →
  finds (Candidate truncateTargetPattern "TRUNCATE_TABLE" true false false 1) stmt (target_text segs)
    (form_statement FTruncate target).
Proof.
  intros Hsp Ht. assert (tail_ok FUpdate tail = true) by by destruct tail.
  unfold stmt. simpl in Hsp. spell. found.
  - next_word. next_word. target_then idtac. by apply run_space_or_end.
  - split; groups.
Qed.

Lemma finds_drop e :
  spelled (form_words (FDrop e)) pre → all_chars space_char tail = true →
  finds (Candidate dropTargetPattern "DROP_TABLE" false false true 2) stmt (target_text segs)
    (form_statement (FDrop e) target).
Proof.
  intros Hsp Ht. assert (tail_ok (FDrop e) tail = true) by done. unfold stmt.
  apply (spelled_split ["DROP"; "TABLE"]) in Hsp as (u & v & -> & Hu & Hv). spell. found.
  - next_word. next_word. opt_word.
    eapply (run_opt_words 1 e ["IF"; "EXISTS"] v); [exact Hv|reflexivity|begins| |].
    + intros ->. inversion Hv; subst. miss_group.
    + target_then ltac:(by apply run_spaces_end).
  - split; [groups|]. unfold candidate_statement.
    erewrite (present_opt e _ v _ 1 Hv); [done|done|]. by destruct e.
Qed.

Lemma finds_create r n :
  spelled (form_words (FCreate r n)) pre → tail_ok (FCreate r n) tail = true →
  finds (Candidate createTargetPattern "CREATE_TABLE" false true false 3) stmt (target_text segs)
    (form_statement (FCreate r n) target).
Proof.
  intros Hsp Ht. unfold stmt.
  apply (spelled_split ["CREATE"]) in Hsp as (u1 & v1 & -> & Hu1 & Hv1).
  apply spelled_split in Hv1 as (u2 & v2 & -> & Hu2 & Hv2).
  apply (spelled_split ["TABLE"]) in Hv2 as (u3 & u4 & -> & Hu3 & Hu4). spell. found.
  - next_word. opt_word.
    eapply (run_opt_words 1 r ["OR"; "REPLACE"] u2); [exact Hu2|reflexivity|begins| |].
    + intros ->. inversion Hu2; subst. drop_nil. clash_group.
    + next_word. opt_word.
      eapply (run_opt_words 2 n ["IF"; "NOT"; "EXISTS"] u4); [exact Hu4|reflexivity|begins| |].
      * intros ->. inversion Hu4; subst. drop_nil. miss_group.
      * target_then ltac:(by apply run_space_paren_end).
  - split; [by destruct r, n; groups|]. unfold candidate_statement.
    rewrite (present_opt r _ u2 _ 1 Hu2), (present_opt n _ u4 _ 2 Hu4); [done|done| |done|];
      unfold sub_start, cap, record; cbn [r_caps]; rewrite !after_tail_caps; by destruct r, n.
Qed.
End Forms.

Lemma first_candidate_hit c cs p stmt raw result :
  finds c stmt raw result → parsePersistentTarget p raw = inr (ps_target result) →
  first_candidate (c :: cs) p stmt = Mine result.
Proof.
  intros (z & Hf & Hs & Hc) Ht. simpl. rewrite Hf, Hs. unfold with_target. by rewrite Ht, Hc.
Qed.
Lemma first_candidate_miss c cs p stmt :
  find (c_pattern c) stmt = None → first_candidate (c :: cs) p stmt = first_candidate cs p stmt.
Proof. intros Hf. simpl. by rewrite Hf. Qed.

(** Step over the candidates that begin with another keyword. *)
Ltac other_keyword :=
  rewrite first_candidate_miss by (eapply find_clash; [eassumption|eassumption|eassumption|reflexivity]).




(** ** Comments *)

Lemma trim_go_length encs : ∀ s skip, (String.length (trim_go encs skip s) ≤ String.length s)%nat.
Proof.
  induction s as [|c s IH]; intros skip; [done|]. cbn [trim_go String.length].
  destruct skip as [|k]; [|specialize (IH k); lia].
  destruct (head_enc encs (String c s)) as [|k]; [done|]. specialize (IH k). lia.
Qed.
Lemma length_rev s : String.length (String.rev s) = String.length s.
Proof. induction s as [|c s IH]; [done|]. rewrite rev_cons, str_length_app, IH. simpl. lia. Qed.
Lemma trim_space_length s : (String.length (trim_space s) ≤ String.length s)%nat.
Proof.
  unfold trim_space, trim_right, trim_left. rewrite length_rev. etrans; [apply trim_go_length|].
  rewrite length_rev. apply trim_go_length.
Qed.
Lemma str_drop_length n s : String.length (str_drop n s) = (String.length s - n)%nat.
Proof. revert s. induction n as [|n IH]; intros [|c s]; simpl; [done..|]. apply IH. Qed.
Lemma text_after_length p s r :
  text_after p s = Some r → (String.length r + String.length p ≤ String.length s)%nat.
Proof.
  induction s as [|c s IH]; cbn [text_after]; destruct (has_prefix _ p) eqn:E; intros H; simplify_eq.
  - apply has_prefix_spec in E as [v Ev]. rewrite str_drop_length.
    apply (f_equal String.length) in Ev. rewrite str_length_app in Ev. lia.
  - apply has_prefix_spec in E as [v Ev]. rewrite str_drop_length.
    apply (f_equal String.length) in Ev. rewrite str_length_app in Ev. lia.
  - apply IH in H. simpl. lia.
Qed.

(** The loop over the comments ends before the fuel does: with any fuel from the
    length of the text on, it gives the same text, and no comment is left at its
    front unless it is an unclosed one. *)
Lemma trim_comments_fuel : ∀ f1 f2 s,
  (String.length s ≤ f1)%nat → (String.length s ≤ f2)%nat → trim_comments f1 s = trim_comments f2 s.
Proof.
  assert (∀ f s, (String.length s ≤ O)%nat → trim_comments f s = s) as H0.
  { intros [|f] [|c s] H; simpl in *; (done || lia). }
  induction f1 as [|f1 IH]; intros f2 s H1 H2; [by rewrite !H0|].
  destruct f2 as [|f2]; [by rewrite !H0|]. cbn [trim_comments].
  destruct (has_prefix s "--").
  - destruct (text_after (String "010" "") s) as [r|] eqn:E; [|done].
    apply text_after_length in E. pose proof (trim_space_length r). simpl in E. apply IH; lia.
  - destruct (has_prefix s "/*"); [|done].
    destruct (text_after "*/" (str_drop 2 s)) as [r|] eqn:E; [|done].
    apply text_after_length in E. pose proof (trim_space_length r). rewrite str_drop_length in E. simpl in E.
    apply IH; lia.
Qed.

Lemma trimLeadingSQLComments_no_comment q :
  let r := trimLeadingSQLComments q in
  has_prefix r "--" = false ∧ (has_prefix r "/*" = true → text_after "*/" (str_drop 2 r) = None).
Proof.
  assert (∀ f s, (String.length s ≤ f)%nat → let r := trim_comments f s in
    has_prefix r "--" = false ∧ (has_prefix r "/*" = true → text_after "*/" (str_drop 2 r) = None)) as Hgo;
    [|by apply Hgo].
  induction f as [|f IH]; intros s Hf; cbn [trim_comments].
  { destruct s; [done|simpl in Hf; lia]. }
  destruct (has_prefix s "--") eqn:E1.
  - destruct (text_after (String "010" "") s) as [r|] eqn:E; [|by split; [|intros ?]].
    apply text_after_length in E. pose proof (trim_space_length r). simpl in E. apply IH. lia.
  - destruct (has_prefix s "/*") eqn:E2; [|by rewrite E1, E2].
    destruct (text_after "*/" (str_drop 2 s)) as [r|] eqn:E; [|by rewrite E1].
    apply text_after_length in E. pose proof (trim_space_length r). rewrite str_drop_length in E. simpl in E.
    apply IH. lia.
Qed.

(** ** Captured targets *)

Lemma cat_right a b x y : matches (a ⋅ b) x y → ∃ x', matches b x' y.
Proof. inversion 1; eauto. Qed.

(** What a pattern of one class consumes. *)
Definition name_byte (c : ascii) : bool := name_char c || keyword_byte c || Ascii.eqb backtick c.

Definition consumes (P : ascii → bool) (r : re) : Prop := ∀ x y, matches r x y →
  ∃ w, r_rest x = w +:+ r_rest y ∧ all_chars P w = true.

Lemma consumes_cat P a b : consumes P a → consumes P b → consumes P (a ⋅ b).
Proof.
  intros Ha Hb x y Hm. inversion Hm as [ | |? ? ? ? ? H1 H2| | | | | | | | | | ]; subst.
  apply Ha in H1 as (w & -> & Hw). apply Hb in H2 as (v & -> & Hv).
  exists (w +:+ v). by rewrite str_app_assoc, all_chars_app, Hw, Hv.
Qed.
Lemma consumes_star P a : consumes P a → consumes P (RStar a).
Proof.
  intros Ha x y Hm. remember (RStar a) as r eqn:Er. induction Hm; simplify_eq.
  - by exists "".
  - apply Ha in Hm1 as (w & -> & Hw). destruct (IHHm2 eq_refl) as (v & -> & Hv).
    exists (w +:+ v). by rewrite str_app_assoc, all_chars_app, Hw, Hv.
Qed.
Lemma consumes_alt P a b : consumes P a → consumes P b → consumes P (a ∥ b).
Proof. intros Ha Hb x y Hm. inversion Hm; subst; [by apply Ha|by apply Hb]. Qed.
Lemma consumes_eps P : consumes P REps.
Proof. intros x y Hm. inversion Hm; subst. by exists "". Qed.
Lemma consumes_set (P f : ascii → bool) : (∀ c, f c = true → P c = true) → consumes P (RSet f).
Proof.
  intros Hf x y Hm. inversion Hm as [ |? ? c t E Hc| | | | | | | | | | | ]; subst.
  exists (String c ""). rewrite E. split; [done|]. simpl. by rewrite Hf.
Qed.
Lemma consumes_segment : consumes name_byte segment.
Proof.
  unfold segment, rplus, tick, ropt, name_class, iclass, long_s, kelvin, byte.
  repeat first [apply consumes_cat|apply consumes_star|apply consumes_alt|apply consumes_eps|
    apply consumes_set; by_bytes].
Qed.

Lemma target_captured n R x y :
  matches (persistentTargetExpression n ⋅ R) x y → n ∉ groups R →
  ∃ raw pos, cap n y = Some (pos, raw) ∧
    ∃ a b c, all_chars name_byte a = true ∧ all_chars name_byte b = true ∧
      match c with
      | None => raw = a +:+ "." +:+ b
      | Some c => raw = a +:+ "." +:+ b +:+ "." +:+ c ∧ all_chars name_byte c = true
      end.
Proof.
  intros Hm Hn. inversion Hm as [ | |? ? ? z ? H1 H2| | | | | | | | | | ]; subst.
  rewrite (matches_cap_frame _ _ _ _ H2 Hn). apply matches_group_text in H1 as (w & u & Hb & E & _ & ->).
  exists w, (r_pos x). split; [done|].
  inversion Hb as [ | |? ? ? x1 ? Ha Hbc| | | | | | | | | | ]; subst.
  inversion Hbc as [ | |? ? ? x2 ? Hd Hc| | | | | | | | | | ]; subst.
  apply consumes_segment in Ha as (a & Ea & Pa).
  assert (∀ x y, matches dot_segment x y → ∃ b, r_rest x = "." +:+ b +:+ r_rest y ∧ all_chars name_byte b = true) as Hdot.
  { clear. intros x y Hm. inversion Hm as [ | |? ? ? x1 ? H1 H2| | | | | | | | | | ]; subst.
    inversion H1 as [ |? ? c t Et Hc| | | | | | | | | | | ]; subst. apply Ascii.eqb_eq in Hc as <-.
    apply consumes_segment in H2 as (b & Eb & Pb). simpl in Eb. exists b. by rewrite Et, Eb. }
  apply Hdot in Hd as (b & Eb & Pb). inversion Hc as [ | | |? ? ? ? Ho|? ? ? ? Ho| | | | | | | | ]; subst.
  - apply Hdot in Ho as (c & Ec & Pc). exists a, b, (Some c). split_and!; try done.
    rewrite Ea, Eb, Ec in E. rewrite <-!str_app_assoc in E. apply str_app_inv_tail in E as <-.
    by rewrite !str_app_assoc.
  - inversion Ho; subst. exists a, b, None. split_and!; try done.
    rewrite Ea, Eb in E. rewrite <-!str_app_assoc in E. apply str_app_inv_tail in E as <-.
    by rewrite !str_app_assoc.
Qed.

(** White space has a byte that no target has, so trimming a target keeps it. *)
Definition target_byte (c : ascii) : bool := name_byte c || Ascii.eqb "." c.

Lemma trim_target s : all_chars target_byte s = true → trim_space s = s.
Proof. intros Hs. apply (trim_space_outside target_byte); [by apply (bool_decide_unpack _); vm_compute..|done]. Qed.

Lemma captured_target_parses n R x y p :
  matches (persistentTargetExpression n ⋅ R) x y → n ∉ groups R →
  ∃ t, parsePersistentTarget p (sub y n) = inr t.
Proof.
  intros Hm Hn. apply target_captured in Hm as (raw & pos & Hc & a & b & c & Ha & Hb & Hraw); [|done].
  unfold sub. rewrite Hc. simpl.
  assert (∀ s, all_chars name_byte s = true → str_mem "." s = false ∧ all_chars target_byte s = true) as Hs.
  { intros s Hs. split; [by eapply str_mem_all|]. eapply all_chars_impl; [|exact Hs].
    intros d Hd. unfold target_byte. by rewrite Hd. }
  destruct (Hs a Ha) as [Da Ta], (Hs b Hb) as [Db Tb]. unfold parsePersistentTarget.
  destruct c as [c|].
  - destruct Hraw as [-> Pc]. destruct (Hs c Pc) as [Dc Tc].
    rewrite trim_target by (by rewrite !all_chars_app, Ta, Tb, Tc).
    change (a +:+ "." +:+ b +:+ "." +:+ c) with (join "." [a; b; c]).
    rewrite (split_join "." [a; b; c]) by (done || by repeat constructor). simpl. by eexists.
  - subst raw. rewrite trim_target by (by rewrite !all_chars_app, Ta, Tb).
    change (a +:+ "." +:+ b) with (join "." [a; b]). rewrite (split_join "." [a; b]) by (done || by repeat constructor). simpl. by eexists.
Qed.

Lemma find_target_parses r n s z p :
  find (RBegin ⋅ r) s = Some z →
  (∀ x y, matches r x y → ∃ x' R, matches (persistentTargetExpression n ⋅ R) x' y ∧ n ∉ groups R) → n ≠ O →
  ∃ t, parsePersistentTarget p (sub z n) = inr t.
Proof.
  intros Hf Hr Hn. apply find_anchored_sound in Hf as (y & Hm & ->). apply Hr in Hm as (x' & R & Hm & HR).
  destruct (captured_target_parses n R x' y p Hm HR) as [t Ht]. exists t. rewrite <-Ht. f_equal.
  unfold sub, cap, record. by destruct n.
Qed.

Ltac reach_target :=
  let x := fresh "x" in let y := fresh "y" in let Hm := fresh "Hm" in
  intros x y Hm;
  repeat match type of Hm with
  | matches (persistentTargetExpression _ ⋅ _) _ _ => fail 1
  | _ => apply cat_right in Hm as [? Hm]
  end;
  eexists _, _; split; [exact Hm|by vm_compute; set_solver].

Lemma candidate_target_parses c s z p :
  c ∈ candidates → find (c_pattern c) s = Some z → ∃ t, parsePersistentTarget p (sub z (c_targetGroup c)) = inr t.
Proof.
  unfold candidates. intros Hc Hf. repeat (apply elem_of_cons in Hc as [->|Hc]); [..|by apply elem_of_nil in Hc];
    (eapply find_target_parses; [exact Hf| |done]); reach_target.
Qed.

(** The targets that the patterns capture are always well formed: whatever
    the query text, no recogniser refuses a statement because its target has the
    wrong number of parts. *)
Theorem targets_always_parse (projectID queryText raw : string) :
  parsePersistentSQLStatement projectID queryText ≠ Refused (InvalidTarget raw) ∧
  parsePersistentViewStatement projectID queryText ≠ Refused (InvalidTarget raw) ∧
  matchAlterTableLead projectID queryText ≠ Refused (InvalidTarget raw).
Proof.
  split_and!.
  - unfold parsePersistentSQLStatement.
    assert (∀ cs, (∀ c, c ∈ cs → c ∈ candidates) → ∀ e,
      first_candidate cs projectID (statement_text queryText) ≠ Refused e) as Hcs.
    { induction cs as [|c cs IH]; intros Hin e; [done|]. simpl.
      destruct (find (c_pattern c) (statement_text queryText)) as [z|] eqn:Ef.
      - destruct (candidate_target_parses c _ z projectID (Hin c ltac:(left)) Ef) as [t Ht].
        unfold with_target. by rewrite Ht.
      - apply IH. intros c' Hc'. apply Hin. by right. }
    specialize (Hcs candidates (λ c H, H)). destruct (first_candidate _ _ _); [by repeat case_match|naive_solver|done].
  - unfold parsePersistentViewStatement.
    destruct (find dropViewTargetPattern (statement_text queryText)) as [z|] eqn:E1.
    { destruct (find_target_parses _ 3 _ z projectID E1) as [t Ht]; [reach_target|done|].
      unfold with_target. by rewrite Ht. }
    destruct (find createViewTargetPattern (statement_text queryText)) as [z|] eqn:E2; [|done].
    destruct (find_target_parses _ 4 _ z projectID E2) as [t Ht]; [reach_target|done|].
    unfold with_target. rewrite Ht. by case_match.
  - unfold matchAlterTableLead.
    destruct (find alterTableTargetPattern (statement_text queryText)) as [z|] eqn:E; [|done].
    destruct (find_target_parses _ 2 _ z projectID E) as [t Ht]; [reach_target|done|].
    unfold with_target. by rewrite Ht.
Qed.

(** ** Statements that pass for queries *)

(** A comment that begins with [#] is not skipped, so the mutation behind it is
    taken for a query. *)
Example hash_comment_hides_mutation :
  isMutatingOrSessionControlStatement "p" (bytes [35]%nat +:+ " purge" +:+ bytes [10]%nat +:+ "DELETE FROM d.t WHERE true") = false ∧
  isMutatingOrSessionControlStatement "p" ("-- purge" +:+ bytes [10]%nat +:+ "DELETE FROM d.t WHERE true") = true.
Proof. split; vm_compute; reflexivity. Qed.

(** View DDL on an unqualified name is neither executed nor refused, while the
    same statement on a table is refused. *)
Example unqualified_view_is_a_query :
  isMutatingOrSessionControlStatement "p" "CREATE VIEW v AS SELECT 1" = false ∧
  isMutatingOrSessionControlStatement "p" "DROP VIEW v" = false ∧
  parsePersistentSQLStatement "p" "CREATE TABLE t AS SELECT 1" = Refused UnsupportedTargetSyntax.
Proof. split_and!; vm_compute; reflexivity. Qed.
