(* ===== verification/Partitioning.v ===== *)
(** * Partitioned tables (table_partitioning.go, partition_pruning.go)

    Partition ids, the assignment of rows to partitions, partition counting
    and expiration.  The parsing of TIMESTAMP cells tries nine [time.Parse]
    layouts and then a float; it is the class [TimestampParser], an argument
    of every definition that reads one.  DATE cells, INT64 cells and partition
    ids are parsed by the model itself. *)

From S2P Require Import Prelude GoStrings GoTime GoJson Cells TableModel.
From Stdlib Require Import Ascii.

Class TimestampParser := parsePartitionTimestamp : string → option Z.

(** [findTopLevelField] returns index -1 when it reports "not found". *)
Fixpoint find_field_from (i : nat) (sch : schema) (name : string) : option (tableField * nat) :=
  match sch with
  | [] => None
  | f :: r => if equal_fold (Name f) name then Some (f, i) else find_field_from (S i) r name
  end.
Definition findTopLevelField (sch : schema) (name : string) : option (tableField * nat) :=
  find_field_from 0 sch (trim_space name).

Definition sameTimePartitioningDefinition (a b : option timePartitioningConfig) : bool :=
  match a, b with
  | Some a, Some b => equal_fold (tpc_Type a) (tpc_Type b) && equal_fold (tpc_Field a) (tpc_Field b)
  | None, None => true
  | _, _ => false
  end.

Definition sameRangePartitioning (a b : option rangePartitioningConfig) : bool :=
  match a, b with
  | Some a, Some b =>
      equal_fold (rpc_Field a) (rpc_Field b) && (rpc_Start a =? rpc_Start b) &&
      (rpc_End a =? rpc_End b) && (rpc_Interval a =? rpc_Interval b)
  | None, None => true
  | _, _ => false
  end.

Inductive combinationErr := MutuallyExclusive | FilterNeedsPartitioning.
Definition validatePartitioningCombination (tc : option timePartitioningConfig)
    (rc : option rangePartitioningConfig) (requireFilter : bool) : option combinationErr :=
  match tc, rc with
  | Some _, Some _ => Some MutuallyExclusive
  | None, None => if requireFilter then Some FilterNeedsPartitioning else None
  | _, _ => None
  end.

(** ** Partition ids *)

Definition layout_of (partitionType : string) : layout :=
  let u := to_upper partitionType in
  if bool_decide (u = "HOUR") then LHour
  else if bool_decide (u = "MONTH") then LMonth
  else if bool_decide (u = "YEAR") then LYear
  else LDay.

Definition formatTimePartitionID (value : Z) (partitionType : string) : string :=
  format_layout (layout_of partitionType) value.

Definition parseTimePartitionID (partitionID partitionType : string) : option Z :=
  if bool_decide (partitionID = "") || has_prefix partitionID "__" then None
  else parse_layout (layout_of partitionType) partitionID.

Definition ingestionPartitionID (config : option timePartitioningConfig) (at_ : Z) : string :=
  match config with
  | None => ""
  | Some c => if bool_decide (tpc_Field c = "") then formatTimePartitionID at_ (tpc_Type c) else ""
  end.

Definition newIngestionPartitions (config : option timePartitioningConfig) (count : nat) (at_ : Z)
    : list string :=
  let id := ingestionPartitionID config at_ in
  if bool_decide (id = "") || (count =? 0)%nat then [] else replicate count id.

(** The partition recorded for row [i], or the fallback when none is. *)
Definition recorded_partition (partitions : list string) (i : nat) (fallback : string) : string :=
  match partitions !! i with
  | Some p => if bool_decide (p = "") then fallback else p
  | None => fallback
  end.

Section WithTimestamps.
Context `{TimestampParser}.

Definition timePartitionIDFromCell (fieldType cell partitionType : string) : option string :=
  let '(decoded, isNull) := loadStoredCell cell in
  if isNull then None
  else
    parsed ← (if equal_fold fieldType "DATE" then parse_date decoded
              else parsePartitionTimestamp decoded);
    Some (formatTimePartitionID parsed partitionType).

(** ** Rows entering a partitioned table *)

Inductive partitionErr :=
| NotATimeValue (rowIndex : nat) (column typ : string)
| NotAnInt64 (rowIndex : nat) (column : string).

(** When the column is missing, [index] is -1 and [row[index]] panics. *)
Fixpoint validate_time_rows (index : option nat) (field : tableField) (ptype : string)
    (i : nat) (rows : list row) : res partitionErr unit :=
  match rows with
  | [] => Ok tt
  | r :: rest =>
      match index with
      | None => Panic
      | Some index =>
          let cell := cell_at r index in
          if snd (loadStoredCell cell) then validate_time_rows (Some index) field ptype (S i) rest
          else match timePartitionIDFromCell (Type_ field) cell ptype with
               | Some _ => validate_time_rows (Some index) field ptype (S i) rest
               | None => Err (NotATimeValue i (Name field) (Type_ field))
               end
      end
  end.

Fixpoint validate_range_rows (index : option nat) (field : tableField)
    (i : nat) (rows : list row) : res partitionErr unit :=
  match rows with
  | [] => Ok tt
  | r :: rest =>
      match index with
      | None => Panic
      | Some index =>
          let '(decoded, isNull) := loadStoredCell (cell_at r index) in
          if isNull then validate_range_rows (Some index) field (S i) rest
          else match parse_int decoded with
               | Some _ => validate_range_rows (Some index) field (S i) rest
               | None => Err (NotAnInt64 i (Name field))
               end
      end
  end.

Definition no_field : tableField := TableField "" "" "" [].
Definition found_field (o : option (tableField * nat)) : tableField := default no_field (fst <$> o).

Definition validateRowsForPartitioning (sch : schema) (rows : list row)
    (timeConfig : option timePartitioningConfig) (rangeConfig : option rangePartitioningConfig)
    : res partitionErr unit :=
  _ ← match timeConfig with
      | Some c =>
          if bool_decide (tpc_Field c = "") then Ok tt
          else let f := findTopLevelField sch (tpc_Field c) in
               validate_time_rows (snd <$> f) (found_field f) (tpc_Type c) 0 rows
      | None => Ok tt
      end;
  match rangeConfig with
  | Some c =>
      let f := findTopLevelField sch (rpc_Field c) in
      validate_range_rows (snd <$> f) (found_field f) 0 rows
  | None => Ok tt
  end.

(** ** Counting rows per partition *)

(** The start of the range bucket of a value, in 64-bit arithmetic. *)
Definition range_bucket (c : rangePartitioningConfig) (value : Z) : Z :=
  i64_add (rpc_Start c)
    (i64_mul (i64_quot (i64_sub value (rpc_Start c)) (rpc_Interval c)) (rpc_Interval c)).

Definition range_partition (c : rangePartitioningConfig) (cell : string) : string :=
  let '(decoded, isNull) := loadStoredCell cell in
  if isNull then "__NULL__"
  else match parse_int decoded with
       | Some value =>
           if (value <? rpc_Start c) || (rpc_End c <=? value) then "__UNPARTITIONED__"
           else format_int (range_bucket c value)
       | None => "__UNPARTITIONED__"
       end.

Definition time_partition (fieldType : string) (c : timePartitioningConfig) (cell : string) : string :=
  if snd (loadStoredCell cell) then "__NULL__"
  else default "__UNPARTITIONED__" (timePartitionIDFromCell fieldType cell (tpc_Type c)).

(** [counts[key]++] *)
Definition bump (key : string) (counts : gmap string Z) : gmap string Z :=
  <[key := default 0 (counts !! key) + 1]> counts.

Fixpoint count_ingestion (t : tableRecord) (fallback : string) (i : nat) (rows : list row)
    (counts : gmap string Z) : gmap string Z :=
  match rows with
  | [] => counts
  | _ :: rest =>
      count_ingestion t fallback (S i) rest
        (bump (recorded_partition (tr_IngestionPartitions t) i fallback) counts)
  end.

Definition partitionCounts (t : tableRecord) : gmap string Z :=
  match tr_TimePartitioning t, tr_RangePartitioning t with
  | Some c, _ =>
      if bool_decide (tpc_Field c = "") then
        count_ingestion t (ingestionPartitionID (Some c) (tr_CreatedAt t)) 0 (tr_Rows t) ∅
      else match findTopLevelField (tr_Schema t) (tpc_Field c) with
           | None => ∅
           | Some (field, index) =>
               foldl (λ counts r, bump (time_partition (Type_ field) c (cell_at r index)) counts)
                 ∅ (tr_Rows t)
           end
  | None, Some c =>
      match findTopLevelField (tr_Schema t) (rpc_Field c) with
      | None => ∅
      | Some (_, index) =>
          foldl (λ counts r, bump (range_partition c (cell_at r index)) counts) ∅ (tr_Rows t)
      end
  | None, None => {[ storedNullCell := Z.of_nat (length (tr_Rows t)) ]}
  end.

Definition sortedPartitionIDs (counts : gmap string Z) : list string := sorted_keys counts.

(** The partition a row is pruned by (partition_pruning.go). *)
Definition rowPartitionID (t : tableRecord) (rowIndex : nat) (r : row) : option string :=
  match tr_TimePartitioning t, tr_RangePartitioning t with
  | Some c, _ =>
      if bool_decide (tpc_Field c = "") then
        let p := recorded_partition (tr_IngestionPartitions t) rowIndex
                   (ingestionPartitionID (Some c) (tr_CreatedAt t)) in
        if bool_decide (p = "") then None else Some p
      else match findTopLevelField (tr_Schema t) (tpc_Field c) with
           | None => None
           | Some (field, index) => Some (time_partition (Type_ field) c (cell_at r index))
           end
  | None, Some c =>
      match findTopLevelField (tr_Schema t) (rpc_Field c) with
      | None => None
      | Some (_, index) => Some (range_partition c (cell_at r index))
      end
  | None, None => None
  end.

(** ** Partition expiration *)

(** The partition of a row of a time-partitioned table as the purge computes
    it; [field] is the partitioning column, [None] for ingestion time. *)
Definition purge_partition_id (t : tableRecord) (c : timePartitioningConfig)
    (field : option (tableField * nat)) (i : nat) (r : row) : string :=
  match field with
  | None =>
      recorded_partition (tr_IngestionPartitions t) i (ingestionPartitionID (Some c) (tr_CreatedAt t))
  | Some (f, index) =>
      let cell := cell_at r index in
      if snd (loadStoredCell cell) then ""
      else default "" (timePartitionIDFromCell (Type_ f) cell (tpc_Type c))
  end.

(** [partitionStart.Add(Duration(ExpirationMs) * Millisecond)] is not after now. *)
Definition partition_expired (c : timePartitioningConfig) (now : Z) (id : string) : bool :=
  match parseTimePartitionID id (tpc_Type c) with
  | Some start => start + i64_mul (tpc_ExpirationMs c) millisecond <=? now
  | None => false
  end.

(** The surviving rows with their partition ids. *)
Fixpoint purge_rows (t : tableRecord) (c : timePartitioningConfig)
    (field : option (tableField * nat)) (now : Z) (i : nat) (rows : list row)
    : list (row * string) :=
  match rows with
  | [] => []
  | r :: rest =>
      let id := purge_partition_id t c field i r in
      let kept := purge_rows t c field now (S i) rest in
      if partition_expired c now id then kept else (r, id) :: kept
  end.

Definition purgeExpiredPartitions (t : tableRecord) (now : Z) : tableRecord * bool :=
  match tr_TimePartitioning t with
  | None => (t, false)
  | Some c =>
      if (tpc_ExpirationMs c <=? 0) || (length (tr_Rows t) =? 0)%nat ||
         bool_decide (is_Some (tr_External t)) || bool_decide (is_Some (tr_View t))
      then (t, false)
      else
        let ingestion := bool_decide (tpc_Field c = "") in
        let field := if ingestion then None else findTopLevelField (tr_Schema t) (tpc_Field c) in
        if negb ingestion && bool_decide (field = None) then (t, false)
        else
          let kept := purge_rows t c field now 0 (tr_Rows t) in
          if (length kept =? length (tr_Rows t))%nat then (t, false)
          else
            let t := t <| tr_Rows := kept.*1 |> in
            let t := if ingestion then t <| tr_IngestionPartitions := kept.*2 |> else t in
            (touch now t, true)
  end.

(** ** Ingestion partitions across DML *)

(** [available[key]]: the unused old rows with that JSON text, in order. *)
Fixpoint index_rows (i : nat) (rows : list row) : gmap string (list nat) :=
  match rows with
  | [] => ∅
  | r :: rest =>
      let m := index_rows (S i) rest in
      let key := json_marshal_strings r in
      <[key := i :: default [] (m !! key)]> m
  end.

(** First pass: each new row takes the first unused old row with the same
    text; the result is [""] where there is none. *)
Fixpoint match_rows (oldPartition : list string) (available : gmap string (list nat))
    (used : gset nat) (newRows : list row) : list string * gset nat :=
  match newRows with
  | [] => ([], used)
  | r :: rest =>
      let key := json_marshal_strings r in
      match default [] (available !! key) with
      | [] =>
          let '(res, used) := match_rows oldPartition available used rest in ("" :: res, used)
      | oldIndex :: choices =>
          let '(res, used) :=
            match_rows oldPartition (<[key := choices]> available) ({[oldIndex]} ∪ used) rest in
          (default "" (oldPartition !! oldIndex) :: res, used)
      end
  end.

(** Second pass: an unmatched row takes the partition of the old row at its
    own index if that one is still unused, and the current one otherwise. *)
Fixpoint fill_rows (oldPartition : list string) (current : string) (used : gset nat)
    (i : nat) (result : list string) : list string :=
  match result with
  | [] => []
  | p :: rest =>
      if bool_decide (p ≠ "") then p :: fill_rows oldPartition current used (S i) rest
      else if (i <? length oldPartition)%nat && bool_decide (i ∉ used)
      then default current (oldPartition !! i) ::
             fill_rows oldPartition current ({[i]} ∪ used) (S i) rest
      else current :: fill_rows oldPartition current used (S i) rest
  end.

Definition reconcileIngestionPartitions (oldRows newRows : list row) (oldPartitions : list string)
    (currentPartition : string) : list string :=
  if bool_decide (currentPartition = "") || (length newRows =? 0)%nat then []
  else
    let oldPartition := imap (λ i _, recorded_partition oldPartitions i currentPartition) oldRows in
    let '(result, used) := match_rows oldPartition (index_rows 0 oldRows) ∅ newRows in
    fill_rows oldPartition currentPartition used 0 result.

Definition ingestionPartitionTimeColumn : string := "__locaql_partition_time".
Definition ingestionPartitionDateColumn : string := "__locaql_partition_date".

(** [Format(time.RFC3339Nano)] of an instant on a whole second, in UTC. *)
Definition format_rfc3339 (t : Z) : string :=
  let s := (t `mod` day) `div` second in
  format_date t +:+ "T" +:+ fmt2 (s `div` 3600) +:+ ":" +:+ fmt2 ((s `div` 60) `mod` 60)
    +:+ ":" +:+ fmt2 (s `mod` 60) +:+ "Z".

Definition pseudocolumns (c : timePartitioningConfig) (partitionID : string) : list string :=
  match parseTimePartitionID partitionID (tpc_Type c) with
  | Some start => [storeStringCell (format_rfc3339 start); storeStringCell (format_date start)]
  | None => [storedNullCell; storedNullCell]
  end.

Definition materializeIngestionPseudocolumns (table : option tableRecord) (fields : schema)
    (rows : list row) : schema * list row :=
  match table with
  | None => (fields, rows)
  | Some t =>
      match tr_TimePartitioning t with
      | None => (fields, rows)
      | Some c =>
          if bool_decide (tpc_Field c ≠ "") || bool_decide (is_Some (tr_View t)) ||
             bool_decide (is_Some (tr_External t)) then (fields, rows)
          else
            let fallback := ingestionPartitionID (Some c) (tr_CreatedAt t) in
            (fields ++ [col ingestionPartitionTimeColumn "TIMESTAMP";
                        col ingestionPartitionDateColumn "DATE"],
             imap (λ i r, r ++ pseudocolumns c
               (recorded_partition (tr_IngestionPartitions t) i fallback)) rows)
      end
  end.

(** Last column with each reserved name ([timeIndex], [dateIndex]). *)
Fixpoint last_index_from (i : nat) (name : string) (sch : schema) : option nat :=
  match sch with
  | [] => None
  | f :: r =>
      match last_index_from (S i) name r with
      | Some k => Some k
      | None => if bool_decide (to_lower (Name f) = name) then Some i else None
      end
  end.

(** [append(kept, ...)] for every column but the two. *)
Fixpoint drop_columns {A} (i : nat) (a b : option nat) (l : list A) : list A :=
  match l with
  | [] => []
  | x :: r =>
      let kept := drop_columns (S i) a b r in
      if bool_decide (a = Some i) || bool_decide (b = Some i) then kept else x :: kept
  end.

Definition quote_char : Ascii.ascii := "034"%char.

(** The partition carried by an engine row: its time pseudocolumn, else its
    date pseudocolumn, else the current partition. *)
Definition engine_row_partition (c : timePartitioningConfig) (current : string)
    (timeIndex dateIndex : option nat) (r : row) : string :=
  let read (index : option nat) : option string :=
    i ← index; cell ← r !! i;
    let '(decoded, isNull) := loadStoredCell cell in
    if isNull then None else Some (trim_char quote_char decoded) in
  let by_time := v ← read timeIndex; parsePartitionTimestamp v in
  let by_date := v ← read dateIndex; parse_date v in
  match by_time with
  | Some p => formatTimePartitionID p (tpc_Type c)
  | None => match by_date with
            | Some p => formatTimePartitionID p (tpc_Type c)
            | None => current
            end
  end.

(** [make([]tableField, 0, len(schema)-2)] panics on a one-column schema. *)
Definition partitionIDsFromEngineRows (sch : schema) (rows : list row)
    (c : timePartitioningConfig) (now : Z) : res Empty_set (schema * list row * list string) :=
  let timeIndex := last_index_from 0 ingestionPartitionTimeColumn sch in
  let dateIndex := last_index_from 0 ingestionPartitionDateColumn sch in
  match timeIndex, dateIndex with
  | None, None => Ok (sch, rows, [])
  | _, _ =>
      if (length sch <? 2)%nat then Panic
      else
        let current := ingestionPartitionID (Some c) now in
        Ok (drop_columns 0 timeIndex dateIndex sch,
            drop_columns 0 timeIndex dateIndex <$> rows,
            engine_row_partition c current timeIndex dateIndex <$> rows)
  end.
End WithTimestamps.

(** ** Partition ids name their period *)

Lemma digit_not_underscore z : 0 ≤ z < 10 → digit z ≠ "_"%char.
Proof.
  intros H E. pose proof (digit_val_digit z H) as Hd. by rewrite E in Hd.
Qed.

Lemma format_layout_head l t :
  0 ≤ year_of t ≤ 9999 → ∃ c r, format_layout l t = String c r ∧ c ≠ "_"%char.
Proof.
  unfold year_of, format_layout. destruct (date_of t) as [[y m] d]. cbn [fst]. intros Hy.
  assert (fmt_year y = fmt4 y) as ->.
  { unfold fmt_year. by assert ((0 <=? y) && (y <=? 9999) = true) as -> by lia. }
  unfold fmt4.
  destruct l; rewrite ?str_app_cons; do 2 eexists; (split; [done|]); apply digit_not_underscore; zlia.
Qed.

Lemma parse_format_partition t ty :
  0 ≤ year_of t ≤ 9999 →
  parseTimePartitionID (formatTimePartitionID t ty) ty = Some (truncate (layout_of ty) t).
Proof.
  intros Hy. unfold parseTimePartitionID, formatTimePartitionID.
  destruct (format_layout_head (layout_of ty) t Hy) as (c & r & E & Hc).
  rewrite E, bool_decide_false by done.
  assert (has_prefix (String c r) "__" = false) as ->.
  { apply not_true_iff_false. intros Hp. apply has_prefix_spec in Hp as [x Hx].
    rewrite str_app_cons in Hx. congruence. }
  simpl. rewrite <-E. by apply parse_format_layout.
Qed.

(** A partition id identifies its period: parsing the id of an instant in
    the years 0 to 9999 gives the first instant of the hour, day, month or year
    it lies in, never a later one, and two instants share an id only if they
    share that period. *)
Theorem partition_id_roundtrip (t : Z) (ty : string) :
  0 ≤ year_of t ≤ 9999 →
  parseTimePartitionID (formatTimePartitionID t ty) ty = Some (truncate (layout_of ty) t) ∧
  truncate (layout_of ty) t ≤ t ∧
  ∀ t', 0 ≤ year_of t' ≤ 9999 → formatTimePartitionID t' ty = formatTimePartitionID t ty →
    truncate (layout_of ty) t' = truncate (layout_of ty) t.
Proof.
  intros Hy. split; [by apply parse_format_partition|]. split; [apply truncate_le|].
  intros t' Hy' E. pose proof (parse_format_partition t ty Hy) as H1.
  pose proof (parse_format_partition t' ty Hy') as H2. congruence.
Qed.

Lemma partition_id_roundtrip_witness :
  formatTimePartitionID 1784419200000000000 "MONTH" = "202607" ∧
  parseTimePartitionID "202607" "MONTH" = Some (truncate LMonth 1784419200000000000).
Proof.
  split; [by vm_compute|].
  apply (partition_id_roundtrip 1784419200000000000 "MONTH"). by vm_compute.
Defined.

(** ** Range buckets *)

Definition range_config_ok (c : rangePartitioningConfig) : Prop :=
  in_i64 (rpc_Start c) ∧ in_i64 (rpc_End c) ∧ rpc_Start c < rpc_End c ∧
  0 < rpc_Interval c ≤ max_i64.

(** For a range whose width fits an int64, the bucket of a value inside the
    range is the multiple of the interval, counted from the start, that holds
    the value: no intermediate 64-bit operation wraps. *)
Theorem range_bucket_correct (c : rangePartitioningConfig) (v : Z) :
  range_config_ok c → rpc_End c - rpc_Start c ≤ max_i64 → rpc_Start c ≤ v < rpc_End c →
  let b := range_bucket c v in
  b = rpc_Start c + (v - rpc_Start c) `div` rpc_Interval c * rpc_Interval c ∧
  b ≤ v < b + rpc_Interval c ∧ rpc_Start c ≤ b < rpc_End c.
Proof.
  unfold range_config_ok, in_i64, min_i64. intros (Hs & He & _ & Hi) Hw Hv. unfold range_bucket.
  unfold i64_sub. rewrite wrap64_id by (unfold in_i64, min_i64; lia).
  unfold i64_quot. rewrite Z.quot_div_nonneg by lia.
  set (q := (v - rpc_Start c) `div` rpc_Interval c).
  pose proof (Z.mul_div_le (v - rpc_Start c) (rpc_Interval c)).
  pose proof (Z.mul_succ_div_gt (v - rpc_Start c) (rpc_Interval c)).
  assert (0 ≤ q ≤ v - rpc_Start c) by (subst q; split; [apply Z.div_pos; lia|apply Z.div_le_upper_bound; nia]).
  rewrite (wrap64_id q) by (unfold in_i64, min_i64; lia).
  unfold i64_mul. rewrite wrap64_id by (unfold in_i64, min_i64; nia).
  unfold i64_add. rewrite wrap64_id by (unfold in_i64, min_i64; nia).
  nia.
Qed.

Lemma range_bucket_correct_witness :
  range_bucket (RangePartitioning "id" (-100) 1000 25) 7 = 0.
Proof.
  assert (range_config_ok (RangePartitioning "id" (-100) 1000 25)) as Hok by (vm_compute; intuition congruence).
  destruct (range_bucket_correct (RangePartitioning "id" (-100) 1000 25) 7 Hok) as [H _];
    [by vm_compute|by vm_compute|]. etrans; [exact H|]. reflexivity.
Defined.

(** Without that bound the subtraction wraps: for the widest range the
    configuration check accepts, a value of the range is put in a bucket that
    starts after it. *)
Theorem range_bucket_wraps :
  let c := RangePartitioning "id" min_i64 max_i64 10 in
  range_config_ok c ∧ rpc_Start c ≤ 5 < rpc_End c ∧ ¬ (range_bucket c 5 ≤ 5).
Proof. vm_compute. intuition congruence. Qed.

(** ** Counting *)

Lemma foldl_bump (m : gmap string Z) (l : list string) p :
  default 0 (foldl (λ m k, bump k m) m l !! p) =
  default 0 (m !! p) + Z.of_nat (length (filter (λ k, k = p) l)).
Proof.
  revert m. induction l as [|k l IH]; intros m; simpl; [lia|].
  rewrite IH, filter_cons. unfold bump. rewrite lookup_insert.
  repeat case_decide; simplify_eq/=; lia.
Qed.

Lemma foldl_bump_fmap {A} (f : A → string) (m : gmap string Z) (l : list A) :
  foldl (λ m r, bump (f r) m) m l = foldl (λ m k, bump k m) m (f <$> l).
Proof. revert m. induction l; intros; simpl; auto. Qed.

Lemma filter_Some_fmap (l : list string) p :
  length (filter (λ o, o = Some p) (Some <$> l)) = length (filter (λ k, k = p) l).
Proof.
  induction l as [|k l IH]; [done|]. rewrite fmap_cons, !filter_cons.
  repeat case_decide; simpl; naive_solver.
Qed.

Section Theorems.
Context `{TimestampParser}.

Lemma count_ingestion_spec t fb i rows m :
  count_ingestion t fb i rows m =
  foldl (λ m k, bump k m) m
    (imap (λ j _, recorded_partition (tr_IngestionPartitions t) (i + j) fb) rows).
Proof.
  revert i m. induction rows as [|r rows IH]; intros i m; simpl; [done|].
  rewrite IH, Nat.add_0_r. f_equal. apply imap_ext. intros j x _. simpl. f_equal. lia.
Qed.

(** The partition of every row, as pruning computes it. *)
Definition row_partition_ids (t : tableRecord) : list (option string) :=
  imap (rowPartitionID t) (tr_Rows t).

(** A column-partitioned table gives every row the partition [f] computes. *)
Lemma row_partition_ids_const t (f : row → string) :
  (∀ i r, rowPartitionID t i r = Some (f r)) →
  row_partition_ids t = Some <$> (f <$> tr_Rows t).
Proof.
  intros Hf. unfold row_partition_ids. rewrite <-list_fmap_compose.
  rewrite <-(imap_const (Some ∘ f)). apply imap_ext. intros i x _. apply Hf.
Qed.

(** The partition listing and partition pruning agree: whenever pruning
    assigns a partition to every row, the count reported for a partition is the
    number of rows pruning would keep for it - no row is lost, none counted
    twice. *)
Theorem partitionCounts_rows (t : tableRecord) (p : string) :
  Forall is_Some (row_partition_ids t) →
  default 0 (partitionCounts t !! p) =
  Z.of_nat (length (filter (λ o, o = Some p) (row_partition_ids t))).
Proof.
  intros Hall. unfold partitionCounts.
  destruct (tr_TimePartitioning t) as [c|] eqn:Ec.
  - case_bool_decide as Hf.
    + rewrite count_ingestion_spec, foldl_bump, <-filter_Some_fmap, lookup_empty.
      change (default 0 None) with 0. rewrite Z.add_0_l.
      do 3 f_equal. unfold row_partition_ids in *. rewrite fmap_imap. apply imap_ext.
      intros i r Hr. rewrite Forall_lookup in Hall.
      specialize (Hall i (rowPartitionID t i r)). rewrite list_lookup_imap, Hr in Hall.
      specialize (Hall eq_refl). unfold rowPartitionID in Hall |- *. rewrite Ec in *.
      rewrite !(bool_decide_true (tpc_Field c = "")) in * by done. cbn zeta in *.
      case_bool_decide; [by destruct Hall|done].
    + destruct (findTopLevelField _ _) as [[f index]|] eqn:Ef.
      * rewrite foldl_bump_fmap, foldl_bump, <-filter_Some_fmap, <-row_partition_ids_const; [done|].
        intros. unfold rowPartitionID. by rewrite Ec, bool_decide_false, Ef.
      * unfold row_partition_ids in *. destruct (tr_Rows t) as [|r rs]; [done|].
        inversion_clear Hall as [|? ? Hs]. unfold rowPartitionID in Hs.
        rewrite Ec, bool_decide_false, Ef in Hs by done. by destruct Hs.
  - destruct (tr_RangePartitioning t) as [c|] eqn:Er.
    + destruct (findTopLevelField _ _) as [[f index]|] eqn:Ef.
      * rewrite foldl_bump_fmap, foldl_bump, <-filter_Some_fmap, <-row_partition_ids_const; [done|].
        intros. unfold rowPartitionID. by rewrite Ec, Er, Ef.
      * unfold row_partition_ids in *. destruct (tr_Rows t) as [|r rs]; [done|].
        inversion_clear Hall as [|? ? Hs]. unfold rowPartitionID in Hs.
        rewrite Ec, Er, Ef in Hs. by destruct Hs.
    + unfold row_partition_ids in *. destruct (tr_Rows t) as [|r rs].
      * rewrite lookup_singleton. by case_decide.
      * inversion_clear Hall as [|? ? Hs]. unfold rowPartitionID in Hs.
        rewrite Ec, Er in Hs. by destruct Hs.
Qed.
(** ** Partition expiration is exact *)

(** The partitioning column the purge reads ([None] for ingestion time). *)
Definition purge_field (t : tableRecord) (c : timePartitioningConfig) : option (tableField * nat) :=
  if bool_decide (tpc_Field c = "") then None else findTopLevelField (tr_Schema t) (tpc_Field c).

(** Every row with the partition the purge puts it in. *)
Definition row_ids (t : tableRecord) (c : timePartitioningConfig) (rows : list row)
    : list (row * string) :=
  imap (λ i r, (r, purge_partition_id t c (purge_field t c) i r)) rows.

(** The rows whose partition has not expired. *)
Definition live_rows (c : timePartitioningConfig) (now : Z) : list (row * string) → list (row * string) :=
  filter (λ p, partition_expired c now p.2 = false).

Lemma purge_rows_filter t c fld now i rows :
  purge_rows t c fld now i rows =
  live_rows c now (imap (λ j r, (r, purge_partition_id t c fld (i + j) r)) rows).
Proof.
  revert i. induction rows as [|r rows IH]; intros i; [done|].
  simpl. rewrite IH, Nat.add_0_r. unfold live_rows. rewrite filter_cons. simpl.
  assert (imap (λ j r, (r, purge_partition_id t c fld (S (i + j)) r)) rows =
          imap ((λ j r, (r, purge_partition_id t c fld (i + j) r)) ∘ S) rows) as ->.
  { apply imap_ext. intros j x _. simpl. by rewrite Nat.add_succ_r. }
  destruct (partition_expired _ _ _); by case_decide.
Qed.

Lemma recorded_partition_idem fb l i l' j :
  l' !! j = Some (recorded_partition l i fb) →
  recorded_partition l' j fb = recorded_partition l i fb.
Proof.
  unfold recorded_partition. intros ->. repeat case_match; bools; simplify_eq; done.
Qed.

(** After a purge the survivors keep the partition they had. *)
Lemma row_ids_purged t c now rows u :
  tr_CreatedAt u = tr_CreatedAt t → tr_Schema u = tr_Schema t →
  (tpc_Field c = "" ∨ is_Some (findTopLevelField (tr_Schema t) (tpc_Field c))) →
  (tpc_Field c = "" → tr_IngestionPartitions u = (live_rows c now (row_ids t c rows)).*2) →
  row_ids u c (live_rows c now (row_ids t c rows)).*1 = live_rows c now (row_ids t c rows).
Proof.
  intros Hc Hs Hfound Hi. set (kept := live_rows c now (row_ids t c rows)) in *.
  apply list_eq. intros k. unfold row_ids at 1. rewrite list_lookup_imap, list_lookup_fmap.
  destruct (kept !! k) as [[r id]|] eqn:Ek; [|done]. simpl. do 2 f_equal.
  assert ((r, id) ∈ kept) as Hin by (by eapply list_elem_of_lookup_2).
  apply list_elem_of_filter in Hin as [_ Hin].
  apply list_elem_of_lookup_1 in Hin as [j Hj]. unfold row_ids in Hj. rewrite list_lookup_imap in Hj.
  destruct (rows !! j) as [r1|]; simplify_eq/=.
  unfold purge_field in *. rewrite Hs. unfold purge_partition_id.
  case_bool_decide as Hf; rewrite Hc.
  - apply recorded_partition_idem. rewrite Hi, list_lookup_fmap, Ek by done. simpl.
    unfold purge_partition_id. by rewrite bool_decide_true.
  - destruct Hfound as [|[[f n] ->]]; done.
Qed.

(** The tables the purge works on. *)
Definition purgeable (t : tableRecord) (c : timePartitioningConfig) : Prop :=
  tr_TimePartitioning t = Some c ∧ 0 < tpc_ExpirationMs c ∧
  tr_External t = None ∧ tr_View t = None ∧
  (tpc_Field c = "" ∨ is_Some (findTopLevelField (tr_Schema t) (tpc_Field c))).

Lemma purge_unfold t c now :
  purgeable t c →
  purgeExpiredPartitions t now =
    let kept := live_rows c now (row_ids t c (tr_Rows t)) in
    if (length kept =? length (tr_Rows t))%nat then (t, false)
    else
      let t := t <| tr_Rows := kept.*1 |> in
      let t := if bool_decide (tpc_Field c = "")
               then t <| tr_IngestionPartitions := kept.*2 |> else t in
      (touch now t, true).
Proof.
  intros (Hc & He & Hx & Hv & Hf). unfold purgeExpiredPartitions. rewrite Hc, Hx, Hv.
  assert ((tpc_ExpirationMs c <=? 0) = false) as -> by lia. simpl.
  rewrite !orb_false_r. rewrite purge_rows_filter. fold (purge_field t c). fold (row_ids t c (tr_Rows t)).
  destruct (length (tr_Rows t) =? 0)%nat eqn:E0.
  { apply Nat.eqb_eq in E0. apply nil_length_inv in E0. by rewrite E0. }
  assert (negb (bool_decide (tpc_Field c = "")) && bool_decide (purge_field t c = None) = false) as ->.
  { unfold purge_field. case_bool_decide; [done|]. simpl.
    apply bool_decide_eq_false. destruct Hf as [|[? ->]]; done. }
  done.
Qed.

Lemma live_rows_length c now l : (length (live_rows c now l) ≤ length l)%nat.
Proof. apply length_filter. Qed.
Lemma live_rows_idem c now l : live_rows c now (live_rows c now l) = live_rows c now l.
Proof. by apply list_filter_filter_r. Qed.
Lemma row_ids_fst t c rows : (row_ids t c rows).*1 = rows.
Proof.
  apply list_eq. intros i. unfold row_ids.
  rewrite list_lookup_fmap, list_lookup_imap. by destruct (rows !! i).
Qed.

(** A second purge at the same instant finds nothing. *)
Lemma purge_idem t c now :
  purgeable t c →
  purgeExpiredPartitions (purgeExpiredPartitions t now).1 now =
    ((purgeExpiredPartitions t now).1, false).
Proof.
  intros Hp. rewrite (purge_unfold t c now Hp). cbv zeta. destruct (_ =? _)%nat eqn:El.
  { simpl. rewrite (purge_unfold t c now Hp). cbv zeta. by rewrite El. }
  set (u := if bool_decide (tpc_Field c = "") then _ else _). simpl.
  set (v := touch now u).
  assert (purgeable v c) as Hv.
  { destruct Hp as (? & ? & ? & ? & ?). subst v u. by case_bool_decide. }
  rewrite (purge_unfold v c now Hv). cbv zeta.
  assert (tr_Rows v = (live_rows c now (row_ids t c (tr_Rows t))).*1) as ->
    by (subst v u; by case_bool_decide).
  rewrite row_ids_purged, live_rows_idem, length_fmap, Nat.eqb_refl; [done| | | |].
  - subst v u. by case_bool_decide.
  - subst v u. by case_bool_decide.
  - apply Hp.
  - intros Hf. subst v u. by rewrite bool_decide_true.
Qed.


(** ** Ingestion partitions across DML *)

(** Two indexes offer the same choices for the row texts in [Q]: a consumed
    entry may be left as an empty list. *)
Definition same_choices (Q : string → bool) (a b : gmap string (list nat)) : Prop :=
  ∀ k, Q k = true → default [] (a !! k) = default [] (b !! k).

#[local] Instance same_choices_equiv Q : Equivalence (same_choices Q).
Proof. split; unfold same_choices; intros ?; naive_solver congruence. Qed.

Lemma same_choices_consume Q i r rest a choices :
  Q (json_marshal_strings r) = true →
  same_choices Q a (index_rows i (r :: rest)) →
  default [] (a !! json_marshal_strings r) = i :: choices →
  same_choices Q (<[json_marshal_strings r := choices]> a) (index_rows (S i) rest).
Proof.
  intros Hq Ha Hc k Hk. pose proof (Ha k Hk) as Hak. simpl in Hak.
  destruct (decide (k = json_marshal_strings r)) as [->|Hne].
  - rewrite lookup_insert_eq in *. simpl in *. rewrite Hc in Hak. congruence.
  - by rewrite lookup_insert_ne in * by done.
Qed.

Lemma same_choices_skip Q i r rest a :
  Q (json_marshal_strings r) = false →
  same_choices Q a (index_rows i (r :: rest)) → same_choices Q a (index_rows (S i) rest).
Proof.
  intros Hq Ha k Hk. rewrite (Ha k Hk). simpl. rewrite lookup_insert_ne; [done|]. congruence.
Qed.

(** The partitions of the rows [Q] selects, read off the old assignment. *)
Definition kept_partitions (Q : string → bool) (rows : list row) (partitions : list string)
    : list string :=
  (filter (λ p, Q (json_marshal_strings p.1) = true) (zip rows partitions)).*2.

Lemma match_rows_kept Q oldP rest new :
  ∀ i a used, same_choices Q a (index_rows i rest) → length oldP = (i + length rest)%nat →
  ∃ a' used', same_choices Q a' ∅ ∧
    match_rows oldP a used (filter (λ r, Q (json_marshal_strings r) = true) rest ++ new) =
    (kept_partitions Q rest (drop i oldP) ++ (match_rows oldP a' used' new).1,
     (match_rows oldP a' used' new).2).
Proof.
  induction rest as [|r rest IH]; intros i a used Ha Hl; simpl in Hl.
  { exists a, used. split; [done|]. simpl. by destruct (match_rows oldP a used new). }
  destruct (lookup_lt_is_Some_2 oldP i) as [p Hp]; [lia|].
  rewrite (drop_S _ _ _ Hp), filter_cons. unfold kept_partitions. simpl. rewrite filter_cons. simpl.
  case_decide as Hq; simpl.
  - assert (default [] (a !! json_marshal_strings r) =
      i :: default [] (index_rows (S i) rest !! json_marshal_strings r)) as Hc.
    { rewrite (Ha _ Hq). simpl. by rewrite lookup_insert_eq. }
    rewrite Hc. edestruct (IH (S i)) as (a' & used' & Ha' & ->);
      [by eapply same_choices_consume| lia |].
    exists a', used'. split; [done|]. by rewrite Hp.
  - apply not_true_is_false in Hq.
    edestruct (IH (S i)) as (a' & used' & Ha' & E); [by eapply same_choices_skip|lia|].
    exists a', used'. split; [done|]. exact E.
Qed.

Lemma match_rows_none oldP a used new :
  same_choices (λ _, true) a ∅ → (match_rows oldP a used new).1 = replicate (length new) "".
Proof.
  intros Ha. revert used. induction new as [|r new IH]; intros used; [done|]. simpl.
  rewrite (Ha _ eq_refl), lookup_empty. simpl. specialize (IH used).
  destruct (match_rows oldP a used new); simpl in *. by f_equal.
Qed.

Lemma fill_rows_kept oldP cur used i l n :
  Forall (.≠ "") l → (n = O ∨ length oldP ≤ i + length l)%nat →
  fill_rows oldP cur used i (l ++ replicate n "") = l ++ replicate n cur.
Proof.
  intros Hl. revert i used. induction Hl as [|p l Hp Hl IH]; intros i used Hn; simpl.
  - destruct Hn as [->|Hn]; [done|]. simpl in Hn. revert i used Hn.
    induction n as [|n IH]; intros i used Hn; [done|]. simpl.
    assert ((i <? length oldP)%nat = false) as -> by (apply Nat.ltb_ge; lia). simpl. f_equal. apply IH. lia.
  - rewrite bool_decide_true by done. f_equal. apply IH. simpl in Hn. lia.
Qed.

(** The partition each old row is in before the statement. *)
Definition old_partitions (oldRows : list row) (recorded : list string) (current : string)
    : list string := imap (λ i _, recorded_partition recorded i current) oldRows.

Lemma old_partitions_nonempty rows rec cur : cur ≠ "" → Forall (.≠ "") (old_partitions rows rec cur).
Proof.
  intros Hc. apply Forall_lookup. intros i p. unfold old_partitions. rewrite list_lookup_imap.
  destruct (rows !! i); [|done]. simpl. intros [= <-]. unfold recorded_partition.
  repeat case_match; bools; done.
Qed.

Lemma kept_partitions_all rows ps : length ps = length rows → kept_partitions (λ _, true) rows ps = ps.
Proof.
  intros Hl. unfold kept_partitions. rewrite filter_all by done. apply snd_zip. lia.
Qed.

Lemma kept_partitions_nonempty Q rows ps : Forall (.≠ "") ps → Forall (.≠ "") (kept_partitions Q rows ps).
Proof.
  intros Hp. apply Forall_forall. intros p Hin. unfold kept_partitions in Hin.
  apply list_elem_of_fmap in Hin as ([r q] & -> & Hin). apply list_elem_of_filter in Hin as [_ Hin].
  apply elem_of_zip_r in Hin. rewrite Forall_forall in Hp. by apply Hp.
Qed.

(** Rows keep their ingestion partition across DML: after an INSERT the old
    rows are where they were and the new ones are in the current partition;
    after a DELETE, which keeps or removes rows by their content, every
    surviving row is in the partition it had, duplicates included. *)
Theorem reconcileIngestionPartitions_dml (oldRows newRows : list row) (recorded : list string)
    (current : string) (keep : string → bool) :
  current ≠ "" →
  let old := old_partitions oldRows recorded current in
  reconcileIngestionPartitions oldRows (oldRows ++ newRows) recorded current =
    old ++ replicate (length newRows) current ∧
  reconcileIngestionPartitions oldRows
    (filter (λ r, keep (json_marshal_strings r) = true) oldRows) recorded current =
    kept_partitions keep oldRows old.
Proof.
  intros Hc old. unfold reconcileIngestionPartitions.
  change (imap _ oldRows) with old.
  rewrite bool_decide_false by done. simpl.
  assert (length old = length oldRows) as Hlen by apply length_imap.
  pose proof (old_partitions_nonempty oldRows recorded current Hc) as Hne. fold old in Hne.
  split.
  - destruct (length (oldRows ++ newRows) =? 0)%nat eqn:E0.
    { apply Nat.eqb_eq, nil_length_inv, app_eq_nil in E0 as [E1 E2]. subst newRows old.
      by rewrite E1. }
    destruct (match_rows_kept (λ _, true) old oldRows newRows 0 (index_rows 0 oldRows) ∅)
      as (a & u & Ha & E); [done|done|].
    rewrite filter_all in E by done.
    rewrite E. rewrite drop_0, kept_partitions_all, match_rows_none by done.
    apply fill_rows_kept; [done|]. right. lia.
  - destruct (match_rows_kept keep old oldRows [] 0 (index_rows 0 oldRows) ∅)
      as (a & u & Ha & E); [done|done|].
    rewrite app_nil_r, drop_0 in E. simpl in E. rewrite app_nil_r in E.
    destruct (length _ =? 0)%nat eqn:E0.
    { apply Nat.eqb_eq, nil_length_inv in E0. rewrite E0 in E. simpl in E. congruence. }
    rewrite E. pose proof (fill_rows_kept old current u 0 (kept_partitions keep oldRows old) 0) as Hf.
    simpl in Hf. rewrite !app_nil_r in Hf. apply Hf; [by apply kept_partitions_nonempty|by left].
Qed.

End Theorems.

(** ** Concrete tables *)

(** A parser of whole-second UTC instants written as integers. *)
#[local] Instance unix_seconds : TimestampParser := λ s, (λ n, n * second) <$> parse_int s.

Definition demo_range_table : tableRecord :=
  (new_table "p" "d" "t" [col "id" "INT64"] [["7"]; ["130"]; [storedNullCell]; ["9999"]] 0 1)
    <| tr_RangePartitioning := Some (RangePartitioning "id" 0 1000 100) |>.

Lemma partitionCounts_rows_witness :
  default 0 (partitionCounts demo_range_table !! "100") =
  Z.of_nat (length (filter (λ o, o = Some "100") (row_partition_ids demo_range_table))) ∧
  partitionCounts demo_range_table !! "100" = Some 1.
Proof.
  split; [|vm_compute; reflexivity].
  apply (partitionCounts_rows demo_range_table "100").
  assert (row_partition_ids demo_range_table =
    [Some "0"; Some "100"; Some "__NULL__"; Some "__UNPARTITIONED__"]) as -> by (by vm_compute).
  repeat (constructor; [by eexists|]). constructor.
Defined.

(** One row per day, kept for a day. *)
Definition demo_daily_table : tableRecord :=
  (new_table "p" "d" "t" [col "ts" "TIMESTAMP"] [["0"]; ["200000"]; ["90000"]] 0 1)
    <| tr_TimePartitioning := Some (TimePartitioning "DAY" "ts" 86400000) |>.


Lemma reconcileIngestionPartitions_dml_witness :
  reconcileIngestionPartitions [["a"]; ["b"]; ["a"]] [["a"]; ["b"]; ["a"]; ["c"]]
    ["20260101"; "20260102"; "20260103"] "20260201" =
  ["20260101"; "20260102"; "20260103"; "20260201"].
Proof.
  refine (proj1 (reconcileIngestionPartitions_dml [["a"]; ["b"]; ["a"]] [["c"]]
    ["20260101"; "20260102"; "20260103"] "20260201" (λ _, true) _)). done.
Defined.
