(* ===== verification/Pruning.v ===== *)
(** * Table references and partition pruning (sql_engine.go, partition_pruning.go)

    What the server reads off a parsed query: the tables it refers to, whether
    it filters on the partitioning column, and the partitions its WHERE clauses
    can select.  The parser is the parameter [GoogleSqlParser]; [node] has a
    constructor for each kind of AST node the code looks at.  The parser's node
    accessors are assumed not to fail. *)

From S2P Require Import Prelude GoStrings Regexp SqlPatterns GoTime Cells TableModel Partitioning.
From Stdlib Require Import Ascii.

(** ** Parsed statements *)

#[warnings="-register-all"]
Inductive node : Type :=
| ASTTablePathExpression (path : option (list string)) (others : list node)
| ASTWhereClause (expression : option node)
| ASTDeleteStatement (others : list node) (where_ : option node)
| ASTUpdateStatement (others : list node) (where_ : option node)
| ASTOrExpr (args : list node)
| ASTAndExpr (args : list node)
| ASTBinaryExpression (is_eq : bool) (lhs rhs : node)
| ASTPathExpression (parts : list string)
| ASTIntLiteral (image : string)
| ASTDateOrTimeLiteral (value : option string)
| ASTOther (is_expression : bool) (others : list node).

Class GoogleSqlParser := parseGoogleSQLStatement : string → option node.

Definition is_expression (n : node) : bool :=
  match n with
  | ASTOrExpr _ | ASTAndExpr _ | ASTBinaryExpression _ _ _ | ASTPathExpression _
  | ASTIntLiteral _ | ASTDateOrTimeLiteral _ => true
  | ASTOther b _ => b
  | _ => false
  end.

Definition opt_nodes (rec : node → list node) (o : option node) : list node :=
  match o with Some n => rec n | None => [] end.

(** The nodes in the order of the walk: a node, then its children. *)
Fixpoint walkGoogleSQLAST (n : node) : list node :=
  n :: match n with
       | ASTTablePathExpression _ l | ASTOrExpr l | ASTAndExpr l | ASTOther _ l => flat_map walkGoogleSQLAST l
       | ASTWhereClause e => opt_nodes walkGoogleSQLAST e
       | ASTDeleteStatement l e | ASTUpdateStatement l e =>
           flat_map walkGoogleSQLAST l ++ opt_nodes walkGoogleSQLAST e
       | ASTBinaryExpression _ a b => walkGoogleSQLAST a ++ walkGoogleSQLAST b
       | ASTPathExpression _ | ASTIntLiteral _ | ASTDateOrTimeLiteral _ => []
       end.

(** ** References *)

Record datasetTableRef := DatasetTableRef { dr_datasetID : string; dr_tableID : string }.
#[export] Instance datasetTableRef_eq_dec : EqDecision datasetTableRef.
Proof. solve_decision. Defined.

(** The reference a path stands for; a quoted reference is one identifier with
    dots in it. *)
Definition path_ref (projectID : string) (parts : list string) : option datasetTableRef :=
  let parts := match parts with
               | [one] => if str_mem "." one then split_on "." one else parts
               | _ => parts
               end in
  match parts with
  | [d; t] => Some (DatasetTableRef d t)
  | [p; d; t] => if equal_fold p projectID then Some (DatasetTableRef d t) else None
  | _ => None
  end.

(** [refs] has no repetitions, so it also stands for [seen]. *)
Definition appendDatasetTableRef (projectID : string) (refs : list datasetTableRef) (parts : list string)
    : list datasetTableRef :=
  match path_ref projectID parts with
  | Some r => if bool_decide (r ∈ refs) then refs else refs ++ [r]
  | None => refs
  end.

Definition table_paths (n : node) : list (list string) :=
  omap (λ n, match n with ASTTablePathExpression path _ => path | _ => None end) (walkGoogleSQLAST n).

Definition referencedTablesLegacy (queryText projectID : string) : list datasetTableRef :=
  foldl (λ refs m, appendDatasetTableRef projectID refs (split_on "." (sub m 1))) []
    (find_all legacyTableRefPattern queryText).

Section Queries.
Context `{TimestampParser} `{GoogleSqlParser}.

Definition referencedTablesFromAST (queryText projectID : string) : option (list datasetTableRef) :=
  statement ← parseGoogleSQLStatement queryText;
  Some (foldl (appendDatasetTableRef projectID) [] (table_paths statement)).

Definition referencedTables (queryText projectID : string) : list datasetTableRef :=
  default (referencedTablesLegacy queryText projectID) (referencedTablesFromAST queryText projectID).

(** ** Filters on the partitioning column *)

Definition partitionFilterColumns (t : tableRecord) : list string :=
  match tr_TimePartitioning t with
  | Some c => if bool_decide (tpc_Field c ≠ "") then [tpc_Field c] else ["_PARTITIONTIME"; "_PARTITIONDATE"]
  | None => []
  end ++ match tr_RangePartitioning t with Some c => [rpc_Field c] | None => [] end.

Definition names_column (columns : list string) (n : node) : bool :=
  match n with
  | ASTPathExpression parts =>
      match last parts with
      | Some name => existsb (equal_fold name) columns
      | None => false
      end
  | _ => false
  end.

Definition where_of (n : node) : option node :=
  match n with
  | ASTWhereClause e | ASTDeleteStatement _ e | ASTUpdateStatement _ e => e
  | _ => None
  end.

Definition queryHasPartitionFilterAST (queryText : string) (t : tableRecord) : option bool :=
  statement ← parseGoogleSQLStatement queryText;
  Some (existsb (λ n, match where_of n with
                      | Some e => existsb (names_column (partitionFilterColumns t)) (walkGoogleSQLAST e)
                      | None => false
                      end) (walkGoogleSQLAST statement)).

Definition queryHasPartitionFilter (queryText : string) (t : tableRecord) : bool :=
  match queryHasPartitionFilterAST queryText t with
  | Some found => found
  | None =>
      existsb (λ m, existsb (λ column, match_string (whole_column column) (sub m 1)) (partitionFilterColumns t))
        (find_all whereClausePattern queryText)
  end.

(** ** The partitions a WHERE clause selects *)

(** The type with which a comparison on the column is read. *)
Definition time_column_type (t : tableRecord) (c : timePartitioningConfig) (column : string) : option string :=
  if bool_decide (tpc_Field c = "") && equal_fold column "_PARTITIONDATE" then Some "DATE"
  else if bool_decide (tpc_Field c = "") && equal_fold column "_PARTITIONTIME" then Some "TIMESTAMP"
  else if bool_decide (tpc_Field c ≠ "") && equal_fold column (tpc_Field c) then
    (λ f, Type_ f.1) <$> findTopLevelField (tr_Schema t) (tpc_Field c)
  else None.

Definition range_literal_partition (c : rangePartitioningConfig) (value : Z) : string :=
  if (value <? rpc_Start c) || (rpc_End c <=? value) then "__UNPARTITIONED__"
  else format_int (range_bucket c value).

Definition partitionTargetFromComparison (columnNode literalNode : node) (t : tableRecord) : option string :=
  match columnNode with
  | ASTPathExpression parts =>
      column ← last parts;
      match (c ← tr_RangePartitioning t; if equal_fold column (rpc_Field c) then Some c else None) with
      | Some c =>
          match literalNode with
          | ASTIntLiteral image => range_literal_partition c <$> parse_int image
          | _ => None
          end
      | None =>
          c ← tr_TimePartitioning t;
          fieldType ← time_column_type t c column;
          match literalNode with
          | ASTDateOrTimeLiteral (Some value) =>
              timePartitionIDFromCell fieldType (storeStringCell value) (tpc_Type c)
          | _ => None
          end
      end
  | _ => None
  end.

(** Intersect the sets found so far with one more. *)
Definition meet (a b : option (gset string)) : option (gset string) :=
  match a, b with
  | Some a, Some b => Some (a ∩ b)
  | None, _ => b
  | _, None => a
  end.

Fixpoint partitionEqualityTargets (e : node) (t : tableRecord) : option (gset string) :=
  match e with
  | ASTAndExpr args =>
      (fix go (args : list node) (acc : option (gset string)) :=
         match args with
         | [] => acc
         | a :: args => go args (if is_expression a then meet acc (partitionEqualityTargets a t) else acc)
         end) args None
  | ASTBinaryExpression true lhs rhs =>
      match partitionTargetFromComparison lhs rhs t with
      | Some id => Some {[id]}
      | None => singleton <$> partitionTargetFromComparison rhs lhs t
      end
  | _ => None
  end.

Definition where_expressions (statement : node) : list node :=
  omap (λ n, match n with ASTWhereClause e => e | _ => None end) (walkGoogleSQLAST statement).

Definition occurrences (projectID : string) (ref : datasetTableRef) (statement : node) : nat :=
  length (filter (λ parts, path_ref projectID parts = Some ref) (table_paths statement)).

Fixpoint keep_rows (t : tableRecord) (targetIDs : gset string) (i : nat) (rows : list row)
    : list row * list string :=
  match rows with
  | [] => ([], [])
  | r :: rows =>
      let '(kept, partitions) := keep_rows t targetIDs (S i) rows in
      match rowPartitionID t i r with
      | Some id => if bool_decide (id ∈ targetIDs) then (r :: kept, id :: partitions) else (kept, partitions)
      | None => (kept, partitions)
      end
  end.

Definition ingestion_time (t : tableRecord) : bool :=
  match tr_TimePartitioning t with Some c => bool_decide (tpc_Field c = "") | None => false end.

(** The kept rows with their ingestion partitions; [None] when nothing is pruned. *)
Definition prunePartitionedRows (queryText projectID : string) (ref : datasetTableRef)
    (t : option tableRecord) (rows : list row) : option (list row * list string) :=
  t ← t;
  if bool_decide (is_Some (tr_View t)) || bool_decide (is_Some (tr_External t)) ||
     bool_decide (tr_TimePartitioning t = None ∧ tr_RangePartitioning t = None) then None
  else
    statement ← parseGoogleSQLStatement queryText;
    if negb (occurrences projectID ref statement =? 1)%nat then None
    else
      targetIDs ← foldl (λ acc e, meet acc (partitionEqualityTargets e t)) None (where_expressions statement);
      let '(kept, partitions) := keep_rows t targetIDs 0 rows in
      Some (kept, if ingestion_time t then partitions else []).
End Queries.

(** ** Pruning is sound

    [truth i r e]: the row [r], the table's [i]-th, satisfies the expression [e].
    The engine decides it; what pruning relies on is that a conjunction is true
    only if its terms are, and that an equality between the partitioning column
    and a literal is true only if the row has the literal's value. *)

(** The instant a DATE or TIMESTAMP cell stands for. *)
Definition cell_instant `{TimestampParser} (fieldType cell : string) : option Z :=
  let '(decoded, isNull) := loadStoredCell cell in
  if isNull then None
  else if equal_fold fieldType "DATE" then parse_date decoded else parsePartitionTimestamp decoded.

Lemma partition_of_instant `{TimestampParser} fieldType cell ptype :
  timePartitionIDFromCell fieldType cell ptype =
  (λ z, formatTimePartitionID z ptype) <$> cell_instant fieldType cell.
Proof.
  unfold timePartitionIDFromCell, cell_instant. destruct (loadStoredCell cell) as [s []]; [done|].
  by destruct (if equal_fold fieldType "DATE" then _ else _).
Qed.

Section Soundness.
Context `{TimestampParser} `{GoogleSqlParser}.
Context (t : tableRecord).

(** The instant at which the partition of a row of an ingestion-time table
    starts: the row's _PARTITIONTIME. *)
Definition row_partition_start (i : nat) (r : row) (z : Z) : Prop :=
  ∃ c s, tr_TimePartitioning t = Some c ∧
    rowPartitionID t i r = Some (formatTimePartitionID s (tpc_Type c)) ∧
    z = truncate (layout_of (tpc_Type c)) s.

(** The row has the value that the literal gives to the column. *)
Definition column_equals (i : nat) (r : row) (column : string) (literal : node) : Prop :=
  match literal with
  | ASTIntLiteral image =>
      ∀ c f index v, tr_RangePartitioning t = Some c → equal_fold column (rpc_Field c) = true →
        findTopLevelField (tr_Schema t) (rpc_Field c) = Some (f, index) → parse_int image = Some v →
        ∃ s, loadStoredCell (cell_at r index) = (s, false) ∧ parse_int s = Some v
  | ASTDateOrTimeLiteral (Some value) =>
      ∀ c, tr_TimePartitioning t = Some c →
        (tpc_Field c ≠ "" → equal_fold column (tpc_Field c) = true →
           ∀ f index, findTopLevelField (tr_Schema t) (tpc_Field c) = Some (f, index) →
           is_Some (cell_instant (Type_ f) (cell_at r index)) ∧
           cell_instant (Type_ f) (cell_at r index) = cell_instant (Type_ f) (storeStringCell value)) ∧
        (tpc_Field c = "" → equal_fold column "_PARTITIONTIME" = true →
           ∃ z, row_partition_start i r z ∧ cell_instant "TIMESTAMP" (storeStringCell value) = Some z) ∧
        (tpc_Field c = "" → equal_fold column "_PARTITIONDATE" = true →
           ∃ z, row_partition_start i r z ∧
                cell_instant "DATE" (storeStringCell value) = Some (truncate LDay z))
  | _ => True
  end.

(** The table that pruning looks at: partitioned one way, by a column it has,
    and with whole days in a partition when it goes by ingestion time. *)
Definition prunable : Prop :=
  (∀ c, tr_TimePartitioning t = Some c → tr_RangePartitioning t = None) ∧
  (∀ c, tr_RangePartitioning t = Some c → is_Some (findTopLevelField (tr_Schema t) (rpc_Field c))) ∧
  (∀ c, tr_TimePartitioning t = Some c → tpc_Field c = "" → layout_of (tpc_Type c) ≠ LHour).

Lemma truncate_day_of_period l s : l ≠ LHour → truncate LDay (truncate l s) = truncate l s.
Proof.
  intros Hl. assert (∀ n, truncate LDay (n * day) = n * day) as Hd.
  { intros n. unfold truncate. destruct (date_of (n * day)) as [[? ?] ?].
    unfold day. by rewrite Z.div_mul. }
  unfold truncate at 2 3. destruct (date_of s) as [[y m] d]. by destruct l; [apply Hd..|].
Qed.

Lemma comparison_sound i r columnNode literalNode id :
  prunable → partitionTargetFromComparison columnNode literalNode t = Some id →
  (∀ parts column, columnNode = ASTPathExpression parts → last parts = Some column →
     column_equals i r column literalNode) →
  rowPartitionID t i r = Some id.
Proof.
  intros (Hone & Hfield & Hday) Hc Htruth. unfold partitionTargetFromComparison in Hc.
  destruct columnNode as [| | | | | | |parts| | |]; try done.
  apply bind_Some in Hc as (column & Hl & Hc). specialize (Htruth parts column eq_refl Hl).
  destruct (tr_RangePartitioning t) as [rc|] eqn:Er; simpl in Hc.
  - destruct (tr_TimePartitioning t) as [tc|] eqn:Et; [by specialize (Hone tc eq_refl)|].
    destruct (equal_fold column (rpc_Field rc)) eqn:Ec; simpl in Hc; [|done].
    destruct literalNode as [| | | | | | | |image| |]; try done.
    apply fmap_Some in Hc as (v & Hv & ->). destruct (Hfield rc eq_refl) as [[f index] Hf].
    destruct (Htruth rc f index v Er Ec Hf Hv) as (s & Hs & Hp).
    unfold rowPartitionID. rewrite Et, Er, Hf. f_equal. unfold range_partition. by rewrite Hs, Hp.
  - apply bind_Some in Hc as (tc & Et & Hc). apply bind_Some in Hc as (fieldType & Hty & Hc).
    destruct literalNode as [| | | | | | | | |[value|]|]; try done.
    rewrite partition_of_instant in Hc. apply fmap_Some in Hc as (z & Hz & ->).
    destruct (Htruth tc Et) as (Hcol & Htime & Hdate). unfold time_column_type in Hty.
    destruct (bool_decide (tpc_Field tc = "")) eqn:Ef; bools.
    + destruct (equal_fold column "_PARTITIONDATE") eqn:E1; simpl in Hty; simplify_eq.
      { destruct (Hdate Ef eq_refl) as (z' & (tc' & s & Et' & Hrow & ->) & Hz'). rewrite Et in Et'. simplify_eq.
        rewrite Hrow. f_equal. unfold formatTimePartitionID. rewrite truncate_day_of_period by eauto.
        symmetry. apply format_truncate. }
      destruct (equal_fold column "_PARTITIONTIME") eqn:E2; simpl in Hty; simplify_eq.
      { destruct (Htime Ef eq_refl) as (z' & (tc' & s & Et' & Hrow & ->) & Hz'). rewrite Et in Et'. simplify_eq.
        rewrite Hrow. f_equal. symmetry. apply format_truncate. }
      by rewrite bool_decide_false in Hty by naive_solver.
    + rewrite bool_decide_true in Hty by done. simpl in Hty.
      destruct (equal_fold column (tpc_Field tc)) eqn:E1; [|done].
      apply fmap_Some in Hty as ([f index] & Hf & ->). simpl in *.
      destruct (Hcol Ef eq_refl f index Hf) as [_ Heq]. rewrite Hz in Heq.
      unfold rowPartitionID. rewrite Et, bool_decide_false, Hf by done. f_equal.
      unfold time_partition. rewrite partition_of_instant, Heq.
      unfold cell_instant in Heq. by destruct (loadStoredCell (cell_at r index)) as [? []].
Qed.

Context (truth : nat → row → node → Prop).
Hypothesis truth_and : ∀ i r args a,
  truth i r (ASTAndExpr args) → a ∈ args → is_expression a = true → truth i r a.
Hypothesis truth_eq : ∀ i r lhs rhs parts column,
  truth i r (ASTBinaryExpression true lhs rhs) → last parts = Some column →
  (lhs = ASTPathExpression parts → column_equals i r column rhs) ∧
  (rhs = ASTPathExpression parts → column_equals i r column lhs).

Definition in_targets (i : nat) (r : row) (ids : gset string) : Prop :=
  ∃ id, rowPartitionID t i r = Some id ∧ id ∈ ids.

Lemma meet_sound i r a b ids :
  meet a b = Some ids → (∀ x, a = Some x → in_targets i r x) → (∀ x, b = Some x → in_targets i r x) →
  in_targets i r ids.
Proof.
  unfold meet. destruct a as [a|], b as [b|]; intros E Ha Hb; simplify_eq; [|by auto..].
  destruct (Ha a eq_refl) as (id & Hid & Hi), (Hb b eq_refl) as (id' & Hid' & Hi').
  exists id. simplify_eq. set_solver.
Qed.

Fixpoint node_size (e : node) : nat :=
  S match e with
    | ASTTablePathExpression _ l | ASTOrExpr l | ASTAndExpr l | ASTOther _ l => sum_list (node_size <$> l)
    | ASTBinaryExpression _ a b => node_size a + node_size b
    | _ => 0
    end.

Lemma targets_sound i r (Hp : prunable) : ∀ n e ids,
  (node_size e ≤ n)%nat → partitionEqualityTargets e t = Some ids → truth i r e → in_targets i r ids.
Proof.
  induction n as [|n IH]; intros e ids Hn He Ht; [destruct e; simpl in Hn; lia|].
  destruct e as [| | | | |args|[] lhs rhs| | | |]; try done.
  - change (S (sum_list (node_size <$> args)) ≤ S n)%nat in Hn. simpl in He.
    assert (∀ l acc, (∀ a, a ∈ l → a ∈ args) → (sum_list (node_size <$> l) ≤ n)%nat →
      (∀ x, acc = Some x → in_targets i r x) →
      (fix go (args : list node) (acc : option (gset string)) :=
         match args with
         | [] => acc
         | a :: args => go args (if is_expression a then meet acc (partitionEqualityTargets a t) else acc)
         end) l acc = Some ids → in_targets i r ids) as Hgo.
    { induction l as [|a l IHl]; intros acc Hin Hl Hacc Hg; [by apply Hacc|].
      change (node_size a + sum_list (node_size <$> l) ≤ n)%nat in Hl.
      eapply IHl; [|lia| |exact Hg].
      - intros b Hb. apply Hin. by right.
      - destruct (is_expression a) eqn:Ea; [|done]. intros x Hx.
        eapply meet_sound; [exact Hx|done|]. intros y Hy. apply (IH a y); [lia|done|].
        eapply truth_and; [exact Ht| |done]. apply Hin. by left. }
    by eapply Hgo; [done|lia| |exact He].
  - simpl in He. assert (∀ a b id, partitionTargetFromComparison a b t = Some id →
      (∀ parts column, a = ASTPathExpression parts → last parts = Some column → column_equals i r column b) →
      in_targets i r {[id]}) as Hcmp.
    { intros a b id Hid Hab. exists id. split; [|set_solver]. by eapply comparison_sound. }
    destruct (partitionTargetFromComparison lhs rhs t) as [id|] eqn:E1; simplify_eq/=.
    + eapply Hcmp; [exact E1|]. intros parts column Ha Hl.
      by apply (proj1 (truth_eq i r lhs rhs parts column Ht Hl)).
    + apply fmap_Some in He as (id & E2 & ->). eapply Hcmp; [exact E2|].
      intros parts column Ha Hl. by apply (proj2 (truth_eq i r lhs rhs parts column Ht Hl)).
Qed.

Lemma where_targets_sound i r es : prunable → ∀ acc ids,
  foldl (λ acc e, meet acc (partitionEqualityTargets e t)) acc es = Some ids →
  (∀ x, acc = Some x → in_targets i r x) → (∀ e, e ∈ es → truth i r e) → in_targets i r ids.
Proof.
  intros Hp. induction es as [|e es IH]; intros acc ids Hf Hacc Ht; simpl in Hf; [by apply Hacc|].
  eapply IH; [exact Hf| |].
  - intros x Hx. eapply meet_sound; [exact Hx|done|]. intros y Hy.
    eapply targets_sound; [done|reflexivity|exact Hy|]. apply Ht. by left.
  - intros e' He'. apply Ht. by right.
Qed.

Lemma keep_rows_spec ids rows : ∀ k i r,
  rows !! i = Some r → in_targets (k + i) r ids → r ∈ (keep_rows t ids k rows).1.
Proof.
  induction rows as [|r' rows IH]; intros k i r Hi Hin; [done|]. simpl.
  destruct (keep_rows t ids (S k) rows) as [kept parts] eqn:E. destruct i as [|i]; simpl in Hi.
  - simplify_eq. rewrite Nat.add_0_r in Hin. destruct Hin as (id & -> & Hid).
    rewrite bool_decide_true by done. simpl. by left.
  - specialize (IH (S k) i r Hi). rewrite E in IH. rewrite Nat.add_succ_r in Hin.
    assert (r ∈ kept) as Hk by exact (IH Hin).
    repeat case_match; simpl; [by right|done..].
Qed.

Lemma keep_rows_sub ids rows : ∀ k,
  let '(kept, parts) := keep_rows t ids k rows in
  kept `sublist_of` rows ∧ length parts = length kept ∧ Forall (.∈ ids) parts.
Proof.
  induction rows as [|r rows IH]; intros k; simpl; [by split_and!|].
  specialize (IH (S k)). destruct (keep_rows t ids (S k) rows) as [kept parts]. destruct IH as (H1 & H2 & H3).
  destruct (rowPartitionID t k r) as [id|]; [case_bool_decide|]; simpl;
    split_and!; try done; try (by apply sublist_cons); try lia.
  - by apply sublist_skip.
  - by constructor.
Qed.

End Soundness.

(** ** Concrete queries *)

#[local] Instance unix_seconds : TimestampParser := λ s, (λ n, n * second) <$> parse_int s.

(** A SELECT from [d.t] with one WHERE clause. *)
Definition select_where (e : node) : node :=
  ASTOther false [ASTTablePathExpression (Some ["d"; "t"]) []; ASTWhereClause (Some e)].

Definition equals (column : list string) (literal : node) : node :=
  ASTBinaryExpression true (ASTPathExpression column) literal.

(** The rows for which [id = n] holds, for a table whose first column is [id]. *)
Definition demo_truth (i : nat) (r : row) (e : node) : Prop :=
  match e with
  | ASTBinaryExpression true (ASTPathExpression ["id"]) (ASTIntLiteral image) =>
      ∃ s v, loadStoredCell (cell_at r 0) = (s, false) ∧ parse_int s = Some v ∧ parse_int image = Some v
  | _ => False
  end.

Lemma demo_truth_inv i r lhs rhs :
  demo_truth i r (ASTBinaryExpression true lhs rhs) →
  ∃ image s v, lhs = ASTPathExpression ["id"] ∧ rhs = ASTIntLiteral image ∧
    loadStoredCell (cell_at r 0) = (s, false) ∧ parse_int s = Some v ∧ parse_int image = Some v.
Proof. intros Ht. simpl in Ht. repeat case_match; try done. naive_solver. Qed.

#[local] Instance demo_parser : GoogleSqlParser := λ q,
  if bool_decide (q = "SELECT * FROM d.t WHERE id = 130")
  then Some (select_where (equals ["id"] (ASTIntLiteral "130"))) else None.


(** An hourly table keeps two rows of one day.  A filter on the day selects
    both, and only the one of the first hour survives pruning. *)
Definition demo_hourly_table : tableRecord :=
  (new_table "p" "d" "t" [col "id" "INT64"] [["1"]; ["2"]] 0 1)
    <| tr_TimePartitioning := Some (TimePartitioning "HOUR" "" 0) |>
    <| tr_IngestionPartitions := ["2026010100"; "2026010115"] |>.

Example hourly_date_filter_loses_rows :
  let parser : GoogleSqlParser := λ _, Some (select_where (equals ["_PARTITIONDATE"]
    (ASTDateOrTimeLiteral (Some "2026-01-01")))) in
  prunePartitionedRows "SELECT id FROM d.t WHERE _PARTITIONDATE = DATE '2026-01-01'" "p"
    (DatasetTableRef "d" "t") (Some demo_hourly_table) (tr_Rows demo_hourly_table) =
  Some ([["1"]], ["2026010100"]).
Proof. by vm_compute. Qed.

(** A field of a STRUCT column with the partitioning column's name is taken
    for that column: no row survives [info.id = 500] in a table of ids up to 130. *)
Example nested_field_filter_loses_rows :
  let parser : GoogleSqlParser := λ _, Some (select_where (equals ["info"; "id"] (ASTIntLiteral "500"))) in
  prunePartitionedRows "SELECT * FROM d.t WHERE info.id = 500" "p" (DatasetTableRef "d" "t")
    (Some demo_range_table) (tr_Rows demo_range_table) = Some ([], []).
Proof. by vm_compute. Qed.

(** Every WHERE clause of the statement counts, also one about another table:
    the second branch of a UNION ALL empties the first. *)
Example other_table_filter_loses_rows :
  let parser : GoogleSqlParser := λ _, Some (ASTOther false
    [ASTOther false [ASTTablePathExpression (Some ["d"; "t"]) []];
     ASTOther false [ASTTablePathExpression (Some ["d"; "u"]) [];
                     ASTWhereClause (Some (equals ["id"] (ASTIntLiteral "500")))]]) in
  prunePartitionedRows "SELECT id FROM d.t UNION ALL SELECT id FROM d.u WHERE id = 500" "p"
    (DatasetTableRef "d" "t") (Some demo_range_table) (tr_Rows demo_range_table) = Some ([], []).
Proof. by vm_compute. Qed.
