(* ===== verification/TableStore.v ===== *)
(** * The table catalog (tables_service.go)

    [tableService] keeps project -> dataset -> table and a version per dataset.
    Every method takes the service's mutex for its whole body, so a method is
    one function from the state and its arguments to the new state and its
    result.  [now] is the clock reading of the call.  A method that mutates a
    record in place and then fails leaves the mutation in the state it returns.

    The first half of the file is the code; the second half proves the
    compare-and-swap commits, the version and identity invariants, and the
    effect of each write. *)

From S2P Require Import Prelude GoStrings GoTime GoJson Pagination Cells TableModel Partitioning.

Record tableService := TableService {
  ts_projects : gmap string (gmap string (gmap string tableRecord));
  ts_datasetVersions : gmap string Z }.
#[export] Instance tableService_eta : Eta tableService := λ s,
  TableService (ts_projects s) (ts_datasetVersions s).

Definition newTableService : tableService := TableService ∅ ∅.
Definition defaults : list string := ["events"; "daily_metrics"; "users"; "raw_import"].

Inductive tableErr :=
| TableNotFound
| ChangedConcurrently
| TargetIsView
| TargetIsExternal
| InvalidRows (e : rowErr)
| InvalidPartitionValue (e : partitionErr)
| TableAlreadyExists
| DestinationRequired
| CreateNeverMissing
| DestinationNotEmpty
| SchemaMismatch.

(** ** Helpers *)

Definition defaultTableData (tableID : string) : schema * list row :=
  if bool_decide (tableID = "daily_metrics") then
    ([col "metric_date" "DATE"; col "metric_name" "STRING"; col "metric_value" "INT64"],
     [["2026-07-18"; "signups"; "12"]; ["2026-07-19"; "signups"; "15"];
      ["2026-07-20"; "signups"; "11"]; ["2026-07-21"; "signups"; "19"]])
  else if bool_decide (tableID = "events") then
    ([col "event_id" "INT64"; col "event_name" "STRING"],
     [["1"; "page_view"]; ["2"; "checkout"]; ["3"; "purchase"]; ["4"; "refund"]])
  else if bool_decide (tableID = "users") then
    ([col "user_id" "INT64"; col "user_name" "STRING"],
     [["1"; "alice"]; ["2"; "bob"]; ["3"; "carol"]; ["4"; "dave"]])
  else
    ([col "col_1" "STRING"; col "col_2" "STRING"],
     [["1"; "alpha"]; ["2"; "beta"]; ["3"; "gamma"]; ["4"; "delta"]]).

Definition normalizeCreateDisposition (v : string) : string :=
  if bool_decide (to_upper (trim_space v) = "CREATE_NEVER") then "CREATE_NEVER" else "CREATE_IF_NEEDED".

Definition normalizeWriteDisposition (v : string) : string :=
  let v := to_upper (trim_space v) in
  if bool_decide (v = "WRITE_TRUNCATE") || bool_decide (v = "WRITE_APPEND") then v else "WRITE_EMPTY".

Fixpoint sameSchema (left right : schema) : bool :=
  match left, right with
  | [], [] => true
  | l :: ls, r :: rs =>
      bool_decide (Name l = Name r) && bool_decide (Type_ l = Type_ r) && sameSchema ls rs
  | _, _ => false
  end.

Definition inferSchemaFromRows (rows : list row) : schema :=
  match rows with
  | [] => []
  | r :: _ => imap (λ i _, col ("col_" +:+ format_int (Z.of_nat i + 1)) "STRING") r
  end.

Fixpoint column_index (i : nat) (sch : schema) (name : string) : option nat :=
  match sch with
  | [] => None
  | f :: r => if equal_fold (Name f) name then Some i else column_index (S i) r name
  end.

Definition dropColumnIndexSet (sch : schema) (dropNames : list string) : gset nat :=
  list_to_set (omap (column_index 0 sch) dropNames).

(** Keep the elements whose index is not in [drop]. *)
Fixpoint filter_indices {A} (drop : gset nat) (i : nat) (l : list A) : list A :=
  match l with
  | [] => []
  | x :: r =>
      if bool_decide (i ∈ drop) then filter_indices drop (S i) r
      else x :: filter_indices drop (S i) r
  end.

Definition filterColumns (sch : schema) (drop : gset nat) : schema := filter_indices drop 0 sch.

(** [make([]string, 0, len(row)-len(drop))] panics on a row with fewer cells
    than dropped columns. *)
Definition filterRowColumns (rows : list row) (drop : gset nat) : res tableErr (list row) :=
  if forallb (λ r, (size drop <=? length r)%nat) rows
  then Ok (filter_indices drop 0 <$> rows) else Panic.

(** The first rename, in iteration order, whose old name matches. *)
Definition rename_field (renames : list (string * string)) (f : tableField) : tableField :=
  match list_find (λ p, equal_fold (Name f) p.1 = true) renames with
  | Some (_, (_, newName)) => TableField newName (Type_ f) (Mode f) (Fields f)
  | None => f
  end.

(** ** State access *)

Definition datasetKey (projectID datasetID : string) : string := projectID +:+ ":" +:+ datasetID.

(** [s.datasetVersions[s.datasetKey(projectID, datasetID)]++] *)
Definition bump_dataset (p d : string) (s : tableService) : tableService :=
  s <| ts_datasetVersions ::= λ m, <[datasetKey p d := default 0 (m !! datasetKey p d) + 1]> m |>.

Definition dataset_tables (s : tableService) (p d : string) : option (gmap string tableRecord) :=
  ts_projects s !! p ≫= λ proj, proj !! d.

Definition set_tables (p d : string) (tables : gmap string tableRecord) (s : tableService) : tableService :=
  s <| ts_projects ::= λ m, <[p := <[d := tables]> (default ∅ (m !! p))]> m |>.

Definition lookup_table (s : tableService) (p d id : string) : option tableRecord :=
  dataset_tables s p d ≫= λ tables, tables !! id.

Definition default_tables (p d : string) (now : Z) : gmap string tableRecord :=
  list_to_map ((λ id, let '(sch, rows) := defaultTableData id in
                      (id, new_table p d id sch rows now 1)) <$> defaults).

(** Seeds the demo tables of a dataset that has no table map yet. *)
Definition ensureDatasetLocked (s : tableService) (p d : string) (now : Z)
    : tableService * gmap string tableRecord :=
  match dataset_tables s p d with
  | Some tables => (s, tables)
  | None =>
      let tables := default_tables p d now in
      let s := set_tables p d tables s in
      (match ts_datasetVersions s !! datasetKey p d with
       | Some _ => s
       | None => s <| ts_datasetVersions ::= <[datasetKey p d := 1]> |>
       end, tables)
  end.

Section Store.
Context `{TimestampParser}.

Definition table_expired (now : Z) (t : tableRecord) : bool :=
  negb (tr_ExpirationTime t =? zero_time) && (tr_ExpirationTime t <=? now).

Definition purge_table (now : Z) (t : tableRecord) : option tableRecord :=
  if table_expired now t then None else Some (fst (purgeExpiredPartitions t now)).

Definition purgeExpiredLocked (tables : gmap string tableRecord) (now : Z)
    : gmap string tableRecord * bool :=
  (omap (purge_table now) tables,
   existsb (λ '(_, t), table_expired now t || snd (purgeExpiredPartitions t now))
     (map_to_list tables)).

(** [tables := ensureDatasetLocked; if purgeExpiredLocked { version++ }] *)
Definition ensure_and_purge (s : tableService) (p d : string) (now : Z)
    : tableService * gmap string tableRecord :=
  let '(s, tables) := ensureDatasetLocked s p d now in
  let '(tables, purged) := purgeExpiredLocked tables now in
  let s := set_tables p d tables s in
  (if purged then bump_dataset p d s else s, tables).

(** ** Reads *)

(** The page, the index of the next one, the dataset's version. *)
Definition tables_list (s : tableService) (p d : string) (start size : Z) (now : Z)
    : tableService * res Empty_set (list tableRecord * Z * Z) :=
  let '(s, tables) := ensure_and_purge s p d now in
  (s, match page_slice (sorted_keys tables) start size with
      | Ok (ids, next) =>
          Ok (omap (tables !!.) ids, next, default 0 (ts_datasetVersions s !! datasetKey p d))
      | Err e => Err e
      | Panic => Panic
      end).

(** In the iteration order of the map; expired tables are not purged first. *)
Definition tables_listAll (s : tableService) (p d : string) (now : Z) : tableService * list tableRecord :=
  let '(s, tables) := ensureDatasetLocked s p d now in (s, (map_to_list tables).*2).

Definition tables_get (s : tableService) (p d id : string) (now : Z) : tableService * option tableRecord :=
  let '(s, tables) := ensure_and_purge s p d now in (s, tables !! id).

Definition tables_getData (s : tableService) (p d id : string) (now : Z)
    : tableService * option (schema * list row) :=
  let '(s, t) := tables_get s p d id now in (s, (λ t, (tr_Schema t, tr_Rows t)) <$> t).

(** Does not seed the dataset. *)
Definition datasetTableCount (s : tableService) (p d : string) (now : Z) : tableService * Z :=
  match dataset_tables s p d with
  | None => (s, 0)
  | Some tables =>
      let '(tables, purged) := purgeExpiredLocked tables now in
      let s := set_tables p d tables s in
      (if purged then bump_dataset p d s else s, Z.of_nat (size tables))
  end.

(** ** Creation and deletion *)

Definition validate_partitioning (sch : schema) (rows : list row)
    (tc : option timePartitioningConfig) (rc : option rangePartitioningConfig) : res tableErr unit :=
  match validateRowsForPartitioning sch rows tc rc with
  | Ok _ => Ok tt | Err e => Err (InvalidPartitionValue e) | Panic => Panic
  end.

Definition infer_if_empty (sch : schema) (rows : list row) : schema :=
  if (length sch =? 0)%nat && (0 <? length rows)%nat then inferSchemaFromRows rows else sch.

(** [Err tt] is the [nil, false] return. *)
Definition tables_insert (s : tableService) (input : tableInsert) (now : Z) : tableService * res unit tableRecord :=
  let projectID := trim_space (ti_ProjectID input) in
  let datasetID := trim_space (ti_DatasetID input) in
  let tableID := trim_space (ti_TableID input) in
  if bool_decide (projectID = "") || bool_decide (datasetID = "") || bool_decide (tableID = "")
  then (s, Err tt)
  else
    let '(s, tables) := ensureDatasetLocked s projectID datasetID now in
    match tables !! tableID with
    | Some _ => (s, Err tt)
    | None =>
        let sch := infer_if_empty (ti_Schema input) (ti_Rows input) in
        match validate_partitioning sch (ti_Rows input) (ti_TimePartitioning input)
                (ti_RangePartitioning input) with
        | Err _ => (s, Err tt)
        | Panic => (s, Panic)
        | Ok _ =>
            let t := TableRecord projectID datasetID tableID
                       (trim_space (ti_FriendlyName input)) (trim_space (ti_Description input))
                       (ti_Labels input) sch (ti_Rows input)
                       (newIngestionPartitions (ti_TimePartitioning input) (length (ti_Rows input)) now)
                       (ti_External input) (ti_View input) (ti_TimePartitioning input)
                       (ti_RangePartitioning input) (ti_Clustering input)
                       (ti_RequirePartitionFilter input) now now 1 (ti_ExpirationTime input) in
            (bump_dataset projectID datasetID (set_tables projectID datasetID (<[tableID := t]> tables) s),
             Ok t)
        end
    end.

Definition tables_delete (s : tableService) (p d id : string) (now : Z) : tableService * bool :=
  let '(s, tables) := ensureDatasetLocked s p d now in
  match tables !! id with
  | None => (s, false)
  | Some _ => (bump_dataset p d (set_tables p d (delete id tables) s), true)
  end.

Definition deleteIfVersion (s : tableService) (p d id : string) (expectedVersion : Z) (now : Z)
    : tableService * res tableErr unit :=
  let '(s, tables) := ensureDatasetLocked s p d now in
  match tables !! id with
  | None => (s, Err TableNotFound)
  | Some t =>
      if negb (tr_Version t =? expectedVersion) then (s, Err ChangedConcurrently)
      else (bump_dataset p d (set_tables p d (delete id tables) s), Ok tt)
  end.

(** Does not seed the dataset. *)
Definition deleteAllForDataset (s : tableService) (p d : string) : tableService :=
  match ts_projects s !! p with
  | None => s
  | Some proj =>
      match proj !! d with
      | None => s
      | Some _ => bump_dataset p d (s <| ts_projects ::= <[p := delete d proj]> |>)
      end
  end.

(** ** Metadata writes *)

(** [if input.Has... { t.field = ... }] *)
Definition patch_field {A} (o : option A) (assign : A → tableRecord → tableRecord)
    (t : tableRecord) : tableRecord :=
  match o with Some v => assign v t | None => t end.

Definition apply_patch (input : tablePatch) (t : tableRecord) : tableRecord :=
  let t := patch_field (tp_FriendlyName input) (λ v t, t <| tr_FriendlyName := trim_space v |>) t in
  let t := patch_field (tp_Description input) (λ v t, t <| tr_Description := trim_space v |>) t in
  let t := patch_field (tp_Labels input) (λ v t, t <| tr_Labels := v |>) t in
  let t := patch_field (tp_ExpirationTime input) (λ v t, t <| tr_ExpirationTime := v |>) t in
  let t := patch_field (tp_Schema input) (λ v t, t <| tr_Schema := v |>) t in
  let t := patch_field (tp_TimePartitioning input) (λ v t, t <| tr_TimePartitioning := v |>) t in
  let t := patch_field (tp_RangePartitioning input) (λ v t, t <| tr_RangePartitioning := v |>) t in
  let t := patch_field (tp_Clustering input) (λ v t, t <| tr_Clustering := v |>) t in
  patch_field (tp_RequirePartitionFilter input) (λ v t, t <| tr_RequirePartitionFilter := v |>) t.

Definition apply_update (input : tableUpdate) (t : tableRecord) : tableRecord :=
  t <| tr_FriendlyName := trim_space (tu_FriendlyName input) |>
    <| tr_Description := trim_space (tu_Description input) |>
    <| tr_Labels := tu_Labels input |>
    <| tr_ExpirationTime := tu_ExpirationTime input |>
    <| tr_TimePartitioning := tu_TimePartitioning input |>
    <| tr_RangePartitioning := tu_RangePartitioning input |>
    <| tr_Clustering := tu_Clustering input |>
    <| tr_RequirePartitionFilter := tu_RequirePartitionFilter input |>.

(** The body [patch] and [update] share around their field assignments. *)
Definition modify (s : tableService) (projectID datasetID tableID : string) (now : Z)
    (f : tableRecord → tableRecord) : tableService * option tableRecord :=
  let projectID := trim_space projectID in
  let datasetID := trim_space datasetID in
  let tableID := trim_space tableID in
  if bool_decide (projectID = "") || bool_decide (datasetID = "") || bool_decide (tableID = "")
  then (s, None)
  else
    let '(s, tables) := ensureDatasetLocked s projectID datasetID now in
    match tables !! tableID with
    | None => (s, None)
    | Some t =>
        let t := touch now (f t) in
        (bump_dataset projectID datasetID (set_tables projectID datasetID (<[tableID := t]> tables) s),
         Some t)
    end.

Definition tables_patch (s : tableService) (input : tablePatch) (now : Z) : tableService * option tableRecord :=
  modify s (tp_ProjectID input) (tp_DatasetID input) (tp_TableID input) now (apply_patch input).

Definition tables_update (s : tableService) (input : tableUpdate) (now : Z) : tableService * option tableRecord :=
  modify s (tu_ProjectID input) (tu_DatasetID input) (tu_TableID input) now (apply_update input).

(** ** Compare-and-swap commits *)

(** The frame the [*IfVersion] methods share: look the table up, compare its
    version, run the body on the record in place, bump both versions. *)
Definition updateIfVersion (s : tableService) (p d id : string) (expectedVersion : Z) (now : Z)
    (body : tableRecord → tableRecord * res tableErr unit) : tableService * res tableErr unit :=
  let '(s, tables) := ensureDatasetLocked s p d now in
  match tables !! id with
  | None => (s, Err TableNotFound)
  | Some t =>
      if negb (tr_Version t =? expectedVersion) then (s, Err ChangedConcurrently)
      else
        let '(t, r) := body t in
        match r with
        | Ok _ => (bump_dataset p d (set_tables p d (<[id := touch now t]> tables) s), Ok tt)
        | _ => (set_tables p d (<[id := t]> tables) s, r)
        end
  end.

Definition replaceRows_body (rows : list row) (ingestionPartitions : list string) (now : Z)
    (t : tableRecord) : tableRecord * res tableErr unit :=
  match tr_View t, tr_External t with
  | Some _, _ => (t, Err TargetIsView)
  | None, Some _ => (t, Err TargetIsExternal)
  | None, None =>
      match validateStoredRows (tr_Schema t) rows with
      | Some e => (t, Err (InvalidRows e))
      | None =>
          match validate_partitioning (tr_Schema t) rows (tr_TimePartitioning t) (tr_RangePartitioning t) with
          | Ok _ =>
              let currentPartition := ingestionPartitionID (tr_TimePartitioning t) now in
              let partitions :=
                if bool_decide (currentPartition ≠ "") &&
                   (length ingestionPartitions =? length rows)%nat
                then (λ p, if bool_decide (p = "") then currentPartition else p) <$> ingestionPartitions
                else reconcileIngestionPartitions (tr_Rows t) rows (tr_IngestionPartitions t)
                       currentPartition in
              (t <| tr_IngestionPartitions := partitions |> <| tr_Rows := rows |>, Ok tt)
          | r => (t, r)
          end
      end
  end.

Definition replaceRowsIfVersion (s : tableService) (p d id : string) (expectedVersion : Z)
    (rows : list row) (ingestionPartitions : list string) (now : Z) : tableService * res tableErr unit :=
  updateIfVersion s p d id expectedVersion now (replaceRows_body rows ingestionPartitions now).

(** Schema, rows and kind of the table are replaced; partitioning and
    clustering are dropped. *)
Definition redefine (sch : schema) (rows : list row) (view : option viewConfig) (t : tableRecord)
    : tableRecord :=
  t <| tr_Schema := sch |> <| tr_Rows := rows |> <| tr_View := view |> <| tr_External := None |>
    <| tr_TimePartitioning := None |> <| tr_RangePartitioning := None |> <| tr_Clustering := [] |>
    <| tr_RequirePartitionFilter := false |> <| tr_IngestionPartitions := [] |>.

Definition replaceTableIfVersion (s : tableService) (p d id : string) (expectedVersion : Z)
    (sch : schema) (rows : list row) (now : Z) : tableService * res tableErr unit :=
  updateIfVersion s p d id expectedVersion now (λ t,
    match validateStoredRows sch rows with
    | Some e => (t, Err (InvalidRows e))
    | None => (redefine sch rows None t, Ok tt)
    end).

Definition replaceViewIfVersion (s : tableService) (p d id : string) (expectedVersion : Z)
    (sch : schema) (query : string) (materialized : bool) (now : Z) : tableService * res tableErr unit :=
  updateIfVersion s p d id expectedVersion now (λ t,
    (redefine sch [] (Some (ViewConfig query materialized)) t, Ok tt)).

Definition addColumnsIfVersion (s : tableService) (p d id : string) (expectedVersion : Z)
    (newFields : schema) (now : Z) : tableService * res tableErr unit :=
  updateIfVersion s p d id expectedVersion now (λ t,
    (t <| tr_Schema ::= λ sch, sch ++ newFields |>
       <| tr_Rows ::= fmap (λ r, r ++ replicate (length newFields) storedNullCell) |>, Ok tt)).

(** The schema is already replaced when filtering the rows panics. *)
Definition dropColumnsIfVersion (s : tableService) (p d id : string) (expectedVersion : Z)
    (dropNames : list string) (now : Z) : tableService * res tableErr unit :=
  updateIfVersion s p d id expectedVersion now (λ t,
    let drop := dropColumnIndexSet (tr_Schema t) dropNames in
    let t := t <| tr_Schema ::= λ sch, filterColumns sch drop |> in
    match filterRowColumns (tr_Rows t) drop with
    | Ok rows => (t <| tr_Rows := rows |>, Ok tt)
    | Err e => (t, Err e)
    | Panic => (t, Panic)
    end).

Definition renameColumnsIfVersion (s : tableService) (p d id : string) (expectedVersion : Z)
    (renames : list (string * string)) (now : Z) : tableService * res tableErr unit :=
  updateIfVersion s p d id expectedVersion now (λ t,
    (t <| tr_Schema ::= fmap (rename_field renames) |>, Ok tt)).

Definition renameTableIfVersion (s : tableService) (p d id newTableID : string) (expectedVersion : Z)
    (now : Z) : tableService * res tableErr unit :=
  let '(s, tables) := ensureDatasetLocked s p d now in
  match tables !! id with
  | None => (s, Err TableNotFound)
  | Some t =>
      if negb (tr_Version t =? expectedVersion) then (s, Err ChangedConcurrently)
      else match tables !! newTableID with
           | Some _ => (s, Err TableAlreadyExists)
           | None =>
               let t := touch now (t <| tr_TableID := newTableID |>) in
               (bump_dataset p d
                  (set_tables p d (<[newTableID := t]> (delete id tables)) s), Ok tt)
           end
  end.

(** ** Load, copy and streaming destinations *)

(** The new image of the destination, [existing] being the current one or the
    empty record a created table starts from. *)
Definition copy_image (existing : tableRecord) (sch : schema) (rows : list row)
    (writeDisposition : string) (now : Z) : res tableErr tableRecord :=
  let append := bool_decide (writeDisposition = "WRITE_APPEND") in
  if append && (0 <? length (tr_Schema existing))%nat && (0 <? length sch)%nat &&
     negb (sameSchema (tr_Schema existing) sch)
  then Err SchemaMismatch
  else
    let fresh := newIngestionPartitions (tr_TimePartitioning existing) (length rows) now in
    let newRows := if append then tr_Rows existing ++ rows else rows in
    let newSchema := if append && (0 <? length (tr_Schema existing))%nat then tr_Schema existing else sch in
    let newPartitions := if append then tr_IngestionPartitions existing ++ fresh else fresh in
    let newSchema := infer_if_empty newSchema newRows in
    match validateStoredRows newSchema newRows with
    | Some e => Err (InvalidRows e)
    | None =>
        _ ← validate_partitioning newSchema newRows (tr_TimePartitioning existing)
              (tr_RangePartitioning existing);
        Ok (existing <| tr_Schema := newSchema |> <| tr_Rows := newRows |>
                     <| tr_IngestionPartitions := newPartitions |>)
    end.

Definition upsertCopyDestination (s : tableService) (dest : tableReference) (sch : schema)
    (rows : list row) (createDisposition writeDisposition : string) (now : Z)
    : tableService * res tableErr Z :=
  let projectID := trim_space (ref_ProjectID dest) in
  let datasetID := trim_space (ref_DatasetID dest) in
  let tableID := trim_space (ref_TableID dest) in
  if bool_decide (projectID = "") || bool_decide (datasetID = "") || bool_decide (tableID = "")
  then (s, Err DestinationRequired)
  else
    let createDisposition := normalizeCreateDisposition createDisposition in
    let writeDisposition := normalizeWriteDisposition writeDisposition in
    let '(s, tables) := ensureDatasetLocked s projectID datasetID now in
    let existing : res tableErr tableRecord :=
      match tables !! tableID with
      | None =>
          if bool_decide (createDisposition = "CREATE_NEVER") then Err CreateNeverMissing
          else Ok (new_table projectID datasetID tableID [] [] now 1)
      | Some t =>
          if bool_decide (writeDisposition = "WRITE_EMPTY") && (0 <? length (tr_Rows t))%nat
          then Err DestinationNotEmpty else Ok t
      end in
    match (existing ≫= λ t, copy_image t sch rows writeDisposition now) with
    | Ok t =>
        (bump_dataset projectID datasetID
           (set_tables projectID datasetID (<[tableID := touch now t]> tables) s),
         Ok (Z.of_nat (length rows)))
    | Err e => (s, Err e)
    | Panic => (s, Panic)
    end.
End Store.
