(* ===== verification/TableInvariants.v ===== *)
(** * Invariants of the table catalog

    Every call of the service as data, what one call can do to the entry of a
    table, and what follows for runs of the program: records stay under their
    identity, versions identify contents, and compare-and-swap commits lose no
    update. *)

From S2P Require Import Prelude GoStrings GoTime GoJson Pagination Cells TableModel Partitioning TableStore.


(** ** State lemmas *)

Lemma dataset_tables_set p d T s p' d' :
  dataset_tables (set_tables p d T s) p' d' =
  if decide (p' = p ∧ d' = d) then Some T else dataset_tables s p' d'.
Proof.
  unfold dataset_tables, set_tables. simpl. destruct (decide (p' = p)) as [->|Hp].
  - rewrite lookup_insert_eq. simpl. destruct (decide (d' = d)) as [->|Hd].
    + rewrite lookup_insert_eq. by rewrite decide_True.
    + rewrite lookup_insert_ne, decide_False by naive_solver. by destruct (ts_projects s !! p).
  - rewrite lookup_insert_ne, decide_False by naive_solver. done.
Qed.

Lemma lookup_table_set p d T s p' d' id :
  lookup_table (set_tables p d T s) p' d' id =
  if decide (p' = p ∧ d' = d) then T !! id else lookup_table s p' d' id.
Proof. unfold lookup_table. rewrite dataset_tables_set. by case_decide. Qed.

Lemma dataset_tables_bump p d s p' d' :
  dataset_tables (bump_dataset p d s) p' d' = dataset_tables s p' d'.
Proof. done. Qed.
Lemma lookup_table_bump p d s p' d' id :
  lookup_table (bump_dataset p d s) p' d' id = lookup_table s p' d' id.
Proof. done. Qed.

(** The tables a caller of a seeding method finds in a dataset. *)
Definition visible (s : tableService) (p d : string) (now : Z) : gmap string tableRecord :=
  default (default_tables p d now) (dataset_tables s p d).

Lemma ensure_spec s p d now :
  let '(s', T) := ensureDatasetLocked s p d now in
  T = visible s p d now ∧
  ∀ p' d', dataset_tables s' p' d' =
    if decide (p' = p ∧ d' = d) then Some (visible s p d now) else dataset_tables s p' d'.
Proof.
  unfold ensureDatasetLocked, visible. destruct (dataset_tables s p d) as [T|] eqn:E; simpl.
  - split; [done|]. intros p' d'. case_decide; naive_solver.
  - split; [done|]. intros p' d'. rewrite <-dataset_tables_set. by case_match.
Qed.

(** ** How a table evolves

    What may happen to the entry of one table id in one atomic operation: it
    appears, well formed; it disappears; it stays as it is; or it changes and
    its version grows. *)

Definition keyed (p d id : string) (t : tableRecord) : Prop :=
  tr_ProjectID t = p ∧ tr_DatasetID t = d ∧ tr_TableID t = id ∧ 1 ≤ tr_Version t.

Definition evolves (p d id : string) (before after : option tableRecord) : Prop :=
  match before, after with
  | None, Some t' => keyed p d id t'
  | Some t, Some t' =>
      t' = t ∨ (tr_Version t < tr_Version t' ∧ (keyed p d id t → keyed p d id t'))
  | _, None => True
  end.

Lemma evolves_refl p d id o : evolves p d id o o.
Proof. destruct o; simpl; auto. Qed.
#[export] Hint Resolve evolves_refl : locaql.

(** Seeding creates well-formed tables. *)
Lemma default_tables_keyed p d now id t : default_tables p d now !! id = Some t → keyed p d id t.
Proof.
  intros Hl. apply elem_of_list_to_map_2 in Hl. unfold defaults in Hl. simpl in Hl.
  rewrite !elem_of_cons, elem_of_nil in Hl.
  destruct_or! Hl; simplify_eq; unfold keyed; simpl; split_and!; (done || lia).
Qed.

Lemma evolves_ensured s p d now id o :
  evolves p d id (visible s p d now !! id) o → evolves p d id (lookup_table s p d id) o.
Proof.
  unfold visible, lookup_table. destruct (dataset_tables s p d) as [T|]; simpl; [done|].
  destruct (default_tables p d now !! id) as [t|] eqn:Ht; simpl; [|done].
  apply default_tables_keyed in Ht. destruct o as [t'|]; simpl; [|done].
  intros [->|[_ Hk]]; auto.
Qed.

(** A method that replaces the tables of [(p, d)] by [T'], seeding included. *)
Definition dataset_step (s s' : tableService) (p d : string) (T' : gmap string tableRecord)
    : Prop :=
  ∀ p' d', dataset_tables s' p' d' =
    if decide (p' = p ∧ d' = d) then Some T' else dataset_tables s p' d'.

Lemma evolves_step s s' p d now T' :
  dataset_step s s' p d T' →
  (∀ id, evolves p d id (visible s p d now !! id) (T' !! id)) →
  ∀ p' d' id, evolves p' d' id (lookup_table s p' d' id) (lookup_table s' p' d' id).
Proof.
  intros Hs HT p' d' id. unfold lookup_table at 2. rewrite Hs.
  case_decide as E; [|apply evolves_refl]. destruct E as [-> ->].
  eapply evolves_ensured, HT.
Qed.

Lemma evolves_insert p d (T : gmap string tableRecord) id0 t' :
  evolves p d id0 (T !! id0) (Some t') →
  ∀ id, evolves p d id (T !! id) (<[id0 := t']> T !! id).
Proof.
  intros Ht id. destruct (decide (id = id0)) as [->|].
  - by rewrite lookup_insert_eq.
  - rewrite lookup_insert_ne by done. apply evolves_refl.
Qed.

Lemma evolves_delete p d (T : gmap string tableRecord) id0 id :
  evolves p d id (T !! id) (delete id0 T !! id).
Proof.
  destruct (decide (id = id0)) as [->|].
  - rewrite lookup_delete_eq. by destruct (T !! id0).
  - rewrite lookup_delete_ne by done. apply evolves_refl.
Qed.

Lemma touch_version now t : tr_Version (touch now t) = tr_Version t + 1.
Proof. simpl. lia. Qed.

(** ** Operations as data

    Every method of the service, with its arguments, so that a run of the
    program is a list of calls. *)

(** The statements that commit with a compare-and-swap on the version. *)
Inductive casStmt :=
| CasDelete
| CasReplaceRows (rows : list row) (partitions : list string)
| CasReplaceTable (sch : schema) (rows : list row)
| CasReplaceView (sch : schema) (query : string) (materialized : bool)
| CasAddColumns (fields : schema)
| CasDropColumns (names : list string)
| CasRenameColumns (renames : list (string * string))
| CasRenameTable (new : string).

Inductive tableOp :=
| OpList (p d : string) (start size : Z)
| OpListAll (p d : string)
| OpGet (p d id : string)
| OpGetData (p d id : string)
| OpCount (p d : string)
| OpInsert (input : tableInsert)
| OpDelete (p d id : string)
| OpDeleteAll (p d : string)
| OpPatch (input : tablePatch)
| OpUpdate (input : tableUpdate)
| OpCas (p d id : string) (v : Z) (stmt : casStmt)
| OpUpsert (dest : tableReference) (sch : schema) (rows : list row) (create write : string).

Section Ops.
Context `{TimestampParser}.

Definition run_cas (s : tableService) (p d id : string) (v : Z) (stmt : casStmt) (now : Z)
    : tableService * res tableErr unit :=
  match stmt with
  | CasDelete => deleteIfVersion s p d id v now
  | CasReplaceRows rows parts => replaceRowsIfVersion s p d id v rows parts now
  | CasReplaceTable sch rows => replaceTableIfVersion s p d id v sch rows now
  | CasReplaceView sch q m => replaceViewIfVersion s p d id v sch q m now
  | CasAddColumns fields => addColumnsIfVersion s p d id v fields now
  | CasDropColumns names => dropColumnsIfVersion s p d id v names now
  | CasRenameColumns renames => renameColumnsIfVersion s p d id v renames now
  | CasRenameTable new => renameTableIfVersion s p d id new v now
  end.

(** The new state, and whether the call panicked. *)
Definition run_op (s : tableService) (op : tableOp) (now : Z) : tableService * bool :=
  match op with
  | OpList p d start size => let '(s', r) := tables_list s p d start size now in (s', is_panic r)
  | OpListAll p d => ((tables_listAll s p d now).1, false)
  | OpGet p d id => ((tables_get s p d id now).1, false)
  | OpGetData p d id => ((tables_getData s p d id now).1, false)
  | OpCount p d => ((datasetTableCount s p d now).1, false)
  | OpInsert input => let '(s', r) := tables_insert s input now in (s', is_panic r)
  | OpDelete p d id => ((tables_delete s p d id now).1, false)
  | OpDeleteAll p d => (deleteAllForDataset s p d, false)
  | OpPatch input => ((tables_patch s input now).1, false)
  | OpUpdate input => ((tables_update s input now).1, false)
  | OpCas p d id v stmt => let '(s', r) := run_cas s p d id v stmt now in (s', is_panic r)
  | OpUpsert dest sch rows c w =>
      let '(s', r) := upsertCopyDestination s dest sch rows c w now in (s', is_panic r)
  end.

(** The dataset a call addresses: service methods that take a request trim its ids. *)
Definition op_dataset (op : tableOp) : string * string :=
  match op with
  | OpList p d _ _ | OpListAll p d | OpCount p d | OpDeleteAll p d
  | OpGet p d _ | OpGetData p d _ | OpDelete p d _ | OpCas p d _ _ _ => (p, d)
  | OpInsert i => (trim_space (ti_ProjectID i), trim_space (ti_DatasetID i))
  | OpPatch i => (trim_space (tp_ProjectID i), trim_space (tp_DatasetID i))
  | OpUpdate i => (trim_space (tu_ProjectID i), trim_space (tu_DatasetID i))
  | OpUpsert r _ _ _ _ => (trim_space (ref_ProjectID r), trim_space (ref_DatasetID r))
  end.

(** The outcome of one call on the dataset it addresses: nothing happened, the
    dataset went, or its tables became [T'], each entry having evolved. *)
Inductive effect (s s' : tableService) (p d : string) (now : Z) : Prop :=
| effect_none : (∀ p' d', dataset_tables s' p' d' = dataset_tables s p' d') → effect s s' p d now
| effect_gone :
    (∀ p' d', dataset_tables s' p' d' = if decide (p' = p ∧ d' = d) then None else dataset_tables s p' d') →
    effect s s' p d now
| effect_tables T' :
    dataset_step s s' p d T' →
    (∀ id, evolves p d id (visible s p d now !! id) (T' !! id)) → effect s s' p d now.

Lemma effect_evolves s s' p d now :
  effect s s' p d now →
  ∀ p' d' id, evolves p' d' id (lookup_table s p' d' id) (lookup_table s' p' d' id).
Proof.
  intros [Hn|Hg|T' Hs HT] p' d' id.
  - unfold lookup_table. rewrite Hn. apply evolves_refl.
  - unfold lookup_table at 2. rewrite Hg. case_decide as E.
    + simpl. by destruct (lookup_table s p' d' id).
    + apply evolves_refl.
  - by eapply evolves_step.
Qed.

Lemma effect_frame s s' p d now :
  effect s s' p d now →
  ∀ p' d', ¬ (p' = p ∧ d' = d) → dataset_tables s' p' d' = dataset_tables s p' d'.
Proof.
  intros [Hn|Hg|T' Hs HT] p' d' Hne; [done|by rewrite Hg, decide_False|by rewrite Hs, decide_False].
Qed.

(** Seed the dataset, then replace its tables. *)
Lemma effect_ensured s p d now (f : tableService → gmap string tableRecord → tableService) T' :
  (∀ s1, (∀ p' d', dataset_tables (f s1 (visible s p d now)) p' d' =
            if decide (p' = p ∧ d' = d) then Some T' else dataset_tables s1 p' d')) →
  (∀ id, evolves p d id (visible s p d now !! id) (T' !! id)) →
  effect s (let '(s1, T) := ensureDatasetLocked s p d now in f s1 T) p d now.
Proof.
  intros Hf HT. pose proof (ensure_spec s p d now) as He.
  destruct (ensureDatasetLocked s p d now) as [s1 T]. destruct He as [-> He].
  eapply effect_tables; [|exact HT]. intros p' d'. rewrite Hf, He. by repeat case_decide.
Qed.

Lemma effect_seed s p d now : effect s (ensureDatasetLocked s p d now).1 p d now.
Proof.
  pose proof (ensure_spec s p d now) as He. destruct (ensureDatasetLocked s p d now) as [s1 T].
  destruct He as [_ He]. eapply effect_tables; [exact He|]. intros id. apply evolves_refl.
Qed.

Lemma step_of_set s s1 p d T T' :
  (∀ p' d', dataset_tables s1 p' d' =
     if decide (p' = p ∧ d' = d) then Some T else dataset_tables s p' d') →
  dataset_step s (set_tables p d T' s1) p d T'.
Proof. intros He p' d'. rewrite dataset_tables_set, He. by repeat case_decide. Qed.

Lemma step_of_bump s s1 p d T' :
  dataset_step s s1 p d T' → dataset_step s (bump_dataset p d s1) p d T'.
Proof. done. Qed.

(** Run the seeding prologue of a method: [Hseed] is the effect of stopping
    there, [He] the state it leaves. *)
Ltac run_ensure s p d now :=
  let s1 := fresh "s1" in
  let T := fresh "T" in
  pose proof (effect_seed s p d now) as Hseed; pose proof (ensure_spec s p d now) as He;
  destruct (ensureDatasetLocked s p d now) as [s1 T]; destruct He as [-> He]; simpl in *.

Lemma purge_table_evolves p d now id t : evolves p d id (Some t) (purge_table now t).
Proof.
  unfold purge_table. case_match; [done|]. unfold purgeExpiredPartitions.
  repeat (case_match; try (left; reflexivity)); right; simpl; unfold keyed; simpl; naive_solver lia.
Qed.

Lemma purge_evolves p d T now id :
  evolves p d id (T !! id) ((purgeExpiredLocked T now).1 !! id).
Proof.
  unfold purgeExpiredLocked. simpl. rewrite lookup_omap.
  destruct (T !! id) as [t|]; simpl; [apply purge_table_evolves|done].
Qed.

Lemma effect_purge s p d now : effect s (ensure_and_purge s p d now).1 p d now.
Proof.
  unfold ensure_and_purge.
  pose proof (effect_ensured s p d now (λ s1 T,
    let '(T', b) := purgeExpiredLocked T now in
    let s2 := set_tables p d T' s1 in if b then bump_dataset p d s2 else s2)
    (purgeExpiredLocked (visible s p d now) now).1) as He.
  destruct (ensureDatasetLocked s p d now) as [s1 T]. simpl in *. apply He.
  - intros s2 p' d'. rewrite <-dataset_tables_set. by case_match.
  - intros id. apply purge_evolves.
Qed.

Lemma effect_count s p d now : effect s (datasetTableCount s p d now).1 p d now.
Proof.
  unfold datasetTableCount. destruct (dataset_tables s p d) as [T|] eqn:E; [|by apply effect_none].
  simpl. eapply effect_tables with (T' := (purgeExpiredLocked T now).1).
  - intros p' d'. rewrite <-dataset_tables_set. by case_match.
  - intros id. unfold visible. rewrite E. apply purge_evolves.
Qed.

Lemma effect_insert s input now :
  effect s (tables_insert s input now).1
    (trim_space (ti_ProjectID input)) (trim_space (ti_DatasetID input)) now.
Proof.
  unfold tables_insert. case_match; [by apply effect_none|].
  set (p := trim_space (ti_ProjectID input)) in *. set (d := trim_space (ti_DatasetID input)) in *.
  run_ensure s p d now.
  case_match; [done|]. case_match; try done. simpl. eapply effect_tables.
  - by eapply step_of_bump, step_of_set.
  - apply evolves_insert. match goal with E : _ !! _ = None |- _ => rewrite E end.
    simpl. unfold keyed; simpl; split_and!; (done || lia).
Qed.

Lemma effect_delete s p d id now : effect s (tables_delete s p d id now).1 p d now.
Proof.
  unfold tables_delete. run_ensure s p d now.
  case_match; [|done]. simpl. eapply effect_tables.
  - by eapply step_of_bump, step_of_set.
  - intros id'. apply evolves_delete.
Qed.

Lemma effect_deleteIfVersion s p d id v now : effect s (deleteIfVersion s p d id v now).1 p d now.
Proof.
  unfold deleteIfVersion. run_ensure s p d now.
  case_match; [|done]. case_match; [done|]. simpl. eapply effect_tables.
  - by eapply step_of_bump, step_of_set.
  - intros id'. apply evolves_delete.
Qed.

Lemma effect_deleteAll s p d now : effect s (deleteAllForDataset s p d) p d now.
Proof.
  unfold deleteAllForDataset. destruct (ts_projects s !! p) as [proj|] eqn:Ep; [|by apply effect_none].
  destruct (proj !! d) eqn:Ed; [|by apply effect_none].
  apply effect_gone. intros p' d'. rewrite dataset_tables_bump. unfold dataset_tables. simpl.
  destruct (decide (p' = p)) as [->|].
  - rewrite lookup_insert_eq. simpl. destruct (decide (d' = d)) as [->|].
    + by rewrite lookup_delete_eq, decide_True.
    + rewrite lookup_delete_ne, decide_False by naive_solver. by rewrite Ep.
  - rewrite lookup_insert_ne, decide_False by naive_solver. done.
Qed.

(** A metadata write keeps the identity and does not lower the version. *)
Definition keeps_identity (f : tableRecord → tableRecord) : Prop :=
  ∀ t, tr_ProjectID (f t) = tr_ProjectID t ∧ tr_DatasetID (f t) = tr_DatasetID t ∧
       tr_TableID (f t) = tr_TableID t ∧ tr_Version (f t) = tr_Version t.

Lemma touch_evolves p d id now t t' :
  tr_ProjectID t' = tr_ProjectID t → tr_DatasetID t' = tr_DatasetID t →
  tr_TableID t' = tr_TableID t → tr_Version t' = tr_Version t →
  evolves p d id (Some t) (Some (touch now t')).
Proof. intros. right. unfold keyed. simpl. repeat split; try naive_solver lia. Qed.

Lemma effect_modify s p d id now f :
  keeps_identity f → effect s (modify s p d id now f).1 (trim_space p) (trim_space d) now.
Proof.
  intros Hf. unfold modify. destruct (_ || _); [by apply effect_none|].
  generalize (trim_space p) (trim_space d) (trim_space id). clear p d id. intros p d id.
  run_ensure s p d now.
  destruct (visible s p d now !! id) as [t|] eqn:Et; [|done]. simpl. eapply effect_tables.
  - by eapply step_of_bump, step_of_set.
  - apply evolves_insert. rewrite Et. destruct (Hf t) as (? & ? & ? & ?). by apply touch_evolves.
Qed.

Lemma patch_field_proj {A B} (proj : tableRecord → B) (o : option A) assign t :
  (∀ v t, proj (assign v t) = proj t) → proj (patch_field o assign t) = proj t.
Proof. intros Ha. by destruct o; simpl. Qed.

Lemma apply_patch_identity input : keeps_identity (apply_patch input).
Proof.
  intros t. unfold apply_patch. cbv zeta.
  split_and!; rewrite !patch_field_proj by done; done.
Qed.
Lemma apply_update_identity input : keeps_identity (apply_update input).
Proof. intros t. done. Qed.

(** A body that leaves the record alone unless it succeeds. *)
Definition clean_body (body : tableRecord → tableRecord * res tableErr unit) : Prop :=
  ∀ t, let '(t', r) := body t in
    tr_ProjectID t' = tr_ProjectID t ∧ tr_DatasetID t' = tr_DatasetID t ∧
    tr_TableID t' = tr_TableID t ∧ tr_Version t' = tr_Version t ∧
    (is_ok r = false → is_panic r = false → t' = t).

Lemma effect_updateIfVersion s p d id v now body :
  clean_body body → is_panic (updateIfVersion s p d id v now body).2 = false →
  effect s (updateIfVersion s p d id v now body).1 p d now.
Proof.
  intros Hb. unfold updateIfVersion.
  run_ensure s p d now.
  destruct (visible s p d now !! id) as [t|] eqn:Et; [|done].
  case_match; [done|]. pose proof (Hb t) as Ht. destruct (body t) as [t' r].
  destruct Ht as (? & ? & ? & ? & Hfail). destruct r as [[]|e|]; simpl; [|intros _|done].
  - intros _. eapply effect_tables.
    + by eapply step_of_bump, step_of_set.
    + apply evolves_insert. rewrite Et. by apply touch_evolves.
  - rewrite Hfail by done. eapply effect_tables.
    + by eapply step_of_set.
    + apply evolves_insert. rewrite Et. by left.
Qed.

Lemma replaceRows_clean rows parts now : clean_body (replaceRows_body rows parts now).
Proof.
  intros t. unfold replaceRows_body, validate_partitioning.
  repeat (case_match; simplify_eq/=; try done).
Qed.

Lemma replaceTable_clean sch rows :
  clean_body (λ t, match validateStoredRows sch rows with
    | Some e => (t, Err (InvalidRows e))
    | None => (redefine sch rows None t, Ok tt)
    end).
Proof. intros t. by destruct (validateStoredRows sch rows). Qed.
Lemma replaceView_clean sch q m :
  clean_body (λ t, (redefine sch [] (Some (ViewConfig q m)) t, Ok tt)).
Proof. done. Qed.
Lemma addColumns_clean fields :
  clean_body (λ t,
    (t <| tr_Schema ::= λ sch, sch ++ fields |>
       <| tr_Rows ::= fmap (λ r, r ++ replicate (length fields) storedNullCell) |>, Ok tt)).
Proof. done. Qed.
Lemma dropColumns_clean names :
  clean_body (λ t,
    let drop := dropColumnIndexSet (tr_Schema t) names in
    let t := t <| tr_Schema ::= λ sch, filterColumns sch drop |> in
    match filterRowColumns (tr_Rows t) drop with
    | Ok rows => (t <| tr_Rows := rows |>, Ok tt)
    | Err e => (t, Err e)
    | Panic => (t, Panic)
    end).
Proof. intros t. unfold filterRowColumns. simpl. by destruct (forallb _ _). Qed.
Lemma renameColumns_clean renames :
  clean_body (λ t, (t <| tr_Schema ::= fmap (rename_field renames) |>, Ok tt)).
Proof. done. Qed.

Lemma effect_renameTable s p d id new v now :
  (∀ t, visible s p d now !! id = Some t → keyed p d id t) →
  effect s (renameTableIfVersion s p d id new v now).1 p d now.
Proof.
  intros Hk. unfold renameTableIfVersion.
  run_ensure s p d now.
  destruct (visible s p d now !! id) as [t|] eqn:Et; [|done].
  case_match; [done|]. destruct (visible s p d now !! new) eqn:En; [done|]. simpl. eapply effect_tables.
  - by eapply step_of_bump, step_of_set.
  - intros id'. destruct (decide (id' = new)) as [->|].
    + rewrite lookup_insert_eq, En. simpl. destruct (Hk t eq_refl) as (? & ? & ? & ?).
      unfold keyed. simpl. repeat split; try done; lia.
    + rewrite lookup_insert_ne by done. apply evolves_delete.
Qed.

Lemma copy_image_identity t sch rows w now t' :
  copy_image t sch rows w now = Ok t' →
  tr_ProjectID t' = tr_ProjectID t ∧ tr_DatasetID t' = tr_DatasetID t ∧
  tr_TableID t' = tr_TableID t ∧ tr_Version t' = tr_Version t.
Proof.
  unfold copy_image. case_match; [done|]. case_match; [done|].
  rewrite res_bind_ok. intros (u & _ & [= <-]). done.
Qed.

Lemma effect_upsert s dest sch rows c w now :
  effect s (upsertCopyDestination s dest sch rows c w now).1
    (trim_space (ref_ProjectID dest)) (trim_space (ref_DatasetID dest)) now.
Proof.
  unfold upsertCopyDestination. destruct (_ || _); [by apply effect_none|].
  generalize (trim_space (ref_ProjectID dest)) (trim_space (ref_DatasetID dest)) (trim_space (ref_TableID dest)).
  intros p d id. run_ensure s p d now.
  destruct (_ ≫= _) as [t'| |] eqn:Et; [|done|done]. simpl. eapply effect_tables.
  - by eapply step_of_bump, step_of_set.
  - apply evolves_insert. apply res_bind_ok in Et as (t0 & Et0 & Ei).
    apply copy_image_identity in Ei as (? & ? & ? & ?).
    destruct (visible s p d now !! id) as [t|].
    + case_match; simplify_eq. by apply touch_evolves.
    + case_match; simplify_eq. simpl in *. unfold keyed; simpl. split_and!; try done; lia.
Qed.

(** ** Invariants *)

(** Every record is stored under its own identity, with a positive version. *)
Definition well_keyed (s : tableService) : Prop :=
  ∀ p d id t, lookup_table s p d id = Some t → keyed p d id t.

Lemma visible_keyed s p d now id t :
  well_keyed s → visible s p d now !! id = Some t → keyed p d id t.
Proof.
  intros Hs. unfold visible. destruct (dataset_tables s p d) as [T|] eqn:E; simpl; intros Ht.
  - apply Hs. unfold lookup_table. by rewrite E.
  - by eapply default_tables_keyed.
Qed.

Lemma run_cas_effect s p d id v stmt now s' r :
  well_keyed s → run_cas s p d id v stmt now = (s', r) → is_panic r = false → effect s s' p d now.
Proof.
  intros Hs Hrun Hp. assert (s' = (run_cas s p d id v stmt now).1) as -> by (by rewrite Hrun).
  assert (is_panic (run_cas s p d id v stmt now).2 = false) as Hp' by (by rewrite Hrun).
  clear Hrun Hp. destruct stmt; simpl in *.
  - apply effect_deleteIfVersion.
  - apply effect_updateIfVersion; [apply replaceRows_clean|done].
  - apply effect_updateIfVersion; [apply replaceTable_clean|done].
  - apply effect_updateIfVersion; [apply replaceView_clean|done].
  - apply effect_updateIfVersion; [apply addColumns_clean|done].
  - apply effect_updateIfVersion; [apply dropColumns_clean|done].
  - apply effect_updateIfVersion; [apply renameColumns_clean|done].
  - apply effect_renameTable. intros t. by apply visible_keyed.
Qed.

Lemma run_op_effect s op now s' :
  well_keyed s → run_op s op now = (s', false) → effect s s' (op_dataset op).1 (op_dataset op).2 now.
Proof.
  intros Hs Hrun.
  assert (effect s (run_op s op now).1 (op_dataset op).1 (op_dataset op).2 now) as He;
    [|by rewrite Hrun in He].
  destruct op; simpl in *.
  - pose proof (effect_purge s p d now) as He. unfold tables_list in *.
    by destruct (ensure_and_purge s p d now).
  - pose proof (effect_seed s p d now) as He. unfold tables_listAll in *.
    by destruct (ensureDatasetLocked s p d now).
  - pose proof (effect_purge s p d now) as He. unfold tables_get in *.
    by destruct (ensure_and_purge s p d now).
  - pose proof (effect_purge s p d now) as He. unfold tables_getData, tables_get in *.
    by destruct (ensure_and_purge s p d now).
  - apply effect_count.
  - pose proof (effect_insert s input now) as He. by destruct (tables_insert s input now).
  - apply effect_delete.
  - apply effect_deleteAll.
  - apply effect_modify, apply_patch_identity.
  - apply effect_modify, apply_update_identity.
  - destruct (run_cas s p d id v stmt now) as [s1 r] eqn:E. simplify_eq/=. by eapply run_cas_effect.
  - pose proof (effect_upsert s dest sch rows create write now) as He.
    by destruct (upsertCopyDestination s dest sch rows create write now).
Qed.

Lemma run_op_keyed s op now s' : well_keyed s → run_op s op now = (s', false) → well_keyed s'.
Proof.
  intros Hs Hrun p d id t' Ht'. pose proof (run_op_effect s op now s' Hs Hrun) as He.
  apply effect_evolves with (p' := p) (d' := d) (id := id) in He. rewrite Ht' in He.
  destruct (lookup_table s p d id) as [t|] eqn:Et; simpl in He; [|done].
  apply Hs in Et. destruct He as [->|[_ He]]; auto.
Qed.

(** Runs of the service: any calls, in any order, at any times. *)
Inductive reachable : tableService → Prop :=
| reachable_new : reachable newTableService
| reachable_op s op now s' : reachable s → run_op s op now = (s', false) → reachable s'.

(** A run during which the table stays in the catalog. *)
Inductive history (p d id : string) : tableService → tableService → Prop :=
| history_nil s : is_Some (lookup_table s p d id) → history p d id s s
| history_step s s1 s2 op now :
    is_Some (lookup_table s p d id) → run_op s op now = (s1, false) →
    history p d id s1 s2 → history p d id s s2.

Lemma reachable_keyed s : reachable s → well_keyed s.
Proof. induction 1; [done|by eapply run_op_keyed]. Qed.

Lemma history_versions p d id s s' :
  history p d id s s' → well_keyed s → ∀ t t',
  lookup_table s p d id = Some t → lookup_table s' p d id = Some t' →
  t' = t ∨ tr_Version t < tr_Version t'.
Proof.
  induction 1 as [|s s1 s2 op now Hs Hrun Hh IH]; intros Hk t t' Ht Ht'; [left; congruence|].
  assert (is_Some (lookup_table s1 p d id)) as [t1 Ht1] by (by inversion Hh).
  pose proof (run_op_effect s op now s1 Hk Hrun) as He.
  apply effect_evolves with (p' := p) (d' := d) (id := id) in He. rewrite Ht, Ht1 in He. simpl in He.
  edestruct IH as [->|Hlt]; [by eapply run_op_keyed|done|done| |].
  - destruct He as [->|[]]; auto.
  - right. destruct He as [->|[]]; lia.
Qed.

(** C16. In every state any sequence of calls can reach, each table is stored
    under its own project, dataset and table id and has a positive version; and
    one more call touches only the dataset it addresses. *)
Theorem catalog_invariant (s : tableService) :
  reachable s →
  (∀ p d id t, lookup_table s p d id = Some t → keyed p d id t) ∧
  (∀ op now s', run_op s op now = (s', false) →
     ∀ p d, (p, d) ≠ op_dataset op → dataset_tables s' p d = dataset_tables s p d).
Proof.
  intros Hr. split; [by apply reachable_keyed|]. intros op now s' Hrun p d Hne.
  eapply effect_frame; [eapply run_op_effect; [by apply reachable_keyed|done]|].
  intros [-> ->]. by destruct (op_dataset op).
Qed.


(** A compare-and-swap that finds another version, or no table, does nothing. *)
Lemma run_cas_checks s p d id v stmt now s' r t :
  lookup_table s p d id = Some t → run_cas s p d id v stmt now = (s', r) → tr_Version t ≠ v →
  s' = s ∧ r = Err ChangedConcurrently.
Proof.
  intros Ht Hrun Hv.
  assert (∃ T, ensureDatasetLocked s p d now = (s, T) ∧ T !! id = Some t) as (T & He & HT).
  { unfold lookup_table in Ht. unfold ensureDatasetLocked. destruct (dataset_tables s p d); naive_solver. }
  assert (negb (tr_Version t =? v) = true) as Hb by (by rewrite negb_true_iff, Z.eqb_neq).
  destruct stmt; simpl in Hrun;
    unfold deleteIfVersion, renameTableIfVersion, replaceRowsIfVersion, replaceTableIfVersion,
      replaceViewIfVersion, addColumnsIfVersion, dropColumnsIfVersion, renameColumnsIfVersion,
      updateIfVersion in Hrun;
    rewrite He, HT, Hb in Hrun; by simplify_eq.
Qed.

End Ops.

(** ** A concrete run: seed a dataset, load a row, then a stale DELETE *)

#[local] Existing Instance unix_seconds.

Definition demo_seeded : tableService := (run_op newTableService (OpGet "p" "d" "events") 5).1.
Definition demo_load : tableOp :=
  OpUpsert (TableRef "p" "d" "events") [] [["5"; "login"]] "" "WRITE_APPEND".
Definition demo_loaded : tableService := (run_op demo_seeded demo_load 6).1.
Definition demo_table (s : tableService) : tableRecord :=
  default (new_table "" "" "" [] [] 0 0) (lookup_table s "p" "d" "events").

Lemma demo_seeded_reachable : reachable demo_seeded.
Proof. apply (reachable_op newTableService (OpGet "p" "d" "events") 5); [apply reachable_new|]. vm_compute. reflexivity. Defined.

Lemma demo_history : history "p" "d" "events" demo_seeded demo_loaded.
Proof.
  apply history_step with (s1 := demo_loaded) (op := demo_load) (now := 6).
  - eexists. vm_compute. reflexivity.
  - vm_compute. reflexivity.
  - apply history_nil. eexists. vm_compute. reflexivity.
Defined.

Lemma catalog_invariant_witness :
  keyed "p" "d" "events" (demo_table demo_seeded).
Proof.
  apply (proj1 (catalog_invariant demo_seeded demo_seeded_reachable)). vm_compute. reflexivity.
Defined.


