(* ===== verification/TableWrites.v ===== *)
(** * What each table write does

    Functional specifications of the catalog's writes, on success and on every
    failure: DML commits, load and copy destinations, ALTER TABLE.  The last
    section shows three places where the catalog's own promises stop: a version
    is reused after a table is dropped and created again, the partitioning
    column of a table can be dropped from under it, and an expired table is
    still there for the methods that do not purge first. *)

From S2P Require Import Prelude GoStrings GoTime GoJson Pagination Cells TableModel Partitioning TableStore TableInvariants.

Section Writes.
Context `{TimestampParser}.

(** ** The compare-and-swap frame *)

Lemma updateIfVersion_found s p d id v now body t :
  lookup_table s p d id = Some t →
  ∃ T, dataset_tables s p d = Some T ∧ T !! id = Some t ∧
  updateIfVersion s p d id v now body =
    if negb (tr_Version t =? v) then (s, Err ChangedConcurrently)
    else let '(t', r) := body t in
         match r with
         | Ok _ => (bump_dataset p d (set_tables p d (<[id := touch now t']> T) s), Ok tt)
         | _ => (set_tables p d (<[id := t']> T) s, r)
         end.
Proof.
  unfold lookup_table, updateIfVersion, ensureDatasetLocked.
  destruct (dataset_tables s p d) as [T|]; simpl; [|done]. intros Ht. exists T. by rewrite Ht.
Qed.

(** Storing a record back in place of itself changes no table. *)
Lemma lookup_table_restore s p d id t T p' d' id' :
  dataset_tables s p d = Some T → T !! id = Some t →
  lookup_table (set_tables p d (<[id := t]> T) s) p' d' id' = lookup_table s p' d' id'.
Proof.
  intros HT Ht. rewrite lookup_table_set, insert_id by done.
  case_decide as E; [|done]. destruct E as [-> ->]. unfold lookup_table. by rewrite HT.
Qed.

Lemma lookup_table_commit s p d id t T :
  lookup_table (bump_dataset p d (set_tables p d (<[id := t]> T) s)) p d id = Some t.
Proof. by rewrite lookup_table_bump, lookup_table_set, decide_True, lookup_insert_eq. Qed.

(** ** DML commits *)

Lemma match_rows_length oldP a used rows : length (match_rows oldP a used rows).1 = length rows.
Proof.
  revert a used. induction rows as [|r rows IH]; intros a used; [done|]. simpl.
  destruct (default [] _) as [|i cs].
  - specialize (IH a used). destruct (match_rows oldP a used rows); simpl in *. by f_equal.
  - specialize (IH (<[json_marshal_strings r := cs]> a) ({[i]} ∪ used)).
    destruct (match_rows _ _ _ rows); simpl in *. by f_equal.
Qed.

Lemma fill_rows_complete oldP cur used i l :
  cur ≠ "" → Forall (.≠ "") oldP →
  length (fill_rows oldP cur used i l) = length l ∧ Forall (.≠ "") (fill_rows oldP cur used i l).
Proof.
  intros Hc Ho. revert used i. induction l as [|p l IH]; intros used i; [by split|]. simpl.
  case_bool_decide; [|case_match]; simpl.
  - destruct (IH used (S i)) as [-> ?]. by split; [|constructor].
  - destruct (IH ({[i]} ∪ used) (S i)) as [-> ?]. split; [done|]. constructor; [|done].
    destruct (oldP !! i) eqn:E; simpl; [|done]. exact (Forall_lookup_1 _ _ _ _ Ho E).
  - destruct (IH used (S i)) as [-> ?]. by split; [|constructor].
Qed.

Lemma reconcile_complete old new parts cur :
  cur ≠ "" →
  let r := reconcileIngestionPartitions old new parts cur in
  length r = length new ∧ Forall (.≠ "") r.
Proof.
  intros Hc. unfold reconcileIngestionPartitions. rewrite bool_decide_false by done. simpl.
  destruct (length new =? 0)%nat eqn:E; [apply Nat.eqb_eq in E; by split|].
  change (imap _ old) with (old_partitions old parts cur).
  pose proof (match_rows_length (old_partitions old parts cur) (index_rows 0 old) ∅ new) as Hl.
  destruct (match_rows _ _ _ new) as [r used]. simpl in *. rewrite <-Hl.
  apply fill_rows_complete; [done|by apply old_partitions_nonempty].
Qed.

(** What a DML commit needs: the version, a plain table, rows its schema and
    partitioning admit. *)
Definition dml_accepts (t : tableRecord) (v : Z) (rows : list row) : Prop :=
  tr_Version t = v ∧ tr_View t = None ∧ tr_External t = None ∧
  Forall (row_conforms (tr_Schema t)) rows ∧
  validateRowsForPartitioning (tr_Schema t) rows (tr_TimePartitioning t) (tr_RangePartitioning t) = Ok tt.

(** What it leaves: the rows, under a new version, each with a partition when
    the table is partitioned by ingestion time; nothing else changes. *)
Definition dml_result (t t' : tableRecord) (rows : list row) (now : Z) : Prop :=
  tr_Rows t' = rows ∧ tr_Schema t' = tr_Schema t ∧ tr_Version t' = tr_Version t + 1 ∧
  tr_TimePartitioning t' = tr_TimePartitioning t ∧ tr_RangePartitioning t' = tr_RangePartitioning t ∧
  (ingestionPartitionID (tr_TimePartitioning t) now ≠ "" →
   length (tr_IngestionPartitions t') = length rows ∧ Forall (.≠ "") (tr_IngestionPartitions t')).

Lemma replaceRows_body_spec t rows parts now :
  let '(t', r) := replaceRows_body rows parts now t in
  (r = Ok tt ↔ dml_accepts t (tr_Version t) rows) ∧
  (r = Ok tt → dml_result t (touch now t') rows now) ∧ (r ≠ Ok tt → t' = t).
Proof.
  unfold replaceRows_body, dml_accepts.
  destruct (tr_View t) eqn:Ev; [naive_solver|]. destruct (tr_External t) eqn:Ex; [naive_solver|].
  pose proof (validateStoredRows_none (tr_Schema t) rows) as Hr.
  destruct (validateStoredRows (tr_Schema t) rows); [naive_solver|].
  unfold validate_partitioning.
  destruct (validateRowsForPartitioning _ _ _ _) as [[]| |] eqn:Ep; [|naive_solver..].
  split; [naive_solver|]. split; [|done]. intros _. unfold dml_result. simpl. repeat split; try lia.
  - case_match eqn:E; bools.
    + rewrite length_fmap. by apply Nat.eqb_eq.
    + by apply reconcile_complete.
  - case_match eqn:E; bools.
    + apply Forall_fmap, Forall_forall. intros x _. simpl. by case_bool_decide.
    + by apply reconcile_complete.
Qed.

(** A DML commit succeeds exactly when the version matches, the target is
    a plain table and every row fits its schema and partitioning; it then leaves
    exactly those rows under the next version, with a partition for each row of
    an ingestion-partitioned table; otherwise no table of the catalog changes. *)
Theorem replaceRowsIfVersion_commit (s s' : tableService) (p d id : string) (v : Z)
    (rows : list row) (parts : list string) (now : Z) (t : tableRecord) (r : res tableErr unit) :
  lookup_table s p d id = Some t →
  replaceRowsIfVersion s p d id v rows parts now = (s', r) →
  (r = Ok tt ↔ dml_accepts t v rows) ∧
  (r = Ok tt → ∃ t', lookup_table s' p d id = Some t' ∧ dml_result t t' rows now) ∧
  (r ≠ Ok tt → ∀ p' d' id', lookup_table s' p' d' id' = lookup_table s p' d' id').
Proof.
  intros Ht. unfold replaceRowsIfVersion.
  destruct (updateIfVersion_found s p d id v now (replaceRows_body rows parts now) t Ht)
    as (T & HT & Hid & ->).
  pose proof (replaceRows_body_spec t rows parts now) as Hb.
  destruct (tr_Version t =? v) eqn:Ev; simpl; bools.
  - destruct (replaceRows_body rows parts now t) as [t' q]. destruct Hb as (Hiff & Hok & Hfail).
    rewrite Ev in Hiff. destruct q as [[]|e|]; intros [= <- <-]; (split; [done|]); (split; [|]); try done.
    + intros _. exists (touch now t'). split; [apply lookup_table_commit|auto].
    + intros Hne p' d' id'. rewrite Hfail by done. by apply lookup_table_restore.
    + intros Hne p' d' id'. rewrite Hfail by done. by apply lookup_table_restore.
  - intros [= <- <-]. unfold dml_accepts. naive_solver.
Qed.

(** ** Load and copy destinations *)

(** The destination's image after a successful write of [rows], from the image
    [old] it had ([None] when the write creates it). *)
Definition upsert_result (old : option tableRecord) (t' : tableRecord) (sch : schema)
    (rows : list row) (create write : string) : Prop :=
  let oldRows := default [] (tr_Rows <$> old) in
  let oldSchema := default [] (tr_Schema <$> old) in
  (create = "CREATE_NEVER" → is_Some old) ∧
  (write = "WRITE_EMPTY" → oldRows = []) ∧
  tr_Rows t' = (if decide (write = "WRITE_APPEND") then oldRows ++ rows else rows) ∧
  (write = "WRITE_APPEND" → oldSchema ≠ [] →
     tr_Schema t' = oldSchema ∧ (sch ≠ [] → sameSchema oldSchema sch = true)) ∧
  Forall (row_conforms (tr_Schema t')) (tr_Rows t') ∧
  validateRowsForPartitioning (tr_Schema t') (tr_Rows t')
    (tr_TimePartitioning t') (tr_RangePartitioning t') = Ok tt ∧
  tr_Version t' = default 1 (tr_Version <$> old) + 1.

Lemma length_pos_ne {A} (l : list A) : (0 <? length l)%nat = negb (bool_decide (l = [])).
Proof. by destruct l; [rewrite bool_decide_true|rewrite bool_decide_false]. Qed.

Lemma copy_image_spec t sch rows write now t' :
  copy_image t sch rows write now = Ok t' →
  tr_Rows t' = (if decide (write = "WRITE_APPEND") then tr_Rows t ++ rows else rows) ∧
  (write = "WRITE_APPEND" → tr_Schema t ≠ [] →
     tr_Schema t' = tr_Schema t ∧ (sch ≠ [] → sameSchema (tr_Schema t) sch = true)) ∧
  Forall (row_conforms (tr_Schema t')) (tr_Rows t') ∧
  validateRowsForPartitioning (tr_Schema t') (tr_Rows t')
    (tr_TimePartitioning t') (tr_RangePartitioning t') = Ok tt ∧
  tr_Version t' = tr_Version t.
Proof.
  unfold copy_image. destruct (_ && negb _) eqn:Em; [done|].
  set (rows' := if bool_decide _ then _ ++ rows else rows). set (sch' := infer_if_empty _ _).
  pose proof (validateStoredRows_none sch' rows') as Hv. destruct (validateStoredRows sch' rows'); [done|].
  rewrite res_bind_ok. intros ([] & Hp & [= <-]). simpl.
  split; [subst rows'; by case_bool_decide; case_decide|].
  split; [|split; [by apply Hv|split; [|done]]].
  - intros -> Hne. rewrite !length_pos_ne, !(bool_decide_false (tr_Schema t = [])), bool_decide_true in Em by done.
    simpl in Em. split.
    + subst sch'. rewrite length_pos_ne, bool_decide_true, bool_decide_false by done. simpl.
      unfold infer_if_empty. by destruct (tr_Schema t).
    + intros Hs. rewrite bool_decide_false in Em by done. simpl in Em. by bools.
  - unfold validate_partitioning in Hp. by destruct (validateRowsForPartitioning _ _ _ _) as [[]| |].
Qed.

(** A refused write leaves the state, seeding aside; a write that succeeds
    replaces one entry. *)
Lemma upsert_commit s s' dest sch rows create write now r :
  let p := trim_space (ref_ProjectID dest) in
  let d := trim_space (ref_DatasetID dest) in
  let id := trim_space (ref_TableID dest) in
  upsertCopyDestination s dest sch rows create write now = (s', r) →
  (∀ n, r = Ok n → n = Z.of_nat (length rows) ∧
     ∃ t', dataset_step s s' p d (<[id := t']> (visible s p d now)) ∧
       upsert_result (visible s p d now !! id) t' sch rows
         (normalizeCreateDisposition create) (normalizeWriteDisposition write)) ∧
  (is_ok r = false → s' = s ∨ s' = (ensureDatasetLocked s p d now).1).
Proof.
  intros p d id. unfold upsertCopyDestination. fold p d id.
  destruct (_ || _); [intros [= <- <-]; naive_solver|].
  set (c := normalizeCreateDisposition create). set (w := normalizeWriteDisposition write).
  pose proof (ensure_spec s p d now) as He. destruct (ensureDatasetLocked s p d now) as [s1 T].
  destruct He as [-> He]. destruct (_ ≫= _) as [t'| |] eqn:Et; intros [= <- <-]; [|naive_solver..].
  split; [|done]. intros n [= <-]. split; [done|]. exists (touch now t').
  split; [by eapply step_of_bump, step_of_set|].
  apply res_bind_ok in Et as (t0 & Et0 & Ei). apply copy_image_spec in Ei as (Hrows & Hsch & Hc & Hp & Hv).
  unfold upsert_result. destruct (visible s p d now !! id) as [t|].
  - destruct (bool_decide (w = "WRITE_EMPTY") && _) eqn:Ew; [done|]. injection Et0 as ->.
    split; [by eexists|]. split; [|split; [exact Hrows|split; [exact Hsch|split; [exact Hc|split; [exact Hp|]]]]].
    + intros E. rewrite bool_decide_true in Ew by done. simpl in *. by destruct (tr_Rows t0).
    + simpl. lia.
  - case_bool_decide as Ec; [done|]. injection Et0 as <-.
    split; [done|]. split; [done|]. split; [exact Hrows|]. split; [done|]. split; [exact Hc|].
    split; [exact Hp|]. simpl in *. lia.
Qed.

(** Writing to a load, copy or query destination follows its dispositions:
    WRITE_APPEND keeps the old rows in front and the old schema, WRITE_TRUNCATE
    keeps none, WRITE_EMPTY only writes to an empty table, CREATE_NEVER never
    creates; the result fits its schema and partitioning, the number of rows
    written is reported, and the version grows.  A refused write changes no
    table, beyond seeding a dataset nobody had touched. *)
Theorem upsertCopyDestination_dispositions (s s' : tableService) (dest : tableReference)
    (sch : schema) (rows : list row) (create write : string) (now : Z) (r : res tableErr Z) :
  let p := trim_space (ref_ProjectID dest) in
  let d := trim_space (ref_DatasetID dest) in
  let id := trim_space (ref_TableID dest) in
  upsertCopyDestination s dest sch rows create write now = (s', r) →
  (∀ n, r = Ok n → n = Z.of_nat (length rows) ∧
     ∃ t', lookup_table s' p d id = Some t' ∧
       upsert_result (visible s p d now !! id) t' sch rows
         (normalizeCreateDisposition create) (normalizeWriteDisposition write)) ∧
  (is_ok r = false → s' = s ∨ s' = (ensureDatasetLocked s p d now).1).
Proof.
  intros p d id Hrun. destruct (upsert_commit _ _ _ _ _ _ _ _ _ Hrun) as [Hok Hfail].
  split; [|done]. intros n Hn. destruct (Hok n Hn) as (? & t' & Hs & Hr). split; [done|].
  exists t'. split; [|done]. unfold lookup_table. rewrite Hs, decide_True by done. simpl.
  by rewrite lookup_insert_eq.
Qed.

(** ** ALTER TABLE *)

Lemma filter_indices_zip {A B} drop i (l : list A) (k : list B) :
  length k = length l →
  zip (filter_indices drop i l) (filter_indices drop i k) = filter_indices drop i (zip l k).
Proof.
  revert i k. induction l as [|x l IH]; intros i [|y k] Hl; simplify_eq/=; [done|].
  case_bool_decide; simpl; [by apply IH|]. f_equal. by apply IH.
Qed.

Lemma elem_of_filter_indices {A} drop i (l : list A) x :
  x ∈ filter_indices drop i l ↔ ∃ k, l !! k = Some x ∧ (i + k)%nat ∉ drop.
Proof.
  revert i. induction l as [|y l IH]; intros i; simpl.
  { rewrite elem_of_nil. naive_solver. }
  trans ((y = x ∧ i ∉ drop) ∨ ∃ k, l !! k = Some x ∧ (S i + k)%nat ∉ drop).
  - rewrite <-IH. case_bool_decide; [naive_solver|]. rewrite elem_of_cons. naive_solver.
  - split.
    + intros [[-> ?]|(k & ? & ?)]; [exists O; by rewrite Nat.add_0_r|].
      exists (S k). by rewrite Nat.add_succ_r.
    + intros ([|k] & Hk & Hd); simpl in Hk; [left; rewrite Nat.add_0_r in Hd; by simplify_eq|].
      right. exists k. by rewrite Nat.add_succ_r in Hd.
Qed.

Lemma column_index_spec i sch name k :
  column_index i sch name = Some k →
  ∃ f, sch !! (k - i)%nat = Some f ∧ (i ≤ k)%nat ∧ equal_fold (Name f) name = true.
Proof.
  revert i. induction sch as [|f sch IH]; intros i; simpl; [done|].
  case_match; [intros [= <-]; exists f; rewrite Nat.sub_diag; naive_solver lia|].
  intros Hk. apply IH in Hk as (g & Hg & Hle & Hf). exists g.
  replace (k - i)%nat with (S (k - S i)) by lia. repeat split; try done; lia.
Qed.

Lemma column_index_complete i sch name k f :
  sch !! k = Some f → equal_fold (Name f) name = true →
  (∀ j g, (j < k)%nat → sch !! j = Some g → equal_fold (Name g) name = false) →
  column_index i sch name = Some (i + k)%nat.
Proof.
  revert i k. induction sch as [|g sch IH]; intros i k Hk Hf Hfirst; [done|].
  destruct k as [|k]; simplify_eq/=; [by rewrite Hf, Nat.add_0_r|].
  rewrite (Hfirst O g) by (done || lia). rewrite (IH (S i) k); [f_equal; lia|done|done|].
  intros j h Hj Hh. apply (Hfirst (S j) h); [lia|done].
Qed.

Lemma dropColumnIndexSet_bound sch names : (size (dropColumnIndexSet sch names) ≤ length sch)%nat.
Proof.
  trans (size (set_seq 0 (length sch) : gset nat)); [|by rewrite size_set_seq].
  apply subseteq_size. intros k. unfold dropColumnIndexSet.
  rewrite elem_of_list_to_set, elem_of_set_seq, list_elem_of_omap. intros (n & _ & Hk).
  apply column_index_spec in Hk as (f & Hf & _). apply lookup_lt_Some in Hf. lia.
Qed.

(** Column names are unique up to case. *)
Definition unique_names (sch : schema) : Prop :=
  ∀ i j f g, sch !! i = Some f → sch !! j = Some g → equal_fold (Name f) (Name g) = true → i = j.

Lemma dropColumnIndexSet_spec sch names k f :
  unique_names sch → sch !! k = Some f →
  k ∈ dropColumnIndexSet sch names ↔ ∃ n, n ∈ names ∧ equal_fold (Name f) n = true.
Proof.
  intros Hu Hk. unfold dropColumnIndexSet. rewrite elem_of_list_to_set, list_elem_of_omap. split.
  - intros (n & Hn & Hc). apply column_index_spec in Hc as (g & Hg & _ & Hf).
    rewrite Nat.sub_0_r in Hg. exists n. by simplify_eq.
  - intros (n & Hn & Hf). exists n. split; [done|]. rewrite (column_index_complete 0 sch n k f Hk Hf); [done|].
    intros j g Hj Hg. apply not_true_is_false. intros Hgn. assert (j = k); [|lia].
    apply (Hu j k g f Hg Hk). rewrite equal_fold_sym in Hf. by eapply equal_fold_trans.
Qed.

(** ALTER TABLE keeps data under its column.  DROP COLUMN at the current
    version of a table whose rows have a cell per column always commits, removes
    exactly the named columns (names unique up to case), and every remaining
    cell stays with its column; ADD COLUMN keeps every old cell and reads as
    NULL in every new column. *)
Theorem alter_columns_aligned (s : tableService) (p d id : string) (names : list string)
    (fields : schema) (now : Z) (t : tableRecord) :
  lookup_table s p d id = Some t → unique_names (tr_Schema t) →
  Forall (λ r, length r = length (tr_Schema t)) (tr_Rows t) →
  (let '(s', r) := dropColumnsIfVersion s p d id (tr_Version t) names now in
   r = Ok tt ∧ ∃ t', lookup_table s' p d id = Some t' ∧
   (∀ f, f ∈ tr_Schema t' ↔ f ∈ tr_Schema t ∧ ∀ n, n ∈ names → equal_fold (Name f) n = false) ∧
   zip (tr_Schema t') <$> tr_Rows t' =
     (λ r, filter_indices (dropColumnIndexSet (tr_Schema t) names) 0 (zip (tr_Schema t) r)) <$> tr_Rows t) ∧
  (let '(s', r) := addColumnsIfVersion s p d id (tr_Version t) fields now in
   r = Ok tt ∧ ∃ t', lookup_table s' p d id = Some t' ∧ tr_Schema t' = tr_Schema t ++ fields ∧
   ∀ i r, tr_Rows t !! i = Some r → ∃ r', tr_Rows t' !! i = Some r' ∧
     (∀ k, (k < length (tr_Schema t))%nat → cell_at r' k = cell_at r k) ∧
     (∀ k, (length (tr_Schema t) ≤ k)%nat → cell_at r' k = storedNullCell)).
Proof.
  intros Ht Hu Hw. split.
  - unfold dropColumnsIfVersion. edestruct updateIfVersion_found as (T & HT & Hid & ->); [exact Ht|].
    rewrite Z.eqb_refl. cbn [negb]. set (drop := dropColumnIndexSet (tr_Schema t) names). cbv zeta.
    assert (filterRowColumns (tr_Rows t) drop = Ok (filter_indices drop 0 <$> tr_Rows t)) as Hf.
    { unfold filterRowColumns. rewrite (proj2 (forallb_forall _ _)); [done|].
      intros r Hr. apply Nat.leb_le. rewrite Forall_forall in Hw. rewrite (Hw r).
      - apply dropColumnIndexSet_bound.
      - by apply list_elem_of_In. }
    simpl. rewrite Hf. split; [done|]. eexists. split; [apply lookup_table_commit|]. simpl. split.
    + intros f. unfold filterColumns. rewrite elem_of_filter_indices. split.
      * intros (k & Hk & Hd). split; [by eapply list_elem_of_lookup_2|]. intros n Hn.
        apply not_true_is_false. intros Hfn. apply Hd. simpl. eapply dropColumnIndexSet_spec; eauto.
      * intros (Hin & Hn). apply list_elem_of_lookup_1 in Hin as [k Hk]. exists k. split; [done|].
        simpl. subst drop. rewrite (dropColumnIndexSet_spec _ _ k f Hu Hk).
        intros (n & Hn' & E). by rewrite (Hn n Hn') in E.
    + rewrite <-list_fmap_compose. apply list_fmap_ext. intros i r Hr. simpl.
      apply filter_indices_zip. by apply (Forall_lookup_1 _ _ _ _ Hw Hr).
  - unfold addColumnsIfVersion. edestruct updateIfVersion_found as (T & HT & Hid & ->); [exact Ht|].
    rewrite Z.eqb_refl. cbn [negb]. split; [done|]. eexists. split; [apply lookup_table_commit|]. simpl.
    split; [done|]. intros i r Hr. rewrite list_lookup_fmap, Hr. eexists. split; [done|].
    pose proof (Forall_lookup_1 _ _ _ _ Hw Hr) as Hlen. simpl in Hlen. unfold cell_at. split; intros k Hk.
    + by rewrite lookup_app_l by lia.
    + rewrite lookup_app_r by lia. destruct (replicate _ _ !! _) eqn:E; [|done].
      by apply lookup_replicate_1 in E as [-> _].
Qed.
End Writes.

(** ** Concrete runs *)

#[local] Existing Instance unix_seconds.

Lemma replaceRowsIfVersion_commit_witness :
  (replaceRowsIfVersion demo_loaded "p" "d" "events" 2 [["9"; "x"]] [] 8).2 = Ok tt.
Proof.
  destruct (replaceRowsIfVersion demo_loaded "p" "d" "events" 2 [["9"; "x"]] [] 8) as [s' r] eqn:E.
  apply (replaceRowsIfVersion_commit demo_loaded s' "p" "d" "events" 2 [["9"; "x"]] [] 8
    (demo_table demo_loaded) r); [vm_compute; reflexivity|exact E|].
  assert (tr_Schema (demo_table demo_loaded) = [col "event_id" "INT64"; col "event_name" "STRING"])
    as Hs by (vm_compute; reflexivity).
  split; [vm_compute; reflexivity|]. split; [vm_compute; reflexivity|]. split; [vm_compute; reflexivity|].
  split; [|vm_compute; reflexivity]. rewrite Hs. apply validateStoredRows_none. vm_compute. reflexivity.
Defined.

Lemma upsertCopyDestination_dispositions_witness :
  let '(s', r) := upsertCopyDestination demo_seeded (TableRef "p" "d" "events") []
                    [["5"; "login"]] "" "WRITE_APPEND" 6 in
  r = Ok 1 ∧ ∃ t', lookup_table s' "p" "d" "events" = Some t' ∧
    upsert_result (visible demo_seeded "p" "d" 6 !! "events") t' [] [["5"; "login"]]
      "CREATE_IF_NEEDED" "WRITE_APPEND".
Proof.
  destruct (upsertCopyDestination demo_seeded (TableRef "p" "d" "events") []
              [["5"; "login"]] "" "WRITE_APPEND" 6) as [s' r] eqn:E.
  assert (r = Ok 1) as ->.
  { transitivity (upsertCopyDestination demo_seeded (TableRef "p" "d" "events") []
              [["5"; "login"]] "" "WRITE_APPEND" 6).2; [by rewrite E|vm_compute; reflexivity]. }
  split; [done|].
  destruct (proj1 (upsertCopyDestination_dispositions demo_seeded s' (TableRef "p" "d" "events") []
    [["5"; "login"]] "" "WRITE_APPEND" 6 (Ok 1) E) 1 eq_refl) as [_ Ht]. exact Ht.
Defined.

(** A table with a range partitioning column, loaded once. *)
Definition demo_ranged : tableService :=
  (run_op newTableService (OpInsert (TableInsert "p" "d" "orders" "" "" ∅
     [col "id" "INT64"; col "who" "STRING"] [["7"; "ann"]; ["150"; "bob"]] None None None
     (Some (RangePartitioning "id" 0 1000 100)) [] false zero_time)) 5).1.
Definition orders (s : tableService) : tableRecord :=
  default (new_table "" "" "" [] [] 0 0) (lookup_table s "p" "d" "orders").

Lemma demo_ranged_reachable : reachable demo_ranged.
Proof.
  eapply (reachable_op newTableService (OpInsert (TableInsert "p" "d" "orders" "" "" ∅
     [col "id" "INT64"; col "who" "STRING"] [["7"; "ann"]; ["150"; "bob"]] None None None
     (Some (RangePartitioning "id" 0 1000 100)) [] false zero_time)) 5); [apply reachable_new|].
  vm_compute. reflexivity.
Defined.

Lemma alter_columns_aligned_witness :
  (dropColumnsIfVersion demo_ranged "p" "d" "orders" 1 ["WHO"] 6).2 = Ok tt.
Proof.
  assert (lookup_table demo_ranged "p" "d" "orders" = Some (orders demo_ranged)) as Hl
    by (vm_compute; reflexivity).
  assert (tr_Schema (orders demo_ranged) = [col "id" "INT64"; col "who" "STRING"]) as Hs
    by (vm_compute; reflexivity).
  destruct (alter_columns_aligned demo_ranged "p" "d" "orders" ["WHO"] [] 6 (orders demo_ranged) Hl)
    as [Hdrop _].
  - rewrite Hs. intros i j f g Hf Hg He.
    destruct i as [|[|i]]; destruct j as [|[|j]]; simpl in Hf, Hg; try done;
      injection Hf as <-; injection Hg as <-; vm_compute in He; done.
  - rewrite Hs. by vm_compute; repeat constructor.
  - assert (tr_Version (orders demo_ranged) = 1) as Hv by (vm_compute; reflexivity). rewrite Hv in Hdrop.
    destruct (dropColumnsIfVersion demo_ranged "p" "d" "orders" 1 ["WHO"] 6). by destruct Hdrop.
Defined.

(** ** Where the promises stop *)

(** A version names a content only while the table lives.  Dropping a
    table and creating it again restarts its versions at 1: a DROP TABLE
    prepared against the first table then removes the second one, although the
    rows it was checked against are gone. *)
Theorem stale_commit_after_recreate :
  let s0 := demo_ranged in
  let s1 := (run_op s0 (OpDelete "p" "d" "orders") 6).1 in
  let s2 := (run_op s1 (OpInsert (TableInsert "p" "d" "orders" "" "" ∅
               [col "total" "INT64"] [["42"]] None None None None [] false zero_time)) 7).1 in
  reachable s0 ∧
  tr_Rows (orders s2) ≠ tr_Rows (orders s0) ∧ tr_Schema (orders s2) ≠ tr_Schema (orders s0) ∧
  (run_cas s2 "p" "d" "orders" (tr_Version (orders s0)) CasDelete 8).2 = Ok tt.
Proof.
  split; [apply demo_ranged_reachable|]. split; [vm_compute; congruence|].
  split; [vm_compute; congruence|]. vm_compute. reflexivity.
Qed.

(** Nothing protects the partitioning column: DROP COLUMN removes it, and
    the next load into the table panics on a negative column index instead of
    reporting an error. *)
Theorem load_panics_without_partition_column :
  let '(s1, r) := dropColumnsIfVersion demo_ranged "p" "d" "orders" 1 ["id"] 6 in
  r = Ok tt ∧ findTopLevelField (tr_Schema (orders s1)) "id" = None ∧
  tr_RangePartitioning (orders s1) = Some (RangePartitioning "id" 0 1000 100) ∧
  (upsertCopyDestination s1 (TableRef "p" "d" "orders") [] [["carol"]] "" "WRITE_APPEND" 7).2 = Panic.
Proof.
  destruct (dropColumnsIfVersion demo_ranged "p" "d" "orders" 1 ["id"] 6) as [s1 r] eqn:E.
  vm_compute in E. injection E as <- <-. vm_compute. done.
Qed.

(** An expired table is gone for the methods that purge and still there
    for those that do not: creating a table of the same id is refused and
    wildcard expansion still lists it, until a read purges it. *)
Theorem expired_table_lingers :
  let old := TableInsert "p" "d" "tmp" "" "" ∅ [col "x" "STRING"] [["1"]] None None None None
               [] false 10 in
  let s := (tables_insert newTableService old 5).1 in
  let '(s1, r) := tables_insert s old 20 in
  r = Err tt ∧ existsb (λ t, String.eqb (tr_TableID t) "tmp") (tables_listAll s "p" "d" 20).2 = true ∧
  (tables_get s "p" "d" "tmp" 20).2 = None ∧
  is_ok (tables_insert (tables_get s "p" "d" "tmp" 20).1 old 21).2 = true.
Proof. vm_compute. done. Qed.
