(* ===== verification/Datasets.v ===== *)
(** * Datasets (datasets_service.go, dataset handlers of bigquery.go)

    [datasetService] keeps the datasets of each project, a version per project
    and a tombstone per deleted dataset.  The handlers compose it with the
    table catalog; each of their service calls is atomic on its own. *)

From S2P Require Import Prelude GoStrings GoTime Pagination Cells TableModel Partitioning TableStore TableInvariants.
From Stdlib Require Import Ascii.

Record datasetRecord := DatasetRecord {
  ds_ProjectID : string; ds_DatasetID : string; ds_FriendlyName : string; ds_Location : string;
  ds_Labels : gmap string string; ds_DefaultTableExpirationMs : Z }.
#[export] Instance datasetRecord_eta : Eta datasetRecord := λ r,
  DatasetRecord (ds_ProjectID r) (ds_DatasetID r) (ds_FriendlyName r) (ds_Location r)
    (ds_Labels r) (ds_DefaultTableExpirationMs r).

(** [datasetInsert] has the fields of [datasetRecord]. *)
Definition datasetInsert : Type := datasetRecord.

(** A [Has*] flag with its value is an option. *)
Record datasetPatch := DatasetPatch {
  dp_ProjectID : string; dp_DatasetID : string; dp_FriendlyName : option string;
  dp_Location : option string; dp_Labels : option (gmap string string);
  dp_DefaultTableExpirationMs : option Z }.

Record datasetService := DatasetService {
  dss_projects : gmap string (gmap string datasetRecord);
  dss_versions : gmap string Z;
  dss_tombstones : gmap string datasetRecord }.
#[export] Instance datasetService_eta : Eta datasetService := λ s,
  DatasetService (dss_projects s) (dss_versions s) (dss_tombstones s).

Definition newDatasetService : datasetService := DatasetService ∅ ∅ ∅.
Definition dataset_defaults : list string := ["analytics"; "finance"; "ops"; "sandbox"].

Definition default_datasets (p : string) : gmap string datasetRecord :=
  list_to_map ((λ id, (id, DatasetRecord p id "" "" ∅ 0)) <$> dataset_defaults).

Definition ensureProjectLocked (s : datasetService) (p : string)
    : datasetService * gmap string datasetRecord :=
  match dss_projects s !! p with
  | Some proj => (s, proj)
  | None => (s <| dss_projects ::= <[p := default_datasets p]> |>, default_datasets p)
  end.

Definition tombstoneKey (p d : string) : string := p +:+ ":" +:+ d.

(** [s.versions[projectID]++] *)
Definition bump_project (p : string) (s : datasetService) : datasetService :=
  s <| dss_versions ::= λ m, <[p := default 0 (m !! p) + 1]> m |>.

Definition set_project (p : string) (proj : gmap string datasetRecord) (s : datasetService)
    : datasetService := s <| dss_projects ::= <[p := proj]> |>.

(** ** Operations *)

(** The version is read before a new project is seeded; seeding leaves it. *)
Definition datasets_list (s : datasetService) (p : string) (start size : Z)
    : datasetService * res Empty_set (list datasetRecord * Z * Z) :=
  let version := default 0 (dss_versions s !! p) in
  let '(s, proj) := ensureProjectLocked s p in
  (s, match page_slice (sorted_keys proj) start size with
      | Ok (ids, next) => Ok (omap (proj !!.) ids, next, version)
      | Err e => Err e
      | Panic => Panic
      end).

Definition datasets_get (s : datasetService) (p d : string) : datasetService * option datasetRecord :=
  let '(s, proj) := ensureProjectLocked s p in (s, proj !! d).

Definition datasets_exists (s : datasetService) (p d : string) : datasetService * bool :=
  let '(s, proj) := ensureProjectLocked s p in (s, bool_decide (is_Some (proj !! d))).

Definition datasets_insert (s : datasetService) (input : datasetInsert)
    : datasetService * option datasetRecord :=
  let p := trim_space (ds_ProjectID input) in
  let d := trim_space (ds_DatasetID input) in
  if bool_decide (p = "") || bool_decide (d = "") then (s, None)
  else
    let '(s, proj) := ensureProjectLocked s p in
    match proj !! d with
    | Some _ => (s, None)
    | None =>
        let rec := DatasetRecord p d (trim_space (ds_FriendlyName input))
                     (trim_space (ds_Location input)) (ds_Labels input)
                     (ds_DefaultTableExpirationMs input) in
        (bump_project p (set_project p (<[d := rec]> proj) s), Some rec)
    end.

Definition datasets_delete (s : datasetService) (p d : string) : datasetService * bool :=
  let '(s, proj) := ensureProjectLocked s p in
  match proj !! d with
  | None => (s, false)
  | Some rec =>
      let s := s <| dss_tombstones ::= <[tombstoneKey p d := rec]> |> in
      (bump_project p (set_project p (delete d proj) s), true)
  end.

Definition datasets_undelete (s : datasetService) (p d : string) : datasetService * option datasetRecord :=
  let '(s, proj) := ensureProjectLocked s p in
  match proj !! d with
  | Some _ => (s, None)
  | None =>
      match dss_tombstones s !! tombstoneKey p d with
      | None => (s, None)
      | Some rec =>
          ((bump_project p (set_project p (<[d := rec]> proj) s))
             <| dss_tombstones ::= delete (tombstoneKey p d) |>, Some rec)
      end
  end.

Definition apply_dataset_patch (input : datasetPatch) (r : datasetRecord) : datasetRecord :=
  DatasetRecord (ds_ProjectID r) (ds_DatasetID r)
    (match dp_FriendlyName input with Some v => trim_space v | None => ds_FriendlyName r end)
    (match dp_Location input with Some v => trim_space v | None => ds_Location r end)
    (default (ds_Labels r) (dp_Labels input))
    (default (ds_DefaultTableExpirationMs r) (dp_DefaultTableExpirationMs input)).

Definition datasets_patch (s : datasetService) (input : datasetPatch)
    : datasetService * option datasetRecord :=
  let p := trim_space (dp_ProjectID input) in
  let d := trim_space (dp_DatasetID input) in
  if bool_decide (p = "") || bool_decide (d = "") then (s, None)
  else
    let '(s, proj) := ensureProjectLocked s p in
    match proj !! d with
    | None => (s, None)
    | Some item =>
        let item := apply_dataset_patch input item in
        (bump_project p (set_project p (<[d := item]> proj) s), Some item)
    end.

(** ** Handlers *)

Inductive datasetReply :=
| DatasetResource (r : datasetRecord)   (* 200 *)
| NoContent                             (* 204 *)
| StillContainsTables (count : Z)       (* 400 *)
| IdsRequired                           (* 400 *)
| DatasetNotFound                       (* 404 *)
| TombstoneNotFound                     (* 404 *)
| DatasetAlreadyExists.                 (* 409 *)

Section Handlers.
Context `{TimestampParser}.

Definition deleteDataset (ds : datasetService) (ts : tableService) (deleteContents : bool)
    (p d : string) (now : Z) : datasetService * tableService * datasetReply :=
  let '(ts, tableCount) := datasetTableCount ts p d now in
  if (0 <? tableCount) && negb deleteContents then (ds, ts, StillContainsTables tableCount)
  else
    let '(ds, deleted) := datasets_delete ds p d in
    if negb deleted then (ds, ts, DatasetNotFound)
    else (ds, if 0 <? tableCount then deleteAllForDataset ts p d else ts, NoContent).

Definition undeleteDataset (ds : datasetService) (projectID datasetID : string)
    : datasetService * datasetReply :=
  let p := trim_space projectID in
  let d := trim_space datasetID in
  if bool_decide (p = "") || bool_decide (d = "") then (ds, IdsRequired)
  else
    let '(ds, existing) := datasets_exists ds p d in
    if existing then (ds, DatasetAlreadyExists)
    else
      let '(ds, rec) := datasets_undelete ds p d in
      (ds, match rec with None => TombstoneNotFound | Some r => DatasetResource r end).
End Handlers.

(** ** Undelete restores what was deleted *)

Definition lookup_dataset (s : datasetService) (p d : string) : option datasetRecord :=
  default (default_datasets p) (dss_projects s !! p) !! d.

Lemma ensureProject_spec s p :
  let '(s', proj) := ensureProjectLocked s p in
  proj = default (default_datasets p) (dss_projects s !! p) ∧
  dss_projects s' !! p = Some proj ∧
  (∀ q d, lookup_dataset s' q d = lookup_dataset s q d) ∧
  dss_tombstones s' = dss_tombstones s.
Proof.
  unfold ensureProjectLocked, lookup_dataset. destruct (dss_projects s !! p) eqn:E; simpl; [done|].
  rewrite lookup_insert_eq. split_and!; try done. intros q d.
  destruct (decide (q = p)) as [->|]; [by rewrite lookup_insert_eq, E|by rewrite lookup_insert_ne].
Qed.

(** Every call of the service, as data. *)
Inductive datasetOp :=
| DsList (p : string) (start size : Z)
| DsGet (p d : string)
| DsExists (p d : string)
| DsInsert (input : datasetInsert)
| DsDelete (p d : string)
| DsUndelete (p d : string)
| DsPatch (input : datasetPatch).

Definition run_dataset_op (s : datasetService) (op : datasetOp) : datasetService :=
  match op with
  | DsList p start size => (datasets_list s p start size).1
  | DsGet p d => (datasets_get s p d).1
  | DsExists p d => (datasets_exists s p d).1
  | DsInsert input => (datasets_insert s input).1
  | DsDelete p d => (datasets_delete s p d).1
  | DsUndelete p d => (datasets_undelete s p d).1
  | DsPatch input => (datasets_patch s input).1
  end.

(** The dataset an operation may create, delete or change. *)
Definition dataset_target (op : datasetOp) : option (string * string) :=
  match op with
  | DsList _ _ _ | DsGet _ _ | DsExists _ _ => None
  | DsInsert i => Some (trim_space (ds_ProjectID i), trim_space (ds_DatasetID i))
  | DsDelete p d | DsUndelete p d => Some (p, d)
  | DsPatch i => Some (trim_space (dp_ProjectID i), trim_space (dp_DatasetID i))
  end.

Definition colon_free (p : string) : Prop := str_mem ":" p = false.

Lemma tombstoneKey_inj p d p' d' :
  colon_free p → colon_free p' → tombstoneKey p d = tombstoneKey p' d' → p = p' ∧ d = d'.
Proof. intros. by apply (str_sep_inj ":"). Qed.

(** A dataset is deleted and its metadata kept. *)
Definition tombstoned (s : datasetService) (p d : string) (rec : datasetRecord) : Prop :=
  lookup_dataset s p d = None ∧ dss_tombstones s !! tombstoneKey p d = Some rec.

Lemma lookup_dataset_set s p q d proj :
  lookup_dataset (set_project p proj s) q d = if decide (q = p) then proj !! d else lookup_dataset s q d.
Proof.
  unfold lookup_dataset, set_project. simpl.
  case_decide; subst; [by rewrite lookup_insert_eq|by rewrite lookup_insert_ne].
Qed.

Ltac run_project s p :=
  let s1 := fresh "s1" in
  let proj := fresh "proj" in
  pose proof (ensureProject_spec s p) as He;
  destruct (ensureProjectLocked s p) as [s1 proj]; destruct He as (-> & Hp & Hl & Ht).

(** An operation on another dataset leaves the tombstone and the absence. *)
Lemma tombstoned_frame s op p d rec :
  tombstoned s p d rec → colon_free p →
  (∀ q e, dataset_target op = Some (q, e) → colon_free q ∧ (q, e) ≠ (p, d)) →
  tombstoned (run_dataset_op s op) p d rec.
Proof.
  unfold tombstoned. intros [Hnone Htomb] Hcp Hop.
  assert (∀ q e, dataset_target op = Some (q, e) → tombstoneKey q e ≠ tombstoneKey p d) as Hkey.
  { intros q e Hqe E. destruct (Hop q e Hqe) as [Hq Hne].
    apply tombstoneKey_inj in E as [-> ->]; done. }
  assert (∀ q e proj s1 v, (q, e) ≠ (p, d) → (∀ q d, lookup_dataset s1 q d = lookup_dataset s q d) →
    proj = default (default_datasets q) (dss_projects s !! q) →
    lookup_dataset (set_project q (partial_alter (λ _, v) e proj) s1) p d = None) as Hother.
  { intros q e proj s1 v Hne Hl ->. rewrite lookup_dataset_set. case_decide as Eq; [|by rewrite Hl].
    subst q. rewrite lookup_partial_alter_ne by congruence. exact Hnone. }
  destruct op as [q start size|q e|q e|i|q e|q e|i]; simpl in *;
    unfold datasets_list, datasets_get, datasets_exists, datasets_insert, datasets_delete,
      datasets_undelete, datasets_patch; cbv zeta.
  1-3: run_project s q; simpl; by rewrite Hl, Ht.
  - case_match; [done|]. destruct (Hop _ _ eq_refl) as [_ Hne]. run_project s (trim_space (ds_ProjectID i)).
    case_match; simpl; [by rewrite Hl, Ht|]. split; [by apply Hother|by rewrite Ht].
  - destruct (Hop _ _ eq_refl) as [_ Hne]. run_project s q. case_match; simpl; [|by rewrite Hl, Ht].
    split; [by eapply (Hother q e _ s1 None)|]. rewrite Ht, lookup_insert_ne; [done|]. by apply Hkey.
  - destruct (Hop _ _ eq_refl) as [_ Hne]. run_project s q. case_match; simpl; [by rewrite Hl, Ht|].
    case_match; simpl; [|by rewrite Hl, Ht]. split; [by apply Hother|].
    rewrite Ht, lookup_delete_ne; [done|]. by apply Hkey.
  - case_match; [done|]. destruct (Hop _ _ eq_refl) as [_ Hne]. run_project s (trim_space (dp_ProjectID i)).
    case_match; simpl; [|by rewrite Hl, Ht]. split; [by apply Hother|by rewrite Ht].
Qed.

Lemma delete_tombstones s p d rec :
  lookup_dataset s p d = Some rec →
  (datasets_delete s p d).2 = true ∧ tombstoned (datasets_delete s p d).1 p d rec.
Proof.
  intros Hrec. unfold datasets_delete, tombstoned. run_project s p. unfold lookup_dataset in Hrec.
  rewrite Hrec. simpl. split; [done|]. split.
  - unfold lookup_dataset. simpl. rewrite lookup_insert_eq. simpl. by rewrite lookup_delete_eq.
  - by rewrite lookup_insert_eq.
Qed.

Lemma undelete_restores s p d rec :
  tombstoned s p d rec →
  (datasets_undelete s p d).2 = Some rec ∧ lookup_dataset (datasets_undelete s p d).1 p d = Some rec.
Proof.
  intros [Hnone Htomb]. unfold datasets_undelete. run_project s p. unfold lookup_dataset in Hnone.
  rewrite Hnone, Ht, Htomb. simpl. split; [done|].
  unfold lookup_dataset. simpl. rewrite lookup_insert_eq. simpl. by rewrite lookup_insert_eq.
Qed.

(** Undelete restores a deleted dataset's metadata exactly as it was at
    the deletion, whatever happened to other datasets in between, as long as
    project ids have no colon. *)
Theorem undelete_restores_deleted (s : datasetService) (p d : string) (rec : datasetRecord)
    (ops : list datasetOp) :
  lookup_dataset s p d = Some rec → colon_free p →
  Forall (λ op, ∀ q e, dataset_target op = Some (q, e) → colon_free q ∧ (q, e) ≠ (p, d)) ops →
  let s1 := foldl run_dataset_op (datasets_delete s p d).1 ops in
  lookup_dataset s1 p d = None ∧
  (datasets_undelete s1 p d).2 = Some rec ∧
  lookup_dataset (datasets_undelete s1 p d).1 p d = Some rec.
Proof.
  intros Hrec Hp Hops s1. assert (tombstoned s1 p d rec) as Ht.
  { subst s1. destruct (delete_tombstones s p d rec Hrec) as [_ Ht].
    revert Ht. generalize (datasets_delete s p d).1. clear Hrec s.
    induction Hops as [|op ops Hop _ IH]; intros s Ht; simpl; [done|]. by apply IH, tombstoned_frame. }
  split; [apply Ht|]. by apply undelete_restores.
Qed.

Lemma undelete_restores_deleted_witness :
  (datasets_undelete (foldl run_dataset_op (datasets_delete newDatasetService "proj" "ops").1
     [DsInsert (DatasetRecord "proj" "extra" "" "" ∅ 0); DsDelete "proj" "finance"]) "proj" "ops").2 =
  Some (DatasetRecord "proj" "ops" "" "" ∅ 0).
Proof.
  apply (undelete_restores_deleted newDatasetService "proj" "ops"); [vm_compute; reflexivity|done|].
  repeat (apply Forall_cons; split;
    [intros q e [= <- <-]; split; [vm_compute; reflexivity|vm_compute; congruence]|]).
  by apply Forall_nil.
Defined.

(** With a colon in a project id the tombstones of two datasets share a
    key: undeleting [b:c] of project [a] brings back the dataset [c] deleted
    from project [a:b], under a key that contradicts the record's identity. *)
Theorem tombstone_collision :
  let s := (datasets_insert newDatasetService (DatasetRecord "a:b" "c" "payroll" "" ∅ 0)).1 in
  let s := (datasets_delete s "a:b" "c").1 in
  let '(s, r) := undeleteDataset s "a" "b:c" in
  r = DatasetResource (DatasetRecord "a:b" "c" "payroll" "" ∅ 0) ∧
  lookup_dataset s "a" "b:c" = Some (DatasetRecord "a:b" "c" "payroll" "" ∅ 0).
Proof. vm_compute. done. Qed.

(** ** Deleting a dataset with its tables *)

Section Deletion.
Context `{TimestampParser}.

(** The tables of a dataset that a purge at [now] would leave. *)
Definition live_tables (ts : tableService) (p d : string) (now : Z) : gmap string tableRecord :=
  default ∅ ((λ T, (purgeExpiredLocked T now).1) <$> dataset_tables ts p d).

Lemma datasetTableCount_spec ts p d now :
  let '(ts', n) := datasetTableCount ts p d now in
  n = Z.of_nat (size (live_tables ts p d now)) ∧
  default ∅ (dataset_tables ts' p d) = live_tables ts p d now ∧
  (∀ p' d', ¬ (p' = p ∧ d' = d) → dataset_tables ts' p' d' = dataset_tables ts p' d').
Proof.
  unfold datasetTableCount, live_tables. destruct (dataset_tables ts p d) as [T|] eqn:E; simpl; [|by rewrite E].
  split; [done|].
  assert (∀ p' d', dataset_tables (if existsb (λ '(_, t), table_expired now t ||
     (purgeExpiredPartitions t now).2) (map_to_list T) then
      bump_dataset p d (set_tables p d (omap (purge_table now) T) ts)
      else set_tables p d (omap (purge_table now) T) ts) p' d' =
     dataset_tables (set_tables p d (omap (purge_table now) T) ts) p' d') as Hs by (intros; by case_match).
  split; [rewrite Hs, dataset_tables_set, decide_True by done; done|].
  intros p' d' Hne. by rewrite Hs, dataset_tables_set, decide_False.
Qed.

Lemma deleteAll_spec ts p d :
  dataset_tables (deleteAllForDataset ts p d) p d = None ∧
  (∀ p' d', ¬ (p' = p ∧ d' = d) →
     dataset_tables (deleteAllForDataset ts p d) p' d' = dataset_tables ts p' d').
Proof.
  destruct (effect_deleteAll ts p d 0) as [Hn|Hg|T' Hs _]; [| |].
  - split; [|naive_solver]. rewrite Hn. unfold deleteAllForDataset in Hn.
    unfold dataset_tables. destruct (ts_projects ts !! p) as [proj|] eqn:Ep; [|done]. simpl.
    destruct (proj !! d) eqn:Ed; [|done]. specialize (Hn p d). rewrite dataset_tables_bump in Hn.
    unfold dataset_tables in Hn. simpl in Hn. rewrite lookup_insert_eq in Hn. simpl in Hn.
    rewrite lookup_delete_eq, Ep in Hn. simpl in Hn. congruence.
  - split; [by rewrite Hg, decide_True|]. intros p' d' Hne. by rewrite Hg, decide_False.
  - exfalso. specialize (Hs p d). rewrite decide_True in Hs by done.
    unfold deleteAllForDataset in Hs. unfold dataset_tables in Hs.
    destruct (ts_projects ts !! p) as [proj|] eqn:Ep; simpl in Hs; [|by rewrite Ep in Hs].
    destruct (proj !! d) eqn:Ed; simpl in Hs.
    + rewrite lookup_insert_eq in Hs. simpl in Hs. by rewrite lookup_delete_eq in Hs.
    + rewrite Ep in Hs. simpl in Hs. by rewrite Ed in Hs.
Qed.

(** Deleting a dataset never destroys tables silently: without
    [deleteContents] it succeeds only if no live table is left; after a success
    the dataset is gone, kept as a tombstone, and has no tables; the tables of
    every other dataset are untouched; a refusal keeps the dataset and its
    live tables. *)
Theorem deleteDataset_contents (ds ds' : datasetService) (ts ts' : tableService)
    (deleteContents : bool) (p d : string) (now : Z) (reply : datasetReply) :
  deleteDataset ds ts deleteContents p d now = (ds', ts', reply) →
  (∀ p' d', ¬ (p' = p ∧ d' = d) → dataset_tables ts' p' d' = dataset_tables ts p' d') ∧
  (reply = NoContent →
     (∃ rec, lookup_dataset ds p d = Some rec ∧ tombstoned ds' p d rec) ∧
     default ∅ (dataset_tables ts' p d) = ∅ ∧
     (deleteContents = false → live_tables ts p d now = ∅)) ∧
  (reply ≠ NoContent →
     lookup_dataset ds' p d = lookup_dataset ds p d ∧
     default ∅ (dataset_tables ts' p d) = live_tables ts p d now).
Proof.
  unfold deleteDataset. pose proof (datasetTableCount_spec ts p d now) as Hc.
  destruct (datasetTableCount ts p d now) as [ts1 n]. destruct Hc as (-> & Hlive & Hframe).
  set (T := live_tables ts p d now) in *.
  assert ((0 <? Z.of_nat (size T)) = negb (bool_decide (T = ∅))) as ->.
  { case_bool_decide as E; [rewrite E, map_size_empty; done|]. simpl. apply Z.ltb_lt.
    assert (size T ≠ O) by (by rewrite map_size_empty_iff). lia. }
  destruct (negb _ && negb deleteContents) eqn:Er; [intros [= <- <- <-]; naive_solver|].
  assert ((datasets_delete ds p d).2 = false → lookup_dataset (datasets_delete ds p d).1 p d = lookup_dataset ds p d) as Hkeep.
  { unfold datasets_delete. run_project ds p. case_match; simpl; [done|]. intros _. apply Hl. }
  assert ((datasets_delete ds p d).2 = true → ∃ rec, lookup_dataset ds p d = Some rec) as Hdel.
  { unfold datasets_delete, lookup_dataset. run_project ds p. case_match; simpl; naive_solver. }
  pose proof (λ rec, delete_tombstones ds p d rec) as Htomb.
  destruct (datasets_delete ds p d) as [ds1 []]; simpl in *; intros [= <- <- <-].
  - destruct (Hdel eq_refl) as [rec Hrec]. pose proof (deleteAll_spec ts1 p d) as [Hgone Hf2].
    split; [intros p' d' Hne; case_match; [by rewrite Hf2, Hframe|by apply Hframe]|]. split; [|done].
    intros _. split; [exists rec; split; [done|by apply Htomb]|].
    case_bool_decide as E; simpl in *; [|split; [by rewrite Hgone|]; intros ->; done].
    split; [by rewrite Hlive|done].
  - split; [done|]. split; [done|]. intros _. split; [by apply Hkeep|done].
Qed.
End Deletion.

#[local] Existing Instance unix_seconds.

Lemma deleteDataset_contents_witness :
  let '(ds', ts', reply) := deleteDataset newDatasetService demo_loaded false "p" "d" 9 in
  reply ≠ NoContent ∧ size (live_tables demo_loaded "p" "d" 9) = 4%nat ∧
  default ∅ (dataset_tables ts' "p" "d") = live_tables demo_loaded "p" "d" 9.
Proof.
  destruct (deleteDataset newDatasetService demo_loaded false "p" "d" 9) as [[ds' ts'] reply] eqn:E.
  assert (reply = StillContainsTables 4) as ->.
  { transitivity (deleteDataset newDatasetService demo_loaded false "p" "d" 9).2;
      [by rewrite E|vm_compute; reflexivity]. }
  split; [done|]. split; [vm_compute; reflexivity|].
  apply (deleteDataset_contents _ _ _ _ _ _ _ _ _ E). done.
Defined.
