(* ===== verification/Sink.v ===== *)
(** * What the catalog promises to the write services

    The Storage Write API and streaming inserts reach the catalog through two
    calls: read a table, append rows to an existing one.  [TableSink] is that
    interface, [TableSinkLaws] what its clients rely on; the services are
    proved against the laws, and the table catalog satisfies them. *)

From S2P Require Import Prelude GoStrings GoTime Pagination Cells TableModel Partitioning TableStore TableInvariants TableWrites.

Class TableSink (S : Type) := {
  (** [tables.get]: may purge expired tables and partitions. *)
  sink_get : S → tableReference → Z → S * option tableRecord;
  (** [tables.upsertCopyDestination(dest, schema, rows, CREATE_NEVER, WRITE_APPEND)] *)
  sink_append : S → tableReference → schema → list row → Z → S * res tableErr Z;
  (** The rows of a table; empty when there is none. *)
  sink_rows : S → tableReference → list row;
}.

(** References that name the same table: the catalog trims them. *)
Definition ref_key (r : tableReference) : string * string * string :=
  (trim_space (ref_ProjectID r), trim_space (ref_DatasetID r), trim_space (ref_TableID r)).

Class TableSinkLaws (S : Type) `{TableSink S} := {
  sink_append_ok s ref sch rows now s' n :
    sink_append s ref sch rows now = (s', Ok n) →
    n = Z.of_nat (length rows) ∧ sink_rows s' ref = sink_rows s ref ++ rows;
  sink_append_fail s ref sch rows now s' r ref' :
    sink_append s ref sch rows now = (s', r) → is_ok r = false → sink_rows s' ref' = sink_rows s ref';
  sink_append_frame s ref sch rows now s' r ref' :
    sink_append s ref sch rows now = (s', r) → ref_key ref' ≠ ref_key ref →
    sink_rows s' ref' = sink_rows s ref';
}.

(** ** The catalog is a sink *)

Section Catalog.
Context `{TimestampParser}.

(** Seeding a dataset is not a change of its rows. *)
Definition catalog_rows (s : tableService) (r : tableReference) : list row :=
  let '(p, d, id) := ref_key r in default [] (tr_Rows <$> visible s p d 0 !! id).

#[export] Instance catalog_sink : TableSink tableService := {
  sink_get s r now := tables_get s (ref_ProjectID r) (ref_DatasetID r) (ref_TableID r) now;
  sink_append s r sch rows now :=
    upsertCopyDestination s r sch rows "CREATE_NEVER" "WRITE_APPEND" now;
  sink_rows := catalog_rows }.

Lemma default_tables_rows p d now id :
  tr_Rows <$> default_tables p d now !! id = tr_Rows <$> default_tables p d 0 !! id.
Proof.
  rewrite <-!lookup_fmap. f_equal.
Qed.

Lemma visible_rows s p d now id :
  tr_Rows <$> visible s p d now !! id = tr_Rows <$> visible s p d 0 !! id.
Proof. unfold visible. destruct (dataset_tables s p d); [done|]. apply default_tables_rows. Qed.

Lemma visible_step s s' p d T' p' d' now :
  dataset_step s s' p d T' →
  visible s' p' d' now = if decide (p' = p ∧ d' = d) then T' else visible s p' d' now.
Proof. intros Hs. unfold visible at 1. rewrite Hs. by case_decide. Qed.

Lemma catalog_rows_seed s p d now ref :
  catalog_rows (ensureDatasetLocked s p d now).1 ref = catalog_rows s ref.
Proof.
  unfold catalog_rows. destruct (ref_key ref) as [[p' d'] id]. pose proof (ensure_spec s p d now) as He.
  destruct (ensureDatasetLocked s p d now) as [s1 T]. destruct He as [_ He]. simpl.
  unfold visible at 1. rewrite He. case_decide as E; [|done]. destruct E as [-> ->]. simpl.
  by rewrite visible_rows.
Qed.

#[export] Instance catalog_sink_laws : TableSinkLaws tableService.
Proof.
  split; simpl.
  - intros s ref sch rows now s' n Hrun. destruct (upsert_commit _ _ _ _ _ _ _ _ _ Hrun) as [Hok _].
    destruct (Hok n eq_refl) as (-> & t' & Hs & Hr). split; [done|].
    unfold catalog_rows, ref_key. rewrite (visible_step _ _ _ _ _ _ _ _ Hs), decide_True, lookup_insert_eq by done.
    destruct Hr as (_ & _ & Hrows & _). etrans; [exact Hrows|]. rewrite <-(visible_rows s _ _ now).
    by destruct (visible s _ _ now !! _).
  - intros s ref sch rows now s' r ref' Hrun Hfail. destruct (upsert_commit _ _ _ _ _ _ _ _ _ Hrun) as [_ Hno].
    destruct (Hno Hfail) as [->| ->]; [done|apply catalog_rows_seed].
  - intros s ref sch rows now s' r ref' Hrun Hne.
    destruct (upsert_commit _ _ _ _ _ _ _ _ _ Hrun) as [Hok Hno].
    destruct r as [n|e|]; [|by destruct (Hno eq_refl) as [->| ->]; [|apply catalog_rows_seed]..].
    destruct (Hok n eq_refl) as (_ & t' & Hs & _). unfold catalog_rows.
    destruct (ref_key ref') as [[p' d'] id'] eqn:E'. unfold ref_key in Hne.
    rewrite (visible_step _ _ _ _ _ _ _ _ Hs). case_decide as E; [|done]. destruct E as [-> ->].
    rewrite lookup_insert_ne by congruence. by rewrite visible_rows.
Qed.
End Catalog.
