(* ===== verification/StorageWrite.v ===== *)
(** * The Storage Write API (storage_write_service.go)

    Explicit write streams (COMMITTED and PENDING), the [_default] stream and
    the batch commit, over any [TableSink].  Protobuf reflection and Arrow
    decoding are libraries: the classes [ProtoRuntime] and [ArrowRuntime] are
    the calls the service makes to them.  A stream is named by its key in the
    service's map, from which entries are never removed, so that a name stands
    for the pointer the code keeps.  Row offsets count rows held in memory and
    are unbounded integers here. *)

From S2P Require Import Prelude GoStrings GoTime Pagination Cells TableModel Partitioning TableStore TableInvariants TableWrites Sink.
From Stdlib Require Import Ascii.

Definition storageWriteDefaultStreamID : string := "_default".

Inductive writeStreamKind := writeStreamCommitted | writeStreamPending.
#[export] Instance writeStreamKind_eq_dec : EqDecision writeStreamKind.
Proof. solve_decision. Defined.

Record storageWriteStream := WriteStream {
  sw_Name : string; sw_ProjectID : string; sw_DatasetID : string; sw_TableID : string;
  sw_Kind : writeStreamKind; sw_Fields : schema; sw_CreatedAt : Z; sw_CommitTime : Z;
  sw_Finalized : bool; sw_Committed : bool; sw_Buffered : list row; sw_NextOffset : Z }.
#[export] Instance storageWriteStream_eta : Eta storageWriteStream := λ s,
  WriteStream (sw_Name s) (sw_ProjectID s) (sw_DatasetID s) (sw_TableID s) (sw_Kind s) (sw_Fields s)
    (sw_CreatedAt s) (sw_CommitTime s) (sw_Finalized s) (sw_Committed s) (sw_Buffered s)
    (sw_NextOffset s).

Record storageWriteService := StorageWriteService {
  sws_counter : Z; sws_streams : gmap string storageWriteStream }.
#[export] Instance storageWriteService_eta : Eta storageWriteService := λ s,
  StorageWriteService (sws_counter s) (sws_streams s).

Definition newStorageWriteService : storageWriteService := StorageWriteService 0 ∅.

(** ** Resource names *)

Definition name_parts (name : string) : list string :=
  split_on "/" (trim_char "/" (trim_space name)).

(** projects/{p}/datasets/{d}/tables/{t} *)
Definition parseStorageTableName (name : string) : option (string * string * string) :=
  match name_parts name with
  | [a; p; b; d; c; t] =>
      if bool_decide (a = "projects") && bool_decide (b = "datasets") && bool_decide (c = "tables")
      then Some (p, d, t) else None
  | _ => None
  end.

(** projects/{p}/datasets/{d}/tables/{t}/streams/{s} *)
Definition parseStorageWriteStreamName (name : string)
    : option (string * string * string * string * bool) :=
  match name_parts name with
  | [a; p; b; d; c; t; e; s] =>
      if bool_decide (a = "projects") && bool_decide (b = "datasets") && bool_decide (c = "tables") &&
         bool_decide (e = "streams")
      then Some (p, d, t, s, bool_decide (s = storageWriteDefaultStreamID)) else None
  | _ => None
  end.

Definition rejectNestedFields (sch : schema) : option string :=
  match list_find (λ f, bool_decide (Mode f = "REPEATED") || isRecordType (Type_ f) = true) sch with
  | Some (_, f) => Some (Name f)
  | None => None
  end.

Definition stream_table (st : storageWriteStream) : tableReference :=
  TableRef (sw_ProjectID st) (sw_DatasetID st) (sw_TableID st).

(** ** Rows on the wire *)

(** base64.StdEncoding: the standard alphabet, padded. *)
Definition b64_std_char (c : Ascii.ascii) : Ascii.ascii :=
  if bool_decide (c = "-"%char) then "+"%char else if bool_decide (c = "_"%char) then "/"%char else c.
Definition b64_std (s : string) : string :=
  let pad := match (String.length s mod 3)%nat with 1%nat => "==" | 2%nat => "=" | _ => "" end in
  str_map b64_std_char (b64_encode s) +:+ pad.

Inductive protoScalar (Float : Type) :=
| PBool (b : bool)
| PSigned (z : Z)
| PUnsigned (z : Z)
| PFloat (f : Float)
| PDouble (f : Float)
| PString (s : string)
| PBytes (s : string)
| PEnum (z : Z).
Arguments PBool {Float}. Arguments PSigned {Float}. Arguments PUnsigned {Float}.
Arguments PFloat {Float}. Arguments PDouble {Float}. Arguments PString {Float}.
Arguments PBytes {Float}. Arguments PEnum {Float}.

(** A field the message has. *)
Inductive protoField (Float : Type) :=
| PScalar (v : protoScalar Float)
| PRepeated
| PMessage.
Arguments PScalar {Float}. Arguments PRepeated {Float}. Arguments PMessage {Float}.

Class ProtoRuntime := {
  Descriptor : Type;
  MessageDescriptor : Type;
  Float : Type;
  protodesc_NewFile : Descriptor → option MessageDescriptor;
  proto_Unmarshal : MessageDescriptor → string → option (gmap string (protoField Float));
  formatFloat : Float → Z → string;
}.

Class ArrowRuntime := {
  ArrowBatch : Type;
  decodeArrowAppendRows : string → ArrowBatch → schema → option (list row);
}.

Inductive convErr := RequiredAbsent (c : string) | RepeatedUnsupported (c : string) | NestedUnsupported (c : string).

Inductive rowsPayload `{ProtoRuntime} `{ArrowRuntime} :=
| ProtoRows (writer_schema : option (option Descriptor)) (serialized : list string)
| ArrowRows (writer_schema : option string) (batch : ArrowBatch)
| NoRows.

Record appendRequest `{ProtoRuntime} `{ArrowRuntime} := AppendRequest {
  aq_WriteStream : string; aq_Payload : rowsPayload; aq_Offset : option Z }.

(** What one [AppendRows] call keeps between requests. *)
Record connection `{ProtoRuntime} := Connection {
  cn_stream : string; cn_isDefault : bool; cn_fields : schema;
  cn_msgDesc : option MessageDescriptor; cn_arrowSchema : string }.

Arguments Connection {_}.
Arguments ProtoRows {_ _}.
Arguments ArrowRows {_ _}.
Arguments NoRows {_ _}.
Arguments AppendRequest {_ _}.

Inductive appendReply :=
| RowErrors (indices : list nat)
| AppendResult (offset : option Z)
| AlreadyWritten (want current : Z)
| BeyondEnd (want current : Z).

Inductive writeErr :=
| InvalidStreamName | InvalidTableName | TableMissing | NestedColumn (c : string) | StreamMissing
| BufferedUnsupported | TypeRequired | StreamRequired | InvalidWriterSchema | WriterSchemaRequired
| InvalidArrowRows | RowsRequired | OffsetOnDefault | StreamFinalized | AppendFailed (e : tableErr)
| AppendPanicked.

(** The loop goes on after a reply and ends with an error. *)
Inductive step_outcome := Reply (r : appendReply) | Terminate (e : writeErr).

Section Service.
Context {S : Type} `{TableSink S} `{ProtoRuntime} `{ArrowRuntime}.

Definition protoScalarValueToString (v : protoScalar Float) : string :=
  match v with
  | PBool b => if b then "true" else "false"
  | PSigned z | PUnsigned z | PEnum z => format_int z
  | PFloat f => formatFloat f 32
  | PDouble f => formatFloat f 64
  | PString s => s
  | PBytes s => b64_std s
  end.

Fixpoint protoMessageToRow (msg : gmap string (protoField Float)) (fields : schema)
    : convErr + row :=
  match fields with
  | [] => inr []
  | f :: rest =>
      let cell : convErr + string :=
        match msg !! Name f with
        | None => if bool_decide (normalizeMode (Mode f) = "REQUIRED")
                  then inl (RequiredAbsent (Name f)) else inr storedNullCell
        | Some PRepeated => inl (RepeatedUnsupported (Name f))
        | Some PMessage => inl (NestedUnsupported (Name f))
        | Some (PScalar v) => inr (protoScalarValueToString v)
        end in
      match cell with
      | inl e => inl e
      | inr c => match protoMessageToRow msg rest with
                 | inl e => inl e
                 | inr r => inr (c :: r)
                 end
      end
  end.

(** The rows that decode, and the indices of those that do not. *)
Fixpoint decode_from (i : nat) (serialized : list string) (msgDesc : MessageDescriptor)
    (fields : schema) : list row * list nat :=
  match serialized with
  | [] => ([], [])
  | raw :: rest =>
      let '(rows, errs) := decode_from (i + 1) rest msgDesc fields in
      match (msg ← proto_Unmarshal msgDesc raw;
             match protoMessageToRow msg fields with inr r => Some r | inl _ => None end) with
      | Some r => (r :: rows, errs)
      | None => (rows, i :: errs)
      end
  end.
Definition decodeProtoRows := decode_from 0.

Definition buildDynamicMessageDescriptor (desc : option Descriptor) : option MessageDescriptor :=
  desc ≫= protodesc_NewFile.

(** ** Streams *)

Inductive requestedType := TypeCommitted | TypePending | TypeBuffered | TypeUnspecified.

Definition CreateWriteStream (sws : storageWriteService) (s : S) (parent : string)
    (typ : requestedType) (now : Z) : storageWriteService * S * (writeErr + storageWriteStream) :=
  match parseStorageTableName parent with
  | None => (sws, s, inl InvalidTableName)
  | Some (p, d, t) =>
      let '(s, rec) := sink_get s (TableRef p d t) now in
      match rec with
      | None => (sws, s, inl TableMissing)
      | Some rec =>
          match rejectNestedFields (tr_Schema rec) with
          | Some c => (sws, s, inl (NestedColumn c))
          | None =>
              let create (kind : writeStreamKind) :=
                let counter := sws_counter sws + 1 in
                let name := "projects/" +:+ p +:+ "/datasets/" +:+ d +:+ "/tables/" +:+ t +:+
                            "/streams/stream_" +:+ format_int counter in
                let st := WriteStream name p d t kind (tr_Schema rec) now zero_time false false [] 0 in
                (StorageWriteService counter (<[name := st]> (sws_streams sws)), s, inr st) in
              match typ with
              | TypeCommitted => create writeStreamCommitted
              | TypePending => create writeStreamPending
              | TypeBuffered => (sws, s, inl BufferedUnsupported)
              | TypeUnspecified => (sws, s, inl TypeRequired)
              end
          end
      end
  end.

(** The response's schema: the registered stream's or, for [_default], the
    table's current one. *)
Definition GetWriteStream (sws : storageWriteService) (s : S) (name : string) (now : Z)
    : S * (writeErr + (string * writeStreamKind * schema)) :=
  let registered :=
    match sws_streams sws !! name with
    | None => (s, inl StreamMissing)
    | Some st => (s, inr (sw_Name st, sw_Kind st, sw_Fields st))
    end in
  match parseStorageWriteStreamName name with
  | Some (p, d, t, _, true) =>
      let '(s, rec) := sink_get s (TableRef p d t) now in
      (s, match rec with
          | None => inl TableMissing
          | Some rec =>
              match rejectNestedFields (tr_Schema rec) with
              | Some c => inl (NestedColumn c)
              | None => inr (name, writeStreamCommitted, tr_Schema rec)
              end
          end)
  | _ => registered
  end.

Definition FinalizeWriteStream (sws : storageWriteService) (name : string)
    : storageWriteService * (writeErr + Z) :=
  match sws_streams sws !! name with
  | None => (sws, inl StreamMissing)
  | Some st =>
      (sws <| sws_streams ::= <[name := st <| sw_Finalized := true |>]> |>, inr (sw_NextOffset st))
  end.

(** ** Appending *)

(** A request that names another stream selects it; a destination switch drops
    the writer schema. *)
Definition select_destination (sws : storageWriteService) (s : S) (cn : connection) (ws : string)
    (now : Z) : S * (writeErr + connection) :=
  if bool_decide (ws ≠ "") && bool_decide (ws ≠ cn_stream cn) then
    match parseStorageWriteStreamName ws with
    | None => (s, inl InvalidStreamName)
    | Some (p, d, t, _, true) =>
        let '(s, rec) := sink_get s (TableRef p d t) now in
        (s, match rec with
            | None => inl TableMissing
            | Some rec =>
                match rejectNestedFields (tr_Schema rec) with
                | Some c => inl (NestedColumn c)
                | None => inr (Connection ws true (tr_Schema rec) None "")
                end
            end)
    | Some (_, _, _, _, false) =>
        (s, match sws_streams sws !! ws with
            | None => inl StreamMissing
            | Some st => inr (Connection ws false (sw_Fields st) None "")
            end)
    end
  else (s, inr cn).

(** The rows of the request, or a reply with the rows in error. *)
Definition decode_rows (cn : connection) (payload : rowsPayload)
    : writeErr + (connection * (appendReply + list row)) :=
  match payload with
  | ProtoRows writer serialized =>
      let desc : writeErr + option MessageDescriptor :=
        match writer with
        | None => inr (cn_msgDesc cn)
        | Some d => match buildDynamicMessageDescriptor d with
                    | None => inl InvalidWriterSchema
                    | Some md => inr (Some md)
                    end
        end in
      match desc with
      | inl e => inl e
      | inr None => inl WriterSchemaRequired
      | inr (Some md) =>
          let cn := Connection (cn_stream cn) (cn_isDefault cn) (cn_fields cn) (Some md) (cn_arrowSchema cn) in
          let '(rows, errs) := decodeProtoRows serialized md (cn_fields cn) in
          inr (cn, if (0 <? length errs)%nat then inl (RowErrors errs) else inr rows)
      end
  | ArrowRows writer batch =>
      let bytes := default (cn_arrowSchema cn) writer in
      let cn := Connection (cn_stream cn) (cn_isDefault cn) (cn_fields cn) (cn_msgDesc cn) bytes in
      if bool_decide (bytes = "") then inl WriterSchemaRequired
      else match decodeArrowAppendRows bytes batch (cn_fields cn) with
           | None => inl InvalidArrowRows
           | Some rows => inr (cn, inr rows)
           end
  | NoRows => inl RowsRequired
  end.

Definition append_default (s : S) (cn : connection) (offset : option Z) (rows : list row) (now : Z)
    : S * step_outcome :=
  match offset with
  | Some _ => (s, Terminate OffsetOnDefault)
  | None =>
      match parseStorageWriteStreamName (cn_stream cn) with
      | None => (s, Terminate InvalidStreamName)
      | Some (p, d, t, _, _) =>
          let '(s, r) := sink_append s (TableRef p d t) (cn_fields cn) rows now in
          (s, match r with
              | Ok _ => Reply (AppendResult None)
              | Err e => Terminate (AppendFailed e)
              | Panic => Terminate AppendPanicked
              end)
      end
  end.

(** The rows go to the end of the stream [st]. *)
Definition accept_rows (sws : storageWriteService) (s : S) (name : string) (st : storageWriteStream)
    (fields : schema) (rows : list row) (now : Z) : storageWriteService * S * step_outcome :=
  let advance (st : storageWriteStream) :=
    sws <| sws_streams ::=
      <[name := st <| sw_NextOffset ::= λ n, n + Z.of_nat (length rows) |>]> |> in
  let reply := Reply (AppendResult (Some (sw_NextOffset st))) in
  match sw_Kind st with
  | writeStreamCommitted =>
      let '(s, r) := sink_append s (stream_table st) fields rows now in
      match r with
      | Ok _ => (advance st, s, reply)
      | Err e => (sws, s, Terminate (AppendFailed e))
      | Panic => (sws, s, Terminate AppendPanicked)
      end
  | writeStreamPending => (advance (st <| sw_Buffered ::= λ b, b ++ rows |>), s, reply)
  end.

(** The part of [AppendRows] under the stream's lock. *)
Definition append_explicit (sws : storageWriteService) (s : S) (name : string) (fields : schema)
    (offset : option Z) (rows : list row) (now : Z) : storageWriteService * S * step_outcome :=
  match sws_streams sws !! name with
  | None => (sws, s, Terminate StreamMissing)
  | Some st =>
      if sw_Finalized st then (sws, s, Terminate StreamFinalized)
      else
        match offset with
        | None => accept_rows sws s name st fields rows now
        | Some want =>
            if want <? sw_NextOffset st then (sws, s, Reply (AlreadyWritten want (sw_NextOffset st)))
            else if sw_NextOffset st <? want then (sws, s, Reply (BeyondEnd want (sw_NextOffset st)))
            else accept_rows sws s name st fields rows now
        end
  end.

(** One iteration of the loop of [AppendRows]. *)
Definition append_step (sws : storageWriteService) (s : S) (cn : connection) (req : appendRequest)
    (now : Z) : storageWriteService * S * connection * step_outcome :=
  let '(s, sel) := select_destination sws s cn (aq_WriteStream req) now in
  match sel with
  | inl e => (sws, s, cn, Terminate e)
  | inr cn =>
      if bool_decide (cn_stream cn = "") then (sws, s, cn, Terminate StreamRequired)
      else match decode_rows cn (aq_Payload req) with
           | inl e => (sws, s, cn, Terminate e)
           | inr (cn, inl reply) => (sws, s, cn, Reply reply)
           | inr (cn, inr rows) =>
               if cn_isDefault cn then
                 let '(s, out) := append_default s cn (aq_Offset req) rows now in (sws, s, cn, out)
               else
                 let '(sws, s, out) :=
                   append_explicit sws s (cn_stream cn) (cn_fields cn) (aq_Offset req) rows now in
                 (sws, s, cn, out)
           end
  end.

(** The loop, over the requests the client sends until it closes the stream. *)
Fixpoint AppendRows (sws : storageWriteService) (s : S) (cn : connection)
    (reqs : list appendRequest) (now : Z)
    : storageWriteService * S * list appendReply * option writeErr :=
  match reqs with
  | [] => (sws, s, [], None)
  | req :: rest =>
      let '(sws, s, cn, out) := append_step sws s cn req now in
      match out with
      | Terminate e => (sws, s, [], Some e)
      | Reply r =>
          let '(sws, s, replies, e) := AppendRows sws s cn rest now in (sws, s, r :: replies, e)
      end
  end.

(** ** Batch commit *)

Inductive commitProblem := NotPending | NotFinalized | AlreadyCommitted | WrongTable.

Definition commit_problem (p d t : string) (st : storageWriteStream) : option commitProblem :=
  if bool_decide (sw_Kind st ≠ writeStreamPending) then Some NotPending
  else if negb (sw_Finalized st) then Some NotFinalized
  else if sw_Committed st then Some AlreadyCommitted
  else if bool_decide (sw_ProjectID st ≠ p) || bool_decide (sw_DatasetID st ≠ d) ||
          bool_decide (sw_TableID st ≠ t) then Some WrongTable
  else None.

Inductive commitReply :=
| CommitTime (now : Z)
| StreamErrors (errs : list (string * commitProblem))
| CommitRefused (e : writeErr).

(** First phase: look the streams up and check each one. *)
Definition commit_check (sws : storageWriteService) (p d t : string) (names : list string)
    : commitReply + list storageWriteStream :=
  match mapM (λ n, sws_streams sws !! n) names with
  | None => inl (CommitRefused StreamMissing)
  | Some sts =>
      match omap (λ st, pair (sw_Name st) <$> commit_problem p d t st) sts with
      | [] => inr sts
      | errs => inl (StreamErrors errs)
      end
  end.

(** Second phase: collect the buffers and append them in one call. *)
Definition commit_apply (s : S) (p d t : string) (sts : list storageWriteStream) (now : Z)
    : S * option writeErr :=
  let allRows := concat (sw_Buffered <$> sts) in
  let fields := default [] (head (filter (λ f, f ≠ []) (sw_Fields <$> sts))) in
  if (0 <? length allRows)%nat then
    let '(s, r) := sink_append s (TableRef p d t) fields allRows now in
    (s, match r with Ok _ => None | Err e => Some (AppendFailed e) | Panic => Some AppendPanicked end)
  else (s, None).

(** Third phase: mark the streams. *)
Definition mark_committed (now : Z) (st : storageWriteStream) : storageWriteStream :=
  st <| sw_Committed := true |> <| sw_CommitTime := now |> <| sw_Buffered := [] |>.
Definition commit_mark (sws : storageWriteService) (names : list string) (now : Z)
    : storageWriteService :=
  sws <| sws_streams ::= λ m, foldl (λ m n, alter (mark_committed now) n m) m names |>.

Definition BatchCommitWriteStreams (sws : storageWriteService) (s : S) (parent : string)
    (names : list string) (now : Z) : storageWriteService * S * commitReply :=
  match parseStorageTableName parent with
  | None => (sws, s, CommitRefused InvalidTableName)
  | Some (p, d, t) =>
      match commit_check sws p d t names with
      | inl reply => (sws, s, reply)
      | inr sts =>
          let '(s, e) := commit_apply s p d t sts now in
          match e with
          | Some e => (sws, s, CommitRefused e)
          | None => (commit_mark sws names now, s, CommitTime now)
          end
      end
  end.
End Service.

(** ** Streams as logs

    The contract of an explicit stream: a log of rows; an append at an offset
    is accepted only at the end of the log. *)

Definition log_append (log : list row) (offset : option Z) (rows : list row)
    : list row * appendReply :=
  let n := Z.of_nat (length log) in
  match offset with
  | Some want =>
      if want <? n then (log, AlreadyWritten want n)
      else if n <? want then (log, BeyondEnd want n)
      else (log ++ rows, AppendResult (Some n))
  | None => (log ++ rows, AppendResult (Some n))
  end.

Section Logs.
Context {S : Type} `{TableSinkLaws S} `{ProtoRuntime} `{ArrowRuntime}.

(** The stream implements the log: a COMMITTED one in its table, behind the
    rows [base] that were there, a PENDING one in its buffer. *)
Definition stream_log (base : list row) (s : S) (st : storageWriteStream) (log : list row) : Prop :=
  sw_NextOffset st = Z.of_nat (length log) ∧
  match sw_Kind st with
  | writeStreamCommitted => sink_rows s (stream_table st) = base ++ log
  | writeStreamPending => sw_Buffered st = log ∧ sink_rows s (stream_table st) = base
  end.

Lemma accept_rows_refines sws s name st fields base log rows now sws' s' out :
  sw_Finalized st = false → sws_streams sws !! name = Some st → stream_log base s st log →
  accept_rows sws s name st fields rows now = (sws', s', out) →
  ∃ st', sws_streams sws' !! name = Some st' ∧ sw_Finalized st' = false ∧ sw_Kind st' = sw_Kind st ∧
  stream_table st' = stream_table st ∧
  ((out = Reply (AppendResult (Some (Z.of_nat (length log)))) ∧ stream_log base s' st' (log ++ rows)) ∨
   (sw_Kind st = writeStreamCommitted ∧ (∃ e, out = Terminate e) ∧ stream_log base s' st' log)).
Proof.
  intros Hfin Hst [Hn Hlog]. unfold accept_rows. destruct (sw_Kind st) eqn:Ek.
  - destruct (sink_append s (stream_table st) fields rows now) as [s1 r] eqn:Ea.
    destruct r as [n|e|]; intros; simplify_eq.
    + destruct (sink_append_ok _ _ _ _ _ _ _ Ea) as [_ Hr]. eexists.
      split; [apply lookup_insert_eq|]. simpl. split; [done|]. split; [done|]. split; [done|]. left.
      rewrite Hn. split; [done|]. unfold stream_log. simpl. rewrite ?Hn, Ek, length_app.
      split; [lia|]. unfold stream_table in *. simpl in *. by rewrite Hr, Hlog, app_assoc.
    + exists st. split_and!; try done. right. split; [done|]. split; [by eexists|].
      split; [done|]. rewrite Ek. by rewrite (sink_append_fail _ _ _ _ _ _ _ _ Ea).
    + exists st. split_and!; try done. right. split; [done|]. split; [by eexists|].
      split; [done|]. rewrite Ek. by rewrite (sink_append_fail _ _ _ _ _ _ _ _ Ea).
  - intros. simplify_eq. destruct Hlog as [Hb Hbase]. eexists. split; [apply lookup_insert_eq|].
    split; [done|]. split; [done|]. split; [done|]. left. rewrite Hn. split; [done|].
    unfold stream_log. simpl. rewrite ?Hn, Ek, length_app, Hb. split; [lia|done].
Qed.

Lemma append_explicit_refines sws s name st fields base log offset rows now sws' s' out :
  sws_streams sws !! name = Some st → sw_Finalized st = false → stream_log base s st log →
  append_explicit sws s name fields offset rows now = (sws', s', out) →
  ∃ st', sws_streams sws' !! name = Some st' ∧ sw_Finalized st' = false ∧ sw_Kind st' = sw_Kind st ∧
  stream_table st' = stream_table st ∧
  ((out = Reply (log_append log offset rows).2 ∧ stream_log base s' st' (log_append log offset rows).1) ∨
   (sw_Kind st = writeStreamCommitted ∧ (∃ e, out = Terminate e) ∧ stream_log base s' st' log)).
Proof.
  intros Hst Hfin Hl. unfold append_explicit, log_append. rewrite Hst, Hfin.
  destruct offset as [want|]; [|by apply accept_rows_refines].
  rewrite (proj1 Hl). destruct (want <? Z.of_nat (length log)).
  { intros; simplify_eq. exists st. split_and!; try done. by left. }
  destruct (Z.of_nat (length log) <? want); [|by apply accept_rows_refines].
  intros; simplify_eq. exists st. split_and!; try done. by left.
Qed.

(** An open write stream is an append-only log: an append at an offset is
    accepted exactly at the end of the log, an earlier offset is reported as
    already written and a later one as out of range, both leaving the log; the
    reply carries the offset the rows were put at; the rows of a COMMITTED
    stream are in its table, those of a PENDING one only in its buffer.  When
    the catalog refuses the rows, the stream ends with an error and the log,
    the offset and the table are as they were. *)
Theorem append_explicit_log (sws sws' : storageWriteService) (s s' : S) (name : string)
    (st : storageWriteStream) (fields : schema) (base log : list row) (offset : option Z)
    (rows : list row) (now : Z) (out : step_outcome) :
  sws_streams sws !! name = Some st → sw_Finalized st = false → stream_log base s st log →
  append_explicit sws s name fields offset rows now = (sws', s', out) →
  ∃ st', sws_streams sws' !! name = Some st' ∧ stream_table st' = stream_table st ∧
  ((out = Reply (log_append log offset rows).2 ∧ stream_log base s' st' (log_append log offset rows).1) ∨
   (sw_Kind st = writeStreamCommitted ∧ (∃ e, out = Terminate e) ∧ stream_log base s' st' log)).
Proof.
  intros Hst Hf Hl Hrun.
  destruct (append_explicit_refines _ _ _ _ _ _ _ _ _ _ _ _ _ Hst Hf Hl Hrun) as (st' & ? & _ & _ & ? & ?).
  by exists st'.
Qed.

(** ** Exactly once *)

(** The offset of the [i]-th of a client's batches. *)
Definition batch_offset (batches : list (list row)) (i : nat) : Z :=
  Z.of_nat (length (concat (take i batches))).

Lemma concat_take_S {A} (l : list (list A)) i x :
  l !! i = Some x → concat (take (i + 1) l) = concat (take i l) ++ x.
Proof.
  intros Hx. rewrite Nat.add_1_r, (take_S_r _ _ _ Hx), concat_app. simpl. by rewrite app_nil_r.
Qed.

(** Prefixes of the same length are the same rows, whatever empty batches lie
    between. *)
Lemma concat_take_len {A} (l : list (list A)) i j :
  length (concat (take i l)) = length (concat (take j l)) → concat (take i l) = concat (take j l).
Proof.
  assert (∀ i j, (i ≤ j)%nat → ∃ r, concat (take j l) = concat (take i l) ++ r) as Hpre.
  { intros a b Hab. exists (concat (take (b - a) (drop a l))). rewrite <-concat_app.
    rewrite take_app_drop_take. do 2 f_equal. lia. }
  intros E. destruct (decide (i ≤ j)%nat) as [Hij|Hij].
  - destruct (Hpre i j Hij) as [r Hr]. rewrite Hr in *. rewrite length_app in E.
    assert (r = []) as -> by (apply nil_length_inv; lia). by rewrite app_nil_r.
  - destruct (Hpre j i) as [r Hr]; [lia|]. rewrite Hr in *. rewrite length_app in E.
    assert (r = []) as -> by (apply nil_length_inv; lia). by rewrite app_nil_r.
Qed.

Lemma log_append_batch batches k i b :
  batches !! i = Some b →
  ∃ k', (log_append (concat (take k batches)) (Some (batch_offset batches i)) b).1 =
        concat (take k' batches).
Proof.
  intros Hb. unfold log_append, batch_offset.
  set (n := length (concat (take k batches))). set (o := length (concat (take i batches))).
  destruct (Z.of_nat o <? Z.of_nat n) eqn:E1; [by exists k|].
  destruct (Z.of_nat n <? Z.of_nat o) eqn:E2; [by exists k|]. bools.
  exists (i + 1)%nat. simpl. rewrite (concat_take_S _ _ _ Hb). f_equal. apply concat_take_len. lia.
Qed.

(** Requests on one stream until one of them ends the call. *)
Fixpoint append_all (sws : storageWriteService) (s : S) (name : string) (fields : schema)
    (reqs : list (Z * list row)) (now : Z) : storageWriteService * S :=
  match reqs with
  | [] => (sws, s)
  | (offset, rows) :: rest =>
      let '(sws, s, out) := append_explicit sws s name fields (Some offset) rows now in
      match out with
      | Terminate _ => (sws, s)
      | Reply _ => append_all sws s name fields rest now
      end
  end.

(** C5. Exactly once: a client that numbers its batches by offset and sends
    them with any retries, duplicates, losses and reordering ends with a prefix
    of its batches in the stream, in order and each once - in the table for a
    COMMITTED stream, in the buffer for a PENDING one. *)
Theorem append_exactly_once (sws sws' : storageWriteService) (s s' : S) (name : string)
    (st : storageWriteStream) (fields : schema) (batches : list (list row))
    (sent : list nat) (reqs : list (Z * list row)) (now : Z) :
  sws_streams sws !! name = Some st → sw_Finalized st = false →
  sw_NextOffset st = 0 → sw_Buffered st = [] →
  Forall2 (λ i req, batches !! i = Some req.2 ∧ req.1 = batch_offset batches i) sent reqs →
  append_all sws s name fields reqs now = (sws', s') →
  ∃ k st', sws_streams sws' !! name = Some st' ∧ sw_Kind st' = sw_Kind st ∧
    stream_log (sink_rows s (stream_table st)) s' st' (concat (take k batches)).
Proof.
  intros Hst Hf Hn Hb Hreqs. set (base := sink_rows s (stream_table st)).
  assert (stream_log base s st (concat (take 0 batches))) as Hlog.
  { split; [done|]. simpl. destruct (sw_Kind st); [by rewrite app_nil_r|done]. }
  clear Hn Hb. clearbody base. revert sws s st Hst Hf Hlog. generalize 0%nat as k.
  induction Hreqs as [|i [o rows] sent reqs [Hi Ho] _ IH]; intros k sws s st Hst Hf Hlog Hrun; simpl in *.
  { simplify_eq. by exists k, st. }
  destruct (append_explicit sws s name fields (Some o) rows now) as [[sws1 s1] out] eqn:Ea.
  destruct (append_explicit_refines _ _ _ _ _ _ _ _ _ _ _ _ _ Hst Hf Hlog Ea)
    as (st1 & Hst1 & Hf1 & Hk1 & Ht1 & [[-> Hl1]|(_ & [e ->] & Hl1)]).
  - subst o. destruct (log_append_batch batches k i rows Hi) as [k' Hk']. rewrite Hk' in Hl1.
    destruct (IH k' sws1 s1 st1 Hst1 Hf1 Hl1 Hrun) as (k'' & st' & ? & ? & ?).
    exists k'', st'. split; [done|]. split; [congruence|done].
  - simplify_eq. exists k, st1. done.
Qed.

(** ** Atomic commit *)

Definition buffers (sws : storageWriteService) (names : list string) : list row :=
  concat ((λ n, default [] (sw_Buffered <$> sws_streams sws !! n)) <$> names).

Lemma commit_check_ok sws p d t names sts :
  commit_check sws p d t names = inr sts →
  (∀ n, n ∈ names → ∃ st, sws_streams sws !! n = Some st ∧ commit_problem p d t st = None) ∧
  concat (sw_Buffered <$> sts) = buffers sws names.
Proof.
  unfold commit_check. destruct (mapM _ names) as [l|] eqn:Em; [|done].
  destruct (omap _ l) eqn:Eo; [|done]. intros [= <-]. apply mapM_Some in Em.
  unfold buffers. induction Em as [|n st names sts Hn _ IH]; [split; [by intros ? ?%elem_of_nil|done]|].
  simpl in Eo. destruct (commit_problem p d t st) eqn:Ep; simpl in Eo; [done|].
  destruct (IH Eo) as [IH1 IH2]. split.
  - intros m [->|Hm]%elem_of_cons; [by exists st|by apply IH1].
  - rewrite !fmap_cons. cbn [concat]. rewrite Hn. by f_equal.
Qed.

Lemma commit_mark_lookup sws names now n :
  sws_streams (commit_mark sws names now) !! n =
  if decide (n ∈ names) then mark_committed now <$> sws_streams sws !! n else sws_streams sws !! n.
Proof.
  unfold commit_mark. simpl. generalize (sws_streams sws). induction names as [|m names IH]; intros M.
  { case_decide as E; [by apply elem_of_nil in E|done]. }
  cbn [foldl].
  rewrite IH. destruct (decide (n = m)) as [->|Hne].
  - rewrite lookup_alter_eq. rewrite (decide_True (P := m ∈ m :: names)) by left.
    case_decide; [|done]. by destruct (M !! m).
  - rewrite lookup_alter_ne by done. repeat case_decide; set_solver.
Qed.

End Logs.

(** ** Concrete streams over the catalog *)

#[local] Existing Instance unix_seconds.

(** Runtimes without messages: the runs below append rows directly. *)
#[local] Instance no_proto : ProtoRuntime := {|
  Descriptor := unit; MessageDescriptor := unit; Float := unit;
  protodesc_NewFile _ := None; proto_Unmarshal _ _ := None; formatFloat _ _ := "" |}.
#[local] Instance no_arrow : ArrowRuntime := {|
  ArrowBatch := unit; decodeArrowAppendRows _ _ _ := None |}.

Definition events_parent : string := "projects/p/datasets/d/tables/events".
Definition events_stream : string := "projects/p/datasets/d/tables/events/streams/stream_1".
Definition events_ref : tableReference := TableRef "p" "d" "events".

(** A PENDING stream on [events], one batch buffered, finalized. *)
Definition demo_open : storageWriteService :=
  (CreateWriteStream newStorageWriteService demo_loaded events_parent TypePending 10).1.1.
Definition demo_buffered : storageWriteService :=
  (append_explicit demo_open demo_loaded events_stream [] (Some 0) [["6"; "logout"]] 11).1.1.
Definition demo_finalized : storageWriteService := (FinalizeWriteStream demo_buffered events_stream).1.

Definition stream_of (sws : storageWriteService) : storageWriteStream :=
  default (WriteStream "" "" "" "" writeStreamPending [] 0 0 false false [] 0)
    (sws_streams sws !! events_stream).

Lemma append_explicit_log_witness :
  (append_explicit demo_buffered demo_loaded events_stream [] (Some 0) [["6"; "logout"]] 12).2 =
  Reply (AlreadyWritten 0 1).
Proof.
  destruct (append_explicit demo_buffered demo_loaded events_stream [] (Some 0) [["6"; "logout"]] 12)
    as [[sws' s'] out] eqn:E.
  assert (sws_streams demo_buffered !! events_stream = Some (stream_of demo_buffered)) as Hst
    by (vm_compute; reflexivity).
  destruct (append_explicit_log demo_buffered sws' demo_loaded s' events_stream (stream_of demo_buffered)
    [] (catalog_rows demo_loaded events_ref) [["6"; "logout"]] (Some 0) [["6"; "logout"]] 12 out Hst)
    as (st' & _ & _ & [[-> _]|[Hk _]]); [vm_compute; reflexivity| |exact E|reflexivity|].
  - unfold stream_log. assert (sw_Kind (stream_of demo_buffered) = writeStreamPending) as ->
      by (vm_compute; reflexivity). vm_compute. split; [reflexivity|split; reflexivity].
  - exfalso. clear E. revert Hk. vm_compute. congruence.
Defined.

Lemma append_exactly_once_witness :
  ∃ k st', sws_streams (append_all demo_open demo_loaded events_stream []
      [(0, [["6"; "logout"]]); (0, [["6"; "logout"]]); (1, [["7"; "login"]])] 11).1 !! events_stream = Some st' ∧
    sw_Buffered st' = concat (take k [[["6"; "logout"]]; [["7"; "login"]]]).
Proof.
  destruct (append_all demo_open demo_loaded events_stream []
      [(0, [["6"; "logout"]]); (0, [["6"; "logout"]]); (1, [["7"; "login"]])] 11) as [sws' s'] eqn:E.
  assert (sws_streams demo_open !! events_stream = Some (stream_of demo_open)) as Hst
    by (vm_compute; reflexivity).
  destruct (append_exactly_once demo_open sws' demo_loaded s' events_stream (stream_of demo_open) []
    [[["6"; "logout"]]; [["7"; "login"]]] [0; 0; 1]%nat
    [(0, [["6"; "logout"]]); (0, [["6"; "logout"]]); (1, [["7"; "login"]])] 11 Hst) as (k & st' & Hst' & Hk & _ & Hlog);
    [vm_compute; reflexivity|vm_compute; reflexivity|vm_compute; reflexivity| |exact E|].
  - clear. repeat (constructor; [split; reflexivity|]). constructor.
  - exists k, st'. split; [exact Hst'|].
    assert (sw_Kind st' = writeStreamPending) as Hp by (rewrite Hk; vm_compute; reflexivity).
    rewrite Hp in Hlog. apply Hlog.
Defined.


(** "Once" is only promised to callers who name each stream once and one
    at a time: a commit that names a stream twice appends its rows twice, and
    so do two commits whose checks both run before either marks the stream -
    the code releases every lock between the check and the mark. *)
Theorem commit_can_duplicate_rows :
  (let '(_, s', reply) :=
     BatchCommitWriteStreams demo_finalized demo_loaded events_parent [events_stream; events_stream] 12 in
   reply = CommitTime 12 ∧
   catalog_rows s' events_ref = catalog_rows demo_loaded events_ref ++ [["6"; "logout"]; ["6"; "logout"]]) ∧
  (∃ sts, commit_check demo_finalized "p" "d" "events" [events_stream] = inr sts ∧
   let '(s1, e1) := commit_apply demo_loaded "p" "d" "events" sts 12 in
   let '(s2, e2) := commit_apply s1 "p" "d" "events" sts 12 in
   e1 = None ∧ e2 = None ∧
   catalog_rows s2 events_ref = catalog_rows demo_loaded events_ref ++ [["6"; "logout"]; ["6"; "logout"]]).
Proof.
  split; [vm_compute; done|]. eexists. split; [vm_compute; reflexivity|]. vm_compute. done.
Qed.

(** A string cell sent through this API is stored without the escape the other
    writers apply: a value that looks like the NULL tag reads back as NULL. *)
Lemma proto_string_not_escaped :
  protoMessageToRow {["c" := PScalar (PString storedNullCell)]} [col "c" "STRING"] = inr [storedNullCell] ∧
  storedCellIsNull storedNullCell = true.
Proof. split; vm_compute; reflexivity. Qed.
