(* ===== verification/StreamingInserts.v ===== *)
(** * Streaming inserts (streaming_inserts.go, tabledata.insertAll)

    The deduplication store and the handler, over any [TableSink].  The text of
    a float64 ([strconv.FormatFloat], [encoding/json]) is the class
    [Float64Text]; a JSON number is kept as its literal. *)

From S2P Require Import Prelude GoStrings GoTime GoJson Cells TableModel Partitioning TableStore TableInvariants TableWrites Sink.
From Stdlib Require Import Ascii.

Definition streamingInsertDedupTTL : Z := 15 * 60 * second.

Abbreviation dedupStore := (gmap string Z).

Definition dedup_key (resourceKey insertID : string) : string :=
  resourceKey +:+ String "000" EmptyString +:+ insertID.

(** Entries older than the TTL go first; an id not seen is recorded. *)
Definition seenRecently (seen : dedupStore) (resourceKey insertID : string) (now : Z)
    : dedupStore * bool :=
  if bool_decide (insertID = "") then (seen, false)
  else
    let key := dedup_key resourceKey insertID in
    let seen := filter (λ '(_, t), now - t ≤ streamingInsertDedupTTL) seen in
    match seen !! key with
    | Some _ => (seen, true)
    | None => (<[key := now]> seen, false)
    end.

(** ** Building a row *)

Class Float64Text := {
  number_plain : string → string;
  number_json : string → string;
}.

Record insertAllRow := InsertAllRow { ir_InsertID : string; ir_JSON : list (string * json) }.
Record insertAllRequest := InsertAllRequest {
  iq_SkipInvalidRows : bool; iq_IgnoreUnknownValues : bool; iq_TemplateSuffix : string;
  iq_Rows : list insertAllRow }.

Inductive insertErr := NoSuchField (key : string) | InvalidField (name : string) (e : cellErr).

Section Rows.
Context `{Float64Text}.

(** [json.Marshal] of a decoded value: object keys sorted, the last of two
    equal keys kept. *)
Fixpoint json_marshal (v : json) : string :=
  match v with
  | JNull => "null"
  | JBool b => if b then "true" else "false"
  | JNum lit => number_json lit
  | JStr s => json_quote s
  | JArr items => "[" +:+ join "," (json_marshal <$> items) +:+ "]"
  | JObj ms =>
      let texts : gmap string string := list_to_map (reverse ((λ '(k, v), (k, json_marshal v)) <$> ms)) in
      "{" +:+ join "," ((λ k, json_quote k +:+ ":" +:+ default "" (texts !! k)) <$> sorted_keys texts) +:+ "}"
  end.

Definition scalarValueToPlainString (v : json) : string :=
  match v with
  | JNull => ""
  | JStr s => s
  | JBool b => if b then "true" else "false"
  | JNum lit => number_plain lit
  | _ => json_marshal v
  end.

Definition scalarValueToString (v : json) : string :=
  match v with JNull => storedNullCell | _ => storeStringCell (scalarValueToPlainString v) end.

(** The columns of a decoded object, in schema order. *)
Definition parseNDJSONRow (record : list (string * json)) (sch : schema) : row :=
  (λ f, scalarValueToString (obj_get record (Name f))) <$> sch.

Fixpoint field_errors (sch : schema) (r : row) : list insertErr :=
  match sch, r with
  | f :: sch, c :: r =>
      match validateStoredField f c with
      | Some e => InvalidField (Name f) e :: field_errors sch r
      | None => field_errors sch r
      end
  | _, _ => []
  end.

Definition buildStreamingInsertRow (payload : list (string * json)) (sch : schema)
    (ignoreUnknownValues : bool) : list insertErr + row :=
  let unknown :=
    if ignoreUnknownValues then []
    else NoSuchField <$> filter (λ k, k ∉ Name <$> sch) (remove_dups payload.*1) in
  let r := parseNDJSONRow payload sch in
  match unknown ++ field_errors sch r with
  | [] => inr r
  | errs => inl errs
  end.

(** ** The handler *)

Inductive insertAllReply :=
| InsertNotFound
| InsertIntoView
| InsertIntoExternal
| TemplateSuffixUnsupported
| InsertResponse (insertErrors : list (nat * list insertErr))   (* 200 *)
| InsertRejected (e : tableErr)                                (* 400 *)
| InsertPanicked.

(** The row loop: [i] is the index of the next row, [seenThis] the ids this
    request has used. *)
Fixpoint insert_rows (seen : dedupStore) (seenThis : gset string) (resourceKey : string) (sch : schema)
    (ignoreUnknown : bool) (now : Z) (i : nat) (rows : list insertAllRow)
    : dedupStore * list row * list (nat * list insertErr) :=
  match rows with
  | [] => (seen, [], [])
  | r :: rest =>
      let insertID := trim_space (ir_InsertID r) in
      let '(seen, skip) :=
        if bool_decide (insertID = "") then (seen, false)
        else if bool_decide (insertID ∈ seenThis) then (seen, true)
        else seenRecently seen resourceKey insertID now in
      if skip then insert_rows seen seenThis resourceKey sch ignoreUnknown now (S i) rest
      else
        let seenThis := if bool_decide (insertID = "") then seenThis else {[insertID]} ∪ seenThis in
        let '(seen, valid, errors) :=
          insert_rows seen seenThis resourceKey sch ignoreUnknown now (S i) rest in
        match buildStreamingInsertRow (ir_JSON r) sch ignoreUnknown with
        | inl errs => (seen, valid, (i, errs) :: errors)
        | inr built => (seen, built :: valid, errors)
        end
  end.

Definition resource_key (r : tableReference) : string :=
  ref_ProjectID r +:+ ":" +:+ ref_DatasetID r +:+ "." +:+ ref_TableID r.

Definition insertAllTableData {S} `{TableSink S} (s : S) (seen : dedupStore) (ref : tableReference)
    (req : insertAllRequest) (now : Z) : S * dedupStore * insertAllReply :=
  let '(s, rec) := sink_get s ref now in
  match rec with
  | None => (s, seen, InsertNotFound)
  | Some rec =>
      match tr_View rec, tr_External rec with
      | Some _, _ => (s, seen, InsertIntoView)
      | None, Some _ => (s, seen, InsertIntoExternal)
      | None, None =>
          if bool_decide (trim_space (iq_TemplateSuffix req) ≠ "") then (s, seen, TemplateSuffixUnsupported)
          else if (length (iq_Rows req) =? 0)%nat then (s, seen, InsertResponse [])
          else
            let '(seen, valid, errors) :=
              insert_rows seen ∅ (resource_key ref) (tr_Schema rec) (iq_IgnoreUnknownValues req) now 0
                (iq_Rows req) in
            if (0 <? length errors)%nat && negb (iq_SkipInvalidRows req)
            then (s, seen, InsertResponse errors)
            else if (0 <? length valid)%nat then
              let '(s, r) := sink_append s ref [] valid now in
              (s, seen, match r with
                        | Ok _ => InsertResponse errors
                        | Err e => InsertRejected e
                        | Panic => InsertPanicked
                        end)
            else (s, seen, InsertResponse errors)
      end
  end.
End Rows.

(** ** Deduplication *)

(** The id is remembered at least since [t0]. *)
Definition remembered (seen : dedupStore) (resourceKey id : string) (t0 : Z) : Prop :=
  seen !! dedup_key resourceKey id = Some t0.

Lemma dedup_key_inj rk id id' : dedup_key rk id = dedup_key rk id' → id = id'.
Proof. unfold dedup_key. intros E. by apply str_app_inv_head, str_app_inv_head in E. Qed.

Lemma seenRecently_keeps seen rk id now rk' id' t0 :
  now - t0 ≤ streamingInsertDedupTTL → remembered seen rk' id' t0 →
  remembered (seenRecently seen rk id now).1 rk' id' t0.
Proof.
  unfold remembered, seenRecently. intros Hage Hs. case_bool_decide; [done|].
  assert (filter (λ '(_, t), now - t ≤ streamingInsertDedupTTL) seen !! dedup_key rk' id' = Some t0) as Hf
    by (by apply map_lookup_filter_Some).
  destruct (filter _ seen !! dedup_key rk id) eqn:E; simpl; [done|].
  rewrite lookup_insert_ne; [done|]. congruence.
Qed.

Lemma seenRecently_records seen rk id now :
  id ≠ "" → seen !! dedup_key rk id = None →
  (seenRecently seen rk id now).2 = false ∧ remembered (seenRecently seen rk id now).1 rk id now.
Proof.
  unfold remembered, seenRecently. intros Hid Hs. rewrite bool_decide_false by done.
  assert (filter (λ '(_, t), now - t ≤ streamingInsertDedupTTL) seen !! dedup_key rk id = None) as ->
    by (apply map_lookup_filter_None; by left). simpl. by rewrite lookup_insert_eq.
Qed.

Lemma seenRecently_fresh seen rk id now id' :
  id' ≠ id → seen !! dedup_key rk id' = None → (seenRecently seen rk id now).1 !! dedup_key rk id' = None.
Proof.
  unfold seenRecently. intros Hne Hs. case_bool_decide; [done|].
  assert (filter (λ '(_, t), now - t ≤ streamingInsertDedupTTL) seen !! dedup_key rk id' = None) as Hf
    by (apply map_lookup_filter_None; by left).
  destruct (filter _ seen !! dedup_key rk id); simpl; [done|].
  rewrite lookup_insert_ne; [done|]. intros E. by apply dedup_key_inj in E.
Qed.

Lemma seenRecently_hit seen rk id now t0 :
  id ≠ "" → now - t0 ≤ streamingInsertDedupTTL → remembered seen rk id t0 →
  (seenRecently seen rk id now).2 = true.
Proof.
  unfold remembered, seenRecently. intros Hid Hage Hs. rewrite bool_decide_false by done.
  assert (filter (λ '(_, t), now - t ≤ streamingInsertDedupTTL) seen !! dedup_key rk id = Some t0) as ->
    by (by apply map_lookup_filter_Some). done.
Qed.

Section Dedup.
Context `{Float64Text}.

Definition insert_ids (rows : list insertAllRow) : list string := (λ r, trim_space (ir_InsertID r)) <$> rows.

(** What is remembered stays remembered through the loop. *)
Lemma insert_rows_keeps rk sch ign now rows id t0 :
  now - t0 ≤ streamingInsertDedupTTL → ∀ seen this i, remembered seen rk id t0 →
  remembered (insert_rows seen this rk sch ign now i rows).1.1 rk id t0.
Proof.
  intros Hage. induction rows as [|r rows IH]; intros seen this i Hs; simpl; [done|].
  set (rid := trim_space (ir_InsertID r)).
  assert (∀ p : dedupStore * bool, p = (if bool_decide (rid = "") then (seen, false)
      else if bool_decide (rid ∈ this) then (seen, true) else seenRecently seen rk rid now) →
    remembered p.1 rk id t0) as Hp.
  { intros p ->. case_bool_decide; [done|]. case_bool_decide; [done|]. by apply seenRecently_keeps. }
  destruct (if bool_decide (rid = "") then _ else _) as [seen1 skip]. specialize (Hp _ eq_refl). simpl in Hp.
  destruct skip; [by apply IH|].
  match goal with |- context [insert_rows seen1 ?t _ _ _ _ _ rows] =>
    pose proof (IH seen1 t (S i) Hp) as Hr; destruct (insert_rows seen1 t _ _ _ _ _ rows) as [[? ?] ?] end.
  by destruct (buildStreamingInsertRow _ _ _).
Qed.

(** Every id of the request that was not remembered before is, at its time. *)
Lemma insert_rows_records rk sch ign now rows id :
  id ≠ "" → id ∈ insert_ids rows → ∀ seen this i, seen !! dedup_key rk id = None → id ∉ this →
  remembered (insert_rows seen this rk sch ign now i rows).1.1 rk id now.
Proof.
  intros Hid. induction rows as [|r rows IH]; intros Hin seen this i Hs Hthis; [by apply elem_of_nil in Hin|].
  simpl. set (rid := trim_space (ir_InsertID r)) in *.
  assert (now - now ≤ streamingInsertDedupTTL) as Hz by (unfold streamingInsertDedupTTL, second; lia).
  destruct (decide (id = rid)) as [E|Hne].
  - subst id. rewrite (bool_decide_false (rid = "")), (bool_decide_false (rid ∈ this)) by done.
    destruct (seenRecently_records seen rk rid now Hid Hs) as [H2 H1].
    destruct (seenRecently seen rk rid now) as [seen1 skip]. simpl in *. subst skip.
    pose proof (insert_rows_keeps rk sch ign now rows rid now Hz seen1 ({[rid]} ∪ this) (S i) H1) as Hk.
    destruct (insert_rows seen1 _ _ _ _ _ _ rows) as [[? ?] ?]. by destruct (buildStreamingInsertRow _ _ _).
  - assert (id ∈ insert_ids rows) as Hin' by (apply elem_of_cons in Hin as [->|]; done).
    assert (∀ p : dedupStore * bool, p = (if bool_decide (rid = "") then (seen, false)
      else if bool_decide (rid ∈ this) then (seen, true) else seenRecently seen rk rid now) →
      p.1 !! dedup_key rk id = None) as Hp.
    { intros p ->. case_bool_decide; [done|]. case_bool_decide; [done|]. by apply seenRecently_fresh. }
    destruct (if bool_decide (rid = "") then _ else _) as [seen1 skip]. specialize (Hp _ eq_refl). simpl in Hp.
    destruct skip; [by apply IH|].
    match goal with |- context [insert_rows seen1 ?t _ _ _ _ _ rows] =>
      assert (id ∉ t) as Ht by (case_bool_decide; set_solver);
      pose proof (IH Hin' seen1 t (S i) Hp Ht) as Hr; destruct (insert_rows seen1 t _ _ _ _ _ rows) as [[? ?] ?] end.
    by destruct (buildStreamingInsertRow _ _ _).
Qed.

(** A request made only of remembered ids builds no row and no error. *)
Lemma insert_rows_all_seen rk sch ign now rows t0 :
  now - t0 ≤ streamingInsertDedupTTL → ∀ seen this i,
  Forall (λ id, id ≠ "" ∧ remembered seen rk id t0) (insert_ids rows) →
  (insert_rows seen this rk sch ign now i rows).1.2 = [] ∧
  (insert_rows seen this rk sch ign now i rows).2 = [].
Proof.
  intros Hage. induction rows as [|r rows IH]; intros seen this i Hall; [done|]. simpl.
  apply Forall_cons in Hall as [[Hid Hr] Hall]. set (rid := trim_space (ir_InsertID r)) in *.
  rewrite (bool_decide_false (rid = "")) by done.
  assert (∀ p : dedupStore * bool,
    p = (if bool_decide (rid ∈ this) then (seen, true) else seenRecently seen rk rid now) →
    p.2 = true ∧ Forall (λ id, id ≠ "" ∧ remembered p.1 rk id t0) (insert_ids rows)) as Hp.
  { intros p ->. case_bool_decide; [done|]. split; [by eapply seenRecently_hit|].
    eapply Forall_impl; [exact Hall|]. simpl. intros x [? ?]. split; [done|]. by apply seenRecently_keeps. }
  destruct (if bool_decide (rid ∈ this) then _ else _) as [seen1 skip]. destruct (Hp _ eq_refl) as [Hs Hf].
  simpl in Hs, Hf. subst skip. by apply IH.
Qed.

Context {S : Type} `{TableSink S}.

(** The handler gets to the row loop. *)
Definition accepts_rows (s : S) (ref : tableReference) (req : insertAllRequest) (now : Z) : Prop :=
  (∃ rec, (sink_get s ref now).2 = Some rec ∧ tr_View rec = None ∧ tr_External rec = None) ∧
  trim_space (iq_TemplateSuffix req) = "" ∧ iq_Rows req ≠ [].

Lemma insertAll_unfold s seen ref req now :
  accepts_rows s ref req now → ∃ sch,
  insertAllTableData s seen ref req now =
    let '(seen, valid, errors) :=
      insert_rows seen ∅ (resource_key ref) sch (iq_IgnoreUnknownValues req) now 0 (iq_Rows req) in
    if (0 <? length errors)%nat && negb (iq_SkipInvalidRows req)
    then ((sink_get s ref now).1, seen, InsertResponse errors)
    else if (0 <? length valid)%nat then
      let '(s, r) := sink_append (sink_get s ref now).1 ref [] valid now in
      (s, seen, match r with
                | Ok _ => InsertResponse errors
                | Err e => InsertRejected e
                | Panic => InsertPanicked
                end)
    else ((sink_get s ref now).1, seen, InsertResponse errors).
Proof.
  intros ((rec & Hg & Hv & Hx) & Hs & Hr). exists (tr_Schema rec). unfold insertAllTableData.
  destruct (sink_get s ref now) as [s1 o]. simpl in *. subst o. rewrite Hv, Hx, bool_decide_false by naive_solver.
  by destruct (iq_Rows req).
Qed.

Lemma insertAll_remembers s seen ref req now id :
  accepts_rows s ref req now → id ≠ "" → id ∈ insert_ids (iq_Rows req) →
  seen !! dedup_key (resource_key ref) id = None →
  remembered (insertAllTableData s seen ref req now).1.2 (resource_key ref) id now.
Proof.
  intros Ha Hid Hin Hs. destruct (insertAll_unfold s seen ref req now Ha) as [sch ->].
  pose proof (insert_rows_records (resource_key ref) sch (iq_IgnoreUnknownValues req) now (iq_Rows req) id
    Hid Hin seen ∅ 0 Hs) as Hr.
  destruct (insert_rows _ _ _ _ _ _ _ _) as [[seen1 valid] errors]. simpl in Hr. specialize (Hr ltac:(set_solver)).
  repeat case_match; simplify_eq; done.
Qed.

Lemma insertAll_all_seen s seen ref req now t0 :
  accepts_rows s ref req now → now - t0 ≤ streamingInsertDedupTTL →
  Forall (λ id, id ≠ "" ∧ remembered seen (resource_key ref) id t0) (insert_ids (iq_Rows req)) →
  (insertAllTableData s seen ref req now).2 = InsertResponse [] ∧
  (insertAllTableData s seen ref req now).1.1 = (sink_get s ref now).1.
Proof.
  intros Ha Hage Hall. destruct (insertAll_unfold s seen ref req now Ha) as [sch ->].
  destruct (insert_rows_all_seen (resource_key ref) sch (iq_IgnoreUnknownValues req) now (iq_Rows req) t0
    Hage seen ∅ 0 Hall) as [Hv He].
  destruct (insert_rows _ _ _ _ _ _ _ _) as [[seen1 valid] errors]. simpl in *. by subst.
Qed.


(** The same holds when the first request was rejected: if one bad row made
    the service refuse the whole batch, nothing was inserted, and resending the
    good rows under their insertIds reports success and inserts nothing either -
    they are lost until the ids expire. *)
Theorem rejected_batch_cannot_be_retried (s s2 : S) (seen : dedupStore) (ref : tableReference)
    (req req2 : insertAllRequest) (now now2 : Z) (errors : list (nat * list insertErr)) :
  accepts_rows s ref req now → accepts_rows s2 ref req2 now2 →
  now2 - now ≤ streamingInsertDedupTTL →
  iq_SkipInvalidRows req = false → errors ≠ [] →
  (insertAllTableData s seen ref req now).2 = InsertResponse errors →
  Forall (λ id, id ≠ "" ∧ id ∈ insert_ids (iq_Rows req) ∧ seen !! dedup_key (resource_key ref) id = None)
    (insert_ids (iq_Rows req2)) →
  (insertAllTableData s seen ref req now).1.1 = (sink_get s ref now).1 ∧
  let seen' := (insertAllTableData s seen ref req now).1.2 in
  (insertAllTableData s2 seen' ref req2 now2).2 = InsertResponse [] ∧
  (insertAllTableData s2 seen' ref req2 now2).1.1 = (sink_get s2 ref now2).1.
Proof.
  intros Ha Ha2 Hage Hskip Herr Hreply Hids. split.
  - destruct (insertAll_unfold s seen ref req now Ha) as [sch E]. rewrite E in *.
    destruct (insert_rows _ _ _ _ _ _ _ _) as [[seen1 valid] errs]. rewrite Hskip in *.
    destruct (0 <? length errs)%nat eqn:El; [done|]. apply Nat.ltb_ge in El.
    destruct errs; [|simpl in El; lia]. simpl in *. repeat case_match; simplify_eq/=; done.
  - apply (insertAll_all_seen s2 _ ref req2 now2 now Ha2 Hage).
    eapply Forall_impl; [exact Hids|]. intros id (Hid & Hin & Hfresh). split; [done|].
    by apply insertAll_remembers.
Qed.
End Dedup.

(** ** A concrete retry *)

#[local] Existing Instance unix_seconds.
#[local] Instance literal_text : Float64Text := {| number_plain lit := lit; number_json lit := lit |}.

Definition users_ref : tableReference := TableRef "p" "d" "users".
Definition good_row : insertAllRow := InsertAllRow "a" [("user_id", JNum "5"); ("user_name", JStr "eve")].
Definition bad_row : insertAllRow := InsertAllRow "b" [("no_such_column", JNum "6")].
Definition demo_batch : insertAllRequest := InsertAllRequest false false "" [good_row; bad_row].
Definition demo_retry : insertAllRequest := InsertAllRequest false false "" [good_row].

Lemma demo_accepts req now : trim_space (iq_TemplateSuffix req) = "" → iq_Rows req ≠ [] →
  accepts_rows demo_loaded users_ref req now.
Proof.
  intros Hs Hr. split; [|done]. eexists. split; [vm_compute; reflexivity|].
  split; vm_compute; reflexivity.
Defined.

Lemma demo_retry_ids :
  Forall (λ id, id ≠ "" ∧ id ∈ insert_ids (iq_Rows demo_batch) ∧
    (∅ : gmap string Z) !! dedup_key (resource_key users_ref) id = None) (insert_ids (iq_Rows demo_retry)).
Proof.
  change (insert_ids (iq_Rows demo_retry)) with ["a"]. change (insert_ids (iq_Rows demo_batch)) with ["a"; "b"].
  constructor; [|constructor]. split; [congruence|]. split; [left|]. reflexivity.
Defined.


Lemma rejected_batch_cannot_be_retried_witness :
  let seen' := (insertAllTableData demo_loaded ∅ users_ref demo_batch 100).1.2 in
  (insertAllTableData demo_loaded seen' users_ref demo_retry 101).2 = InsertResponse [] ∧
  (insertAllTableData demo_loaded seen' users_ref demo_retry 101).1.1 = (sink_get demo_loaded users_ref 101).1.
Proof.
  apply (rejected_batch_cannot_be_retried demo_loaded demo_loaded ∅ users_ref demo_batch demo_retry 100 101
    [(1%nat, [NoSuchField "no_such_column"])]).
  - apply demo_accepts; [vm_compute; reflexivity|vm_compute; congruence].
  - apply demo_accepts; [vm_compute; reflexivity|vm_compute; congruence].
  - vm_compute. congruence.
  - reflexivity.
  - congruence.
  - vm_compute. reflexivity.
  - apply demo_retry_ids.
Defined.
