(* ===== verification/JsonText.v ===== *)
(** * JSON text is read back

    What [json.Marshal] writes, [json.Unmarshal] reads as the same value: strings
    up to the replacement of bytes that are not UTF-8, numbers as the text they
    were written with. *)

From S2P Require Import Prelude GoStrings GoJson GoCsv Cells TableModel StreamingInserts.
From Stdlib Require Import Ascii DecimalString.

(** ** Strings *)

(** The value a string is read back as. *)
Fixpoint utf8_clean_go (fuel : nat) (s : string) : string :=
  match fuel, s with
  | S fuel, String c r =>
      match utf8_len s with
      | O => replacement +:+ utf8_clean_go fuel r
      | n => str_take n s +:+ utf8_clean_go fuel (str_drop n s)
      end
  | _, _ => ""
  end.
Definition utf8_clean (s : string) : string := utf8_clean_go (String.length s) s.

Abbreviation backslash := ("\"%char).

Lemma parse_string_end fuel r : parse_string (S fuel) (String quote r) = Some ("", r).
Proof. done. Qed.

Lemma parse_string_literal fuel c r : c ≠ quote → c ≠ backslash → byte_in 0 31 c = false →
  parse_string (S fuel) (String c r) =
  match utf8_len (String c r) with
  | O => '(t, r') ← parse_string fuel r; Some (replacement +:+ t, r')
  | n => '(t, r') ← parse_string fuel (str_drop n (String c r)); Some (str_take n (String c r) +:+ t, r')
  end.
Proof.
  intros Hq Hb Hc.
  destruct c as [[] [] [] [] [] [] [] []]; try (by destruct Hq); try (by destruct Hb); try (by vm_compute in Hc);
    cbn [parse_string]; rewrite Hc; reflexivity.
Qed.

(** An escape stands for its byte. *)
Lemma parse_string_escape fuel c e t : escape_byte c = Some e →
  parse_string (S fuel) (e +:+ t) = ('(x, r) ← parse_string fuel t; Some (String c x, r)).
Proof.
  destruct c as [[] [] [] [] [] [] [] []]; intros He; vm_compute in He; try discriminate He; injection He as <-; reflexivity.
Qed.

Lemma parse_string_unicode fuel t :
  parse_string (S fuel) ("\ufffd" +:+ t) = ('(x, r) ← parse_string fuel t; Some (replacement +:+ x, r)).
Proof. reflexivity. Qed.
Lemma parse_string_separator fuel x t : x = bytes [226; 128; 168]%nat ∨ x = bytes [226; 128; 169]%nat →
  parse_string (S fuel) ((if bool_decide (x = bytes [226; 128; 168]%nat) then "\u2028" else "\u2029") +:+ t) =
  ('(y, r) ← parse_string fuel t; Some (x +:+ y, r)).
Proof. intros [-> | ->]; reflexivity. Qed.

Lemma str_take_drop n s : str_take n s +:+ str_drop n s = s.
Proof. revert s. induction n as [|n IH]; intros [|c s]; try done. simpl. by rewrite str_app_cons, IH. Qed.

(** The length of a sequence is decided by its own bytes. *)
Lemma utf8_len_local s t n : utf8_len s = n → n ≠ O → utf8_len (str_take n s +:+ t) = n.
Proof.
  destruct s as [|a r]; [by intros <-|]. unfold utf8_len at 1.
  destruct (byte_in 0 127 a) eqn:E1; [intros <- _; simpl str_take; rewrite str_app_cons; unfold utf8_len; by rewrite E1|].
  destruct r as [|b r]; [by intros <-|]. destruct (byte_in 194 223 a) eqn:E2.
  { destruct (cont b) eqn:Eb; [|by intros <-]. intros <- _. simpl str_take. rewrite !str_app_cons. unfold utf8_len. by rewrite E1, E2, Eb. }
  destruct r as [|c r]; [by intros <-|]. destruct (byte_in 224 224 a && _ || _ || _ || _) eqn:E3.
  { destruct (cont c) eqn:Ec; [|by intros <-]. intros <- _. simpl str_take. rewrite !str_app_cons. unfold utf8_len. by rewrite E1, E2, E3, Ec. }
  destruct r as [|d r]; [by intros <-|]. destruct (byte_in 240 240 a && _ || _ || _) eqn:E4; [|by intros <-].
  destruct (cont c && cont d) eqn:Ec; [|by intros <-].
  intros <- _. simpl str_take. rewrite !str_app_cons. unfold utf8_len. by rewrite E1, E2, E3, E4, Ec.
Qed.

Lemma utf8_len_lead s n c r : utf8_len s = n → (1 < n)%nat → s = String c r → c ≠ quote ∧ c ≠ backslash ∧ byte_in 0 31 c = false.
Proof.
  intros Hn Hl ->. unfold utf8_len in Hn. destruct (byte_in 0 127 c) eqn:E; [lia|]. unfold byte_in in *.
  split_and!; [intros ->; by vm_compute in E..|]. apply andb_false_iff in E as [E|E]; [by vm_compute in E|].
  apply andb_false_iff. right. apply Nat.leb_gt. apply Nat.leb_gt in E. lia.
Qed.

Lemma utf8_len_ascii c r : utf8_len (String c r) = 1%nat → byte_in 0 127 c = true.
Proof.
  unfold utf8_len. destruct (byte_in 0 127 c); [done|]. repeat case_match; try done.
Qed.

Lemma utf8_len_bound s : (utf8_len s ≤ String.length s)%nat.
Proof. unfold utf8_len. repeat case_match; simpl; lia. Qed.

Lemma str_take_app_exact n s t : String.length s = n → str_take n (s +:+ t) = s ∧ str_drop n (s +:+ t) = t.
Proof. intros <-. induction s as [|c s [IH1 IH2]]; [by destruct t|]. rewrite str_app_cons. simpl. by rewrite IH1. Qed.

Lemma str_take_length n s : (n ≤ String.length s)%nat → String.length (str_take n s) = n.
Proof. revert s. induction n as [|n IH]; intros [|c s] Hl; simpl in *; try lia. rewrite IH; lia. Qed.

Lemma str_drop_len n s : String.length (str_drop n s) = (String.length s - n)%nat.
Proof. revert s. induction n as [|n IH]; intros [|c s]; try done. simpl. apply IH. Qed.

(** A plain ASCII byte is copied. *)
Lemma parse_string_plain fuel c t : byte_in 0 127 c = true → escape_byte c = None →
  parse_string (S fuel) (String c t) = ('(x, r) ← parse_string fuel t; Some (String c x, r)).
Proof.
  intros Ha He. rewrite parse_string_literal.
  - unfold utf8_len. by rewrite Ha.
  - by intros ->.
  - by intros ->.
  - destruct (byte_in 0 31 c) eqn:E; [|done]. exfalso. clear Ha.
    destruct c as [[] [] [] [] [] [] [] []]; vm_compute in He, E; discriminate.
Qed.

(** A longer sequence is copied or escaped as a whole. *)
Lemma parse_string_sequence fuel s t n : utf8_len s = n → (1 < n)%nat →
  parse_string (S fuel) ((let x := str_take n s in
     if bool_decide (x = bytes [226; 128; 168]%nat) then "\u2028"
     else if bool_decide (x = bytes [226; 128; 169]%nat) then "\u2029" else x) +:+ t) =
  ('(y, r) ← parse_string fuel t; Some (str_take n s +:+ y, r)).
Proof.
  intros Hn Hl. cbv zeta. case_bool_decide as E1; [by rewrite E1|]. case_bool_decide as E2; [by rewrite E2|]. clear E1 E2.
  pose proof (utf8_len_bound s) as Hb. pose proof (str_take_length n s ltac:(lia)) as Hlen.
  destruct (str_take_app_exact n (str_take n s) t Hlen) as [Ht Hd]. pose proof (utf8_len_local s t n Hn ltac:(lia)) as Hloc.
  destruct (str_take n s +:+ t) as [|c r] eqn:E; [unfold utf8_len in Hloc; lia|].
  destruct (utf8_len_lead _ n c r Hloc Hl eq_refl) as (Hq & Hbs & Hc). rewrite parse_string_literal by done.
  rewrite Hloc. destruct n as [|n]; [lia|]. cbv zeta. by rewrite Ht, Hd.
Qed.

Lemma escape_nonempty c e : escape_byte c = Some e → (0 < String.length e)%nat.
Proof. destruct c as [[] [] [] [] [] [] [] []]; intros He; vm_compute in He; try discriminate He; injection He as <-; simpl; lia. Qed.

Lemma quote_roundtrip rest n : ∀ s fuel, (String.length s ≤ n)%nat → (String.length (quote_body n s) < fuel)%nat →
  parse_string fuel (quote_body n s +:+ String quote rest) = Some (utf8_clean_go n s, rest).
Proof.
  induction n as [|n IH]; intros s fuel Hs Hf; destruct fuel as [|fuel]; try lia; destruct s as [|c r]; simpl in Hs; try lia; try done.
  cbn [quote_body utf8_clean_go] in *. destruct (utf8_len (String c r)) as [|[|m]] eqn:El; rewrite str_length_app in Hf.
  - rewrite str_app_assoc, parse_string_unicode, IH by (simpl in Hf; lia). done.
  - rewrite str_app_assoc. change (str_take 1 (String c r)) with (String c ""). change (str_drop 1 (String c r)) with (str_drop 0 r).
    assert (str_drop 0 r = r) as -> by (by destruct r). rewrite str_app_cons, str_app_nil. apply utf8_len_ascii in El.
    destruct (escape_byte c) as [e|] eqn:Ee; cbn [default from_option id] in *.
    + pose proof (escape_nonempty _ _ Ee). rewrite (parse_string_escape _ c), IH by (done || lia). done.
    + rewrite str_app_cons, str_app_nil, parse_string_plain, IH by (done || (simpl in Hf; lia)). done.
  - rewrite str_app_assoc, (parse_string_sequence fuel (String c r) _ (S (S m))) by (done || lia).
    assert (String.length r - S m ≤ n)%nat by lia. rewrite IH; [done|by rewrite str_drop_len|].
    pose proof (utf8_len_bound (String c r)) as Hb. rewrite El in Hb.
    pose proof (str_take_length (S (S m)) (String c r) Hb) as Hlen.
    assert (∀ x, (0 < String.length x → 0 < String.length (if bool_decide (x = bytes [226; 128; 168]%nat) then "\u2028"
      else if bool_decide (x = bytes [226; 128; 169]%nat) then "\u2029" else x))%nat) as Hx.
    { intros x Hx. repeat case_bool_decide; simpl; lia. }
    specialize (Hx (str_take (S (S m)) (String c r)) ltac:(lia)). lia.
Qed.

(** ** Values *)

(** What may follow a value. *)
Definition stops (rest : string) : Prop :=
  match rest with EmptyString => True | String c _ => c = ","%char ∨ c = "]"%char ∨ c = "}"%char ∨ c = newline end.

(** [t] is a text of [v]: one line, read back as [v] whatever follows. *)
Definition prints (v : json) (t : string) : Prop :=
  str_mem newline t = false ∧ skip_ws t = t ∧ t ≠ "" ∧
  ∀ rest fuel, stops rest → (2 * String.length t ≤ fuel)%nat → parse_value fuel (t +:+ rest) = Some (v, rest).

Lemma prints_unmarshal v t : prints v t → json_unmarshal t = Some v.
Proof.
  intros (_ & _ & _ & Hp). unfold json_unmarshal. specialize (Hp "" (2 * String.length t + 2)%nat I ltac:(lia)).
  rewrite str_app_nil_r in Hp. by rewrite Hp.
Qed.

Lemma prints_null : prints JNull "null".
Proof. split_and!; [done..|]. intros rest [|fuel] _ Hf; simpl in Hf; [lia|]. by destruct rest. Qed.
Lemma prints_bool b : prints (JBool b) (if b then "true" else "false").
Proof. destruct b; (split_and!; [done..|]); intros rest [|fuel] _ Hf; simpl in Hf; try lia; by destruct rest. Qed.

Lemma utf8_sequence_line s n c : utf8_len s = n → (1 < n)%nat → byte_in 0 127 c = true → str_mem c (str_take n s) = false.
Proof.
  intros Hn Hl Hc. destruct s as [|a r]; [simpl in Hn; lia|]. unfold utf8_len in Hn.
  assert (∀ d, byte_in 128 255 d = true → bool_decide (c = d) = false) as Hd.
  { intros d Hd. apply bool_decide_false. intros ->. unfold byte_in in *. rewrite !andb_true_iff, !Nat.leb_le in *. lia. }
  assert (∀ d, cont d = true → byte_in 128 255 d = true) as Hcont by (intros d; apply byte_in_wider; lia).
  assert (∀ d, byte_in 0 127 d = false → byte_in 128 255 d = true) as Hhigh.
  { intros d. pose proof (nat_ascii_bounded d). unfold byte_in. rewrite andb_false_iff, andb_true_iff, !Nat.leb_gt, !Nat.leb_le. lia. }
  destruct (byte_in 0 127 a) eqn:E1; [lia|]. apply Hhigh in E1. destruct r as [|b r]; [lia|].
  destruct (byte_in 194 223 a).
  { destruct (cont b) eqn:Eb; [|lia]. subst n. simpl. by rewrite !Hd by auto. }
  destruct r as [|d r]; [lia|]. destruct (byte_in 224 224 a && _ || _ || _ || _) eqn:E3.
  { destruct (cont d) eqn:Ed; [|lia]. subst n. simpl. rewrite !Hd; auto.
    unfold cont, byte_in in *. rewrite !orb_true_iff, !andb_true_iff, !Nat.leb_le in *. lia. }
  destruct r as [|e r]; [lia|]. destruct (byte_in 240 240 a && _ || _ || _) eqn:E4; [|lia].
  destruct (cont d && cont e) eqn:Ed; [|lia]. apply andb_true_iff in Ed as [Ed Ee]. subst n. simpl. rewrite !Hd; auto.
  clear E3. unfold cont, byte_in in *. rewrite !orb_true_iff, !andb_true_iff, !Nat.leb_le in *. lia.
Qed.

Lemma quote_body_line n : ∀ s, str_mem newline (quote_body n s) = false.
Proof.
  induction n as [|n IH]; intros [|c r]; try done. cbn [quote_body].
  destruct (utf8_len (String c r)) as [|[|m]] eqn:El; rewrite str_mem_app, IH, orb_false_r.
  - done.
  - destruct c as [[] [] [] [] [] [] [] []]; vm_compute; reflexivity.
  - cbv zeta. repeat case_bool_decide; [done..|]. apply utf8_sequence_line; [done|lia|done].
Qed.

Lemma quote_shape s rest : json_quote s +:+ rest = String quote (quote_body (String.length s) s +:+ String quote rest).
Proof. unfold json_quote. rewrite !str_app_assoc. done. Qed.

Lemma parse_value_quote fuel r :
  parse_value (S fuel) (String quote r) = ('(x, r') ← parse_string (S (String.length r)) r; Some (JStr x, r')).
Proof. reflexivity. Qed.

Lemma prints_string s : prints (JStr (utf8_clean s)) (json_quote s).
Proof.
  split_and!; [|done..|].
  - unfold json_quote. by rewrite !str_mem_app, quote_body_line.
  - intros rest [|fuel] _ Hf; [simpl in Hf; lia|]. rewrite quote_shape, parse_value_quote.
    rewrite quote_roundtrip; [done|done|]. rewrite str_length_app. simpl. lia.
Qed.

(** *** Numbers *)

Fixpoint all_digits (s : string) : bool := match s with EmptyString => true | String c r => is_digit c && all_digits r end.
Definition digit_string (s : string) : Prop := s ≠ "" ∧ all_digits s = true.

(** A number as the grammar of JSON has it. *)
Definition number_literal (t : string) : Prop := ∃ sign int frac exp,
  t = sign +:+ int +:+ frac +:+ exp ∧ (sign = "" ∨ sign = "-") ∧
  (int = "0" ∨ digit_string int ∧ has_prefix int "0" = false) ∧
  (frac = "" ∨ ∃ d, frac = "." +:+ d ∧ digit_string d) ∧
  (exp = "" ∨ ∃ sg d, exp = "e" +:+ sg +:+ d ∧ (sg = "" ∨ sg = "+" ∨ sg = "-") ∧ digit_string d).

(** What follows a run of digits. *)
Definition no_digit (rest : string) : Prop := match rest with String c _ => is_digit c = false | EmptyString => True end.

Lemma span_digits_app d rest : all_digits d = true → no_digit rest → span_digits (d +:+ rest) = (d, rest).
Proof.
  intros Hd Hr. induction d as [|c d IH].
  - rewrite str_app_nil. destruct rest as [|c rest]; [done|]. simpl in *. by rewrite Hr.
  - simpl in Hd. apply andb_true_iff in Hd as [Hc Hd]. rewrite str_app_cons. simpl. rewrite Hc, IH by done. done.
Qed.
Lemma digits1_app d rest : digit_string d → no_digit rest → digits1 (d +:+ rest) = Some (d, rest).
Proof. intros [Hn Hd] Hr. unfold digits1. rewrite span_digits_app by done. by rewrite bool_decide_false. Qed.

Lemma digit_head d rest : digit_string d → ∃ c r, d +:+ rest = String c r ∧ is_digit c = true ∧ (∃ r', d = String c r').
Proof.
  intros [Hn Hd]. destruct d as [|c d]; [done|]. simpl in Hd. apply andb_true_iff in Hd as [Hc _].
  exists c, (d +:+ rest). rewrite str_app_cons. eauto.
Qed.

Lemma stops_no_digit rest : stops rest → no_digit rest.
Proof. destruct rest as [|c rest]; [done|]. by intros [->|[->|[->| ->]]]. Qed.

(** The steps of [parse_number]. *)
Definition number_sign (s : string) : string * string := match s with String "-" r => ("-", r) | _ => ("", s) end.
Definition number_int (s : string) : option (string * string) := match s with String "0" r => Some ("0", r) | _ => digits1 s end.
Definition number_frac (s : string) : option (string * string) :=
  match s with String "." r => '(d, r) ← digits1 r; Some ("." +:+ d, r) | _ => Some ("", s) end.
Definition exp_sign (r : string) : string * string :=
  match r with String "+" r => ("+", r) | String "-" r => ("-", r) | _ => ("", r) end.
Definition number_exp (s : string) : option (string * string) :=
  match s with
  | String "e" r | String "E" r => let '(sg, r) := exp_sign r in '(d, r) ← digits1 r; Some ("e" +:+ sg +:+ d, r)
  | _ => Some ("", s)
  end.
Lemma parse_number_steps s : parse_number s =
  let '(sign, s) := number_sign s in
  '(int, s) ← number_int s; '(frac, s) ← number_frac s; '(exp, s) ← number_exp s; Some (sign +:+ int +:+ frac +:+ exp, s).
Proof. reflexivity. Qed.

Lemma digit_not_sign c r : is_digit c = true →
  number_sign (String c r) = ("", String c r) ∧ exp_sign (String c r) = ("", String c r).
Proof. intros Hc. destruct c as [[] [] [] [] [] [] [] []]; vm_compute in Hc; discriminate Hc || done. Qed.

Lemma int_step d rest : d = "0" ∨ digit_string d ∧ has_prefix d "0" = false → no_digit rest →
  number_int (d +:+ rest) = Some (d, rest).
Proof.
  intros [->|[Hd Hz]] Hr; [done|]. pose proof (digits1_app d rest Hd Hr) as H1. destruct d as [|c d]; [by destruct Hd|].
  rewrite str_app_cons in *. rewrite prefix_cons in Hz. unfold number_int.
  destruct c as [[] [] [] [] [] [] [] []]; try exact H1. by destruct d; vm_compute in Hz.
Qed.

Lemma frac_step d rest : d = "" ∨ (∃ e, d = "." +:+ e ∧ digit_string e) → no_digit rest → has_prefix rest "." = false →
  number_frac (d +:+ rest) = Some (d, rest).
Proof.
  intros [->|(e & -> & He)] Hr Hp.
  - rewrite str_app_nil. destruct rest as [|c rest]; [done|]. rewrite prefix_cons in Hp. unfold number_frac.
    destruct c as [[] [] [] [] [] [] [] []]; try done. by destruct rest; vm_compute in Hp.
  - rewrite str_app_assoc. change (number_frac ("." +:+ e +:+ rest)) with ('(d, r) ← digits1 (e +:+ rest); Some ("." +:+ d, r)).
    by rewrite digits1_app.
Qed.

Definition exponent (e : string) : Prop :=
  e = "" ∨ ∃ sg d, e = "e" +:+ sg +:+ d ∧ (sg = "" ∨ sg = "+" ∨ sg = "-") ∧ digit_string d.

Lemma exp_step e rest : exponent e → stops rest → number_exp (e +:+ rest) = Some (e, rest).
Proof.
  intros [->|(sg & d & -> & Hsg & Hd)] Hr.
  - rewrite str_app_nil. destruct rest as [|c rest]; [done|]. by destruct Hr as [->|[->|[->| ->]]].
  - rewrite !str_app_assoc. change (number_exp ("e" +:+ sg +:+ d +:+ rest)) with
      (let '(s', r) := exp_sign (sg +:+ d +:+ rest) in '(x, r) ← digits1 r; Some ("e" +:+ s' +:+ x, r)).
    assert (exp_sign (sg +:+ d +:+ rest) = (sg, d +:+ rest)) as ->.
    { destruct Hsg as [->|[->| ->]]; [|done..]. rewrite str_app_nil.
      destruct (digit_head d rest Hd) as (c & r & -> & Hc & _). by apply digit_not_sign. }
    by rewrite digits1_app by (done || by apply stops_no_digit).
Qed.

Lemma exp_follows e rest : exponent e → stops rest → no_digit (e +:+ rest) ∧ has_prefix (e +:+ rest) "." = false.
Proof.
  intros [->|(sg & d & -> & _)] Hr; [|by rewrite str_app_assoc]. rewrite str_app_nil. split; [by apply stops_no_digit|].
  destruct rest as [|c rest]; [done|]. by destruct Hr as [->|[->|[->| ->]]].
Qed.

Lemma parse_number_literal t rest : number_literal t → stops rest → parse_number (t +:+ rest) = Some (t, rest).
Proof.
  intros (sign & int & frac & exp & -> & Hsign & Hint & Hfrac & Hexp) Hr. fold (exponent exp) in Hexp.
  destruct (exp_follows exp rest Hexp Hr) as [Hn Hd]. rewrite parse_number_steps, !str_app_assoc.
  assert (number_sign (sign +:+ int +:+ frac +:+ exp +:+ rest) = (sign, int +:+ frac +:+ exp +:+ rest)) as ->.
  { destruct Hsign as [->| ->]; [|done]. rewrite str_app_nil. destruct Hint as [->|[Hint _]]; [done|].
    destruct (digit_head int (frac +:+ exp +:+ rest) Hint) as (c & r & -> & Hc & _). by apply digit_not_sign. }
  cbv beta iota. rewrite int_step; [|done|].
  - cbn [mbind option_bind]. rewrite frac_step by done. cbn [mbind option_bind]. by rewrite exp_step.
  - destruct Hfrac as [->|(d & -> & _)]; [by rewrite str_app_nil|by rewrite str_app_assoc].
Qed.

Lemma number_literal_head t : number_literal t → ∃ c r, t = String c r ∧ (c = "-"%char ∨ is_digit c = true).
Proof.
  intros (sign & int & frac & exp & -> & [->| ->] & Hint & _); [|by eexists _, _; split; [done|left]].
  rewrite str_app_nil. destruct Hint as [->|[Hint _]]; [by eexists _, _; split; [done|right]|].
  destruct (digit_head int (frac +:+ exp) Hint) as (c & r & -> & Hc & _). eauto.
Qed.

Lemma parse_value_number fuel c r : c = "-"%char ∨ is_digit c = true →
  parse_value (S fuel) (String c r) = ('(n, r') ← parse_number (String c r); Some (JNum n, r')) ∧ skip_ws (String c r) = String c r.
Proof.
  intros [->|Hc]; [done|]. destruct c as [[] [] [] [] [] [] [] []]; vm_compute in Hc; discriminate Hc || done.
Qed.

Lemma digits_line d : all_digits d = true → str_mem newline d = false.
Proof.
  induction d as [|c d IH]; [done|]. simpl. rewrite andb_true_iff. intros [Hc Hd]. rewrite IH by done.
  rewrite orb_false_r. apply bool_decide_false. by intros <-.
Qed.
Lemma number_literal_line t : number_literal t → str_mem newline t = false.
Proof.
  intros (sign & int & frac & exp & -> & Hs & Hi & Hf & He). rewrite !str_mem_app.
  assert (str_mem newline sign = false) as -> by (by destruct Hs as [->| ->]).
  assert (str_mem newline int = false) as -> by (by destruct Hi as [->|[[_ Hd] _]]; [|apply digits_line]).
  assert (str_mem newline frac = false) as -> by (destruct Hf as [->|(d & -> & _ & Hd)]; [done|by rewrite str_mem_app, (digits_line d)]).
  destruct He as [->|(sg & d & -> & Hsg & _ & Hd)]; [done|]. rewrite !str_mem_app, (digits_line d) by done. by destruct Hsg as [->|[->| ->]].
Qed.

Lemma prints_number t : number_literal t → prints (JNum t) t.
Proof.
  intros Hn. destruct (number_literal_head t Hn) as (c & r & E & Hc).
  split_and!; [by apply number_literal_line|rewrite E; by apply (parse_value_number O)|by rewrite E|].
  intros rest [|fuel] Hr Hf; [rewrite E in Hf; simpl in Hf; lia|]. pose proof (parse_number_literal t rest Hn Hr) as Hp.
  rewrite E, str_app_cons in *. rewrite (proj1 (parse_value_number fuel c (r +:+ rest) Hc)). by rewrite Hp.
Qed.

Lemma string_of_uint_digits u : all_digits (NilEmpty.string_of_uint u) = true.
Proof. by induction u. Qed.
Lemma format_int_literal z : number_literal (format_int z).
Proof.
  assert (∀ p, digit_string (NilZero.string_of_uint (Pos.to_uint p)) ∧ has_prefix (NilZero.string_of_uint (Pos.to_uint p)) "0" = false) as Hp.
  { intros p. pose proof (DecimalPos.Unsigned.to_uint_nonnil p) as Hn.
    assert (∀ d, Pos.to_uint p ≠ Decimal.D0 d) as Hz.
    { intros d E. destruct (DecimalPos.Unsigned.to_uint_nonzero p).
      pose proof (DecimalPos.Unsigned.to_of (Pos.to_uint p)) as Hto. rewrite DecimalPos.Unsigned.of_to in Hto. simpl in Hto.
      rewrite Hto. apply DecimalFacts.unorm_0. destruct (Decimal.nzhead (Pos.to_uint p)) eqn:En; [done|..].
      1: by apply DecimalFacts.nzhead_nonzero in En.
      all: rewrite Hto, DecimalFacts.unorm_nzhead, En in E by (by rewrite En); done. }
    unfold NilZero.string_of_uint. pose proof (string_of_uint_digits (Pos.to_uint p)) as Hd.
    destruct (Pos.to_uint p) as [|d|d|d|d|d|d|d|d|d|d] eqn:E; [done|by destruct (Hz d)|..]; (split; [split; done|done]). }
  unfold format_int. destruct z as [|p|p].
  - exists "", "0", "", "". split_and!; auto.
  - exists "", (NilZero.string_of_uint (Pos.to_uint p)), "", "". split_and!; auto. simpl. by rewrite str_app_nil_r.
  - exists "-", (NilZero.string_of_uint (Pos.to_uint p)), "", "". split_and!; auto. simpl. by rewrite str_app_nil_r.
Qed.

(** *** Objects *)

Definition member_text (kt : string * string) : string := json_quote kt.1 +:+ ":" +:+ kt.2.
Definition object_text (members : list (string * string)) : string := "{" +:+ join "," (member_text <$> members) +:+ "}".

Lemma parse_members_quote fuel r : parse_members (S fuel) (String quote r) =
  ('(k, r) ← parse_string (S (String.length r)) r;
   match skip_ws r with
   | String ":" r =>
       '(v, r) ← parse_value fuel r;
       match skip_ws r with
       | String "," r => '(ms, r) ← parse_members fuel r; Some ((k, v) :: ms, r)
       | String "}" r => Some ([(k, v)], r)
       | _ => None
       end
   | _ => None
   end).
Proof. reflexivity. Qed.

Lemma parse_member fuel k v t rest : prints v t → stops rest → (2 * String.length t ≤ fuel)%nat →
  parse_members (S fuel) (member_text (k, t) +:+ rest) =
  match skip_ws rest with
  | String "," r => '(ms, r) ← parse_members fuel r; Some ((utf8_clean k, v) :: ms, r)
  | String "}" r => Some ([(utf8_clean k, v)], r)
  | _ => None
  end.
Proof.
  intros (_ & _ & _ & Hp) Hr Hf. unfold member_text. simpl fst. simpl snd. rewrite str_app_assoc, quote_shape, parse_members_quote.
  rewrite quote_roundtrip; [|done|rewrite str_length_app; simpl; lia]. cbn [mbind option_bind]. fold (utf8_clean k).
  rewrite str_app_assoc. change (skip_ws (":" +:+ t +:+ rest)) with (String ":" (t +:+ rest)). cbv beta iota. by rewrite Hp.
Qed.

(** Members, each read back. *)
Definition members_print (ms : list (string * json)) (ts : list (string * string)) : Prop :=
  Forall2 (λ m t, m.1 = utf8_clean t.1 ∧ prints m.2 t.2) ms ts.

Lemma parse_members_text ms ts rest : members_print ms ts → ts ≠ [] → ∀ fuel,
  (2 * String.length (join "," (member_text <$> ts)) ≤ fuel)%nat →
  parse_members fuel (join "," (member_text <$> ts) +:+ String "}" rest) = Some (ms, rest).
Proof.
  intros Hm. induction Hm as [|[k v] [k' t] ms ts [Hk Hv] Hm IH]; [done|]. simpl in Hk, Hv. subst k. intros _ fuel Hf.
  assert (0 < String.length t)%nat as Hpos by (destruct Hv as (_ & _ & Hne & _); destruct t; [done|simpl; lia]).
  assert (2 + String.length t ≤ String.length (member_text (k', t)))%nat as Hlen.
  { unfold member_text, json_quote. simpl fst. simpl snd. rewrite !str_length_app. simpl. lia. }
  destruct ts as [|t2 ts].
  - inversion Hm; subst. change (join "," (member_text <$> [(k', t)])) with (member_text (k', t)) in *.
    destruct fuel as [|fuel]; [lia|]. rewrite (parse_member fuel k' v t); [done|done|by right; right; left|lia].
  - change (join "," (member_text <$> (k', t) :: t2 :: ts)) with (member_text (k', t) +:+ "," +:+ join "," (member_text <$> t2 :: ts)) in *.
    rewrite !str_length_app in Hf. change (String.length ",") with 1%nat in Hf. destruct fuel as [|fuel]; [lia|].
    rewrite !str_app_assoc, (parse_member fuel k' v t) by (done || (by left) || lia).
    change (match skip_ws ("," +:+ join "," (member_text <$> t2 :: ts) +:+ String "}" rest) with
      String "," r => '(ms, r) ← parse_members fuel r; Some ((utf8_clean k', v) :: ms, r) | String "}" r => Some ([(utf8_clean k', v)], r)
      | _ => None end) with ('(ms, r) ← parse_members fuel (join "," (member_text <$> t2 :: ts) +:+ String "}" rest); Some ((utf8_clean k', v) :: ms, r)).
    rewrite IH; [done|done|lia].
Qed.

Lemma members_line ms ts : members_print ms ts → str_mem newline (join "," (member_text <$> ts)) = false.
Proof.
  intros Hm. induction Hm as [|m t ms ts [_ (Hl & _)] _ IH]; [done|].
  assert (str_mem newline (member_text t) = false) as Ht.
  { unfold member_text, json_quote. by rewrite !str_mem_app, quote_body_line, Hl. }
  destruct ts as [|t2 ts]; [done|].
  change (join "," (member_text <$> t :: t2 :: ts)) with (member_text t +:+ "," +:+ join "," (member_text <$> t2 :: ts)).
  by rewrite !str_mem_app, Ht, IH.
Qed.

Lemma prints_object ms ts : members_print ms ts → prints (JObj ms) (object_text ts).
Proof.
  intros Hm. unfold object_text. split_and!; [|done..|].
  - by rewrite !str_mem_app, (members_line ms).
  - intros rest [|fuel] _ Hf; [simpl in Hf; lia|]. rewrite !str_length_app in Hf.
    change (String.length "{") with 1%nat in Hf. change (String.length "}") with 1%nat in Hf. rewrite !str_app_assoc.
    destruct ts as [|t ts]; [by inversion Hm; subst; destruct rest|].
    assert (∃ r, join "," (member_text <$> t :: ts) +:+ "}" +:+ rest = String quote r) as [r Hr].
    { destruct ts; [eexists; change (member_text <$> [t]) with [member_text t]|eexists; change (join "," (member_text <$> t :: p :: ts)) with (member_text t +:+ "," +:+ join "," (member_text <$> p :: ts))];
        simpl join; unfold member_text at 1; rewrite !str_app_assoc; by rewrite quote_shape. }
    assert (parse_value (S fuel) (String "{" (join "," (member_text <$> t :: ts) +:+ "}" +:+ rest)) =
      ('(l, r) ← parse_members fuel (join "," (member_text <$> t :: ts) +:+ "}" +:+ rest); Some (JObj l, r))) as E by (by rewrite Hr).
    etransitivity; [exact E|]. change ("}" +:+ rest) with (String "}" rest). rewrite (parse_members_text ms); [done|done|done|lia].
Qed.
(** *** Arrays *)

(** An element of an array that is not the last one, and the last one. *)
Lemma parse_elem fuel v t rest : prints v t → stops rest → (2 * String.length t ≤ fuel)%nat →
  parse_elems (S fuel) (t +:+ rest) =
  match skip_ws rest with
  | String "," r => '(l, r) ← parse_elems fuel r; Some (v :: l, r)
  | String "]" r => Some ([v], r)
  | _ => None
  end.
Proof.
  intros (_ & _ & _ & Hp) Hr Hf.
  change (parse_elems (S fuel) (t +:+ rest)) with
    ('(v, r) ← parse_value fuel (t +:+ rest);
     match skip_ws r with
     | String "," r => '(l, r) ← parse_elems fuel r; Some (v :: l, r)
     | String "]" r => Some ([v], r)
     | _ => None
     end).
  by rewrite Hp.
Qed.

Lemma parse_elems_text vs ts rest : Forall2 prints vs ts → ts ≠ [] → ∀ fuel,
  (2 * String.length (join "," ts) + 1 ≤ fuel)%nat →
  parse_elems fuel (join "," ts +:+ String "]" rest) = Some (vs, rest).
Proof.
  intros Hm. induction Hm as [|v t vs ts Hv Hm IH]; [done|]. intros _ fuel Hf.
  assert (0 < String.length t)%nat as Hpos by (destruct Hv as (_ & _ & Hne & _); destruct t; [done|simpl; lia]).
  destruct ts as [|t2 ts].
  - inversion Hm; subst. change (join "," [t]) with t in *. destruct fuel as [|fuel]; [lia|].
    rewrite (parse_elem fuel v t); [done|done|by right; left|lia].
  - change (join "," (t :: t2 :: ts)) with (t +:+ "," +:+ join "," (t2 :: ts)) in *.
    rewrite !str_length_app in Hf. change (String.length ",") with 1%nat in Hf. destruct fuel as [|fuel]; [lia|].
    rewrite !str_app_assoc, (parse_elem fuel v t) by (done || (by left) || lia).
    change (match skip_ws ("," +:+ join "," (t2 :: ts) +:+ String "]" rest) with
      String "," r => '(l, r) ← parse_elems fuel r; Some (v :: l, r) | String "]" r => Some ([v], r)
      | _ => None end) with ('(l, r) ← parse_elems fuel (join "," (t2 :: ts) +:+ String "]" rest); Some (v :: l, r)).
    rewrite IH; [done|done|lia].
Qed.

Lemma elems_line vs ts : Forall2 prints vs ts → str_mem newline (join "," ts) = false.
Proof.
  intros Hm. induction Hm as [|v t vs ts (Hl & _) _ IH]; [done|]. destruct ts as [|t2 ts]; [done|].
  change (join "," (t :: t2 :: ts)) with (t +:+ "," +:+ join "," (t2 :: ts)). by rewrite !str_mem_app, Hl, IH.
Qed.

(** A text that is printed does not start like the end of an array. *)
Lemma prints_not_bracket v t rest : prints v t → ∀ r, skip_ws (t +:+ rest) ≠ String "]" r.
Proof.
  intros (_ & Hs & Hne & Hp) r Hr.
  assert (skip_ws (t +:+ rest) = t +:+ rest) as E.
  { destruct t as [|c t]; [done|]. rewrite str_app_cons. simpl in Hs |- *. destruct (is_ws c) eqn:Ec; [|done].
    exfalso. assert (∀ s, (String.length (skip_ws s) ≤ String.length s)%nat) as Hle.
    { induction s as [|d s IH]; [done|]. simpl. destruct (is_ws d); simpl; lia. }
    specialize (Hle t). rewrite Hs in Hle. simpl in Hle. lia. }
  rewrite E in Hr. specialize (Hp "" (S (2 * String.length t)) I ltac:(lia)). rewrite str_app_nil_r in Hp.
  destruct t as [|c t]; [done|]. rewrite str_app_cons in Hr. injection Hr as -> _.
  change (parse_value (S (2 * String.length (String "]" t))) (String "]" t)) with (@None (json * string)) in Hp. done.
Qed.

Lemma prints_array vs ts : Forall2 prints vs ts → prints (JArr vs) ("[" +:+ join "," ts +:+ "]").
Proof.
  intros Hm. split_and!; [|done..|].
  - by rewrite !str_mem_app, (elems_line vs).
  - intros rest [|fuel] _ Hf; [simpl in Hf; lia|]. rewrite !str_length_app in Hf.
    change (String.length "[") with 1%nat in Hf. change (String.length "]") with 1%nat in Hf. rewrite !str_app_assoc.
    destruct ts as [|t ts]; [by inversion Hm; subst; destruct rest|].
    change (parse_value (S fuel) (String "[" (join "," (t :: ts) +:+ "]" +:+ rest)) = Some (JArr vs, rest)).
    assert (∀ r, skip_ws (join "," (t :: ts) +:+ "]" +:+ rest) ≠ String "]" r) as Hb.
    { inversion Hm as [|v t' vs' ts' Hv]; subst. destruct ts; [exact (prints_not_bracket v t _ Hv)|].
      change (join "," (t :: s :: ts)) with (t +:+ "," +:+ join "," (s :: ts)). rewrite !str_app_assoc. exact (prints_not_bracket v t _ Hv). }
    transitivity ('(l, r) ← parse_elems fuel (join "," (t :: ts) +:+ "]" +:+ rest); Some (JArr l, r)).
    { revert Hb. generalize (join "," (t :: ts) +:+ "]" +:+ rest). clear. intros x Hb.
      change (parse_value (S fuel) (String "[" x)) with
        (match skip_ws x with String "]" r => Some (JArr [], r) | _ => '(l, r) ← parse_elems fuel x; Some (JArr l, r) end).
      destruct (skip_ws x) as [|c y] eqn:E; [done|]. destruct c as [[] [] [] [] [] [] [] []]; try done. by destruct (Hb y). }
    change ("]" +:+ rest) with (String "]" rest). rewrite (parse_elems_text vs); [done|done|done|lia].
Qed.

(** *** Maps *)

(** The last member of a name is its only one when names are distinct. *)
Lemma find_last {A} (l : list (string * A)) k v :
  NoDup l.*1 → (k, v) ∈ l → List.find (λ p, String.eqb p.1 k) (reverse l) = Some (k, v).
Proof.
  intros Hn Hin. assert (NoDup (reverse l).*1 ∧ (k, v) ∈ reverse l) as [Hn' Hin'].
  { split; [|by rewrite elem_of_reverse]. by rewrite (reverse_Permutation l). }
  revert Hn' Hin'. generalize (reverse l). clear. intros l. induction l as [|[k' v'] l IH]; intros Hn Hin; [by apply elem_of_nil in Hin|].
  simpl. apply NoDup_cons in Hn as [Hk Hn]. apply elem_of_cons in Hin as [[= -> ->]|Hin]; [by rewrite String.eqb_refl|].
  destruct (String.eqb_spec k' k) as [->|]; [|by apply IH]. destruct Hk. apply list_elem_of_fmap. by exists (k, v).
Qed.
Lemma obj_get_elem ms k v : NoDup ms.*1 → (k, v) ∈ ms → obj_get ms k = v.
Proof. intros Hn Hin. unfold obj_get, obj_lookup. by rewrite (find_last ms k v). Qed.

(** What [json.Marshal] writes for a map with the texts of its values. *)
Definition map_text (texts : gmap string string) : string :=
  "{" +:+ join "," ((λ k, json_quote k +:+ ":" +:+ default "" (texts !! k)) <$> sorted_keys texts) +:+ "}".

Lemma zip_lookup_map {A} (names : list string) (l : list A) i k a :
  NoDup names → names !! i = Some k → l !! i = Some a → (list_to_map (zip names l) : gmap string A) !! k = Some a.
Proof.
  intros Hn Hk Ha. apply elem_of_list_to_map_1'; [|apply list_elem_of_lookup; exists i; by rewrite lookup_zip_with, Hk; simpl; rewrite Ha].
  intros b Hb. apply list_elem_of_lookup in Hb as [j Hj]. apply lookup_zip_Some in Hj as [Hj Hb].
  rewrite (NoDup_lookup names j i k) in Hb by done. congruence.
Qed.

Lemma prints_map (names : list string) (js : list json) (texts : list string) :
  NoDup names → Forall (λ k, utf8_clean k = k) names → length names = length js → Forall2 prints js texts →
  ∃ ms, prints (JObj ms) (map_text (list_to_map (zip names texts))) ∧
    (∀ i k j, names !! i = Some k → js !! i = Some j → obj_get ms k = j) ∧
    (∀ P : json → Prop, Forall P js → Forall (λ m, P m.2) ms).
Proof.
  intros Hn Hc Hlen Hp. set (tm := list_to_map (zip names texts) : gmap string string).
  set (jm := list_to_map (zip names js) : gmap string json).
  assert (∀ k, k ∈ sorted_keys tm → ∃ i j t, names !! i = Some k ∧ js !! i = Some j ∧ tm !! k = Some t ∧ jm !! k = Some j ∧ prints j t) as Hkeys.
  { intros k [t Ht]%elem_of_sorted_keys. pose proof Ht as Hin. apply elem_of_list_to_map_2, list_elem_of_lookup in Hin as [i Hi].
    apply lookup_zip_Some in Hi as [Hk Hti]. destruct (Forall2_lookup_r _ _ _ _ _ Hp Hti) as (j & Hj & Hjt).
    exists i, j, t. split_and!; try done. by eapply zip_lookup_map. }
  exists ((λ k, (k, default JNull (jm !! k))) <$> sorted_keys tm).
  assert (((λ k, (k, default JNull (jm !! k))) <$> sorted_keys tm).*1 = sorted_keys tm) as Hfst.
  { rewrite <-list_fmap_compose. apply list_fmap_id. }
  split_and!.
  - assert (map_text tm = object_text ((λ k, (k, default "" (tm !! k))) <$> sorted_keys tm)) as ->.
    { unfold map_text, object_text. by rewrite <-list_fmap_compose. }
    apply prints_object. apply Forall2_fmap, Forall_Forall2_diag, Forall_forall. intros k Hk.
    destruct (Hkeys k Hk) as (i & j & t & Hi & _ & Ht & Hj & Hjt). simpl. rewrite Hj, Ht. split; [|done].
    by rewrite (Forall_lookup_1 _ _ _ _ Hc Hi).
  - intros i k j Hk Hj. apply obj_get_elem; [rewrite Hfst; apply NoDup_sorted_keys|].
    destruct (Forall2_lookup_l _ _ _ _ _ Hp Hj) as (t & Ht & _).
    apply list_elem_of_fmap. exists k. split.
    + unfold jm. by rewrite (zip_lookup_map _ _ i k j).
    + apply elem_of_sorted_keys. exists t. by eapply zip_lookup_map.
  - intros P HP. apply Forall_fmap, Forall_forall. intros k Hk. destruct (Hkeys k Hk) as (i & j & t & _ & Hji & _ & Hj & _).
    simpl. rewrite Hj. by eapply Forall_lookup_1.
Qed.
