(* ===== verification/Uploads.v ===== *)
(** * Resumable uploads (bigquery_upload.go)

    A client that loads a local file opens an upload session with the job's
    metadata and then PUTs the file in chunks, each with a [Content-Range];
    the request that brings the last byte submits the load job.  Chunks may be
    repeated and requests may run concurrently: accepting a chunk and recording
    the job's response are two sections under the service's mutex, the
    submission lies between them.

    A session is the Go struct; file contents are lists of bytes.  The random
    session id, the clock and the response of the submission ([insertJob]) are
    inputs.  A request is taken after net/http and mime/multipart have decoded
    it: its headers, its body, the parts of a multipart body. *)

From S2P Require Import Prelude GoStrings GoTime GoJson Regexp SqlPatterns SqlStatements SqlRecognition.
From Stdlib Require Import Ascii DecimalString.

Abbreviation filedata := (list ascii).

(** A captured HTTP response. *)
Record uploadResponse := UploadResponse {
  resp_Status : Z; resp_Header : list (string * list string); resp_Body : string }.

Record bigQueryUploadSession := UploadSession {
  us_ProjectID : string; us_Metadata : string; us_Data : filedata; us_UpdatedAt : Z;
  us_Finalizing : bool; us_Completed : bool; us_Response : uploadResponse }.
#[export] Instance uploadSession_eta : Eta bigQueryUploadSession := λ s,
  UploadSession (us_ProjectID s) (us_Metadata s) (us_Data s) (us_UpdatedAt s)
    (us_Finalizing s) (us_Completed s) (us_Response s).

Abbreviation uploadService := (gmap string bigQueryUploadSession).

Definition maxUploadMetadataBytes : Z := 10485760.
Definition uploadSessionTTL : Z := hour.
Definition no_response : uploadResponse := UploadResponse 0 [] "".

Inductive uploadErr :=
| MetadataTooLong | MetadataNotJSON | MetadataNotLoad | BadContentRange | BadTotal
| SessionGone | SessionFinalizing | LengthMismatch | OffsetConflict | ExceedsTotal
| NoSessionID | NotMultipart | NoMetadataPart | MetadataUnreadable | NoMediaPart | MediaUnreadable | ExtraPart
| UploadTypeUnknown | PathUnknown | MethodRefused.

(** ** Metadata *)

Definition readUploadMetadata (body : string) : uploadErr + string :=
  if maxUploadMetadataBytes <? Z.of_nat (String.length body) then inl MetadataTooLong else inr body.

Definition validateUploadedJobMetadata (metadata : string) : option uploadErr :=
  match json_unmarshal metadata with
  | Some JNull => Some MetadataNotLoad
  | Some (JObj payload) =>
      match obj_get payload "configuration" with
      | JObj configuration =>
          match obj_get configuration "load" with
          | JObj _ => None
          | _ => Some MetadataNotLoad
          end
      | _ => Some MetadataNotLoad
      end
  | _ => Some MetadataNotJSON
  end.

(** ** Sessions *)

Definition upload_expired (now : Z) (s : bigQueryUploadSession) : bool :=
  uploadSessionTTL <? i64_sub now (us_UpdatedAt s).

Definition upload_begin (u : uploadService) (id projectID metadata : string) (now : Z) : uploadService :=
  <[id := UploadSession projectID metadata [] now false false no_response]>
    (filter (λ kv, upload_expired now kv.2 = false) u).

(** [randID] is [None] when [rand.Read] fails. *)
Inductive initiateReply := Initiated (id location : string) | InitiateRefused (status : Z) (e : option uploadErr).

Definition upload_location (tls : bool) (forwardedProto host id : string) : string :=
  let scheme := if tls then "https" else "http" in
  let forwarded := trim_space (default "" (head (split_on "," forwardedProto))) in
  let scheme := if bool_decide (forwarded = "http" ∨ forwarded = "https") then forwarded else scheme in
  scheme +:+ "://" +:+ host +:+ "/_emulator/bigquery/uploads/" +:+ id.

Definition initiateBigQueryResumableUpload (u : uploadService) (projectID body : string) (tls : bool)
    (forwardedProto host : string) (randID : option string) (now : Z) : uploadService * initiateReply :=
  match readUploadMetadata body with
  | inl e => (u, InitiateRefused 400 (Some e))
  | inr metadata =>
      match validateUploadedJobMetadata metadata with
      | Some e => (u, InitiateRefused 400 (Some e))
      | None =>
          match randID with
          | None => (u, InitiateRefused 500 None)
          | Some id => (upload_begin u id projectID metadata now, Initiated id (upload_location tls forwardedProto host id))
          end
      end
  end.

(** ** Content-Range *)

Record uploadContentRange := ContentRange {
  cr_Probe : bool; cr_Start : Z; cr_End : Z; cr_Total : Z; cr_TotalKnown : bool }.

Section Patterns.
Local Open Scope re_scope.
Definition digits (n : nat) : re := RGroup n (rplus (RSet digit_char)).
Definition digits_or_star (n : nat) : re := RGroup n (rplus (RSet digit_char) ∥ lit "*").
Definition uploadChunkRangePattern : re :=
  RBegin ⋅ lit "bytes " ⋅ digits 1 ⋅ lit "-" ⋅ digits 2 ⋅ lit "/" ⋅ digits_or_star 3 ⋅ REnd.
Definition uploadProbeRangePattern : re := RBegin ⋅ lit "bytes */" ⋅ digits_or_star 1 ⋅ REnd.
End Patterns.

(** [strconv.ParseInt] of digits with its error ignored: out of range is the
    largest int64. *)
Definition parse_digits (s : string) : Z := default max_i64 (parse_int s).

Definition parseUploadContentRange (value : string) : uploadErr + uploadContentRange :=
  let value := trim_space value in
  match Regexp.find uploadChunkRangePattern value with
  | Some m =>
      let start := parse_digits (sub m 1) in
      let end_ := parse_digits (sub m 2) in
      if end_ <? start then inl BadContentRange
      else if bool_decide (sub m 3 ≠ "*") then
        let total := parse_digits (sub m 3) in
        if total <=? end_ then inl BadTotal else inr (ContentRange false start end_ total true)
      else inr (ContentRange false start end_ 0 false)
  | None =>
      match Regexp.find uploadProbeRangePattern value with
      | Some m =>
          inr (if bool_decide (sub m 1 ≠ "*") then ContentRange true 0 0 (parse_digits (sub m 1)) true
               else ContentRange true 0 0 0 false)
      | None => inl BadContentRange
      end
  end.

(** ** Chunks *)

Inductive chunkReply :=
| ChunkRefused (status : Z) (e : uploadErr)
| ResumeIncomplete (received : Z)       (** 308 with the bytes received so far *)
| StoredResponse (r : uploadResponse).  (** the response of the job, again *)

(** What [acceptUploadChunk] decides: it has answered, or the job is to be submitted. *)
Inductive chunkVerdict :=
| Answered (r : chunkReply)
| Submit (projectID metadata : string) (data : filedata).

Definition data_slice (data : filedata) (start end_ : Z) : filedata :=
  take (Z.to_nat (end_ - start + 1)) (drop (Z.to_nat start) data).

(** 2xx becomes 200. *)
Definition force_ok (r : uploadResponse) : uploadResponse :=
  if (200 <=? resp_Status r) && (resp_Status r <? 300)
  then UploadResponse 200 (resp_Header r) (resp_Body r) else r.

(** The verdict on a live session that is neither finalizing nor completed. *)
Definition chunk_verdict (session : bigQueryUploadSession) (spec : uploadContentRange) (payload : filedata)
    : bigQueryUploadSession * chunkVerdict :=
  let current := Z.of_nat (length (us_Data session)) in
  let refuse status e := (session, Answered (ChunkRefused status e)) in
  if cr_Probe spec then
    if cr_TotalKnown spec && (cr_Total spec =? 0) && (current =? 0) && (Z.of_nat (length payload) =? 0)
    then (session <| us_Finalizing := true |>, Submit (us_ProjectID session) (us_Metadata session) [])
    else (session, Answered (ResumeIncomplete current))
  else if negb (Z.of_nat (length payload) =? i64_add (i64_sub (cr_End spec) (cr_Start spec)) 1)
  then refuse 400 LengthMismatch
  else if cr_Start spec <? current then
    if (cr_End spec <? current) &&
       bool_decide (data_slice (us_Data session) (cr_Start spec) (cr_End spec) = payload)
    then (session, Answered (ResumeIncomplete current))
    else refuse 409 OffsetConflict
  else if current <? cr_Start spec then refuse 409 OffsetConflict
  else
    let session := session <| us_Data := us_Data session ++ payload |> in
    let current := Z.of_nat (length (us_Data session)) in
    if negb (cr_TotalKnown spec) || (current <? cr_Total spec)
    then (session, Answered (ResumeIncomplete current))
    else if negb (current =? cr_Total spec) then (session, Answered (ChunkRefused 400 ExceedsTotal))
    else (session <| us_Finalizing := true |>,
          Submit (us_ProjectID session) (us_Metadata session) (us_Data session)).

Definition acceptUploadChunk (u : uploadService) (id : string) (spec : uploadContentRange)
    (payload : filedata) (now : Z) : uploadService * chunkVerdict :=
  match u !! id with
  | None => (u, Answered (ChunkRefused 404 SessionGone))
  | Some session =>
      if upload_expired now session then (delete id u, Answered (ChunkRefused 404 SessionGone))
      else if us_Completed session then (u, Answered (StoredResponse (force_ok (us_Response session))))
      else if us_Finalizing session then (u, Answered (ChunkRefused 409 SessionFinalizing))
      else
        let '(session, verdict) := chunk_verdict (session <| us_UpdatedAt := now |>) spec payload in
        (<[id := session]> u, verdict)
  end.

(** The second section of [bigQueryResumableUpload], after the submission. *)
Definition finish_upload (u : uploadService) (id : string) (captured : uploadResponse) (now : Z) : uploadService :=
  match u !! id with
  | None => u
  | Some session => <[id := UploadSession (us_ProjectID session) "" [] now false true captured]> u
  end.

Definition upload_session_id (path : string) : option string :=
  let id := trim_char "/" (trim_prefix path "/_emulator/bigquery/uploads/") in
  if bool_decide (id = "") || str_mem "/" id then None else Some id.

(** The first section of [bigQueryResumableUpload]: the request up to the
    verdict on its chunk. *)
Definition receive_chunk (u : uploadService) (meth path contentRange : string) (payload : filedata)
    (now : Z) : uploadService * chunkVerdict :=
  if negb (bool_decide (meth = "PUT")) then (u, Answered (ChunkRefused 405 MethodRefused))
  else match upload_session_id path with
       | None => (u, Answered (ChunkRefused 404 NoSessionID))
       | Some id =>
           match parseUploadContentRange contentRange with
           | inl e => (u, Answered (ChunkRefused 400 e))
           | inr spec => acceptUploadChunk u id spec payload now
           end
       end.

(** The whole request, when nothing else runs in between; [submit] is
    [submitUploadedJob]. *)
Definition bigQueryResumableUpload (submit : string → string → filedata → uploadResponse) (u : uploadService)
    (meth path contentRange : string) (payload : filedata) (now finished : Z) : uploadService * chunkReply :=
  match receive_chunk u meth path contentRange payload now with
  | (u, Answered r) => (u, r)
  | (u, Submit projectID metadata data) =>
      let captured := submit projectID metadata data in
      (finish_upload u (default "" (upload_session_id path)) captured finished, StoredResponse (force_ok captured))
  end.

(** ** One-shot uploads *)

(** [parts] are the parts of the body, [None] when a part cannot be read. *)
Definition handleBigQueryMultipartUpload (mediaType boundary : string) (parts : list (option string))
    : uploadErr + string * string :=
  if negb (equal_fold mediaType "multipart/related") || bool_decide (boundary = "") then inl NotMultipart
  else match parts with
       | Some metadataPart :: parts =>
           match readUploadMetadata metadataPart with
           | inl e => inl e
           | inr metadata =>
               match validateUploadedJobMetadata metadata, parts with
               | Some e, _ => inl e
               | None, Some data :: [] => inr (metadata, data)
               | None, Some _ :: _ :: _ => inl ExtraPart
               | None, None :: _ => inl MediaUnreadable
               | None, [] => inl NoMediaPart
               end
           end
       | None :: _ => inl MetadataUnreadable
       | [] => inl NoMetadataPart
       end.

Inductive uploadRoute := RouteMultipart (projectID : string) | RouteResumable (projectID : string) | RouteRefused (status : Z) (e : uploadErr).

Definition bigQueryJobUpload (meth path uploadType : string) : uploadRoute :=
  match split_on "/" (trim_char "/" (trim_prefix path "/upload/bigquery/v2/projects/")) with
  | [projectID; jobs] =>
      if bool_decide (projectID = "") || negb (bool_decide (jobs = "jobs")) then RouteRefused 404 PathUnknown
      else if negb (bool_decide (meth = "POST")) then RouteRefused 405 MethodRefused
      else if bool_decide (uploadType = "multipart") then RouteMultipart projectID
      else if bool_decide (uploadType = "resumable") then RouteResumable projectID
      else RouteRefused 400 UploadTypeUnknown
  | _ => RouteRefused 404 PathUnknown
  end.

(** ** Runs of the service

    [uw_running] are the submissions under way, [uw_jobs] the jobs submitted so
    far with the session they came from, [uw_used] the ids handed out. *)

Record uploadWorld := UploadWorld {
  uw_sessions : uploadService; uw_running : gset string;
  uw_jobs : list (string * (string * string * filedata)); uw_used : gset string }.

Definition upload_start : uploadWorld := UploadWorld ∅ ∅ [] ∅.

Inductive uploadEvent :=
| EBegin (id projectID metadata : string) (now : Z)
| EChunk (id contentRange : string) (payload : filedata) (now : Z)
| EFinish (id : string) (captured : uploadResponse) (now : Z).

(** A chunk that completes a file starts a submission; random ids do not repeat. *)
Inductive upload_step : uploadWorld → uploadEvent → uploadWorld → Prop :=
| step_begin w id projectID metadata now :
    id ∉ uw_used w →
    upload_step w (EBegin id projectID metadata now)
      (UploadWorld (upload_begin (uw_sessions w) id projectID metadata now) (uw_running w) (uw_jobs w)
         ({[id]} ∪ uw_used w))
| step_answer w id contentRange payload now spec u r :
    parseUploadContentRange contentRange = inr spec →
    acceptUploadChunk (uw_sessions w) id spec payload now = (u, Answered r) →
    upload_step w (EChunk id contentRange payload now) (UploadWorld u (uw_running w) (uw_jobs w) (uw_used w))
| step_submit w id contentRange payload now spec u projectID metadata data :
    parseUploadContentRange contentRange = inr spec →
    acceptUploadChunk (uw_sessions w) id spec payload now = (u, Submit projectID metadata data) →
    upload_step w (EChunk id contentRange payload now)
      (UploadWorld u ({[id]} ∪ uw_running w) (uw_jobs w ++ [(id, (projectID, metadata, data))]) (uw_used w))
| step_finish w id captured now :
    id ∈ uw_running w →
    upload_step w (EFinish id captured now)
      (UploadWorld (finish_upload (uw_sessions w) id captured now) (uw_running w ∖ {[id]}) (uw_jobs w) (uw_used w)).

Inductive upload_run : list uploadEvent → uploadWorld → Prop :=
| run_start : upload_run [] upload_start
| run_step trace w e w' : upload_run trace w → upload_step w e w' → upload_run (trace ++ [e]) w'.

(** The chunks sent to a session are pieces of one file. *)
Definition piece_of (file : filedata) (contentRange : string) (payload : filedata) : Prop :=
  ∀ spec, parseUploadContentRange contentRange = inr spec →
    (cr_TotalKnown spec = true → cr_Total spec = Z.of_nat (length file)) ∧
    (cr_Probe spec = false → data_slice file (cr_Start spec) (cr_End spec) = payload).

Definition uploads_file (id : string) (file : filedata) (e : uploadEvent) : Prop :=
  match e with
  | EChunk id' contentRange payload _ => id' = id → piece_of file contentRange payload
  | _ => True
  end.

Definition jobs_of (id : string) (w : uploadWorld) : list (string * string * filedata) :=
  (filter (λ j, j.1 = id) (uw_jobs w)).*2.

Lemma slice_extends (data file : filedata) n :
  data `prefix_of` file → data ++ take n (drop (length data) file) `prefix_of` file.
Proof.
  intros [k ->]. rewrite drop_app_length. exists (drop n k). by rewrite <-app_assoc, take_drop.
Qed.

Lemma prefix_full (data file : filedata) : data `prefix_of` file → length data = length file → data = file.
Proof. intros [k ->]. rewrite length_app. destruct k; [by rewrite app_nil_r|simpl; lia]. Qed.

(** A chunk of the file leaves the session with a longer piece of it, and only
    the whole file is submitted. *)
Lemma chunk_verdict_spec file s s' v spec payload :
  us_Data s `prefix_of` file → us_Finalizing s = false → us_Completed s = false →
  (cr_TotalKnown spec = true → cr_Total spec = Z.of_nat (length file)) →
  (cr_Probe spec = false → data_slice file (cr_Start spec) (cr_End spec) = payload) →
  chunk_verdict s spec payload = (s', v) →
  us_ProjectID s' = us_ProjectID s ∧ us_Metadata s' = us_Metadata s ∧ us_Completed s' = false ∧
  match v with
  | Answered _ => us_Data s' `prefix_of` file ∧ us_Finalizing s' = false
  | Submit p m d => p = us_ProjectID s ∧ m = us_Metadata s ∧ d = file ∧ us_Finalizing s' = true
  end.
Proof.
  intros Hd Hf Hc Ht Hp. unfold chunk_verdict.
  repeat case_match; intros; simplify_eq/=; try done; bools; split_and!; try done.
  - rewrite Ht in * by done. destruct file; [done|simpl in *; lia].
  - assert (cr_Start spec = Z.of_nat (length (us_Data s))) as Hs by lia.
    rewrite <-Hp by done. unfold data_slice. rewrite Hs, Nat2Z.id. by apply slice_extends.
  - assert (cr_Start spec = Z.of_nat (length (us_Data s))) as Hs by lia.
    rewrite <-Hp by done. unfold data_slice. rewrite Hs, Nat2Z.id. by apply slice_extends.
  - assert (cr_Start spec = Z.of_nat (length (us_Data s))) as Hs by lia.
    apply prefix_full.
    + rewrite <-Hp by done. unfold data_slice. rewrite Hs, Nat2Z.id. by apply slice_extends.
    + rewrite Ht in * by done. lia.
Qed.

(** The state of one session in a run whose chunks are pieces of [file]. *)
Section OneFile.
Variables (id : string) (file : filedata).

Definition begun (trace : list uploadEvent) (p m : string) : Prop := ∃ t, EBegin id p m t ∈ trace.
Definition submitted (trace : list uploadEvent) (w : uploadWorld) : Prop :=
  ∃ p m, begun trace p m ∧ jobs_of id w = [(p, m, file)].

Definition session_ok (trace : list uploadEvent) (w : uploadWorld) (s : bigQueryUploadSession) : Prop :=
  if us_Completed s || us_Finalizing s then submitted trace w
  else begun trace (us_ProjectID s) (us_Metadata s) ∧ jobs_of id w = [] ∧ us_Data s `prefix_of` file.

Definition upload_inv (trace : list uploadEvent) (w : uploadWorld) : Prop :=
  (jobs_of id w = [] ∨ submitted trace w) ∧
  (∀ s, uw_sessions w !! id = Some s → id ∈ uw_used w ∧ session_ok trace w s) ∧
  (id ∈ uw_running w → id ∈ uw_used w ∧ submitted trace w) ∧
  (id ∉ uw_used w → jobs_of id w = []).

Lemma begun_app trace e p m : begun trace p m → begun (trace ++ [e]) p m.
Proof. intros [t Ht]. exists t. rewrite elem_of_app. by left. Qed.

Lemma submitted_app trace e w w' :
  jobs_of id w' = jobs_of id w → submitted trace w → submitted (trace ++ [e]) w'.
Proof. intros Hj (p & m & Hb & Hs). exists p, m. rewrite Hj. eauto using begun_app. Qed.

Lemma session_ok_app trace e w w' s :
  jobs_of id w' = jobs_of id w → session_ok trace w s → session_ok (trace ++ [e]) w' s.
Proof.
  intros Hj. unfold session_ok. destruct (_ || _); [by apply submitted_app|].
  rewrite Hj. intros (? & ? & ?). eauto using begun_app.
Qed.

(** Steps that leave this session and its jobs alone. *)
Lemma upload_inv_frame trace e w w' :
  jobs_of id w' = jobs_of id w →
  (∀ s, uw_sessions w' !! id = Some s → uw_sessions w !! id = Some s) →
  (id ∈ uw_running w' → id ∈ uw_running w) → (id ∈ uw_used w' ↔ id ∈ uw_used w) →
  upload_inv trace w → upload_inv (trace ++ [e]) w'.
Proof.
  intros Hj Hs Hr Hu (H1 & H2 & H3 & H4). unfold upload_inv. rewrite Hj.
  split_and!; [destruct H1; eauto using submitted_app| | |by rewrite Hu].
  - intros s [? ?]%Hs%H2. split; [by apply Hu|]. by eapply session_ok_app.
  - intros [? ?]%Hr%H3. split; [by apply Hu|]. by eapply submitted_app.
Qed.

Lemma accept_other u id' spec payload now u' v :
  acceptUploadChunk u id' spec payload now = (u', v) → id' ≠ id → u' !! id = u !! id.
Proof.
  unfold acceptUploadChunk. intros H ?. repeat case_match; simplify_eq; try done;
    by rewrite ?lookup_delete_ne, ?lookup_insert_ne.
Qed.

Lemma jobs_of_snoc w u r us id' j :
  jobs_of id (UploadWorld u r (uw_jobs w ++ [(id', j)]) us) = jobs_of id w ++ (if bool_decide (id' = id) then [j] else []).
Proof. unfold jobs_of. simpl. rewrite filter_app, fmap_app. f_equal. by case_bool_decide; rewrite filter_cons; case_decide. Qed.

Lemma upload_inv_chunk trace w contentRange payload now spec u v :
  upload_inv trace w → piece_of file contentRange payload →
  parseUploadContentRange contentRange = inr spec →
  acceptUploadChunk (uw_sessions w) id spec payload now = (u, v) →
  upload_inv (trace ++ [EChunk id contentRange payload now])
    (match v with
     | Answered _ => UploadWorld u (uw_running w) (uw_jobs w) (uw_used w)
     | Submit p m d => UploadWorld u ({[id]} ∪ uw_running w) (uw_jobs w ++ [(id, (p, m, d))]) (uw_used w)
     end).
Proof.
  intros Hinv Hpiece Hspec Ha. destruct (Hpiece _ Hspec) as [Htotal Hslice]. unfold acceptUploadChunk in Ha.
  destruct (uw_sessions w !! id) as [s|] eqn:Es; [|simplify_eq; by apply upload_inv_frame with w].
  destruct (upload_expired now s).
  { simplify_eq. apply upload_inv_frame with w; simpl; try done. intros ?. by rewrite lookup_delete_eq. }
  destruct (us_Completed s) eqn:Ec; [simplify_eq; by apply upload_inv_frame with w|].
  destruct (us_Finalizing s) eqn:Ef; [simplify_eq; by apply upload_inv_frame with w|].
  destruct (chunk_verdict _ _ _) as [s' v'] eqn:Ev. simplify_eq.
  destruct Hinv as (H1 & H2 & H3 & H4). destruct (H2 _ Es) as [Hused Hok]. unfold session_ok in Hok.
  rewrite Ec, Ef in Hok. destruct Hok as (Hb & Hj & Hp).
  apply (chunk_verdict_spec file) in Ev as (Hp' & Hm' & Hc' & Hv); simpl in *; try done.
  assert (id ∉ uw_running w) as Hnr.
  { intros [_ (p & m & _ & Hs)]%H3. congruence. }
  destruct v as [r|p m d].
  - destruct Hv as [Hpre Hfin]. unfold upload_inv; simpl. split_and!; [by left| |set_solver|done].
    intros s0. rewrite lookup_insert_eq. intros [= <-]. split; [done|]. unfold session_ok.
    rewrite Hc', Hfin, Hp', Hm'. simpl. split_and!; [by apply begun_app|done|done].
  - destruct Hv as (-> & -> & -> & Hfin). unfold upload_inv.
    assert (submitted (trace ++ [EChunk id contentRange payload now])
      (UploadWorld (<[id:=s']> (uw_sessions w)) ({[id]} ∪ uw_running w)
         (uw_jobs w ++ [(id, (us_ProjectID s, us_Metadata s, file))]) (uw_used w))) as Hsub.
    { exists (us_ProjectID s), (us_Metadata s). split; [by apply begun_app|].
      rewrite jobs_of_snoc, Hj. by rewrite bool_decide_eq_true_2. }
    split_and!; simpl; [by right| |done|done].
    intros s0. rewrite lookup_insert_eq. intros [= <-]. split; [done|]. unfold session_ok.
    by rewrite Hfin, orb_true_r.
Qed.

Lemma upload_inv_run trace w :
  upload_run trace w → Forall (uploads_file id file) trace → upload_inv trace w.
Proof.
  induction 1 as [|trace w e w' Hrun IH Hstep]; intros Hall.
  { unfold upload_inv, upload_start; simpl. split_and!; [by left| |set_solver|done]. intros s. by rewrite lookup_empty. }
  apply Forall_app in Hall as [Hall Hlast]. specialize (IH Hall). rewrite Forall_singleton in Hlast.
  destruct Hstep as [w id' p m now Hfresh|w id' cr payload now spec u r Hs Ha|w id' cr payload now spec u p m d Hs Ha|w id' c now Hin].
  - destruct (decide (id' = id)) as [->|Hne].
    + destruct IH as (H1 & H2 & H3 & H4). unfold upload_inv; simpl. specialize (H4 Hfresh).
      split_and!; [by left| |naive_solver|set_solver].
      intros s. unfold upload_begin. rewrite lookup_insert_eq. intros [= <-]. split; [set_solver|].
      unfold session_ok; simpl. split_and!; [|done|apply prefix_nil]. exists now. rewrite elem_of_app. right. set_solver.
    + apply upload_inv_frame with w; simpl; try done; [|set_solver].
      intros s. unfold upload_begin. rewrite lookup_insert_ne by done. by intros [? _]%map_lookup_filter_Some.
  - destruct (decide (id' = id)) as [->|Hne].
    + exact (upload_inv_chunk _ _ _ _ _ _ _ (Answered r) IH (Hlast eq_refl) Hs Ha).
    + apply upload_inv_frame with w; simpl; try done. intros s. by rewrite (accept_other _ _ _ _ _ _ _ Ha).
  - destruct (decide (id' = id)) as [->|Hne].
    + exact (upload_inv_chunk _ _ _ _ _ _ _ (Submit p m d) IH (Hlast eq_refl) Hs Ha).
    + apply upload_inv_frame with w; simpl; try done; [| |set_solver].
      * rewrite jobs_of_snoc. by rewrite bool_decide_eq_false_2, app_nil_r.
      * intros s. by rewrite (accept_other _ _ _ _ _ _ _ Ha).
  - unfold finish_upload. destruct (decide (id' = id)) as [->|Hne].
    + destruct IH as (H1 & H2 & H3 & H4). destruct (H3 Hin) as [Hu Hsub]. unfold upload_inv; simpl.
      assert (submitted (trace ++ [EFinish id c now])
        (UploadWorld (finish_upload (uw_sessions w) id c now) (uw_running w ∖ {[id]}) (uw_jobs w) (uw_used w))) as Hs'
        by (by eapply submitted_app).
      split_and!; [by right| |set_solver|done].
      intros s. destruct (uw_sessions w !! id) eqn:Es; [|congruence].
      rewrite lookup_insert_eq. intros [= <-]. split; [done|]. exact Hs'.
    + apply upload_inv_frame with w; simpl; try done; [|set_solver].
      intros s. destruct (uw_sessions w !! id') eqn:?; [|done]. by rewrite lookup_insert_ne.
Qed.
End OneFile.

(** C11. Resumable uploads are exact: if every chunk sent to a session is a piece
    of one file, in whatever order, repeated, by concurrent requests and
    interleaved with other sessions and expirations, then at most one load job is
    ever submitted for the session, with the metadata the session was opened with
    and exactly that file; and a session that reports completion has submitted it. *)
Theorem upload_submits_file_once (id : string) (file : filedata) (trace : list uploadEvent) (w : uploadWorld) :
  upload_run trace w → Forall (uploads_file id file) trace →
  (jobs_of id w = [] ∨ submitted id file trace w) ∧
  (∀ s, uw_sessions w !! id = Some s → us_Completed s = true → submitted id file trace w).
Proof.
  intros Hrun Hall. destruct (upload_inv_run id file trace w Hrun Hall) as (H1 & H2 & _ & _).
  split; [done|]. intros s Hs Hc. destruct (H2 s Hs) as [_ Hok]. unfold session_ok in Hok. by rewrite Hc in Hok.
Qed.

(** ** What a client sends *)

Definition content_range (start end_ total : Z) : string :=
  "bytes " +:+ format_int start +:+ "-" +:+ format_int end_ +:+ "/" +:+ format_int total.

Lemma uint_text_digits u : all_chars digit_char (NilEmpty.string_of_uint u) = true.
Proof. by induction u. Qed.

Lemma format_int_digits z : 0 ≤ z → all_chars digit_char (format_int z) = true ∧ format_int z ≠ "".
Proof.
  intros Hz. unfold format_int, NilZero.string_of_int.
  destruct (Z.to_int z) as [u|u] eqn:E.
  - destruct u as [|u|u|u|u|u|u|u|u|u|u]; (split; [|done]); try done; simpl; apply uint_text_digits.
  - destruct z; simpl in E; done.
Qed.

Lemma run_lit s : ∀ t k x, r_rest x = s +:+ t → run (lit s) k x = k (skip s t x).
Proof.
  induction s as [|c s IH]; intros t k x E.
  - rewrite str_app_nil in E. simpl. rewrite <-E. by rewrite skip_nil.
  - rewrite str_app_cons in E. assert (run (lit (String c s)) k x = run (lit s) k (advance c (s +:+ t) x)) as ->.
    { destruct s; simpl; rewrite E; unfold char_is; by rewrite Ascii.eqb_refl. }
    rewrite (IH t) by done. by rewrite skip_cons.
Qed.

(** A group of digits in front of something else. *)
Lemma run_digits n w t k x z :
  all_chars digit_char w = true → w ≠ "" → stops digit_char t = true → r_rest x = w +:+ t →
  k (mark n w t x) = Some z → run (digits n) k x = Some z.
Proof.
  intros Hw Hne Hs E Hk. rewrite <-record_skip in Hk by done.
  exact (run_plus_greedy (RSet digit_char) digit_char (reads_set _) w t (λ y, k (record n x y)) x z Hne E Hw Hk Hs).
Qed.

Lemma run_digits_or_star n w k x z :
  all_chars digit_char w = true → w ≠ "" → r_rest x = w →
  k (mark n w "" x) = Some z → run (digits_or_star n) k x = Some z.
Proof.
  intros Hw Hne E Hk. rewrite <-record_skip in Hk by (by rewrite str_app_nil_r).
  change (match run (rplus (RSet digit_char)) (λ y, k (record n x y)) x with
          | Some z => Some z | None => run (lit "*") (λ y, k (record n x y)) x end = Some z).
  rewrite (run_plus_greedy (RSet digit_char) digit_char (reads_set _) w "" _ x z Hne); [done|..|done|done|done].
  by rewrite str_app_nil_r.
Qed.

Lemma digit_printable c : digit_char c = true → printable c = true.
Proof. unfold digit_char, printable. rewrite !andb_true_iff, !Nat.leb_le. lia. Qed.

Lemma ends_printable_digits w : all_chars digit_char w = true → w ≠ "" →
  ∀ a c, printable c = true → ends_printable (String c (a +:+ w)).
Proof.
  intros Hw Hne a c Hc. split; [done|]. rewrite <-str_app_cons, rev_append.
  rewrite <-all_chars_rev in Hw. destruct (String.rev w) as [|d r] eqn:E.
  - apply (f_equal String.rev) in E. rewrite rev_rev in E. done.
  - rewrite str_app_cons. simpl in Hw. apply andb_true_iff in Hw as [Hd _]. by apply digit_printable.
Qed.

(** A [Content-Range] header written for a chunk is read back as that chunk:
    its offsets and the total survive the trip through the header's text. *)
Theorem content_range_roundtrip (start end_ total : Z) :
  0 ≤ start ≤ end_ → end_ < total → in_i64 total →
  parseUploadContentRange (content_range start end_ total) = inr (ContentRange false start end_ total true).
Proof.
  intros Hs He Ht. assert (in_i64 start ∧ in_i64 end_) as [? ?] by (unfold in_i64, min_i64 in *; lia).
  destruct (format_int_digits start) as [Ds Ns]; [lia|]. destruct (format_int_digits end_) as [De Ne]; [lia|].
  destruct (format_int_digits total) as [Dt Nt]; [lia|].
  unfold parseUploadContentRange.
  rewrite trim_space_id.
  2:{ unfold content_range. rewrite str_app_cons, <-!str_app_assoc. by apply ends_printable_digits. }
  unfold uploadChunkRangePattern. rewrite find_anchored.
  set (x0 := RSt None (content_range start end_ total) 0 []).
  assert (r_rest x0 = "bytes " +:+ (format_int start +:+ "-" +:+ format_int end_ +:+ "/" +:+ format_int total)) as E by done.
  edestruct (λ z H, ex_intro (λ z, run (lit "bytes " ⋅ digits 1 ⋅ lit "-" ⋅ digits 2 ⋅ lit "/" ⋅ digits_or_star 3 ⋅ REnd)%re Some x0 = Some z ∧
    sub z 1 = format_int start ∧ sub z 2 = format_int end_ ∧ sub z 3 = format_int total) z H) as (z & Hz & S1 & S2 & S3).
  { split.
    - rewrite run_cat, (run_lit _ _ _ _ E), run_cat.
      eapply (run_digits 1 _ ("-" +:+ format_int end_ +:+ "/" +:+ format_int total)); [exact Ds|done|reflexivity|reflexivity|].
      rewrite run_cat, (run_lit "-" (format_int end_ +:+ "/" +:+ format_int total)) by done.
      rewrite run_cat. eapply (run_digits 2 _ ("/" +:+ format_int total)); [exact De|done|reflexivity|reflexivity|].
      rewrite run_cat, (run_lit "/" (format_int total)) by done.
      rewrite run_cat. eapply run_digits_or_star; [exact Dt|done|reflexivity|]. reflexivity.
    - done. }
  rewrite Hz. cbn [fmap option_fmap option_map].
  assert (∀ n, sub (record 0 x0 z) (S n) = sub z (S n)) as Hsub by (intros n; reflexivity). rewrite !Hsub, S1, S2, S3.
  unfold parse_digits. rewrite !parse_format_int by done. cbn [default from_option id].
  assert (format_int total ≠ "*") by (intros Hx; by rewrite Hx in Dt).
  rewrite bool_decide_eq_true_2 by done.
  destruct (end_ <? start) eqn:E1; bools; [lia|]. destruct (total <=? end_) eqn:E2; bools; [lia|]. done.
Qed.

(** A client sends the chunks of a file in order, all at one instant. *)
Fixpoint send_chunks (u : uploadService) (path : string) (start total : Z) (chunks : list filedata) (now : Z)
    : uploadService * list chunkVerdict :=
  match chunks with
  | [] => (u, [])
  | chunk :: chunks =>
      let next := start + Z.of_nat (length chunk) in
      let '(u, v) := receive_chunk u "PUT" path (content_range start (next - 1) total) chunk now in
      let '(u, vs) := send_chunks u path next total chunks now in
      (u, v :: vs)
  end.

Definition upload_path (id : string) : string := "/_emulator/bigquery/uploads/" +:+ id.

Lemma no_slash_chars s : str_mem "/" s = false → all_chars (λ c, negb (bool_decide (c = "/"%char))) s = true.
Proof.
  induction s as [|c s IH]; [done|]. simpl. rewrite orb_false_iff. intros [Hc Hs]. rewrite IH by done.
  destruct (decide (c = "/"%char)) as [->|]; [done|by rewrite bool_decide_eq_false_2].
Qed.

Lemma upload_path_id id : id ≠ "" → str_mem "/" id = false → upload_session_id (upload_path id) = Some id.
Proof.
  intros Hne Hs. unfold upload_session_id, upload_path. rewrite trim_prefix_app.
  assert (trim_char "/" id = id) as ->.
  { unfold trim_char. assert (Forall (λ e, all_chars (λ c, negb (bool_decide (c = "/"%char))) e = false) ["/"]) as Hslash
      by (repeat constructor).
    assert (all_chars (λ c, negb (bool_decide (c = "/"%char))) id = true) as Hid by (by apply no_slash_chars).
    rewrite (trim_go_outside_id _ _ id Hslash Hid), (trim_go_outside_id _ _ _ Hslash); [apply rev_rev|].
    by rewrite all_chars_rev. }
  by rewrite bool_decide_eq_false_2, Hs.
Qed.

(** The verdicts a client sees: all but the last chunk are acknowledged with the
    bytes received, the last one starts the job. *)
Fixpoint expected_verdicts (projectID metadata : string) (file : filedata) (start : Z) (chunks : list filedata)
    : list chunkVerdict :=
  match chunks with
  | [] => []
  | [_] => [Submit projectID metadata file]
  | chunk :: chunks =>
      let next := start + Z.of_nat (length chunk) in
      Answered (ResumeIncomplete next) :: expected_verdicts projectID metadata file next chunks
  end.

Lemma next_chunk s chunk total :
  chunk ≠ [] → us_Completed s = false →
  let start := Z.of_nat (length (us_Data s)) in
  let next := start + Z.of_nat (length chunk) in
  next ≤ total → in_i64 total →
  let s' := s <| us_Data := us_Data s ++ chunk |> in
  chunk_verdict s (ContentRange false start (next - 1) total true) chunk =
  if next <? total then (s', Answered (ResumeIncomplete next))
  else (s' <| us_Finalizing := true |>, Submit (us_ProjectID s) (us_Metadata s) (us_Data s ++ chunk)).
Proof.
  intros Hne Hc start next Hn Ht s'. subst s'. unfold chunk_verdict, i64_add, i64_sub.
  cbn [cr_Probe cr_End cr_Start cr_Total cr_TotalKnown]. fold start.
  assert (0 < length chunk)%nat by (destruct chunk; simpl; [done|lia]).
  unfold in_i64, min_i64, max_i64 in Ht.
  rewrite (wrap64_id (next - 1 - start)) by (unfold in_i64, min_i64, max_i64; lia).
  rewrite wrap64_id by (unfold in_i64, min_i64, max_i64; lia).
  rewrite (proj2 (Z.eqb_eq _ _)) by lia. cbn [negb]. rewrite Z.ltb_irrefl. cbn. rewrite length_app, Nat2Z.inj_add.
  fold start next. destruct (next <? total) eqn:E; [done|]. bools. rewrite (proj2 (Z.eqb_eq _ _)) by lia. done.
Qed.

Lemma send_chunks_spec id projectID metadata total now : ∀ chunks u s,
  id ≠ "" → str_mem "/" id = false → in_i64 total →
  chunks ≠ [] → Forall (λ c, c ≠ []) chunks →
  u !! id = Some s → upload_expired now s = false → upload_expired now (s <| us_UpdatedAt := now |>) = false →
  us_Completed s = false → us_Finalizing s = false →
  us_ProjectID s = projectID → us_Metadata s = metadata →
  let start := Z.of_nat (length (us_Data s)) in
  total = start + Z.of_nat (length (concat chunks)) →
  (send_chunks u (upload_path id) start total chunks now).2 =
  expected_verdicts projectID metadata (us_Data s ++ concat chunks) start chunks.
Proof.
  induction chunks as [|chunk chunks IH]; [done|].
  intros u s Hid Hsl Ht _ Hall Hu Hex Hex' Hc Hf Hp Hm start Htotal.
  apply Forall_cons in Hall as [Hne Hall]. assert (0 < length chunk)%nat by (destruct chunk; simpl; [done|lia]).
  simpl in Htotal. rewrite length_app in Htotal.
  set (next := start + Z.of_nat (length chunk)).
  assert (receive_chunk u "PUT" (upload_path id) (content_range start (next - 1) total) chunk now =
    (let '(s', v) := chunk_verdict (s <| us_UpdatedAt := now |>) (ContentRange false start (next - 1) total true) chunk in
     (<[id := s']> u, v))) as Hr.
  { unfold receive_chunk. rewrite bool_decide_eq_true_2 by done. cbn [negb].
    rewrite upload_path_id by done. rewrite content_range_roundtrip; [|lia|lia|done].
    unfold acceptUploadChunk. rewrite Hu, Hex, Hc, Hf. done. }
  assert (chunk_verdict (s <| us_UpdatedAt := now |>) (ContentRange false start (next - 1) total true) chunk =
    if next <? total then (s <| us_UpdatedAt := now |> <| us_Data := us_Data s ++ chunk |>, Answered (ResumeIncomplete next))
    else (s <| us_UpdatedAt := now |> <| us_Data := us_Data s ++ chunk |> <| us_Finalizing := true |>,
          Submit (us_ProjectID s) (us_Metadata s) (us_Data s ++ chunk))) as Hv.
  { assert (next ≤ total) as Hle by lia. set (s1 := s <| us_UpdatedAt := now |>). exact (next_chunk s1 chunk total Hne Hc Hle Ht). }
  rewrite Hv in Hr.
  cbn [send_chunks]. fold next. rewrite Hr. destruct chunks as [|chunk' chunks].
  - simpl in *. assert ((next <? total) = false) as -> by (apply Z.ltb_ge; lia). simpl. by rewrite app_nil_r, Hp, Hm.
  - assert (next < total) as Hlt.
    { apply Forall_cons in Hall as [Hne' _]. destruct chunk'; [done|]. simpl in Htotal. lia. }
    apply Z.ltb_lt in Hlt as ->.
    set (s' := s <| us_UpdatedAt := now |> <| us_Data := us_Data s ++ chunk |>).
    assert (Z.of_nat (length (us_Data s')) = next) as Hnext by (simpl; rewrite length_app; lia).
    specialize (IH (<[id := s']> u) s'). rewrite Hnext in IH.
    rewrite (surjective_pairing (send_chunks _ _ _ _ _ _)). cbn [snd expected_verdicts]. f_equal.
    rewrite IH; try done; [change (us_Data s') with (us_Data s ++ chunk); by rewrite <-app_assoc|by rewrite lookup_insert_eq|lia].
Qed.


(** ** Witnesses *)

Definition letters (s : string) : filedata := String.list_ascii_of_string s.

Lemma content_range_roundtrip_witness :
  parseUploadContentRange "bytes 0-3/10" = inr (ContentRange false 0 3 10 true).
Proof. apply (content_range_roundtrip 0 3 10); unfold in_i64, min_i64, max_i64; lia. Defined.


Definition demo_trace : list uploadEvent :=
  [EBegin "f00d" "p" "{}" 100; EChunk "f00d" "bytes 0-1/*" (letters "a,") 110;
   EChunk "f00d" "bytes 0-1/3" (letters "a,") 120; EChunk "f00d" "bytes 2-2/3" (letters "b") 130;
   EFinish "f00d" (UploadResponse 200 [] "job") 140].

(** The step relation, run. *)
Definition upload_exec (w : uploadWorld) (e : uploadEvent) : option uploadWorld :=
  match e with
  | EBegin id p m now =>
      if bool_decide (id ∈ uw_used w) then None
      else Some (UploadWorld (upload_begin (uw_sessions w) id p m now) (uw_running w) (uw_jobs w) ({[id]} ∪ uw_used w))
  | EChunk id contentRange payload now =>
      match parseUploadContentRange contentRange with
      | inl _ => None
      | inr spec =>
          match acceptUploadChunk (uw_sessions w) id spec payload now with
          | (u, Answered _) => Some (UploadWorld u (uw_running w) (uw_jobs w) (uw_used w))
          | (u, Submit p m d) =>
              Some (UploadWorld u ({[id]} ∪ uw_running w) (uw_jobs w ++ [(id, (p, m, d))]) (uw_used w))
          end
      end
  | EFinish id captured now =>
      if bool_decide (id ∈ uw_running w)
      then Some (UploadWorld (finish_upload (uw_sessions w) id captured now) (uw_running w ∖ {[id]}) (uw_jobs w) (uw_used w))
      else None
  end.

Lemma upload_exec_step w e w' : upload_exec w e = Some w' → upload_step w e w'.
Proof.
  destruct e as [id p m now|id cr payload now|id c now]; simpl.
  - case_bool_decide; [done|]. intros [= <-]. by constructor.
  - destruct (parseUploadContentRange cr) as [|spec] eqn:Ep; [done|].
    destruct (acceptUploadChunk _ _ _ _ _) as [u [r|p m d]] eqn:Ea; intros [= <-]; [by eapply step_answer|by eapply step_submit].
  - case_bool_decide; [|done]. intros [= <-]. by constructor.
Qed.

Fixpoint upload_execs (w : uploadWorld) (l : list uploadEvent) : option uploadWorld :=
  match l with [] => Some w | e :: l => w ← upload_exec w e; upload_execs w l end.

Lemma upload_execs_run l : ∀ trace w w',
  upload_run trace w → upload_execs w l = Some w' → upload_run (trace ++ l) w'.
Proof.
  induction l as [|e l IH]; intros trace w w' Hr; simpl; [intros [= <-]; by rewrite app_nil_r|].
  destruct (upload_exec w e) as [w1|] eqn:E; [|done]. simpl. intros Hl.
  replace (trace ++ e :: l) with ((trace ++ [e]) ++ l) by (by rewrite <-app_assoc).
  eapply IH; [|exact Hl]. econstructor; [done|]. by apply upload_exec_step.
Qed.

Lemma upload_submits_file_once_witness :
  ∃ w, upload_run demo_trace w ∧ jobs_of "f00d" w = [("p", "{}", letters "a,b")] ∧
    (jobs_of "f00d" w = [] ∨ submitted "f00d" (letters "a,b") demo_trace w).
Proof.
  assert (jobs_of "f00d" <$> upload_execs upload_start demo_trace = Some [("p", "{}", letters "a,b")]) as E
    by (vm_compute; reflexivity).
  destruct (upload_execs upload_start demo_trace) as [w|] eqn:Ew; [|discriminate E]. exists w.
  pose proof (upload_execs_run demo_trace [] _ _ run_start Ew) as Hrun. simpl app in Hrun.
  split; [exact Hrun|]. split; [injection E; auto|].
  apply (upload_submits_file_once "f00d" (letters "a,b") demo_trace w Hrun).
  unfold demo_trace. repeat apply Forall_cons_2; try exact I; [..|apply Forall_nil_2];
    intros _ spec Hs; vm_compute in Hs; injection Hs as <-; split; intros; vm_compute; reflexivity || discriminate.
Defined.

(** A file whose chunks all carry an unknown total can never be finished: the
    closing [bytes */n] of the protocol is taken for a question about progress. *)
Example unknown_total_never_finishes :
  let u := (receive_chunk (upload_begin ∅ "f00d" "p" "{}" 100) "PUT" (upload_path "f00d") "bytes 0-1/*" (letters "ab") 110).1 in
  (receive_chunk u "PUT" (upload_path "f00d") "bytes */2" [] 120).2 = Answered (ResumeIncomplete 2).
Proof. vm_compute. reflexivity. Qed.
