(* ===== verification/Jobs.v ===== *)
(** * Jobs: data and service methods (jobs_service.go)

    [jobService] keeps the jobs of each project, the requestId index, the
    counters and the semaphores of the executor.  A semaphore is a buffered
    channel; the model keeps its occupancy, and its capacity in [jobConfig]
    ([None]: no limiter).  The goroutine a job runs on is in JobsRun.v; here is
    what each of its critical sections does.

    A job's configuration fields, copied from the request and never changed
    but for the uploaded bytes, are one record, [jobPayload].  The SQL parser
    that finds the target of a statement is a parameter of [jobs_insert]. *)

From S2P Require Import Prelude GoStrings GoTime Pagination Cells TableModel TableStore.
From Stdlib Require Import Ascii.

Inductive jobState := jobStatePending | jobStateRunning | jobStateDone.
#[export] Instance jobState_eq_dec : EqDecision jobState.
Proof. solve_decision. Defined.
Definition jobState_text (st : jobState) : string :=
  match st with jobStatePending => "PENDING" | jobStateRunning => "RUNNING" | jobStateDone => "DONE" end.

Record storedQueryParameter := QueryParameter {
  qp_Name : string; qp_Type : string; qp_Value : string; qp_IsNull : bool }.

Record jobPayload := JobPayload {
  jp_SourceTables : list tableReference;
  jp_LoadSchema : schema; jp_LoadSourceURIs : list string;
  jp_LoadInlineData : option string; jp_LoadInlineName : string; jp_LoadInline : bool;
  jp_LoadSourceFormat : string; jp_LoadFieldDelimiter : string; jp_LoadSkipLeadingRows : Z;
  jp_LoadCompression : string; jp_LoadAutodetect : bool;
  jp_ExtractSourceTable : tableReference; jp_ExtractDestinationURIs : list string;
  jp_ExtractDestinationFormat : string; jp_ExtractFieldDelimiter : string;
  jp_ExtractPrintHeader : bool; jp_ExtractCompression : string;
  jp_ParameterMode : string; jp_QueryParameters : list storedQueryParameter }.
#[export] Instance jobPayload_eta : Eta jobPayload := λ p,
  JobPayload (jp_SourceTables p) (jp_LoadSchema p) (jp_LoadSourceURIs p) (jp_LoadInlineData p)
    (jp_LoadInlineName p) (jp_LoadInline p) (jp_LoadSourceFormat p) (jp_LoadFieldDelimiter p)
    (jp_LoadSkipLeadingRows p) (jp_LoadCompression p) (jp_LoadAutodetect p)
    (jp_ExtractSourceTable p) (jp_ExtractDestinationURIs p) (jp_ExtractDestinationFormat p)
    (jp_ExtractFieldDelimiter p) (jp_ExtractPrintHeader p) (jp_ExtractCompression p)
    (jp_ParameterMode p) (jp_QueryParameters p).

Record jobError := JobError { je_Reason : string; je_Message : string; je_Location : string }.

Record jobStatistics := JobStatistics {
  st_Executor : string; st_Simulated : bool; st_TotalSlotMs : Z; st_ProcessedBytes : Z;
  st_OutputRows : Z; st_StatementType : string; st_DMLAffectedRows : Z;
  st_ResultSchema : option schema; st_ResultRows : list row }.
#[export] Instance jobStatistics_eta : Eta jobStatistics := λ s,
  JobStatistics (st_Executor s) (st_Simulated s) (st_TotalSlotMs s) (st_ProcessedBytes s)
    (st_OutputRows s) (st_StatementType s) (st_DMLAffectedRows s) (st_ResultSchema s) (st_ResultRows s).

Record jobRecord := JobRecord {
  jr_ProjectID : string; jr_JobID : string; jr_ParentJobID : string; jr_JobType : string;
  jr_Priority : string; jr_ResourceKey : string; jr_Payload : jobPayload;
  jr_TargetDataset : string; jr_TargetTable : string;
  jr_CreateDisposition : string; jr_WriteDisposition : string;
  jr_State : jobState; jr_RequestID : string; jr_UserEmail : string; jr_QueryText : string;
  jr_IsScript : bool; jr_SessionID : string; jr_Statistics : jobStatistics;
  jr_CreatedAt : Z; jr_StartedAt : Z; jr_EndedAt : Z; jr_CancelRequested : bool;
  jr_ErrorReason : string; jr_ErrorMessage : string; jr_Errors : list jobError }.
#[export] Instance jobRecord_eta : Eta jobRecord := λ j,
  JobRecord (jr_ProjectID j) (jr_JobID j) (jr_ParentJobID j) (jr_JobType j) (jr_Priority j)
    (jr_ResourceKey j) (jr_Payload j) (jr_TargetDataset j) (jr_TargetTable j)
    (jr_CreateDisposition j) (jr_WriteDisposition j) (jr_State j) (jr_RequestID j)
    (jr_UserEmail j) (jr_QueryText j) (jr_IsScript j) (jr_SessionID j) (jr_Statistics j)
    (jr_CreatedAt j) (jr_StartedAt j) (jr_EndedAt j) (jr_CancelRequested j) (jr_ErrorReason j)
    (jr_ErrorMessage j) (jr_Errors j).

Record jobInsertOptions := JobInsertOptions {
  jo_ProjectID : string; jo_RequestID : string; jo_ParentJobID : string; jo_UserEmail : string;
  jo_QueryText : string; jo_JobType : string; jo_Priority : string; jo_Payload : jobPayload;
  jo_CreateDisposition : string; jo_WriteDisposition : string;
  jo_TargetDataset : string; jo_TargetTable : string; jo_IsScript : bool; jo_SessionID : string;
  jo_RequestedJobID : string }.
#[export] Instance jobInsertOptions_eta : Eta jobInsertOptions := λ o,
  JobInsertOptions (jo_ProjectID o) (jo_RequestID o) (jo_ParentJobID o) (jo_UserEmail o)
    (jo_QueryText o) (jo_JobType o) (jo_Priority o) (jo_Payload o) (jo_CreateDisposition o)
    (jo_WriteDisposition o) (jo_TargetDataset o) (jo_TargetTable o) (jo_IsScript o)
    (jo_SessionID o) (jo_RequestedJobID o).

Record requestIDRecord := RequestIDRecord { rq_JobID : string; rq_CreatedAt : Z }.

(** Fixed when the service is made. *)
Record jobConfig := JobConfig {
  jc_requestIDTTL : Z; jc_runSlots : option nat; jc_storageWriteSlots : option nat }.

Record jobService := JobService {
  js_jobsByProject : gmap string (gmap string jobRecord);
  js_requestIDIndex : gmap string (gmap string requestIDRecord);
  js_projectVersions : gmap string Z;
  js_counter : Z; js_submittedTotal : Z; js_completedTotal : Z; js_failedTotal : Z;
  js_runSlots : nat; js_storageWriteSlots : nat; js_resourceSlots : gmap string nat }.
#[export] Instance jobService_eta : Eta jobService := λ s,
  JobService (js_jobsByProject s) (js_requestIDIndex s) (js_projectVersions s) (js_counter s)
    (js_submittedTotal s) (js_completedTotal s) (js_failedTotal s) (js_runSlots s)
    (js_storageWriteSlots s) (js_resourceSlots s).

(** [newJobServiceWithWorkerLimit] and the two environment limits: a missing,
    malformed or non-positive value disables the limiter. *)
Definition worker_limit (env : string) : option nat :=
  let raw := trim_space env in
  if bool_decide (raw = "") then None
  else match parse_int raw with
       | Some n => if n <=? 0 then None else Some (Z.to_nat n)
       | None => None
       end.
Definition newJobConfig (envJobWorkers envStorageWriteWorkers : string) : jobConfig :=
  JobConfig (15 * 60 * second) (worker_limit envJobWorkers) (worker_limit envStorageWriteWorkers).
Definition newJobService : jobService := JobService ∅ ∅ ∅ 0 0 0 0 0 0 ∅.

(** ** Helpers *)

Definition lookup_job (s : jobService) (p id : string) : option jobRecord :=
  js_jobsByProject s !! p ≫= λ proj, proj !! id.

Definition set_job (p id : string) (j : jobRecord) (s : jobService) : jobService :=
  s <| js_jobsByProject ::= λ m, <[p := <[id := j]> (default ∅ (m !! p))]> m |>.

(** [s.projectVersions[projectID]++] *)
Definition bump_job_version (p : string) (s : jobService) : jobService :=
  s <| js_projectVersions ::= λ m, <[p := default 0 (m !! p) + 1]> m |>.

Definition job_id_char (c : ascii) : bool :=
  let n := nat_of_ascii c in
  ((65 <=? n) && (n <=? 90) || (97 <=? n) && (n <=? 122) || (48 <=? n) && (n <=? 57) ||
   (n =? 95) || (n =? 45))%nat.
Fixpoint str_forall (f : ascii → bool) (s : string) : bool :=
  match s with EmptyString => true | String c r => f c && str_forall f r end.
Definition maxJobIDLength : nat := 1024.
Definition isValidJobID (id : string) : bool :=
  (String.length id <=? maxJobIDLength)%nat && negb (bool_decide (id = "")) && str_forall job_id_char id.

Definition normalizePriority (p : string) : string :=
  if bool_decide (to_upper (trim_space p) = "BATCH") then "BATCH" else "INTERACTIVE".

Definition normalizeJobType (o : jobInsertOptions) : string :=
  if jo_IsScript o then "script"
  else
    let t := to_lower (trim_space (jo_JobType o)) in
    if bool_decide (t ∈ ["query"; "load"; "extract"; "copy"]) then t else "query".

Definition buildResourceKey (o : jobInsertOptions) : string :=
  if bool_decide (jo_TargetDataset o = "") || bool_decide (jo_TargetTable o = "") then ""
  else jo_ProjectID o +:+ ":" +:+ jo_TargetDataset o +:+ "." +:+ jo_TargetTable o.

Definition requiresStorageWriteBackpressure (jobType resourceKey : string) : bool :=
  let t := to_lower (trim_space jobType) in
  if bool_decide (t = "load") || bool_decide (t = "copy") then true
  else if bool_decide (t = "query") then negb (bool_decide (trim_space resourceKey = ""))
  else false.

Definition isDMLStatementType (t : string) : bool :=
  bool_decide (t ∈ ["INSERT"; "UPDATE"; "DELETE"; "MERGE"; "TRUNCATE_TABLE"]).

Definition newSimulatedStatistics (jobType : string) : jobStatistics :=
  JobStatistics jobType true 0 0 0 "" 0 None [].

Definition splitScriptStatements (query : string) : list string :=
  let out := filter (λ p, p ≠ "") (trim_space <$> split_on ";" query) in
  match out with [] => ["noop"] | _ => out end.

Definition applyExecutorResult (j : jobRecord) : jobRecord :=
  if contains (to_upper (jr_QueryText j)) "FORCE_ERROR" then
    j <| jr_ErrorReason := "invalid" |>
      <| jr_ErrorMessage := "Simulated forced error from query text" |>
      <| jr_Errors := [JobError "invalid" "Simulated forced error from query text" "query";
                       JobError "secondary" "Additional error detail" "execution"] |>
  else
    let '(slot, bytes, rows) :=
      if bool_decide (jr_JobType j = "load") then (75, 2048, 20)
      else if bool_decide (jr_JobType j = "extract") then (40, 1024, 10)
      else if bool_decide (jr_JobType j = "copy") then (30, 768, 8)
      else if bool_decide (jr_JobType j = "script") then (90, 1536, 12)
      else (60, 512, 5) in
    j <| jr_Statistics ::= λ s, s <| st_TotalSlotMs := slot |> <| st_ProcessedBytes := bytes |>
                                  <| st_OutputRows := rows |> |>.

(** ** Submitting a job *)

(** [ref.CreatedAt.Add(ttl).Before(now)] entries go, then empty projects. *)
Definition cleanupExpiredRequestIDsLocked (cfg : jobConfig) (now : Z)
    (idx : gmap string (gmap string requestIDRecord)) : gmap string (gmap string requestIDRecord) :=
  if jc_requestIDTTL cfg <=? 0 then idx
  else
    omap (λ m, let m := filter (λ '(_, ref), ¬ (rq_CreatedAt ref + jc_requestIDTTL cfg < now)) m in
               if bool_decide (m = ∅) then None else Some m) idx.

Inductive jobIDError := InvalidJobID | JobAlreadyExists.

Definition resolveJobIDLocked (s : jobService) (p requestedJobID : string)
    : jobService * (jobIDError + string) :=
  let requested := trim_space requestedJobID in
  if bool_decide (requested = "") then
    let s := s <| js_counter ::= Z.succ |> in (s, inr ("job_" +:+ format_int (js_counter s)))
  else if negb (isValidJobID requested) then (s, inl InvalidJobID)
  else match lookup_job s p requested with
       | Some _ => (s, inl JobAlreadyExists)
       | None => (s, inr requested)
       end.

Definition trim_payload (p : jobPayload) : jobPayload :=
  p <| jp_LoadInlineName ::= trim_space |> <| jp_LoadSourceFormat ::= trim_space |>
    <| jp_LoadCompression ::= trim_space |> <| jp_ExtractDestinationFormat ::= trim_space |>
    <| jp_ExtractCompression ::= trim_space |>.

Definition new_job (o : jobInsertOptions) (jobID : string) (now : Z) : jobRecord :=
  JobRecord (jo_ProjectID o) jobID (jo_ParentJobID o) (normalizeJobType o)
    (normalizePriority (jo_Priority o)) (buildResourceKey o) (trim_payload (jo_Payload o))
    (trim_space (jo_TargetDataset o)) (trim_space (jo_TargetTable o))
    (normalizeCreateDisposition (jo_CreateDisposition o))
    (normalizeWriteDisposition (jo_WriteDisposition o))
    jobStatePending (jo_RequestID o) (jo_UserEmail o) (jo_QueryText o) (jo_IsScript o)
    (jo_SessionID o) (newSimulatedStatistics (normalizeJobType o))
    now zero_time zero_time false "" "" [].

(** The job, and whether it is new: only then a goroutine is started for it. *)
Definition jobs_insert (cfg : jobConfig) (statement_target : string → string → option tableReference)
    (s : jobService) (o : jobInsertOptions) (now : Z)
    : jobService * (jobIDError + jobRecord * bool) :=
  let o :=
    if bool_decide (trim_space (jo_TargetDataset o) = "") && bool_decide (trim_space (jo_TargetTable o) = "")
       && negb (jo_IsScript o)
    then match statement_target (jo_ProjectID o) (jo_QueryText o) with
         | Some t => o <| jo_TargetDataset := ref_DatasetID t |> <| jo_TargetTable := ref_TableID t |>
         | None => o
         end
    else o in
  let p := jo_ProjectID o in
  let s := s <| js_requestIDIndex ::= cleanupExpiredRequestIDsLocked cfg now |> in
  let existing :=
    if bool_decide (jo_RequestID o = "") then None
    else idx ← js_requestIDIndex s !! p; ref ← idx !! jo_RequestID o; lookup_job s p (rq_JobID ref) in
  match existing with
  | Some j => (s, inr (j, false))
  | None =>
      let '(s, r) := resolveJobIDLocked s p (jo_RequestedJobID o) in
      match r with
      | inl e => (s, inl e)
      | inr jobID =>
          let j := new_job o jobID now in
          let s := set_job p jobID j s in
          let s := s <| js_submittedTotal ::= Z.succ |> in
          let s :=
            if bool_decide (jo_RequestID o = "") then s
            else s <| js_requestIDIndex ::= λ m,
                   <[p := <[jo_RequestID o := RequestIDRecord jobID now]> (default ∅ (m !! p))]> m |> in
          (s, inr (j, true))
      end
  end.

Definition no_payload : jobPayload :=
  JobPayload [] [] [] None "" false "" "" 0 "" false (TableRef "" "" "") [] "" "" false "" "" [].

(** A script's children, one per statement; they carry the whole text. *)
Definition child_options (o : jobInsertOptions) (parent : string) : jobInsertOptions :=
  JobInsertOptions (jo_ProjectID o) "" parent (jo_UserEmail o) (jo_QueryText o) "query" ""
    no_payload "" "" "" "" false "" "".

Fixpoint insert_children (cfg : jobConfig) (statement_target : string → string → option tableReference)
    (s : jobService) (o : jobInsertOptions) (now : Z) (parts : list string)
    : jobService * list jobRecord :=
  match parts with
  | [] => (s, [])
  | _ :: rest =>
      let '(s, r) := jobs_insert cfg statement_target s o now in
      let '(s, children) := insert_children cfg statement_target s o now rest in
      (s, match r with inr (j, _) => j :: children | inl _ => children end)
  end.

Definition insertScriptWithChildren (cfg : jobConfig)
    (statement_target : string → string → option tableReference) (s : jobService)
    (o : jobInsertOptions) (now : Z)
    : jobService * (jobIDError + jobRecord * list jobRecord * bool) :=
  let '(s, r) := jobs_insert cfg statement_target s o now in
  match r with
  | inl e => (s, inl e)
  | inr (parent, false) => (s, inr (parent, [], false))
  | inr (parent, true) =>
      let '(s, children) :=
        insert_children cfg statement_target s (child_options o (jr_JobID parent)) now
          (splitScriptStatements (jo_QueryText o)) in
      (s, inr (parent, children, true))
  end.

(** ** Reading, cancelling, listing *)

Definition jobs_get (s : jobService) (p id : string) : option jobRecord := lookup_job s p id.

Definition drop_inline (j : jobRecord) : jobRecord :=
  j <| jr_Payload ::= λ p, p <| jp_LoadInlineData := None |> |>.

Definition stop_job (message : string) (now : Z) (j : jobRecord) : jobRecord :=
  j <| jr_State := jobStateDone |> <| jr_ErrorReason := "stopped" |>
    <| jr_ErrorMessage := message |> <| jr_EndedAt := now |>.

Definition jobs_cancel (s : jobService) (p id : string) (now : Z) : jobService * option jobRecord :=
  match lookup_job s p id with
  | None => (s, None)
  | Some j =>
      let j := j <| jr_CancelRequested := true |> in
      let j := if bool_decide (jr_State j = jobStatePending)
               then drop_inline (stop_job "job cancelled before execution" now j) else j in
      (bump_job_version p (set_job p id j s), Some j)
  end.

Record jobListFilters := JobListFilters {
  jf_StateFilter : string; jf_UserEmail : string; jf_AllUsers : bool; jf_ParentJobID : string;
  jf_MinCreated : Z; jf_MaxCreated : Z }.

(** Newest first; jobs created at the same instant by descending id. *)
Definition job_before (a b : jobRecord) : Prop :=
  jr_CreatedAt b < jr_CreatedAt a ∨ (jr_CreatedAt a = jr_CreatedAt b ∧ String.le (jr_JobID b) (jr_JobID a)).
#[export] Instance job_before_dec : RelDecision job_before.
Proof. intros a b. unfold job_before. apply _. Defined.

Definition job_selected (f : jobListFilters) (j : jobRecord) : bool :=
  (bool_decide (jf_StateFilter f = "") || bool_decide (jobState_text (jr_State j) = jf_StateFilter f)) &&
  (jf_AllUsers f || bool_decide (jf_UserEmail f = "") || bool_decide (jr_UserEmail j = jf_UserEmail f)) &&
  (bool_decide (jf_ParentJobID f = "") || bool_decide (jr_ParentJobID j = jf_ParentJobID f)) &&
  ((jf_MinCreated f =? zero_time) || (jf_MinCreated f <=? jr_CreatedAt j)) &&
  ((jf_MaxCreated f =? zero_time) || (jr_CreatedAt j <=? jf_MaxCreated f)).

Definition jobs_matching (s : jobService) (p : string) (f : jobListFilters) : list jobRecord :=
  filter (λ j, job_selected f j = true)
    (merge_sort job_before (map_to_list (default ∅ (js_jobsByProject s !! p))).*2).

(** The next index is rendered in decimal, [-1] standing for no next page. *)
Definition jobs_list (s : jobService) (p : string) (f : jobListFilters) (start size : Z)
    : res Empty_set (list jobRecord * Z * Z) :=
  match page_slice (jobs_matching s p f) start size with
  | Ok (page, next) => Ok (page, next, default 0 (js_projectVersions s !! p))
  | Err e => Err e
  | Panic => Panic
  end.

(** ** The critical sections of [run] *)

Definition recordJobOutcomeLocked (j : jobRecord) (s : jobService) : jobService :=
  if bool_decide (jr_ErrorReason j = "") then s <| js_completedTotal ::= Z.succ |>
  else s <| js_failedTotal ::= Z.succ |>.

(** [jr.State = DONE; ...; recordJobOutcomeLocked(jr)] *)
Definition finish_job (p id : string) (j : jobRecord) (s : jobService) : jobService :=
  recordJobOutcomeLocked j (set_job p id (drop_inline j) s).

(** First section: [None] ends the goroutine; otherwise the job type and the
    resource key it goes on with. *)
Definition run_first_check (s : jobService) (p id : string) (now : Z)
    : jobService * option (string * string) :=
  match lookup_job s p id with
  | None => (s, None)
  | Some j =>
      if jr_CancelRequested j
      then (finish_job p id (stop_job "job cancelled before execution" now j) s, None)
      else (s, Some (jr_JobType j, jr_ResourceKey j))
  end.

(** Second section: whether the goroutine goes on to execute the job. *)
Definition run_begin (s : jobService) (p id : string) (now : Z) : jobService * bool :=
  match lookup_job s p id with
  | None => (s, false)
  | Some j =>
      if jr_CancelRequested j
      then (finish_job p id (stop_job "job cancelled before execution" now j) s, false)
      else (bump_job_version p (set_job p id
              (j <| jr_State := jobStateRunning |> <| jr_StartedAt := now |>) s), true)
  end.

(** What [runJobExecutors] returns: no executor is wired for the type, or the
    one that is returned an error or its statistics. *)
Inductive executorOutcome :=
| NotExecuted
| ExecutorError (message location : string)
| Executed (stats : jobStatistics).

(** Last section. *)
Definition run_finish (s : jobService) (p id : string) (outcome : executorOutcome) (now : Z) : jobService :=
  match lookup_job s p id with
  | None => s
  | Some j =>
      let j :=
        if jr_CancelRequested j then stop_job "job cancelled" now j
        else
          let j := match outcome with
                   | ExecutorError m loc =>
                       j <| jr_ErrorReason := "invalid" |> <| jr_ErrorMessage := m |>
                         <| jr_Errors := [JobError "invalid" m loc] |>
                   | Executed stats => j <| jr_Statistics := stats |>
                   | NotExecuted => applyExecutorResult j
                   end in
          j <| jr_State := jobStateDone |> <| jr_EndedAt := now |> in
      bump_job_version p (finish_job p id j s)
  end.

Definition recoverJobPanic (s : jobService) (p id : string) (reason : string) (now : Z) : jobService :=
  match lookup_job s p id with
  | None => s
  | Some j =>
      finish_job p id
        (j <| jr_State := jobStateDone |> <| jr_ErrorReason := "internalError" |>
           <| jr_ErrorMessage :=
                "job execution panicked and was recovered at the process boundary: " +:+ reason |>
           <| jr_EndedAt := now |>) s
  end.

(** ** Diagnostics *)

(** Depth, capacity, unbounded. *)
Definition channelGauge (depth : nat) (capacity : option nat) : nat * nat * bool :=
  match capacity with None => (0%nat, 0%nat, true) | Some c => (depth, c, false) end.

Record jobMetrics := JobMetrics {
  jm_submitted : Z; jm_completed : Z; jm_failed : Z; jm_runQueue : nat * nat * bool;
  jm_storageWriteQueue : nat * nat * bool; jm_locksHeld : nat; jm_locksTotal : nat }.

Definition jobs_metricsSnapshot (cfg : jobConfig) (s : jobService) : jobMetrics :=
  JobMetrics (js_submittedTotal s) (js_completedTotal s) (js_failedTotal s)
    (channelGauge (js_runSlots s) (jc_runSlots cfg))
    (channelGauge (js_storageWriteSlots s) (jc_storageWriteSlots cfg))
    (sum_list (map_to_list (js_resourceSlots s)).*2) (size (js_resourceSlots s)).

Definition resourceLockKeysHeld (s : jobService) : list string :=
  sorted_keys (filter (λ '(_, n), (0 < n)%nat) (js_resourceSlots s)).

(** ** Persistence *)

(** What [persistLockedInner] writes: the project versions of the snapshot type
    are never filled in, and the uploaded bytes are not encoded. *)
Record jobServiceSnapshot := JobSnapshot {
  jss_Counter : Z;
  jss_JobsByProject : gmap string (gmap string jobRecord);
  jss_RequestIDIndex : gmap string (gmap string requestIDRecord) }.

Definition not_encoded (j : jobRecord) : jobRecord :=
  j <| jr_Payload ::= λ p, p <| jp_LoadInlineData := None |> <| jp_LoadInlineName := "" |>
                             <| jp_LoadInline := false |> |>.

Definition persistLockedInner (s : jobService) : jobServiceSnapshot :=
  JobSnapshot (js_counter s) ((λ proj : gmap string jobRecord, not_encoded <$> proj) <$> js_jobsByProject s) (js_requestIDIndex s).

Definition loadPersistence (snap : jobServiceSnapshot) (s : jobService) : jobService :=
  s <| js_jobsByProject := jss_JobsByProject snap |>
    <| js_requestIDIndex := jss_RequestIDIndex snap |> <| js_counter := jss_Counter snap |>.
