(* ===== verification/MetadataStore.v ===== *)
(** * Routine and model metadata

    [routines_service.go] and [models_service.go] keep records in a map from
    project to dataset to id.  They are the same store with different records:
    [Section Store] is that store, the modules below give each service's
    records, normalization and calls, and the last section shows that either
    implements a single flat map. *)

From S2P Require Import Prelude GoStrings Pagination.

(** ** The store *)

Abbreviation store R := (gmap string (gmap string (gmap string R))).

Section Store.
Context {R : Type}.

Definition find (s : store R) (p d id : string) : option R := s !! p ≫= λ proj, proj !! d ≫= λ ds, ds !! id.

Definition put_dataset (s : store R) (p d : string) (ds : gmap string R) : store R :=
  <[p := <[d := ds]> (default ∅ (s !! p))]> s.

(** [ensureDatasetLocked]: creates the maps on the way. *)
Definition ensureDataset (s : store R) (p d : string) : store R * gmap string R :=
  let ds := default ∅ (s !! p ≫= λ proj, proj !! d) in
  (put_dataset s p d ds, ds).

Definition store_list (s : store R) (p d : string) (start size : Z)
    : store R * res Empty_set (list R * Z * Z) :=
  let '(s, ds) := ensureDataset s p d in
  let ids := sorted_keys ds in
  (s, match page_slice ids start size with
      | Ok (page, next) => Ok (omap (ds !!.) page, next, Z.of_nat (length ids))
      | Err e => Err e
      | Panic => Panic
      end).

Definition store_get (s : store R) (p d id : string) : store R * option R :=
  let '(s, ds) := ensureDataset s p d in (s, ds !! id).

(** Insert and patch trim the three ids and refuse an empty one. *)
Definition with_ids {A} (p d id : string) (fail : A) (k : string → string → string → A) : A :=
  let p := trim_space p in
  let d := trim_space d in
  let id := trim_space id in
  if String.eqb p "" || String.eqb d "" || String.eqb id "" then fail else k p d id.

(** [mk] builds the record from the trimmed ids. *)
Definition store_insert (s : store R) (p d id : string) (mk : string → string → string → R)
    : store R * option R :=
  with_ids p d id (s, None) (λ p d id,
    let '(s, ds) := ensureDataset s p d in
    match ds !! id with
    | Some _ => (s, None)
    | None => let rec := mk p d id in (put_dataset s p d (<[id := rec]> ds), Some rec)
    end).

Definition store_patch (s : store R) (p d id : string) (f : R → R) : store R * option R :=
  with_ids p d id (s, None) (λ p d id,
    let '(s, ds) := ensureDataset s p d in
    match ds !! id with
    | None => (s, None)
    | Some rec => (put_dataset s p d (<[id := f rec]> ds), Some (f rec))
    end).

Definition store_delete (s : store R) (p d id : string) : store R * bool :=
  let '(s, ds) := ensureDataset s p d in
  match ds !! id with
  | None => (s, false)
  | Some _ => (put_dataset s p d (delete id ds), true)
  end.

End Store.

(** ** Routines *)

Record routineArgument := RoutineArgument { ra_Name : string; ra_DataType : string }.

Record routineRecord := RoutineRecord {
  rr_ProjectID : string;
  rr_DatasetID : string;
  rr_RoutineID : string;
  rr_RoutineType : string;
  rr_Language : string;
  rr_DefinitionBody : string;
  rr_Description : string;
  rr_Arguments : list routineArgument;
  rr_CreatedAt : Z;
  rr_UpdatedAt : Z;
  rr_Version : Z;
}.
#[export] Instance routineRecord_eta : Eta routineRecord := λ r,
  RoutineRecord (rr_ProjectID r) (rr_DatasetID r) (rr_RoutineID r) (rr_RoutineType r) (rr_Language r)
    (rr_DefinitionBody r) (rr_Description r) (rr_Arguments r) (rr_CreatedAt r) (rr_UpdatedAt r) (rr_Version r).

Record routineInsert := RoutineInsert {
  ri_ProjectID : string;
  ri_DatasetID : string;
  ri_RoutineID : string;
  ri_RoutineType : string;
  ri_Language : string;
  ri_DefinitionBody : string;
  ri_Description : string;
  ri_Arguments : list routineArgument;
}.

(** A field with its [Has...] flag is an option. *)
Record routinePatch := RoutinePatch {
  rp_ProjectID : string;
  rp_DatasetID : string;
  rp_RoutineID : string;
  rp_RoutineType : option string;
  rp_Language : option string;
  rp_DefinitionBody : option string;
  rp_Description : option string;
  rp_Arguments : option (list routineArgument);
}.

Definition normalizeRoutineType (v : string) : string :=
  let u := to_upper (trim_space v) in
  if String.eqb u "PROCEDURE" then "PROCEDURE"
  else if String.eqb u "TABLE_VALUED_FUNCTION" then "TABLE_VALUED_FUNCTION"
  else "SCALAR_FUNCTION".

Definition normalizeRoutineLanguage (v : string) : string :=
  if equal_fold (trim_space v) "JAVASCRIPT" then "JAVASCRIPT" else "SQL".

Definition new_routine (input : routineInsert) (now : Z) (p d id : string) : routineRecord :=
  RoutineRecord p d id (normalizeRoutineType (ri_RoutineType input)) (normalizeRoutineLanguage (ri_Language input))
    (ri_DefinitionBody input) (trim_space (ri_Description input)) (ri_Arguments input) now now 1.

Definition assign {A R} (o : option A) (f : A → R → R) (r : R) : R :=
  match o with Some a => f a r | None => r end.

Definition patch_routine (input : routinePatch) (now : Z) (r : routineRecord) : routineRecord :=
  let r := assign (rp_RoutineType input) (λ v r, r <| rr_RoutineType := normalizeRoutineType v |>) r in
  let r := assign (rp_Language input) (λ v r, r <| rr_Language := normalizeRoutineLanguage v |>) r in
  let r := assign (rp_DefinitionBody input) (λ v r, r <| rr_DefinitionBody := v |>) r in
  let r := assign (rp_Description input) (λ v r, r <| rr_Description := trim_space v |>) r in
  let r := assign (rp_Arguments input) (λ v r, r <| rr_Arguments := v |>) r in
  r <| rr_UpdatedAt := now |> <| rr_Version ::= λ v, v + 1 |>.

Abbreviation routineService := (store routineRecord).
Definition newRoutineService : routineService := ∅.
Definition routines_list (s : routineService) (p d : string) (start size : Z) := store_list s p d start size.
Definition routines_get (s : routineService) (p d id : string) := store_get s p d id.
Definition routines_insert (s : routineService) (input : routineInsert) (now : Z) :=
  store_insert s (ri_ProjectID input) (ri_DatasetID input) (ri_RoutineID input) (new_routine input now).
Definition routines_patch (s : routineService) (input : routinePatch) (now : Z) :=
  store_patch s (rp_ProjectID input) (rp_DatasetID input) (rp_RoutineID input) (patch_routine input now).
Definition routines_delete (s : routineService) (p d id : string) := store_delete s p d id.

(** ** Models *)

Record modelRecord := ModelRecord {
  mr_ProjectID : string;
  mr_DatasetID : string;
  mr_ModelID : string;
  mr_ModelType : string;
  mr_FriendlyName : string;
  mr_Description : string;
  mr_Labels : gmap string string;
  mr_CreatedAt : Z;
  mr_UpdatedAt : Z;
  mr_Version : Z;
}.
#[export] Instance modelRecord_eta : Eta modelRecord := λ m,
  ModelRecord (mr_ProjectID m) (mr_DatasetID m) (mr_ModelID m) (mr_ModelType m) (mr_FriendlyName m)
    (mr_Description m) (mr_Labels m) (mr_CreatedAt m) (mr_UpdatedAt m) (mr_Version m).

Record modelInsert := ModelInsert {
  mi_ProjectID : string;
  mi_DatasetID : string;
  mi_ModelID : string;
  mi_ModelType : string;
  mi_FriendlyName : string;
  mi_Description : string;
  mi_Labels : gmap string string;
}.

Record modelPatch := ModelPatch {
  mp_ProjectID : string;
  mp_DatasetID : string;
  mp_ModelID : string;
  mp_FriendlyName : option string;
  mp_Description : option string;
  mp_Labels : option (gmap string string);
}.

Definition new_model (input : modelInsert) (now : Z) (p d id : string) : modelRecord :=
  ModelRecord p d id (to_upper (trim_space (mi_ModelType input))) (trim_space (mi_FriendlyName input))
    (trim_space (mi_Description input)) (mi_Labels input) now now 1.

Definition patch_model (input : modelPatch) (now : Z) (m : modelRecord) : modelRecord :=
  let m := assign (mp_FriendlyName input) (λ v m, m <| mr_FriendlyName := trim_space v |>) m in
  let m := assign (mp_Description input) (λ v m, m <| mr_Description := trim_space v |>) m in
  let m := assign (mp_Labels input) (λ v m, m <| mr_Labels := v |>) m in
  m <| mr_UpdatedAt := now |> <| mr_Version ::= λ v, v + 1 |>.

Abbreviation modelService := (store modelRecord).
Definition newModelService : modelService := ∅.
Definition models_list (s : modelService) (p d : string) (start size : Z) := store_list s p d start size.
Definition models_get (s : modelService) (p d id : string) := store_get s p d id.
Definition models_insert (s : modelService) (input : modelInsert) (now : Z) :=
  store_insert s (mi_ProjectID input) (mi_DatasetID input) (mi_ModelID input) (new_model input now).
Definition models_patch (s : modelService) (input : modelPatch) (now : Z) :=
  store_patch s (mp_ProjectID input) (mp_DatasetID input) (mp_ModelID input) (patch_model input now).
Definition models_delete (s : modelService) (p d id : string) := store_delete s p d id.

(** ** The flat map they implement *)

Section Refinement.
Context {R : Type}.

#[local] Abbreviation flat := (gmap (string * string * string) R).

(** The calls of a service; [mk] and [f] carry the request and its time. *)
Inductive call :=
| CallList (p d : string) (start size : Z)
| CallGet (p d id : string)
| CallInsert (p d id : string) (mk : string → string → string → R)
| CallPatch (p d id : string) (f : R → R)
| CallDelete (p d id : string).

Inductive reply :=
| ReplyPage (r : res Empty_set (list R * Z * Z))
| ReplyRecord (r : option R)
| ReplyDone (b : bool).

Definition run_store (s : store R) (c : call) : store R * reply :=
  match c with
  | CallList p d start size => let '(s, r) := store_list s p d start size in (s, ReplyPage r)
  | CallGet p d id => let '(s, r) := store_get s p d id in (s, ReplyRecord r)
  | CallInsert p d id mk => let '(s, r) := store_insert s p d id mk in (s, ReplyRecord r)
  | CallPatch p d id f => let '(s, r) := store_patch s p d id f in (s, ReplyRecord r)
  | CallDelete p d id => let '(s, b) := store_delete s p d id in (s, ReplyDone b)
  end.

(** The records of one dataset, by id. *)
Definition flat_ids (m : flat) (p d : string) : list string :=
  sort_strings (omap (λ k, if decide (k.1 = (p, d)) then Some k.2 else None) (map_to_list m).*1).

(** The same calls on one map keyed by project, dataset and id: a list is a
    page of the ids in order, an insert fails on an empty or taken id, a patch
    and a delete fail on a missing one, and nothing else changes. *)
Definition run_flat (m : flat) (c : call) : flat * reply :=
  match c with
  | CallList p d start size =>
      let ids := flat_ids m p d in
      (m, ReplyPage match page_slice ids start size with
           | Ok (page, next) => Ok (omap (λ id, m !! (p, d, id)) page, next, Z.of_nat (length ids))
           | Err e => Err e
           | Panic => Panic
           end)
  | CallGet p d id => (m, ReplyRecord (m !! (p, d, id)))
  | CallInsert p d id mk =>
      with_ids p d id (m, ReplyRecord None) (λ p d id,
        match m !! (p, d, id) with
        | Some _ => (m, ReplyRecord None)
        | None => (<[(p, d, id) := mk p d id]> m, ReplyRecord (Some (mk p d id)))
        end)
  | CallPatch p d id f =>
      with_ids p d id (m, ReplyRecord None) (λ p d id,
        match m !! (p, d, id) with
        | None => (m, ReplyRecord None)
        | Some r => (<[(p, d, id) := f r]> m, ReplyRecord (Some (f r)))
        end)
  | CallDelete p d id =>
      match m !! (p, d, id) with
      | None => (m, ReplyDone false)
      | Some _ => (delete (p, d, id) m, ReplyDone true)
      end
  end.

Fixpoint replies {S} (run : S → call → S * reply) (s : S) (cs : list call) : list reply :=
  match cs with
  | [] => []
  | c :: cs => let '(s, r) := run s c in r :: replies run s cs
  end.

(** The store holds the flat map. *)
Definition implements (s : store R) (m : flat) : Prop := ∀ p d id, find s p d id = m !! (p, d, id).

Lemma find_put (s : store R) p d ds p' d' id :
  find (put_dataset s p d ds) p' d' id = if decide (p' = p ∧ d' = d) then ds !! id else find s p' d' id.
Proof.
  unfold find, put_dataset. destruct (decide (p' = p)) as [->|Hp].
  - rewrite lookup_insert_eq. simpl. destruct (decide (d' = d)) as [->|Hd].
    + rewrite lookup_insert_eq, decide_True by done. done.
    + rewrite lookup_insert_ne, decide_False by (done || naive_solver). by destruct (s !! p).
  - rewrite lookup_insert_ne, decide_False by (done || naive_solver). done.
Qed.

Lemma ensureDataset_spec (s : store R) (m : flat) p d :
  implements s m →
  implements (ensureDataset s p d).1 m ∧ ∀ id, (ensureDataset s p d).2 !! id = m !! (p, d, id).
Proof.
  intros Hm. assert (Hds : ∀ id, (ensureDataset s p d).2 !! id = m !! (p, d, id)).
  { intros id. rewrite <-Hm. unfold ensureDataset, find. simpl.
    destruct (s !! p) as [proj|]; simpl; [|by rewrite lookup_empty].
    destruct (proj !! d); simpl; [done|by rewrite lookup_empty]. }
  split; [|done]. intros p' d' id. simpl. rewrite find_put. case_decide as E; [|apply Hm].
  destruct E as [-> ->]. apply Hds.
Qed.

Lemma implements_put (s : store R) (m : flat) (p d : string) (ds : gmap string R) (m' : flat) :
  implements s m → (∀ id, m' !! (p, d, id) = ds !! id) →
  (∀ p' d' id, ¬ (p' = p ∧ d' = d) → m' !! (p', d', id) = m !! (p', d', id)) →
  implements (put_dataset s p d ds) m'.
Proof.
  intros Hm Hin Hout p' d' id. rewrite find_put. case_decide as E.
  - destruct E as [-> ->]. by rewrite Hin.
  - rewrite Hout by done. apply Hm.
Qed.

Lemma flat_ids_keys (m : flat) p d (ds : gmap string R) :
  (∀ id, ds !! id = m !! (p, d, id)) → flat_ids m p d = sorted_keys ds.
Proof.
  intros Hds. apply (StronglySorted_unique String.le); [apply sort_strings_sorted|apply sorted_keys_sorted|].
  apply NoDup_Permutation.
  - apply NoDup_sort_strings. assert (Hnd : NoDup (map_to_list m).*1) by apply NoDup_fst_map_to_list.
    induction Hnd as [|k l Hk _ IH]; [constructor|]. simpl. case_decide as E; [|done].
    constructor; [|done]. intros (k' & Hk' & Hsome)%list_elem_of_omap. case_decide as E'; [|done].
    simplify_eq. apply Hk. destruct k as [a b], k' as [a' b']. simpl in *. by subst.
  - apply NoDup_sorted_keys.
  - intros id. unfold flat_ids. rewrite elem_of_sort_strings, elem_of_sorted_keys, list_elem_of_omap, Hds. split.
    + intros (k & Hk & Hsome). case_decide as E; [|done]. simplify_eq. destruct k as [a b]. simpl in *. subst a.
      apply list_elem_of_fmap_1 in Hk as ([k' v] & E & Hv). simpl in E. subst k'.
      apply elem_of_map_to_list in Hv. by exists v.
    + intros [v Hv]. exists (p, d, id). split; [|by rewrite decide_True].
      apply list_elem_of_fmap_2' with ((p, d, id), v); [by apply elem_of_map_to_list|done].
Qed.

#[local] Arguments ensureDataset : simpl never.

Lemma run_refines (s : store R) (m : flat) c :
  implements s m → (run_store s c).2 = (run_flat m c).2 ∧ implements (run_store s c).1 (run_flat m c).1.
Proof.
  intros Hm. destruct c as [p d start sz|p d id|p d id mk|p d id f|p d id]; cbn [run_store run_flat].
  - unfold store_list. destruct (ensureDataset_spec s m p d Hm) as [He Hds]. destruct (ensureDataset s p d) as [s1 ds].
    simpl in *. rewrite (flat_ids_keys m p d ds Hds). split; [|done]. do 2 f_equal.
    destruct (page_slice _ _ _) as [[page next]|?|]; [|done..]. do 3 f_equal. apply list_omap_ext, Forall_Forall2_diag, Forall_true.
    intros id. apply Hds.
  - unfold store_get. destruct (ensureDataset_spec s m p d Hm) as [He Hds]. destruct (ensureDataset s p d) as [s1 ds].
    simpl in *. by rewrite Hds.
  - unfold store_insert, with_ids.
    destruct (String.eqb (trim_space p) "" || String.eqb (trim_space d) "" || String.eqb (trim_space id) ""); [done|].
    set (p' := trim_space p). set (d' := trim_space d). set (i := trim_space id).
    destruct (ensureDataset_spec s m p' d' Hm) as [He Hds]. destruct (ensureDataset s p' d') as [s1 ds]. simpl in *.
    rewrite (Hds i). destruct (m !! (p', d', i)); [done|]. split; [done|]. simpl. apply (implements_put _ m); [done|..].
    + intros id'. destruct (decide (id' = i)) as [->|]; [by rewrite !lookup_insert_eq|].
      by rewrite !lookup_insert_ne, Hds by congruence.
    + intros p2 d2 id' Hne. by rewrite lookup_insert_ne by naive_solver.
  - unfold store_patch, with_ids.
    destruct (String.eqb (trim_space p) "" || String.eqb (trim_space d) "" || String.eqb (trim_space id) ""); [done|].
    set (p' := trim_space p). set (d' := trim_space d). set (i := trim_space id).
    destruct (ensureDataset_spec s m p' d' Hm) as [He Hds]. destruct (ensureDataset s p' d') as [s1 ds]. simpl in *.
    rewrite (Hds i). destruct (m !! (p', d', i)) as [r|]; [|done]. split; [done|]. simpl. apply (implements_put _ m); [done|..].
    + intros id'. destruct (decide (id' = i)) as [->|]; [by rewrite !lookup_insert_eq|].
      by rewrite !lookup_insert_ne, Hds by congruence.
    + intros p2 d2 id' Hne. by rewrite lookup_insert_ne by naive_solver.
  - unfold store_delete. destruct (ensureDataset_spec s m p d Hm) as [He Hds]. destruct (ensureDataset s p d) as [s1 ds].
    simpl in *. rewrite (Hds id). destruct (m !! (p, d, id)); [|done]. split; [done|]. simpl.
    apply (implements_put _ m); [done|..].
    + intros id'. destruct (decide (id' = id)) as [->|]; [by rewrite !lookup_delete_eq|].
      by rewrite !lookup_delete_ne, Hds by congruence.
    + intros p2 d2 id' Hne. by rewrite lookup_delete_ne by naive_solver.
Qed.

Lemma replies_refine (s : store R) (m : flat) cs : implements s m → replies run_store s cs = replies run_flat m cs.
Proof.
  revert s m. induction cs as [|c cs IH]; intros s m Hm; [done|]. simpl.
  destruct (run_refines s m c Hm) as [Hr Hm']. destruct (run_store s c) as [s' r], (run_flat m c) as [m' r'].
  simpl in *. f_equal; [done|]. by apply IH.
Qed.
End Refinement.
Arguments call : clear implicits.
Arguments reply : clear implicits.

(** ** The services *)

Inductive routineRequest :=
| ListRoutines (p d : string) (start size : Z)
| GetRoutine (p d id : string)
| InsertRoutine (input : routineInsert) (now : Z)
| PatchRoutine (input : routinePatch) (now : Z)
| DeleteRoutine (p d id : string).

Definition run_routines (s : routineService) (r : routineRequest) : routineService * reply routineRecord :=
  match r with
  | ListRoutines p d start size => let '(s, x) := routines_list s p d start size in (s, ReplyPage x)
  | GetRoutine p d id => let '(s, x) := routines_get s p d id in (s, ReplyRecord x)
  | InsertRoutine input now => let '(s, x) := routines_insert s input now in (s, ReplyRecord x)
  | PatchRoutine input now => let '(s, x) := routines_patch s input now in (s, ReplyRecord x)
  | DeleteRoutine p d id => let '(s, x) := routines_delete s p d id in (s, ReplyDone x)
  end.

Definition routine_call (r : routineRequest) : call routineRecord :=
  match r with
  | ListRoutines p d start size => CallList p d start size
  | GetRoutine p d id => CallGet p d id
  | InsertRoutine i now => CallInsert (ri_ProjectID i) (ri_DatasetID i) (ri_RoutineID i) (new_routine i now)
  | PatchRoutine i now => CallPatch (rp_ProjectID i) (rp_DatasetID i) (rp_RoutineID i) (patch_routine i now)
  | DeleteRoutine p d id => CallDelete p d id
  end.

Inductive modelRequest :=
| ListModels (p d : string) (start size : Z)
| GetModel (p d id : string)
| InsertModel (input : modelInsert) (now : Z)
| PatchModel (input : modelPatch) (now : Z)
| DeleteModel (p d id : string).

Definition run_models (s : modelService) (r : modelRequest) : modelService * reply modelRecord :=
  match r with
  | ListModels p d start size => let '(s, x) := models_list s p d start size in (s, ReplyPage x)
  | GetModel p d id => let '(s, x) := models_get s p d id in (s, ReplyRecord x)
  | InsertModel input now => let '(s, x) := models_insert s input now in (s, ReplyRecord x)
  | PatchModel input now => let '(s, x) := models_patch s input now in (s, ReplyRecord x)
  | DeleteModel p d id => let '(s, x) := models_delete s p d id in (s, ReplyDone x)
  end.

Definition model_call (r : modelRequest) : call modelRecord :=
  match r with
  | ListModels p d start size => CallList p d start size
  | GetModel p d id => CallGet p d id
  | InsertModel i now => CallInsert (mi_ProjectID i) (mi_DatasetID i) (mi_ModelID i) (new_model i now)
  | PatchModel i now => CallPatch (mp_ProjectID i) (mp_DatasetID i) (mp_ModelID i) (patch_model i now)
  | DeleteModel p d id => CallDelete p d id
  end.

(** The replies of a service to a sequence of requests. *)
Fixpoint serve {S Q A} (run : S → Q → S * A) (s : S) (rs : list Q) : list A :=
  match rs with
  | [] => []
  | r :: rs => let '(s, a) := run s r in a :: serve run s rs
  end.

Lemma serve_calls {S Q R} (run : S → Q → S * reply R) (to : Q → call R) run' s rs :
  (∀ s r, run s r = run' s (to r)) → serve run s rs = replies run' s (to <$> rs).
Proof.
  intros Hrun. revert s. induction rs as [|r rs IH]; intros s; [done|]. simpl. rewrite Hrun.
  destruct (run' s (to r)) as [s' a]. by rewrite IH.
Qed.

(** C39. The routine and the model service are each one map keyed by project,
    dataset and id: whatever requests arrive in whatever order, every reply -
    pages, records, refusals - is the one the flat map gives. *)
Theorem metadata_services_refine (rs : list routineRequest) (ms : list modelRequest) :
  serve run_routines newRoutineService rs = replies run_flat ∅ (routine_call <$> rs) ∧
  serve run_models newModelService ms = replies run_flat ∅ (model_call <$> ms).
Proof.
  split.
  - rewrite (serve_calls run_routines routine_call run_store) by by intros ? []. by apply replies_refine.
  - rewrite (serve_calls run_models model_call run_store) by by intros ? []. by apply replies_refine.
Qed.

(** An insert that succeeds is what a get then returns; the trimmed ids are the
    ones to ask for. *)
Example insert_then_get :
  let input := RoutineInsert "p" " d " "r" "procedure" "sql" "SELECT 1" "" [] in
  serve run_routines newRoutineService
    [InsertRoutine input 7; GetRoutine "p" "d" "r"; InsertRoutine input 8; DeleteRoutine "p" "d" "r"; GetRoutine "p" "d" "r"] =
  let rec := RoutineRecord "p" "d" "r" "PROCEDURE" "SQL" "SELECT 1" "" [] 7 7 1 in
  [ReplyRecord (Some rec); ReplyRecord (Some rec); ReplyRecord None; ReplyDone true; ReplyRecord None].
Proof. vm_compute. reflexivity. Qed.
