(* ===== verification/JobsRun.v ===== *)
(** * The job executor (jobs_service.go: run)

    One goroutine per submitted job takes its three semaphores in a fixed
    order, marks the job RUNNING, calls an executor and records the outcome.
    The program counter says which slots a goroutine holds; the step relation
    interleaves the goroutines with submissions and cancellations at the
    granularity of the code's critical sections and channel operations.  What
    an executor returns, or that it panics, is left open. *)

From S2P Require Import Prelude GoStrings GoTime Cells TableModel TableStore Jobs.

(** Where a goroutine is.  The executor's type and the resource key are the ones
    its first critical section read. *)
Inductive pc :=
| PcQueued                                  (* waits for a run slot *)
| PcStarted                                 (* first critical section *)
| PcStorage (jt rk : string)                (* waits for a storage-write slot *)
| PcResource (jt rk : string)               (* waits for the resource *)
| PcReady (jt rk : string)                  (* second critical section *)
| PcRunning (jt rk : string)                (* in the executor *)
| PcExecuted (jt rk : string) (o : executorOutcome).   (* last critical section *)

Record goroutine := Goroutine { g_project : string; g_job : string; g_pc : pc }.
Definition g_key (g : goroutine) : string * string := (g_project g, g_job g).

Definition holds_run (c : pc) : bool := match c with PcQueued => false | _ => true end.
Definition holds_storage (c : pc) : bool :=
  match c with
  | PcResource jt rk | PcReady jt rk | PcRunning jt rk | PcExecuted jt rk _ =>
      requiresStorageWriteBackpressure jt rk
  | _ => false
  end.
Definition locks (rk : string) : bool := negb (bool_decide (trim_space rk = "")).
Definition holds_resource (c : pc) : option string :=
  match c with
  | PcReady _ rk | PcRunning _ rk | PcExecuted _ rk _ => if locks rk then Some rk else None
  | _ => None
  end.

Record world := World { w_service : jobService; w_goroutines : list goroutine }.

(** ** Channel operations *)

Definition acquire_run (cfg : jobConfig) (s : jobService) : option jobService :=
  match jc_runSlots cfg with
  | None => Some s
  | Some cap => if (js_runSlots s <? cap)%nat then Some (s <| js_runSlots ::= S |>) else None
  end.

Definition acquireStorageWriteSlot (cfg : jobConfig) (s : jobService) (jt rk : string) : option jobService :=
  match jc_storageWriteSlots cfg with
  | None => Some s
  | Some cap =>
      if requiresStorageWriteBackpressure jt rk then
        if (js_storageWriteSlots s <? cap)%nat then Some (s <| js_storageWriteSlots ::= S |>) else None
      else Some s
  end.

(** A resource's channel has capacity one and is made on first use. *)
Definition acquireResourceSlot (s : jobService) (rk : string) : option jobService :=
  if locks rk then
    if (default 0 (js_resourceSlots s !! rk) <? 1)%nat
    then Some (s <| js_resourceSlots ::= λ m, <[rk := S (default 0%nat (m !! rk))]> m |>) else None
  else Some s.

(** The deferred releases, for what the goroutine holds at [c]. *)
Definition release (cfg : jobConfig) (c : pc) (s : jobService) : jobService :=
  let s := match holds_resource c with
           | Some rk => s <| js_resourceSlots ::= λ m, <[rk := pred (default 0%nat (m !! rk))]> m |>
           | None => s
           end in
  let s := if holds_storage c && bool_decide (is_Some (jc_storageWriteSlots cfg))
           then s <| js_storageWriteSlots ::= pred |> else s in
  if holds_run c && bool_decide (is_Some (jc_runSlots cfg)) then s <| js_runSlots ::= pred |> else s.

(** ** Steps *)

(** What one goroutine can do next: the service and, unless it ended, its new
    program counter. *)
Inductive advance (cfg : jobConfig) (p id : string) : jobService → pc → jobService → option pc → Prop :=
| adv_run s s' : acquire_run cfg s = Some s' → advance cfg p id s PcQueued s' (Some PcStarted)
| adv_checked s now s' jt rk :
    run_first_check s p id now = (s', Some (jt, rk)) →
    advance cfg p id s PcStarted s' (Some (PcStorage jt rk))
| adv_dropped s now s' :
    run_first_check s p id now = (s', None) →
    advance cfg p id s PcStarted (release cfg PcStarted s') None
| adv_storage s s' jt rk :
    acquireStorageWriteSlot cfg s jt rk = Some s' →
    advance cfg p id s (PcStorage jt rk) s' (Some (PcResource jt rk))
| adv_resource s s' jt rk :
    acquireResourceSlot s rk = Some s' →
    advance cfg p id s (PcResource jt rk) s' (Some (PcReady jt rk))
| adv_begin s now s' jt rk :
    run_begin s p id now = (s', true) → advance cfg p id s (PcReady jt rk) s' (Some (PcRunning jt rk))
| adv_begin_dropped s now s' jt rk :
    run_begin s p id now = (s', false) →
    advance cfg p id s (PcReady jt rk) (release cfg (PcReady jt rk) s') None
| adv_execute s jt rk o : advance cfg p id s (PcRunning jt rk) s (Some (PcExecuted jt rk o))
| adv_missing s jt rk :
    lookup_job s p id = None →
    advance cfg p id s (PcRunning jt rk) (release cfg (PcRunning jt rk) s) None
| adv_panic s jt rk reason now :
    advance cfg p id s (PcRunning jt rk)
      (recoverJobPanic (release cfg (PcRunning jt rk) s) p id reason now) None
| adv_finish s jt rk o now :
    advance cfg p id s (PcExecuted jt rk o)
      (release cfg (PcExecuted jt rk o) (run_finish s p id o now)) None.

Inductive goroutine_step (cfg : jobConfig) : world → world → Prop :=
| step_advance s gs1 gs2 p id c s' oc :
    advance cfg p id s c s' oc →
    goroutine_step cfg (World s (gs1 ++ Goroutine p id c :: gs2))
      (World s' (gs1 ++ match oc with Some c' => [Goroutine p id c'] | None => [] end ++ gs2)).

(** A request id the server could itself assign. *)
Definition auto_id (id : string) : Prop := ∃ n, id = "job_" +:+ format_int n.

Inductive client_step (cfg : jobConfig) (target : string → string → option tableReference)
    : world → world → Prop :=
| step_insert s gs o now s' r :
    jobs_insert cfg target s o now = (s', r) →
    client_step cfg target (World s gs)
      (World s' (match r with
                 | inr (j, true) => gs ++ [Goroutine (jr_ProjectID j) (jr_JobID j) PcQueued]
                 | _ => gs
                 end))
| step_cancel s gs p id now s' r :
    jobs_cancel s p id now = (s', r) → client_step cfg target (World s gs) (World s' gs).

(** Runs from an empty service in which clients do not choose ids of the form
    the server assigns. *)
Inductive jobs_reachable (cfg : jobConfig) (target : string → string → option tableReference)
    : world → Prop :=
| jr_init : jobs_reachable cfg target (World newJobService [])
| jr_goroutine w w' : jobs_reachable cfg target w → goroutine_step cfg w w' → jobs_reachable cfg target w'
| jr_insert s gs o now s' r :
    jobs_reachable cfg target (World s gs) → ¬ auto_id (trim_space (jo_RequestedJobID o)) →
    jobs_insert cfg target s o now = (s', r) →
    jobs_reachable cfg target
      (World s' (match r with
                 | inr (j, true) => gs ++ [Goroutine (jr_ProjectID j) (jr_JobID j) PcQueued]
                 | _ => gs
                 end))
| jr_cancel s gs p id now s' r :
    jobs_reachable cfg target (World s gs) → jobs_cancel s p id now = (s', r) →
    jobs_reachable cfg target (World s' gs).

(** ** Service lemmas *)

Lemma lookup_job_set p id j s p' id' :
  lookup_job (set_job p id j s) p' id' =
  if decide ((p', id') = (p, id)) then Some j else lookup_job s p' id'.
Proof.
  unfold lookup_job, set_job. simpl. destruct (decide (p' = p)) as [->|Hp].
  - rewrite lookup_insert_eq. simpl. destruct (decide (id' = id)) as [->|Hd].
    + by rewrite lookup_insert_eq, decide_True.
    + rewrite lookup_insert_ne, decide_False by congruence. by destruct (js_jobsByProject s !! p).
  - by rewrite lookup_insert_ne, decide_False by congruence.
Qed.

(** What a critical section leaves alone. *)
Definition same_slots (s s' : jobService) : Prop :=
  js_runSlots s' = js_runSlots s ∧ js_storageWriteSlots s' = js_storageWriteSlots s ∧
  js_resourceSlots s' = js_resourceSlots s.

(** The job becomes [j'], [done] more outcomes are recorded, no slot moves. *)
Definition job_update (s s' : jobService) (p id : string) (j' : jobRecord) (done : Z) : Prop :=
  (∀ p' id', lookup_job s' p' id' = if decide ((p', id') = (p, id)) then Some j' else lookup_job s p' id') ∧
  js_counter s' = js_counter s ∧ js_submittedTotal s' = js_submittedTotal s ∧
  js_completedTotal s' + js_failedTotal s' = js_completedTotal s + js_failedTotal s + done ∧
  same_slots s s'.

Lemma finish_job_update s p id j : job_update s (finish_job p id j s) p id (drop_inline j) 1.
Proof.
  unfold job_update, finish_job, recordJobOutcomeLocked, same_slots.
  case_bool_decide; simpl; (split; [intros; apply lookup_job_set|]); split_and!; try done; lia.
Qed.

Lemma bump_update s s' p id j' n : job_update s s' p id j' n → job_update s (bump_job_version p s') p id j' n.
Proof. done. Qed.

Lemma set_job_update s p id j' : job_update s (set_job p id j' s) p id j' 0.
Proof.
  unfold job_update, same_slots. split; [intros; apply lookup_job_set|]. simpl. split_and!; try done; lia.
Qed.

Lemma run_first_check_spec s p id now s' r j :
  lookup_job s p id = Some j → run_first_check s p id now = (s', r) →
  match r with
  | Some (jt, rk) => s' = s ∧ jr_CancelRequested j = false
  | None => ∃ j', job_update s s' p id j' 1 ∧ jr_State j' = jobStateDone
  end ∧ (∀ x, r = Some x → s' = s).
Proof.
  intros Hj. unfold run_first_check. rewrite Hj. destruct (jr_CancelRequested j); intros [= <- <-].
  - split; [|done]. eexists. split; [apply finish_job_update|done].
  - naive_solver.
Qed.

Lemma run_begin_spec s p id now s' go j :
  lookup_job s p id = Some j → run_begin s p id now = (s', go) →
  if go then jr_CancelRequested j = false ∧ ∃ j', job_update s s' p id j' 0 ∧ jr_State j' = jobStateRunning ∧
             jr_CancelRequested j' = false
  else ∃ j', job_update s s' p id j' 1 ∧ jr_State j' = jobStateDone.
Proof.
  intros Hj. unfold run_begin. rewrite Hj. destruct (jr_CancelRequested j) eqn:Ec; intros [= <- <-].
  - eexists. split; [apply finish_job_update|done].
  - split; [done|]. eexists. split; [apply bump_update, set_job_update|done].
Qed.

Lemma run_finish_spec s p id o now j :
  lookup_job s p id = Some j →
  ∃ j', job_update s (run_finish s p id o now) p id j' 1 ∧ jr_State j' = jobStateDone.
Proof.
  intros Hj. unfold run_finish. rewrite Hj. eexists. split; [apply bump_update, finish_job_update|].
  simpl. by destruct (jr_CancelRequested j).
Qed.

Lemma recoverJobPanic_spec s p id reason now j :
  lookup_job s p id = Some j →
  ∃ j', job_update s (recoverJobPanic s p id reason now) p id j' 1 ∧ jr_State j' = jobStateDone.
Proof.
  intros Hj. unfold recoverJobPanic. rewrite Hj. eexists. split; [apply finish_job_update|done].
Qed.

Lemma jobs_cancel_spec s p id now s' r :
  jobs_cancel s p id now = (s', r) →
  s' = s ∨ ∃ j j', lookup_job s p id = Some j ∧ job_update s s' p id j' 0 ∧ jr_CancelRequested j' = true ∧
    jr_ProjectID j' = jr_ProjectID j ∧ jr_JobID j' = jr_JobID j ∧
    (jr_State j' = jr_State j ∧ jr_State j ≠ jobStatePending ∨
     jr_State j = jobStatePending ∧ jr_State j' = jobStateDone).
Proof.
  unfold jobs_cancel. destruct (lookup_job s p id) as [j|] eqn:Hj; intros [= <- <-]; [|by left].
  right. exists j. eexists. split; [done|]. split; [apply bump_update, set_job_update|].
  simpl. case_bool_decide; simpl; naive_solver.
Qed.

(** Releasing touches only slots. *)
Lemma release_frame cfg c s :
  (∀ p id, lookup_job (release cfg c s) p id = lookup_job s p id) ∧
  js_counter (release cfg c s) = js_counter s ∧ js_submittedTotal (release cfg c s) = js_submittedTotal s ∧
  js_completedTotal (release cfg c s) = js_completedTotal s ∧ js_failedTotal (release cfg c s) = js_failedTotal s.
Proof.
  unfold release. destruct (holds_resource c); destruct (holds_storage c && _); by destruct (holds_run c && _).
Qed.

(** ** The invariant *)

(** A job's state fits the place its goroutine is at. *)
Definition pc_ok (c : pc) (j : jobRecord) : Prop :=
  match c with
  | PcRunning _ _ | PcExecuted _ _ _ => jr_State j = jobStateRunning
  | _ => jr_State j = jobStatePending ∨ (jr_State j = jobStateDone ∧ jr_CancelRequested j = true)
  end.

Record jobs_inv (w : world) : Prop := {
  (** one goroutine per job *)
  inv_unique : NoDup (g_key <$> w_goroutines w);
  (** a goroutine's job exists and is where the goroutine is *)
  inv_pc g : g ∈ w_goroutines w →
    ∃ j, lookup_job (w_service w) (g_project g) (g_job g) = Some j ∧ pc_ok (g_pc g) j;
  (** a job no goroutine works on is finished *)
  inv_done p id j : lookup_job (w_service w) p id = Some j → (p, id) ∉ g_key <$> w_goroutines w →
    jr_State j = jobStateDone;
  (** every submitted job is in flight or counted once *)
  inv_total : js_submittedTotal (w_service w) =
    js_completedTotal (w_service w) + js_failedTotal (w_service w) + Z.of_nat (length (w_goroutines w));
  (** ids of the server's form were assigned by it *)
  inv_ids p id : is_Some (lookup_job (w_service w) p id) → auto_id id →
    ∃ n, n ≤ js_counter (w_service w) ∧ id = "job_" +:+ format_int n }.

Lemma inv_ids_update s s' p id j' n :
  job_update s s' p id j' n → is_Some (lookup_job s p id) →
  ∀ p' id', is_Some (lookup_job s' p' id') → is_Some (lookup_job s p' id').
Proof. intros [Hl _] Hs p' id'. rewrite Hl. case_decide; [by simplify_eq|done]. Qed.

(** A critical section that keeps the goroutine. *)
Lemma inv_keep s s' gs1 gs2 p id c c' j' :
  jobs_inv (World s (gs1 ++ Goroutine p id c :: gs2)) → job_update s s' p id j' 0 → pc_ok c' j' →
  jobs_inv (World s' (gs1 ++ Goroutine p id c' :: gs2)).
Proof.
  intros [Hu Hpc Hd Ht Hi] Hup Hok.
  assert (is_Some (lookup_job s p id)) as Hsome.
  { destruct (Hpc (Goroutine p id c)) as (j & Hj & _); [set_solver|by exists j]. }
  pose proof Hup as (Hl & Hc & Hsub & Htot & _).
  assert (g_key <$> gs1 ++ Goroutine p id c' :: gs2 = g_key <$> gs1 ++ Goroutine p id c :: gs2) as Hk
    by (by rewrite !fmap_app, !fmap_cons).
  split; simpl in *.
  - by rewrite Hk.
  - intros g Hg. rewrite Hl. case_decide as E.
    + exists j'. split; [done|]. injection E as Ep Eid.
      apply elem_of_app in Hg as [Hg|Hg]; [|apply elem_of_cons in Hg as [->|Hg]; [done|]]; exfalso;
        rewrite fmap_app, fmap_cons in Hu; apply NoDup_app in Hu as (_ & Hdis & Hu).
      * apply (Hdis (g_key g)); [by apply list_elem_of_fmap_2|]. apply elem_of_cons. left.
        unfold g_key. simpl. congruence.
      * apply NoDup_cons in Hu as [Hn _]. apply Hn. replace (g_key _) with (g_key g)
          by (unfold g_key; simpl; congruence). by apply list_elem_of_fmap_2.
    + apply Hpc. apply elem_of_app in Hg as [Hg|Hg]; [set_solver|].
      apply elem_of_cons in Hg as [->|Hg]; [done|set_solver].
  - intros p' id' j. rewrite Hk, Hl. case_decide as E; [|by apply Hd].
    intros _ Hn. exfalso. apply Hn. rewrite E. rewrite fmap_app, fmap_cons. set_solver.
  - rewrite Hsub, Ht, !length_app. simpl. lia.
  - intros p' id' Hs Ha. rewrite Hc. eapply Hi; [|done]. by eapply inv_ids_update.
Qed.

(** A critical section that ends it: the job is finished and counted. *)
Lemma inv_end s s' gs1 gs2 p id c j' :
  jobs_inv (World s (gs1 ++ Goroutine p id c :: gs2)) → job_update s s' p id j' 1 →
  jr_State j' = jobStateDone → jobs_inv (World s' (gs1 ++ gs2)).
Proof.
  intros [Hu Hpc Hd Ht Hi] Hup Hok.
  assert (is_Some (lookup_job s p id)) as Hsome.
  { destruct (Hpc (Goroutine p id c)) as (j & Hj & _); [set_solver|by exists j]. }
  pose proof Hup as (Hl & Hc & Hsub & Htot & _). simpl in *.
  rewrite fmap_app, fmap_cons in Hu. apply NoDup_app in Hu as (Hu1 & Hdis & Hu2).
  apply NoDup_cons in Hu2 as [Hn Hu2].
  assert ((p, id) ∉ g_key <$> gs1 ++ gs2) as Hgone.
  { rewrite fmap_app, not_elem_of_app. split; [|done]. intros Hin. apply (Hdis _ Hin). left. }
  split; simpl in *.
  - rewrite fmap_app. apply NoDup_app. split; [done|]. split; [|done].
    intros x Hx Hx2. apply (Hdis x Hx). by right.
  - intros g Hg. rewrite Hl, decide_False.
    + apply Hpc. set_solver.
    + intros E. apply Hgone. rewrite <-E. change (g_project g, g_job g) with (g_key g). by apply list_elem_of_fmap_2.
  - intros p' id' j. rewrite Hl. case_decide as E; [intros [= <-]; done|]. intros Hj Hnin. apply (Hd _ _ _ Hj).
    rewrite fmap_app, fmap_cons, not_elem_of_app, not_elem_of_cons. rewrite fmap_app, not_elem_of_app in Hnin.
    naive_solver.
  - rewrite Hsub, Ht, !length_app. simpl. lia.
  - intros p' id' Hs Ha. rewrite Hc. eapply Hi; [|done]. by eapply inv_ids_update.
Qed.

(** Services that differ in slots and versions only. *)
Definition same_jobs (s s' : jobService) : Prop :=
  (∀ p id, lookup_job s' p id = lookup_job s p id) ∧ js_counter s' = js_counter s ∧
  js_submittedTotal s' = js_submittedTotal s ∧ js_completedTotal s' = js_completedTotal s ∧
  js_failedTotal s' = js_failedTotal s.

Lemma inv_same_jobs s s' gs : same_jobs s s' → jobs_inv (World s gs) → jobs_inv (World s' gs).
Proof.
  intros (Hl & Hc & Hs & Hco & Hf) [? Hpc Hd Ht Hi]. split; simpl in *; try done.
  - intros g Hg. rewrite Hl. by apply Hpc.
  - intros p' id' j. rewrite Hl. by apply Hd.
  - by rewrite Hs, Hco, Hf.
  - intros p' id'. rewrite Hl, Hc. apply Hi.
Qed.

Lemma release_same_jobs cfg c s : same_jobs s (release cfg c s).
Proof. apply release_frame. Qed.
Lemma acquire_run_same_jobs cfg s s' : acquire_run cfg s = Some s' → same_jobs s s'.
Proof. unfold acquire_run. repeat case_match; intros; simplify_eq; done. Qed.
Lemma acquire_storage_same_jobs cfg s jt rk s' :
  acquireStorageWriteSlot cfg s jt rk = Some s' → same_jobs s s'.
Proof. unfold acquireStorageWriteSlot. repeat case_match; intros; simplify_eq; done. Qed.
Lemma acquire_resource_same_jobs s rk s' : acquireResourceSlot s rk = Some s' → same_jobs s s'.
Proof. unfold acquireResourceSlot. repeat case_match; intros; simplify_eq; done. Qed.

Lemma job_update_refl s p id j : lookup_job s p id = Some j → job_update s s p id j 0.
Proof.
  intros Hj. split; [|unfold same_slots; split_and!; try done; lia].
  intros p' id'. case_decide; by simplify_eq.
Qed.

Lemma job_update_same_jobs s s1 s' p id j n :
  job_update s s1 p id j n → same_jobs s1 s' → ∀ gs, jobs_inv (World s1 gs) → jobs_inv (World s' gs).
Proof. intros _ Hs gs. by apply inv_same_jobs. Qed.

Lemma inv_goroutine_step cfg w w' : jobs_inv w → goroutine_step cfg w w' → jobs_inv w'.
Proof.
  intros Hinv Hstep. destruct Hstep as [s gs1 gs2 p id c s' oc Hadv].
  assert (∃ j, lookup_job s p id = Some j ∧ pc_ok c j) as (j & Hj & Hok).
  { apply (inv_pc _ Hinv (Goroutine p id c)). set_solver. }
  assert (∀ s' c', same_jobs s s' → pc_ok c' j → jobs_inv (World s' (gs1 ++ [Goroutine p id c'] ++ gs2))) as Hmove.
  { intros s1 c' Hs Hok'. apply (inv_same_jobs s s1); [done|]. simpl.
    eapply inv_keep; [exact Hinv|by apply job_update_refl|done]. }
  assert (∀ s1 s2 j', job_update s s1 p id j' 1 → jr_State j' = jobStateDone → same_jobs s1 s2 →
    jobs_inv (World s2 (gs1 ++ [] ++ gs2))) as Hend.
  { intros s1 s2 j' Hup Hd Hs. apply (inv_same_jobs s1 s2); [done|]. by eapply inv_end. }
  destruct Hadv; simpl in Hok.
  - apply Hmove; [by eapply acquire_run_same_jobs|done].
  - apply Hmove; [|done]. destruct (run_first_check_spec _ _ _ _ _ _ _ Hj H) as [_ Hs].
    by rewrite (Hs _ eq_refl).
  - destruct (run_first_check_spec _ _ _ _ _ _ _ Hj H) as [(j' & Hup & Hd) _].
    eapply Hend; [done|done|apply release_same_jobs].
  - apply Hmove; [by eapply acquire_storage_same_jobs|done].
  - apply Hmove; [by eapply acquire_resource_same_jobs|done].
  - destruct (run_begin_spec _ _ _ _ _ _ _ Hj H) as (_ & j' & Hup & Hr & _).
    eapply inv_keep; [exact Hinv|exact Hup|exact Hr].
  - destruct (run_begin_spec _ _ _ _ _ _ _ Hj H) as (j' & Hup & Hd).
    eapply Hend; [done|done|apply release_same_jobs].
  - by apply Hmove.
  - congruence.
  - destruct (recoverJobPanic_spec (release cfg (PcRunning jt rk) s) p id reason now j) as (j' & Hup & Hd).
    { destruct (release_frame cfg (PcRunning jt rk) s) as [-> _]. done. }
    eapply inv_end; [|exact Hup|exact Hd].
    apply (inv_same_jobs s); [apply release_same_jobs|exact Hinv].
  - destruct (run_finish_spec s p id o now j Hj) as (j' & Hup & Hd).
    eapply Hend; [done|done|apply release_same_jobs].
Qed.

(** ** Submitting *)

(** A new job is stored under a fresh id; nothing else changes. *)
Lemma jobs_insert_spec cfg target s o now s' r :
  jobs_insert cfg target s o now = (s', r) →
  match r with
  | inr (j, true) =>
      (∀ p id, lookup_job s' p id = if decide ((p, id) = (jr_ProjectID j, jr_JobID j)) then Some j else lookup_job s p id) ∧
      jr_State j = jobStatePending ∧ js_submittedTotal s' = js_submittedTotal s + 1 ∧
      js_completedTotal s' = js_completedTotal s ∧ js_failedTotal s' = js_failedTotal s ∧
      (trim_space (jo_RequestedJobID o) = "" ∧ js_counter s' = js_counter s + 1 ∧
         jr_JobID j = "job_" +:+ format_int (js_counter s + 1) ∨
       trim_space (jo_RequestedJobID o) ≠ "" ∧ js_counter s' = js_counter s ∧
         jr_JobID j = trim_space (jo_RequestedJobID o) ∧ lookup_job s (jr_ProjectID j) (jr_JobID j) = None)
  | _ => same_jobs s s'
  end ∧ same_slots s s'.
Proof.
  unfold jobs_insert. set (o' := if _ && negb (jo_IsScript o) then _ else o).
  assert (jo_RequestedJobID o' = jo_RequestedJobID o) as Hreq
    by (subst o'; repeat case_match; done).
  set (s1 := set js_requestIDIndex _ s).
  assert (same_jobs s s1 ∧ same_slots s s1) as [Hs1 Hsl1] by done.
  destruct (if bool_decide (jo_RequestID o' = "") then None else _) as [j0|]; [intros [= <- <-]; done|].
  unfold resolveJobIDLocked. rewrite Hreq. case_bool_decide as Er.
  - intros [= <- <-]. split; [|by case_bool_decide]. split_and!; try (by repeat case_bool_decide).
    + intros p id. transitivity (lookup_job (set_job (jo_ProjectID o')
        ("job_" +:+ format_int (Z.succ (js_counter s))) (new_job o' ("job_" +:+ format_int (Z.succ (js_counter s))) now) s1) p id);
        [by case_bool_decide|]. by rewrite lookup_job_set.
    + left. split; [done|]. by case_bool_decide.
  - destruct (negb (isValidJobID _)); [intros [= <- <-]; done|].
    destruct (lookup_job s1 _ _) eqn:El; [intros [= <- <-]; done|].
    intros [= <- <-]. split; [|by case_bool_decide]. split_and!; try (by repeat case_bool_decide).
    + intros p id. transitivity (lookup_job (set_job (jo_ProjectID o') (trim_space (jo_RequestedJobID o))
        (new_job o' (trim_space (jo_RequestedJobID o)) now) s1) p id); [by case_bool_decide|].
      by rewrite lookup_job_set.
    + right. split; [done|]. by case_bool_decide.
Qed.

(** An id the server assigns is fresh as long as clients keep out of its way. *)
Lemma insert_fresh cfg target s o now s' j gs :
  jobs_inv (World s gs) → ¬ auto_id (trim_space (jo_RequestedJobID o)) →
  jobs_insert cfg target s o now = (s', inr (j, true)) →
  lookup_job s (jr_ProjectID j) (jr_JobID j) = None.
Proof.
  intros Hinv Hauto Hrun. destruct (jobs_insert_spec _ _ _ _ _ _ _ Hrun) as [(_ & _ & _ & _ & _ & Hid) _].
  destruct Hid as [(_ & _ & Hid)|(_ & _ & _ & Hnone)]; [|done].
  destruct (lookup_job s (jr_ProjectID j) (jr_JobID j)) eqn:E; [|done]. exfalso.
  destruct (inv_ids _ Hinv (jr_ProjectID j) (jr_JobID j)) as (n & Hn & Hnid); simpl.
  - by eexists.
  - rewrite Hid. by eexists.
  - simpl in Hn. rewrite Hid in Hnid. apply str_app_inv_head, format_int_injective in Hnid. lia.
Qed.

Lemma inv_insert cfg target s o now s' r gs :
  jobs_inv (World s gs) → ¬ auto_id (trim_space (jo_RequestedJobID o)) →
  jobs_insert cfg target s o now = (s', r) →
  jobs_inv (World s' (match r with
                 | inr (j, true) => gs ++ [Goroutine (jr_ProjectID j) (jr_JobID j) PcQueued]
                 | _ => gs
                 end)).
Proof.
  intros Hinv Hauto Hrun. pose proof (jobs_insert_spec _ _ _ _ _ _ _ Hrun) as [Hspec _].
  destruct r as [e|[j [|]]]; [by eapply inv_same_jobs| |by eapply inv_same_jobs].
  pose proof (insert_fresh _ _ _ _ _ _ _ _ Hinv Hauto Hrun) as Hfresh.
  destruct Hspec as (Hl & Hp & Hsub & Hco & Hf & Hid). destruct Hinv as [Hu Hpc Hd Ht Hi]. simpl in *.
  assert ((jr_ProjectID j, jr_JobID j) ∉ g_key <$> gs) as Hnew.
  { intros Hin. apply list_elem_of_fmap_1 in Hin as ([p id c] & E & Hin). unfold g_key in E. simpl in E.
    injection E as <- <-. destruct (Hpc _ Hin) as (j0 & Hj0 & _). simpl in Hj0. congruence. }
  split; simpl.
  - rewrite fmap_app. apply NoDup_app. split; [done|]. split; [|apply NoDup_singleton].
    intros x Hx ->%list_elem_of_singleton. by apply Hnew.
  - intros g [Hg| ->%list_elem_of_singleton]%elem_of_app.
    + rewrite Hl, decide_False; [by apply Hpc|]. intros E. apply Hnew. rewrite <-E.
      change (g_project g, g_job g) with (g_key g). by apply list_elem_of_fmap_2.
    + exists j. simpl. rewrite Hl, decide_True by done. split; [done|by left].
  - intros p id j'. rewrite Hl. rewrite fmap_app, not_elem_of_app. case_decide as E.
    + intros _ [_ Hn]. exfalso. apply Hn. rewrite E. left.
    + intros Hj' [Hn _]. by eapply Hd.
  - rewrite Hsub, Ht, Hco, Hf, length_app. simpl. lia.
  - intros p id. rewrite Hl. case_decide as E.
    + injection E as -> ->. intros _ Ha. destruct Hid as [(_ & -> & ->)|(_ & _ & E & _)];
        [eexists; split; [|done]; lia|]. rewrite E in Ha. done.
    + intros Hs Ha. destruct (Hi _ _ Hs Ha) as (n & Hn & ->). exists n. split; [|done].
      destruct Hid as [(_ & -> & _)|(_ & -> & _)]; lia.
Qed.

Lemma inv_cancel s p id now s' r gs :
  jobs_inv (World s gs) → jobs_cancel s p id now = (s', r) → jobs_inv (World s' gs).
Proof.
  intros Hinv Hrun. destruct (jobs_cancel_spec _ _ _ _ _ _ Hrun) as [->|(j & j' & Hj & Hup & Hc & _ & _ & Hst)]; [done|].
  destruct (decide ((p, id) ∈ g_key <$> gs)) as [Hin|Hnin].
  - apply list_elem_of_fmap_1 in Hin as ([p0 id0 c] & E & Hin). unfold g_key in E. simpl in E. injection E as -> ->.
    destruct (inv_pc _ Hinv _ Hin) as (j0 & Hj0 & Hok). simpl in *. assert (j0 = j) as -> by congruence.
    apply list_elem_of_split in Hin as (gs1 & gs2 & ->).
    eapply inv_keep; [exact Hinv|exact Hup|]. destruct c; simpl in *; destruct Hst as [[-> ?]|[? ->]];
      naive_solver congruence.
  - assert (jr_State j' = jobStateDone) as Hd'.
    { pose proof (inv_done _ Hinv p id j Hj Hnin). naive_solver congruence. }
    destruct Hinv as [Hu Hpc Hd Ht Hi]. pose proof Hup as (Hl & Hcn & Hsub & Htot & _). split; simpl in *; [done| | | |].
    + intros g Hg. rewrite Hl, decide_False; [by apply Hpc|]. intros E. apply Hnin. rewrite <-E.
      change (g_project g, g_job g) with (g_key g). by apply list_elem_of_fmap_2.
    + intros p' id' j0. rewrite Hl. case_decide; [by intros [= <-]|by apply Hd].
    + lia.
    + intros p' id' Hs Ha. rewrite Hcn. eapply Hi; [|done]. eapply inv_ids_update; [done|by exists j|done].
Qed.

Lemma reachable_inv cfg target w : jobs_reachable cfg target w → jobs_inv w.
Proof.
  induction 1.
  - split; simpl; try done; [constructor|intros g ?%elem_of_nil; done|by intros p id [? ?]].
  - by eapply inv_goroutine_step.
  - by eapply inv_insert.
  - by eapply inv_cancel.
Qed.

(** ** Semaphores *)

Lemma finish_job_slots s p id j : same_slots s (finish_job p id j s).
Proof. apply (finish_job_update s p id j). Qed.
Lemma run_first_check_slots s p id now : same_slots s (run_first_check s p id now).1.
Proof. unfold run_first_check. repeat case_match; simpl; try done; apply finish_job_slots. Qed.
Lemma run_begin_slots s p id now : same_slots s (run_begin s p id now).1.
Proof. unfold run_begin. repeat case_match; simpl; try done; apply finish_job_slots. Qed.
Lemma run_finish_slots s p id o now : same_slots s (run_finish s p id o now).
Proof. unfold run_finish. case_match; [apply (finish_job_slots s p id)|done]. Qed.
Lemma recoverJobPanic_slots s p id reason now : same_slots s (recoverJobPanic s p id reason now).
Proof. unfold recoverJobPanic. case_match; [apply (finish_job_slots s p id)|done]. Qed.

Definition count (f : pc → bool) (gs : list goroutine) : nat :=
  length (filter (λ g, f (g_pc g) = true) gs).
Definition holds_key (rk : string) (c : pc) : bool := bool_decide (holds_resource c = Some rk).

Lemma count_app f gs1 gs2 : count f (gs1 ++ gs2) = (count f gs1 + count f gs2)%nat.
Proof. unfold count. by rewrite filter_app, length_app. Qed.
Lemma count_cons f g gs : count f (g :: gs) = (Nat.b2n (f (g_pc g)) + count f gs)%nat.
Proof. unfold count. rewrite filter_cons. case_decide as E; [by rewrite E|]. by destruct (f (g_pc g)). Qed.
Lemma count_pos f gs g : g ∈ gs → f (g_pc g) = true → (0 < count f gs)%nat.
Proof.
  intros Hg Hf. apply list_elem_of_split in Hg as (gs1 & gs2 & ->).
  rewrite count_app, count_cons, Hf. simpl. lia.
Qed.

(** The slot a goroutine holds before and after its step. *)
Definition after (f : pc → bool) (oc : option pc) : nat :=
  match oc with Some c => Nat.b2n (f c) | None => 0%nat end.

Lemma release_run cfg c s cap :
  jc_runSlots cfg = Some cap →
  js_runSlots (release cfg c s) = if holds_run c then pred (js_runSlots s) else js_runSlots s.
Proof.
  intros Hc. unfold release. rewrite Hc, (bool_decide_true (is_Some (Some cap))) by done.
  rewrite andb_true_r. destruct (holds_resource c); destruct (holds_storage c && _); by destruct (holds_run c).
Qed.

Lemma release_storage cfg c s cap :
  jc_storageWriteSlots cfg = Some cap →
  js_storageWriteSlots (release cfg c s) =
    if holds_storage c then pred (js_storageWriteSlots s) else js_storageWriteSlots s.
Proof.
  intros Hc. unfold release. rewrite Hc, (bool_decide_true (is_Some (Some cap))) by done.
  rewrite andb_true_r. destruct (holds_resource c); destruct (holds_storage c); by destruct (holds_run c && _).
Qed.

Lemma release_resource cfg c s rk :
  default 0%nat (js_resourceSlots (release cfg c s) !! rk) =
    if holds_key rk c then pred (default 0%nat (js_resourceSlots s !! rk))
    else default 0%nat (js_resourceSlots s !! rk).
Proof.
  assert (js_resourceSlots (release cfg c s) = match holds_resource c with
    | Some rk => <[rk := pred (default 0%nat (js_resourceSlots s !! rk))]> (js_resourceSlots s)
    | None => js_resourceSlots s end) as ->.
  { unfold release. destruct (holds_resource c); destruct (holds_storage c && _); by destruct (holds_run c && _). }
  unfold holds_key. destruct (holds_resource c) as [rk'|]; [|by rewrite bool_decide_false].
  destruct (decide (rk' = rk)) as [->|Hne].
  - by rewrite lookup_insert_eq, bool_decide_true.
  - by rewrite lookup_insert_ne, bool_decide_false by congruence.
Qed.

Lemma advance_run cfg p id s c s' oc cap :
  jc_runSlots cfg = Some cap → advance cfg p id s c s' oc → (Nat.b2n (holds_run c) ≤ js_runSlots s)%nat →
  (js_runSlots s' + Nat.b2n (holds_run c) = js_runSlots s + after holds_run oc)%nat ∧
  (js_runSlots s' ≤ cap ∨ js_runSlots s' ≤ js_runSlots s)%nat.
Proof.
  intros Hcap Hadv Hle. destruct Hadv; simpl in *; rewrite ?(release_run _ _ _ _ Hcap); simpl.
  - unfold acquire_run in *. rewrite Hcap in *. destruct (_ <? cap)%nat eqn:E; simplify_eq/=.
    apply Nat.ltb_lt in E. lia.
  - pose proof (run_first_check_slots s p id now) as (Hs & _). rewrite H in Hs. simpl in Hs. lia.
  - pose proof (run_first_check_slots s p id now) as (Hs & _). rewrite H in Hs. simpl in Hs. lia.
  - assert (js_runSlots s' = js_runSlots s) as ->; [|lia].
    unfold acquireStorageWriteSlot in *. repeat case_match; simplify_eq; done.
  - assert (js_runSlots s' = js_runSlots s) as ->; [|lia].
    unfold acquireResourceSlot in *. repeat case_match; simplify_eq; done.
  - pose proof (run_begin_slots s p id now) as (Hs & _). rewrite H in Hs. simpl in Hs. lia.
  - pose proof (run_begin_slots s p id now) as (Hs & _). rewrite H in Hs. simpl in Hs. lia.
  - lia.
  - lia.
  - pose proof (recoverJobPanic_slots (release cfg (PcRunning jt rk) s) p id reason now) as (-> & _).
    rewrite (release_run _ _ _ _ Hcap). simpl. lia.
  - pose proof (run_finish_slots s p id o now) as (-> & _). lia.
Qed.

Lemma advance_storage cfg p id s c s' oc cap :
  jc_storageWriteSlots cfg = Some cap → advance cfg p id s c s' oc →
  (Nat.b2n (holds_storage c) ≤ js_storageWriteSlots s)%nat →
  (js_storageWriteSlots s' + Nat.b2n (holds_storage c) = js_storageWriteSlots s + after holds_storage oc)%nat ∧
  (js_storageWriteSlots s' ≤ cap ∨ js_storageWriteSlots s' ≤ js_storageWriteSlots s)%nat.
Proof.
  intros Hcap Hadv Hle. destruct Hadv; simpl in *; rewrite ?(release_storage _ _ _ _ Hcap); simpl.
  - assert (js_storageWriteSlots s' = js_storageWriteSlots s) as ->; [|lia].
    unfold acquire_run in *. repeat case_match; simplify_eq; done.
  - pose proof (run_first_check_slots s p id now) as (_ & Hs & _). rewrite H in Hs. simpl in Hs. lia.
  - pose proof (run_first_check_slots s p id now) as (_ & Hs & _). rewrite H in Hs. simpl in Hs. lia.
  - unfold acquireStorageWriteSlot in *. rewrite Hcap in *.
    destruct (requiresStorageWriteBackpressure jt rk); [|simplify_eq/=; lia].
    destruct (_ <? cap)%nat eqn:E; simplify_eq/=. apply Nat.ltb_lt in E. lia.
  - assert (js_storageWriteSlots s' = js_storageWriteSlots s) as ->; [|lia].
    unfold acquireResourceSlot in *. repeat case_match; simplify_eq; done.
  - pose proof (run_begin_slots s p id now) as (_ & Hs & _). rewrite H in Hs. simpl in Hs. lia.
  - pose proof (run_begin_slots s p id now) as (_ & Hs & _). rewrite H in Hs. simpl in Hs.
    destruct (requiresStorageWriteBackpressure jt rk); simpl in *; lia.
  - lia.
  - destruct (requiresStorageWriteBackpressure jt rk); simpl in *; lia.
  - pose proof (recoverJobPanic_slots (release cfg (PcRunning jt rk) s) p id reason now) as (_ & -> & _).
    rewrite (release_storage _ _ _ _ Hcap). simpl.
    destruct (requiresStorageWriteBackpressure jt rk); simpl in *; lia.
  - pose proof (run_finish_slots s p id o now) as (_ & -> & _).
    destruct (requiresStorageWriteBackpressure jt rk); simpl in *; lia.
Qed.

Lemma advance_resource cfg p id s c s' oc rk0 :
  advance cfg p id s c s' oc →
  (Nat.b2n (holds_key rk0 c) ≤ default 0 (js_resourceSlots s !! rk0))%nat →
  (default 0 (js_resourceSlots s' !! rk0) + Nat.b2n (holds_key rk0 c) =
     default 0 (js_resourceSlots s !! rk0) + after (holds_key rk0) oc)%nat ∧
  (default 0 (js_resourceSlots s' !! rk0) ≤ 1 ∨
   default 0 (js_resourceSlots s' !! rk0) ≤ default 0 (js_resourceSlots s !! rk0))%nat.
Proof.
  intros Hadv Hle. set (q := default 0%nat (js_resourceSlots s !! rk0)) in *.
  assert (∀ s1, js_resourceSlots s1 = js_resourceSlots s → default 0%nat (js_resourceSlots s1 !! rk0) = q) as Hq
    by (by intros s1 ->).
  destruct Hadv; cbn [after] in *; rewrite ?release_resource.
  - rewrite Hq; [unfold holds_key; simpl; lia|]. unfold acquire_run in *. repeat case_match; simplify_eq; done.
  - pose proof (run_first_check_slots s p id now) as (_ & _ & Hs). rewrite H in Hs. simpl in Hs.
    rewrite Hq by done. unfold holds_key; simpl; lia.
  - pose proof (run_first_check_slots s p id now) as (_ & _ & Hs). rewrite H in Hs. simpl in Hs.
    rewrite Hq by done. unfold holds_key; simpl; lia.
  - rewrite Hq; [unfold holds_key; simpl; lia|]. unfold acquireStorageWriteSlot in *. repeat case_match; simplify_eq; done.
  - unfold acquireResourceSlot in *. unfold holds_key at 1 2. cbn [holds_resource].
    destruct (locks rk); [|simplify_eq; rewrite Hq by done; simpl; lia].
    destruct (_ <? 1)%nat eqn:E; simplify_eq/=. apply Nat.ltb_lt in E.
    destruct (decide (rk = rk0)) as [->|Hne].
    + rewrite lookup_insert_eq, (bool_decide_true (Some rk0 = Some rk0)) by done. simpl. fold q in E |- *. lia.
    + rewrite lookup_insert_ne, (bool_decide_false (Some rk = Some rk0)) by congruence. fold q. simpl. lia.
  - pose proof (run_begin_slots s p id now) as (_ & _ & Hs). rewrite H in Hs. simpl in Hs.
    rewrite Hq by done. unfold holds_key in *; simpl in *; lia.
  - pose proof (run_begin_slots s p id now) as (_ & _ & Hs). rewrite H in Hs. simpl in Hs.
    rewrite Hq by done. destruct (holds_key rk0 _); simpl in *; lia.
  - fold q. unfold holds_key in *. simpl in *. lia.
  - fold q. destruct (holds_key rk0 _); simpl in *; lia.
  - pose proof (recoverJobPanic_slots (release cfg (PcRunning jt rk) s) p id reason now) as (_ & _ & ->).
    rewrite release_resource. fold q. destruct (holds_key rk0 _); simpl in *; lia.
  - pose proof (run_finish_slots s p id o now) as (_ & _ & ->). fold q.
    destruct (holds_key rk0 _); simpl in *; lia.
Qed.

(** Each channel's occupancy is the number of goroutines past its acquisition,
    within its capacity; a resource's capacity is one. *)
Record slots_inv (cfg : jobConfig) (w : world) : Prop := {
  inv_run cap : jc_runSlots cfg = Some cap →
    js_runSlots (w_service w) = count holds_run (w_goroutines w) ∧ (js_runSlots (w_service w) ≤ cap)%nat;
  inv_storage cap : jc_storageWriteSlots cfg = Some cap →
    js_storageWriteSlots (w_service w) = count holds_storage (w_goroutines w) ∧
    (js_storageWriteSlots (w_service w) ≤ cap)%nat;
  inv_resource rk :
    default 0%nat (js_resourceSlots (w_service w) !! rk) = count (holds_key rk) (w_goroutines w) ∧
    (default 0 (js_resourceSlots (w_service w) !! rk) ≤ 1)%nat }.

Lemma slots_inv_goroutine cfg w w' : slots_inv cfg w → goroutine_step cfg w w' → slots_inv cfg w'.
Proof.
  intros [Hr Hs Hres] Hstep. destruct Hstep as [s gs1 gs2 p id c s' oc Hadv]. simpl in *.
  assert (∀ f, count f (gs1 ++ match oc with Some c' => [Goroutine p id c'] | None => [] end ++ gs2) =
    (count f gs1 + after f oc + count f gs2)%nat) as Hcount.
  { intros f. rewrite !count_app. destruct oc; simpl; rewrite ?count_cons; simpl; unfold count; simpl; lia. }
  assert (∀ f, count f (gs1 ++ Goroutine p id c :: gs2) =
    (count f gs1 + Nat.b2n (f c) + count f gs2)%nat) as Hbefore.
  { intros f. rewrite !count_app, count_cons. simpl. lia. }
  split; simpl.
  - intros cap Hcap. destruct (Hr cap Hcap) as [E Hle]. rewrite Hcount. rewrite Hbefore in E.
    destruct (advance_run _ _ _ _ _ _ _ _ Hcap Hadv); lia.
  - intros cap Hcap. destruct (Hs cap Hcap) as [E Hle]. rewrite Hcount. rewrite Hbefore in E.
    destruct (advance_storage _ _ _ _ _ _ _ _ Hcap Hadv); lia.
  - intros rk. destruct (Hres rk) as [E Hle]. rewrite Hcount. rewrite Hbefore in E.
    destruct (advance_resource _ _ _ _ _ _ _ rk Hadv); lia.
Qed.

Lemma slots_inv_frame cfg s s' gs gs' :
  slots_inv cfg (World s gs) → same_slots s s' → (∀ f, f PcQueued = false → count f gs' = count f gs) →
  slots_inv cfg (World s' gs').
Proof.
  intros [Hr Hs Hres] (E1 & E2 & E3) Hc. split; simpl in *.
  - intros cap Hcap. rewrite E1, Hc by done. by apply Hr.
  - intros cap Hcap. rewrite E2, Hc by done. by apply Hs.
  - intros rk. rewrite E3, Hc by done. apply Hres.
Qed.

Lemma reachable_slots cfg target w : jobs_reachable cfg target w → slots_inv cfg w.
Proof.
  induction 1 as [|w w' _ IH Hstep|s gs o now s' r _ IH _ Hrun|s gs p id now s' r _ IH Hrun].
  - split; simpl; [intros; split; [done|lia]..|]. intros rk. rewrite lookup_empty. simpl. split; [done|lia].
  - by eapply slots_inv_goroutine.
  - destruct (jobs_insert_spec _ _ _ _ _ _ _ Hrun) as [_ Hsl]. eapply slots_inv_frame; [done|done|].
    intros f Hf. destruct r as [|[j []]]; [done| |done]. rewrite count_app, count_cons. simpl. rewrite Hf.
    unfold count. simpl. lia.
  - destruct (jobs_cancel_spec _ _ _ _ _ _ Hrun) as [->|(j & j' & _ & (_ & _ & _ & _ & Hsl) & _)]; [done|].
    by eapply slots_inv_frame.
Qed.

(** ** Accounting and mutual exclusion *)

(** Every job is worked on by at most one goroutine, a job nobody works on
    is DONE, and every submitted job is counted exactly once: the submitted
    total is the completed plus the failed plus the jobs in flight. *)
Theorem jobs_accounted (cfg : jobConfig) (target : string → string → option tableReference)
    (s : jobService) (gs : list goroutine) :
  jobs_reachable cfg target (World s gs) →
  NoDup (g_key <$> gs) ∧
  (∀ p id j, lookup_job s p id = Some j → (p, id) ∉ g_key <$> gs → jr_State j = jobStateDone) ∧
  js_submittedTotal s = js_completedTotal s + js_failedTotal s + Z.of_nat (length gs).
Proof. intros Hr. destruct (reachable_inv _ _ _ Hr) as [? _ ? ? _]. done. Qed.

(** C3. The executor's limits hold in every interleaving: no two goroutines are
    at once past the acquisition of the same table's lock, and no more
    goroutines hold a run slot or a storage-write slot than were configured. *)
Theorem executor_mutual_exclusion (cfg : jobConfig)
    (target : string → string → option tableReference) (s : jobService) (gs : list goroutine) :
  jobs_reachable cfg target (World s gs) →
  (∀ rk i k g h, gs !! i = Some g → gs !! k = Some h →
     holds_resource (g_pc g) = Some rk → holds_resource (g_pc h) = Some rk → i = k) ∧
  (∀ cap, jc_runSlots cfg = Some cap → (count holds_run gs ≤ cap)%nat) ∧
  (∀ cap, jc_storageWriteSlots cfg = Some cap → (count holds_storage gs ≤ cap)%nat).
Proof.
  intros Hr. destruct (reachable_slots _ _ _ Hr) as [Hrun Hst Hres]. simpl in *. split_and!.
  - intros rk i k g h Hg Hh Hgk Hhk. destruct (Hres rk) as [E Hle]. rewrite E in Hle.
    destruct (decide (i = k)) as [|Hne]; [done|]. exfalso.
    assert (∀ i k g h, (i < k)%nat → gs !! i = Some g → gs !! k = Some h → holds_resource (g_pc g) = Some rk →
      holds_resource (g_pc h) = Some rk → False) as Hno.
    { clear -Hle. intros i k g h Hlt Hg Hh Hgk Hhk.
      rewrite <-(take_drop_middle gs i g Hg), count_app, count_cons in Hle.
      assert (0 < count (holds_key rk) (drop (S i) gs))%nat.
      { apply (count_pos _ _ h); [|by apply bool_decide_eq_true].
        apply list_elem_of_lookup. exists (k - S i)%nat. rewrite lookup_drop. rewrite <-Hh. f_equal. lia. }
      assert (holds_key rk (g_pc g) = true) as Hk by (by apply bool_decide_eq_true).
      rewrite Hk in Hle. simpl in Hle. lia. }
    destruct (decide (i < k)%nat); [by eapply (Hno i k)|]. eapply (Hno k i); [lia|done..].
  - intros cap Hcap. by destruct (Hrun cap Hcap) as [<- ?].
  - intros cap Hcap. by destruct (Hst cap Hcap) as [<- ?].
Qed.

(** ** Lifecycle *)

Definition state_rank (st : jobState) : nat :=
  match st with jobStatePending => 0 | jobStateRunning => 1 | jobStateDone => 2 end.

(** Every job is still there and no earlier in its life. *)
Definition no_regress (s s' : jobService) : Prop :=
  ∀ p id j, lookup_job s p id = Some j →
    ∃ j', lookup_job s' p id = Some j' ∧ (state_rank (jr_State j) ≤ state_rank (jr_State j'))%nat.

Lemma no_regress_same s s' : same_jobs s s' → no_regress s s'.
Proof. intros [Hl _] p id j Hj. exists j. by rewrite Hl. Qed.

Lemma no_regress_update s s' p id j j' n :
  lookup_job s p id = Some j → job_update s s' p id j' n →
  (state_rank (jr_State j) ≤ state_rank (jr_State j'))%nat → no_regress s s'.
Proof.
  intros Hj [Hl _] Hle p0 id0 j0 Hj0. rewrite Hl. case_decide as E.
  - simplify_eq. by exists j'.
  - by exists j0.
Qed.

Lemma no_regress_trans_slots s s1 s' : no_regress s s1 → same_jobs s1 s' → no_regress s s'.
Proof. intros Hn [Hl _] p id j Hj. rewrite Hl. by apply Hn. Qed.

Lemma rank_done j j' : jr_State j' = jobStateDone → (state_rank (jr_State j) ≤ state_rank (jr_State j'))%nat.
Proof. intros ->. destruct (jr_State j); simpl; lia. Qed.

Lemma no_regress_goroutine cfg w w' :
  jobs_inv w → goroutine_step cfg w w' → no_regress (w_service w) (w_service w').
Proof.
  intros Hinv Hstep. destruct Hstep as [s gs1 gs2 p id c s' oc Hadv]. simpl.
  assert (∃ j, lookup_job s p id = Some j ∧ pc_ok c j) as (j & Hj & Hok).
  { apply (inv_pc _ Hinv (Goroutine p id c)). set_solver. }
  destruct Hadv; simpl in Hok.
  - by eapply no_regress_same, acquire_run_same_jobs.
  - destruct (run_first_check_spec _ _ _ _ _ _ _ Hj H) as [_ Hs]. rewrite (Hs _ eq_refl). by apply no_regress_same.
  - destruct (run_first_check_spec _ _ _ _ _ _ _ Hj H) as [(j' & Hup & Hd) _].
    eapply no_regress_trans_slots; [|apply release_same_jobs].
    by eapply no_regress_update, rank_done.
  - by eapply no_regress_same, acquire_storage_same_jobs.
  - by eapply no_regress_same, acquire_resource_same_jobs.
  - destruct (run_begin_spec _ _ _ _ _ _ _ Hj H) as (Hc & j' & Hup & Hr & _).
    eapply no_regress_update; [done|done|]. destruct Hok as [->|[_ Hc']]; [|congruence]. rewrite Hr. simpl. lia.
  - destruct (run_begin_spec _ _ _ _ _ _ _ Hj H) as (j' & Hup & Hd).
    eapply no_regress_trans_slots; [|apply release_same_jobs].
    by eapply no_regress_update, rank_done.
  - by apply no_regress_same.
  - congruence.
  - destruct (recoverJobPanic_spec (release cfg (PcRunning jt rk) s) p id reason now j) as (j' & Hup & Hd).
    { destruct (release_frame cfg (PcRunning jt rk) s) as [-> _]. done. }
    intros p0 id0 j0 Hj0. eapply (no_regress_update (release cfg (PcRunning jt rk) s)); [|exact Hup|by apply (rank_done j)|].
    + destruct (release_frame cfg (PcRunning jt rk) s) as [-> _]. done.
    + destruct (release_frame cfg (PcRunning jt rk) s) as [-> _]. done.
  - destruct (run_finish_spec s p id o now j Hj) as (j' & Hup & Hd).
    eapply no_regress_trans_slots; [|apply release_same_jobs].
    by eapply no_regress_update, rank_done.
Qed.

Lemma no_regress_cancel s p id now s' r : jobs_cancel s p id now = (s', r) → no_regress s s'.
Proof.
  intros Hrun. destruct (jobs_cancel_spec _ _ _ _ _ _ Hrun) as [->|(j & j' & Hj & Hup & _ & _ & _ & Hst)].
  - by apply no_regress_same.
  - eapply no_regress_update; [done|done|]. destruct Hst as [[-> _]|[-> ->]]; simpl; lia.
Qed.

Lemma no_regress_insert cfg target s o now s' r gs :
  jobs_inv (World s gs) → ¬ auto_id (trim_space (jo_RequestedJobID o)) →
  jobs_insert cfg target s o now = (s', r) → no_regress s s'.
Proof.
  intros Hinv Hauto Hrun. pose proof (jobs_insert_spec _ _ _ _ _ _ _ Hrun) as [Hspec _].
  destruct r as [e|[j [|]]]; [by apply no_regress_same| |by apply no_regress_same].
  pose proof (insert_fresh _ _ _ _ _ _ _ _ Hinv Hauto Hrun) as Hfresh. destruct Hspec as [Hl _].
  intros p id j0 Hj0. exists j0. rewrite Hl. case_decide; [simplify_eq; congruence|done].
Qed.


(** ** No deadlock, and every job ends *)

Lemma worker_limit_pos env cap : worker_limit env = Some cap → (0 < cap)%nat.
Proof.
  unfold worker_limit. case_bool_decide; [done|]. destruct (parse_int _) as [n|]; [|done].
  destruct (n <=? 0) eqn:E; [done|]. intros [= <-]. bools. lia.
Qed.

Definition can_step (cfg : jobConfig) (s : jobService) (g : goroutine) : Prop :=
  ∃ s' oc, advance cfg (g_project g) (g_job g) s (g_pc g) s' oc.

(** Past the acquisitions nothing can block a goroutine. *)
Definition unblocked (c : pc) : bool :=
  match c with PcStarted | PcReady _ _ | PcRunning _ _ | PcExecuted _ _ _ => true | _ => false end.

Lemma unblocked_step cfg s g : unblocked (g_pc g) = true → can_step cfg s g.
Proof.
  destruct g as [p id c]. unfold can_step. simpl. destruct c; try done; intros _.
  - destruct (run_first_check s p id 0) as [s' [[jt rk]|]] eqn:E;
      eexists _, _; [by eapply adv_checked|by eapply adv_dropped].
  - destruct (run_begin s p id 0) as [s' [|]] eqn:E; eexists _, _; [by eapply adv_begin|by eapply adv_begin_dropped].
  - eexists _, _. apply (adv_execute cfg p id s jt rk NotExecuted).
  - eexists _, _. apply (adv_finish cfg p id s jt rk o 0).
Qed.

Lemma count_zero f gs : (∀ g, g ∈ gs → f (g_pc g) = false) → count f gs = 0%nat.
Proof.
  intros Hf. unfold count. induction gs as [|g gs IH]; [done|]. rewrite filter_cons_False.
  - apply IH. intros h Hh. apply Hf. by right.
  - rewrite Hf by left. done.
Qed.

Lemma holds_key_unblocked rk c : holds_key rk c = true → unblocked c = true.
Proof. unfold holds_key. intros E%bool_decide_eq_true. by destruct c. Qed.

Definition at_resource (c : pc) : bool := match c with PcResource _ _ => true | _ => false end.
Definition at_storage (c : pc) : bool := match c with PcStorage _ _ => true | _ => false end.

Lemma any_or_none (f : pc → bool) (gs : list goroutine) :
  (∃ g, g ∈ gs ∧ f (g_pc g) = true) ∨ (∀ g, g ∈ gs → f (g_pc g) = false).
Proof.
  induction gs as [|g gs [(h & Hh & Hf)|IH]]; [right; by intros g ?%elem_of_nil| |].
  - left. exists h. split; [by right|done].
  - destruct (f (g_pc g)) eqn:E; [left; exists g; split; [left|done]|].
    right. intros h [->|Hh]%elem_of_cons; auto.
Qed.

(** If every goroutine waits, one that waits for a table's lock gets it: its
    holder would not be waiting. *)
Lemma resource_step cfg s gs g :
  slots_inv cfg (World s gs) → (∀ g, g ∈ gs → unblocked (g_pc g) = false) →
  at_resource (g_pc g) = true → can_step cfg s g.
Proof.
  intros [_ _ Hres] Hblk Hc. destruct g as [p id c]. destruct c as [| |jt rk|jt rk|jt rk|jt rk|jt rk o]; try done.
  assert (∃ s', acquireResourceSlot s rk = Some s') as [s' Hs'].
  { unfold acquireResourceSlot. destruct (locks rk); [|by eexists]. destruct (Hres rk) as [Hcount _].
    simpl in Hcount. rewrite Hcount, count_zero; [by eexists|]. intros g Hg'. apply not_true_is_false. intros Hk.
    apply holds_key_unblocked in Hk. rewrite Hblk in Hk; done. }
  eexists _, _. by eapply adv_resource.
Qed.

(** If none waits for a lock either, no storage-write slot is taken. *)
Lemma storage_step cfg s gs g :
  (∀ cap, jc_storageWriteSlots cfg = Some cap → (0 < cap)%nat) →
  slots_inv cfg (World s gs) → (∀ g, g ∈ gs → unblocked (g_pc g) = false) →
  (∀ g, g ∈ gs → at_resource (g_pc g) = false) → at_storage (g_pc g) = true → can_step cfg s g.
Proof.
  intros Hpos [_ Hs _] Hblk Hnores Hc. destruct g as [p id c].
  destruct c as [| |jt rk|jt rk|jt rk|jt rk|jt rk o]; try done.
  assert (∃ s', acquireStorageWriteSlot cfg s jt rk = Some s') as [s' Hs'].
  { unfold acquireStorageWriteSlot. destruct (jc_storageWriteSlots cfg) as [cap|] eqn:Ecap; [|by eexists].
    destruct (requiresStorageWriteBackpressure jt rk); [|by eexists]. destruct (Hs cap eq_refl) as [Hcount _].
    simpl in Hcount. rewrite Hcount, count_zero.
    - rewrite (proj2 (Nat.ltb_lt 0 cap)) by (by apply Hpos). by eexists.
    - intros h Hh. specialize (Hblk h Hh). specialize (Hnores h Hh). by destruct (g_pc h). }
  eexists _, _. by eapply adv_storage.
Qed.

(** If all are queued, no run slot is taken. *)
Lemma queued_step cfg s gs g :
  (∀ cap, jc_runSlots cfg = Some cap → (0 < cap)%nat) →
  slots_inv cfg (World s gs) → (∀ g, g ∈ gs → g_pc g = PcQueued) → g ∈ gs → can_step cfg s g.
Proof.
  intros Hpos [Hr _ _] Hq Hg. pose proof (Hq g Hg) as Ec. destruct g as [p id c]. simpl in Ec. subst c.
  assert (∃ s', acquire_run cfg s = Some s') as [s' Hs'].
  { unfold acquire_run. destruct (jc_runSlots cfg) as [cap|] eqn:Ecap; [|by eexists].
    destruct (Hr cap eq_refl) as [Hcount _]. simpl in Hcount. rewrite Hcount, count_zero.
    - rewrite (proj2 (Nat.ltb_lt 0 cap)) by (by apply Hpos). by eexists.
    - intros h Hh. by rewrite (Hq h Hh). }
  eexists _, _. by eapply adv_run.
Qed.

Lemma someone_can_step cfg s gs :
  (∀ cap, jc_runSlots cfg = Some cap → (0 < cap)%nat) →
  (∀ cap, jc_storageWriteSlots cfg = Some cap → (0 < cap)%nat) →
  slots_inv cfg (World s gs) → gs ≠ [] → ∃ g, g ∈ gs ∧ can_step cfg s g.
Proof.
  intros Hrpos Hspos Hinv Hne.
  destruct (any_or_none unblocked gs) as [(g & Hg & Hu)|Hblk].
  { exists g. split; [done|by apply unblocked_step]. }
  destruct (any_or_none at_resource gs) as [(g & Hg & Hu)|Hnores].
  { exists g. split; [done|by eapply resource_step]. }
  destruct (any_or_none at_storage gs) as [(g & Hg & Hu)|Hnost].
  { exists g. split; [done|by eapply storage_step]. }
  destruct gs as [|g gs]; [done|]. exists g. split; [left|].
  eapply queued_step; [done|done| |left].
  intros h Hh. specialize (Hblk h Hh). specialize (Hnores h Hh). specialize (Hnost h Hh). by destruct (g_pc h).
Qed.

(** Steps a goroutine has left. *)
Definition pc_left (c : pc) : nat :=
  match c with
  | PcQueued => 7 | PcStarted => 6 | PcStorage _ _ => 5 | PcResource _ _ => 4 | PcReady _ _ => 3
  | PcRunning _ _ => 2 | PcExecuted _ _ _ => 1
  end.
Definition steps_left (gs : list goroutine) : nat := sum_list ((λ g, pc_left (g_pc g)) <$> gs).

Lemma step_decreases cfg w w' :
  goroutine_step cfg w w' → (steps_left (w_goroutines w') < steps_left (w_goroutines w))%nat.
Proof.
  intros Hstep. destruct Hstep as [s gs1 gs2 p id c s' oc Hadv]. unfold steps_left. simpl.
  assert (∀ l k, sum_list (l ++ k) = (sum_list l + sum_list k)%nat) as Happ
    by (induction l; intros; simpl; [done|rewrite IHl; lia]).
  rewrite !fmap_app, fmap_cons, !Happ. simpl.
  destruct Hadv; simpl; lia.
Qed.

(** Runs of the executor alone. *)
Inductive executor_run (cfg : jobConfig) : nat → world → world → Prop :=
| run_nil w : executor_run cfg 0 w w
| run_cons n w1 w2 w3 : goroutine_step cfg w1 w2 → executor_run cfg n w2 w3 → executor_run cfg (S n) w1 w3.

Lemma executor_run_bound cfg n w w' :
  executor_run cfg n w w' → (n + steps_left (w_goroutines w') ≤ steps_left (w_goroutines w))%nat.
Proof.
  induction 1 as [w|n w1 w2 w3 Hs _ IH]; [done|]. apply step_decreases in Hs. lia.
Qed.

Lemma executor_run_reachable cfg target n w w' :
  executor_run cfg n w w' → jobs_reachable cfg target w → jobs_reachable cfg target w'.
Proof. induction 1; intros; [done|]. apply IHexecutor_run. by eapply jr_goroutine. Qed.

Lemma steps_left_bound gs : (steps_left gs ≤ 7 * length gs)%nat.
Proof.
  induction gs as [|g gs IH]; [done|].
  change (steps_left (g :: gs)) with (pc_left (g_pc g) + steps_left gs)%nat. cbn [length].
  assert (pc_left (g_pc g) ≤ 7)%nat by (destruct (g_pc g); simpl; lia). lia.
Qed.


(** ** Retrying a submission *)

(** The requestId is indexed, since [t], and its job is there. *)
Definition request_known (s : jobService) (p rid jid : string) (t : Z) : Prop :=
  (js_requestIDIndex s !! p ≫= λ idx, idx !! rid) = Some (RequestIDRecord jid t) ∧
  is_Some (lookup_job s p jid).

Lemma cleanup_keeps cfg now idx p rid jid t :
  now ≤ t + jc_requestIDTTL cfg →
  (idx !! p ≫= λ m, m !! rid) = Some (RequestIDRecord jid t) →
  (cleanupExpiredRequestIDsLocked cfg now idx !! p ≫= λ m, m !! rid) = Some (RequestIDRecord jid t).
Proof.
  intros Hage Hk. unfold cleanupExpiredRequestIDsLocked. case_match; [done|].
  rewrite lookup_omap. destruct (idx !! p) as [m|]; [|done]. simpl in *.
  set (m' := filter _ m). assert (m' !! rid = Some (RequestIDRecord jid t)) as Hm'.
  { apply map_lookup_filter_Some. split; [done|]. simpl. lia. }
  rewrite bool_decide_false; [done|]. intros E. by rewrite E in Hm'.
Qed.

(** A submission under a known requestId returns the job it names. *)
Lemma insert_known cfg target s o now p rid jid t :
  request_known s p rid jid t → now ≤ t + jc_requestIDTTL cfg →
  jo_ProjectID o = p → jo_RequestID o = rid → rid ≠ "" →
  ∃ j, lookup_job s p jid = Some j ∧
  jobs_insert cfg target s o now =
    (s <| js_requestIDIndex ::= cleanupExpiredRequestIDsLocked cfg now |>, inr (j, false)).
Proof.
  intros [Hk [j Hj]] Hage Hp Hr Hne. exists j. split; [done|]. unfold jobs_insert.
  set (o' := if _ && negb (jo_IsScript o) then _ else o).
  assert (jo_ProjectID o' = p ∧ jo_RequestID o' = rid) as [-> ->] by (subst o' p rid; repeat case_match; done).
  rewrite bool_decide_false by done. simpl.
  pose proof (cleanup_keeps cfg now _ _ _ _ _ Hage Hk) as Hk'.
  destruct (cleanupExpiredRequestIDsLocked cfg now _ !! p) as [m|]; [|done]. simpl in *. rewrite Hk'. simpl.
  unfold lookup_job in *. simpl. by rewrite Hj.
Qed.

Definition same_index (s s' : jobService) : Prop := js_requestIDIndex s' = js_requestIDIndex s.

Lemma finish_job_index s p id j : same_index s (finish_job p id j s).
Proof. unfold same_index, finish_job, recordJobOutcomeLocked. by case_bool_decide. Qed.
Lemma release_index cfg c s : same_index s (release cfg c s).
Proof.
  unfold same_index, release.
  destruct (holds_resource c); destruct (holds_storage c && _); by destruct (holds_run c && _).
Qed.

Lemma advance_index cfg p id s c s' oc : advance cfg p id s c s' oc → same_index s s'.
Proof.
  intros Hadv. destruct Hadv.
  - unfold acquire_run in *. repeat case_match; simplify_eq; done.
  - unfold run_first_check in *. repeat case_match; simplify_eq; done.
  - unfold run_first_check in *. unfold same_index. rewrite release_index.
    repeat case_match; simplify_eq; [apply finish_job_index|done].
  - unfold acquireStorageWriteSlot in *. repeat case_match; simplify_eq; done.
  - unfold acquireResourceSlot in *. repeat case_match; simplify_eq; done.
  - unfold run_begin in *. repeat case_match; simplify_eq; done.
  - unfold run_begin in *. unfold same_index. rewrite release_index.
    repeat case_match; simplify_eq; [apply finish_job_index|done].
  - done.
  - apply release_index.
  - unfold recoverJobPanic, same_index. case_match; [rewrite finish_job_index|]; apply release_index.
  - unfold same_index. rewrite release_index. unfold run_finish. case_match; [|done].
    apply (finish_job_index s p id).
Qed.

Lemma jobs_insert_keeps_jobs cfg target s o now s' r p id :
  jobs_insert cfg target s o now = (s', r) → is_Some (lookup_job s p id) → is_Some (lookup_job s' p id).
Proof.
  intros Hrun Hs. destruct (jobs_insert_spec _ _ _ _ _ _ _ Hrun) as [Hspec _].
  destruct r as [e|[j []]]; [by destruct Hspec as [-> _]| |by destruct Hspec as [-> _]].
  destruct Hspec as [-> _]. by case_decide.
Qed.

Lemma insert_keeps_known cfg target s o now s' r p rid jid t :
  request_known s p rid jid t → now ≤ t + jc_requestIDTTL cfg → rid ≠ "" →
  jobs_insert cfg target s o now = (s', r) → request_known s' p rid jid t.
Proof.
  intros Hk Hage Hne Hrun. split; [|by eapply jobs_insert_keeps_jobs, Hk].
  destruct (decide (jo_ProjectID o = p ∧ jo_RequestID o = rid)) as [[Ep Er]|Hother].
  - destruct (insert_known cfg target s o now p rid jid t Hk Hage Ep Er Hne) as (j & _ & E).
    rewrite E in Hrun. injection Hrun as <- _. simpl. apply cleanup_keeps; [done|apply Hk].
  - destruct Hk as [Hk _]. pose proof (cleanup_keeps cfg now _ _ _ _ _ Hage Hk) as Hk'.
    unfold jobs_insert in Hrun. set (o' := if _ && negb (jo_IsScript o) then _ else o) in *.
    assert (jo_ProjectID o' = jo_ProjectID o ∧ jo_RequestID o' = jo_RequestID o) as [Ep Er]
      by (subst o'; repeat case_match; done). clearbody o'.
    destruct (if bool_decide (jo_RequestID o' = "") then None else _); [injection Hrun as <- _; exact Hk'|].
    unfold resolveJobIDLocked in Hrun. simpl in Hrun.
    set (clean := cleanupExpiredRequestIDsLocked cfg now (js_requestIDIndex s)) in *.
    assert (∀ sx jid', js_requestIDIndex sx = (if bool_decide (jo_RequestID o' = "") then clean else
         <[jo_ProjectID o' := <[jo_RequestID o' := RequestIDRecord jid' now]>
           (default ∅ (clean !! jo_ProjectID o'))]> clean) →
      (js_requestIDIndex sx !! p ≫= λ idx, idx !! rid) = Some (RequestIDRecord jid t)) as Hnew.
    { intros sx jid' ->. destruct (bool_decide (jo_RequestID o' = "")); [exact Hk'|].
      rewrite Ep, Er. destruct (decide (jo_ProjectID o = p)) as [Epp|]; [|by rewrite lookup_insert_ne].
      rewrite Epp, lookup_insert_eq. simpl. rewrite lookup_insert_ne by naive_solver.
      destruct (clean !! p); [exact Hk'|done]. }
    destruct (bool_decide (trim_space _ = "")); [injection Hrun as <- _; eapply Hnew; by case_bool_decide|].
    destruct (negb (isValidJobID _)); [injection Hrun as <- _; exact Hk'|].
    destruct (lookup_job _ _ _); injection Hrun as <- _; [exact Hk'|eapply Hnew; by case_bool_decide].
Qed.

(** Anything may happen up to [deadline]. *)
Inductive jobs_run (cfg : jobConfig) (target : string → string → option tableReference) (deadline : Z)
    : world → world → Prop :=
| jrun_nil w : jobs_run cfg target deadline w w
| jrun_goroutine w1 w2 w3 :
    goroutine_step cfg w1 w2 → jobs_run cfg target deadline w2 w3 → jobs_run cfg target deadline w1 w3
| jrun_insert s gs o now s' r gs' w3 :
    now ≤ deadline → jobs_insert cfg target s o now = (s', r) →
    jobs_run cfg target deadline (World s' gs') w3 → jobs_run cfg target deadline (World s gs) w3
| jrun_cancel s gs p id now s' r w3 :
    jobs_cancel s p id now = (s', r) →
    jobs_run cfg target deadline (World s' gs) w3 → jobs_run cfg target deadline (World s gs) w3.

Lemma update_keeps_jobs s s' p id j' n p0 id0 :
  job_update s s' p id j' n → is_Some (lookup_job s p0 id0) → is_Some (lookup_job s' p0 id0).
Proof. intros [Hl _] Hs. rewrite Hl. by case_decide. Qed.

Lemma advance_keeps_jobs cfg p id s c s' oc p0 id0 :
  advance cfg p id s c s' oc → is_Some (lookup_job s p0 id0) → is_Some (lookup_job s' p0 id0).
Proof.
  intros Hadv Hs. destruct Hadv.
  - by destruct (acquire_run_same_jobs _ _ _ H) as [-> _].
  - unfold run_first_check in *. repeat case_match; simplify_eq; done.
  - destruct (release_frame cfg PcStarted s') as [-> _]. unfold run_first_check in *.
    repeat case_match; simplify_eq; [|done]. eapply update_keeps_jobs; [apply finish_job_update|done].
  - by destruct (acquire_storage_same_jobs _ _ _ _ _ H) as [-> _].
  - by destruct (acquire_resource_same_jobs _ _ _ H) as [-> _].
  - unfold run_begin in *. repeat case_match; simplify_eq.
    eapply update_keeps_jobs; [apply bump_update, set_job_update|done].
  - destruct (release_frame cfg (PcReady jt rk) s') as [-> _]. unfold run_begin in *.
    repeat case_match; simplify_eq; [|done]. eapply update_keeps_jobs; [apply finish_job_update|done].
  - done.
  - by destruct (release_frame cfg (PcRunning jt rk) s) as [-> _].
  - unfold recoverJobPanic. case_match.
    + eapply update_keeps_jobs; [apply finish_job_update|]. by destruct (release_frame cfg (PcRunning jt rk) s) as [-> _].
    + by destruct (release_frame cfg (PcRunning jt rk) s) as [-> _].
  - destruct (release_frame cfg (PcExecuted jt rk o) (run_finish s p id o now)) as [-> _].
    unfold run_finish. case_match; [|done]. eapply update_keeps_jobs; [apply bump_update, finish_job_update|done].
Qed.

Lemma run_keeps_known cfg target p rid jid t w w' :
  rid ≠ "" → jobs_run cfg target (t + jc_requestIDTTL cfg) w w' →
  request_known (w_service w) p rid jid t → request_known (w_service w') p rid jid t.
Proof.
  intros Hne. induction 1 as [w|w1 w2 w3 Hs _ IH|s gs o now s' r gs' w3 Hage Hrun _ IH|s gs p' id now s' r w3 Hrun _ IH];
    intros Hk; [done| | |]; apply IH; clear IH.
  - destruct Hs as [s gs1 gs2 q id c s' oc Hadv]. simpl in *. destruct Hk as [Hk Hj]. split.
    + by rewrite (advance_index _ _ _ _ _ _ _ Hadv).
    + by eapply advance_keeps_jobs.
  - simpl in *. by eapply insert_keeps_known.
  - simpl in *. unfold jobs_cancel in Hrun. destruct (lookup_job s p' id); [|by simplify_eq].
    injection Hrun as <- _. split; [apply Hk|]. eapply update_keeps_jobs; [apply bump_update, set_job_update|apply Hk].
Qed.

Lemma insert_created_known cfg target s o now s' j :
  jobs_insert cfg target s o now = (s', inr (j, true)) → jo_RequestID o ≠ "" →
  request_known s' (jo_ProjectID o) (jo_RequestID o) (jr_JobID j) now.
Proof.
  unfold jobs_insert. set (o' := if _ && negb (jo_IsScript o) then _ else o).
  assert (jo_ProjectID o' = jo_ProjectID o ∧ jo_RequestID o' = jo_RequestID o) as [Ep Er]
    by (subst o'; repeat case_match; done).
  destruct (if bool_decide (jo_RequestID o' = "") then None else _); [done|].
  intros Hrun Hne. rewrite Er, (bool_decide_false (jo_RequestID o = "")) in Hrun by done.
  destruct (resolveJobIDLocked _ _ _) as [s1 [e|jid]]; [done|]. injection Hrun as <- <-. rewrite Ep. split; simpl.
  - rewrite lookup_insert_eq. simpl. by rewrite lookup_insert_eq.
  - unfold lookup_job. simpl. rewrite lookup_insert_eq. simpl. rewrite lookup_insert_eq. by eexists.
Qed.

(** C34. Submitting is idempotent by requestId: after a job was created for a
    requestId, any submission to the project with that requestId while it is
    remembered, whatever ran, was cancelled or submitted in between, returns the
    stored job of the first one, creates nothing and starts nothing. *)
Theorem jobs_insert_idempotent (cfg : jobConfig) (target : string → string → option tableReference)
    (s s1 s2 : jobService) (gs gs2 : list goroutine) (o o2 : jobInsertOptions) (now now2 : Z)
    (j : jobRecord) :
  jobs_insert cfg target s o now = (s1, inr (j, true)) → jo_RequestID o ≠ "" →
  jobs_run cfg target (now + jc_requestIDTTL cfg) (World s1 gs) (World s2 gs2) →
  now2 ≤ now + jc_requestIDTTL cfg → jo_ProjectID o2 = jo_ProjectID o → jo_RequestID o2 = jo_RequestID o →
  ∃ j2 s3, lookup_job s2 (jo_ProjectID o) (jr_JobID j) = Some j2 ∧
    jobs_insert cfg target s2 o2 now2 = (s3, inr (j2, false)) ∧ same_jobs s2 s3.
Proof.
  intros Hins Hne Hrun Hage Hp Hr. apply insert_created_known in Hins as Hk; [|done].
  pose proof (run_keeps_known _ _ _ _ _ _ _ _ Hne Hrun Hk) as Hk2. simpl in Hk2.
  destruct (insert_known cfg target s2 o2 now2 _ _ _ _ Hk2 Hage Hp Hr Hne) as (j2 & Hj2 & E).
  exists j2. eexists. split; [done|]. split; [exact E|done].
Qed.

(** ** Concrete runs *)

Definition demo_cfg : jobConfig := newJobConfig "1" "".
Definition no_target : string → string → option tableReference := λ _ _, None.
Definition demo_query (requestID jobID : string) : jobInsertOptions :=
  JobInsertOptions "p" requestID "" "" "SELECT 1" "query" "" no_payload "" "" "d" "t" false "" jobID.

Definition demo_submitted : jobService :=
  (jobs_insert demo_cfg no_target newJobService (demo_query "r1" "") 100).1.
Definition demo_goroutines : list goroutine := [Goroutine "p" "job_1" PcQueued].
Definition demo_world : world := World demo_submitted demo_goroutines.

Lemma demo_reachable : jobs_reachable demo_cfg no_target demo_world.
Proof.
  eapply (jr_insert demo_cfg no_target newJobService [] (demo_query "r1" "") 100 demo_submitted
    (inr (new_job (demo_query "r1" "") "job_1" 100, true))).
  - apply jr_init.
  - intros [n Hn]. vm_compute in Hn. congruence.
  - vm_compute. reflexivity.
Defined.

Lemma jobs_accounted_witness :
  js_submittedTotal demo_submitted =
    js_completedTotal demo_submitted + js_failedTotal demo_submitted + Z.of_nat (length demo_goroutines).
Proof. apply (jobs_accounted demo_cfg no_target demo_submitted demo_goroutines demo_reachable). Defined.

Lemma executor_mutual_exclusion_witness : (count holds_run demo_goroutines ≤ 1)%nat.
Proof.
  refine (proj1 (proj2 (executor_mutual_exclusion demo_cfg no_target demo_submitted demo_goroutines
    demo_reachable)) 1%nat _).
  vm_compute. reflexivity.
Defined.



Lemma jobs_insert_idempotent_witness :
  ∃ j2 s3, jobs_insert demo_cfg no_target demo_submitted (demo_query "r1" "") 200 = (s3, inr (j2, false)) ∧
    same_jobs demo_submitted s3.
Proof.
  destruct (jobs_insert_idempotent demo_cfg no_target newJobService demo_submitted demo_submitted
    demo_goroutines demo_goroutines (demo_query "r1" "") (demo_query "r1" "") 100 200
    (new_job (demo_query "r1" "") "job_1" 100)) as (j2 & s3 & _ & Hins & Hsame).
  - vm_compute. reflexivity.
  - discriminate.
  - apply jrun_nil.
  - vm_compute. congruence.
  - reflexivity.
  - reflexivity.
  - exists j2, s3. split; [exact Hins|exact Hsame].
Defined.

(** The server does not check the ids it assigns: after a client named its
    job [job_1], the first job without an id is stored over it, and the record
    of the client's job is lost while two goroutines run on the one record
    left. *)
Theorem assigned_id_overwrites_job :
  let '(s1, r1) := jobs_insert demo_cfg no_target newJobService (demo_query "" "job_1") 100 in
  let '(s2, r2) := jobs_insert demo_cfg no_target s1
                     ((demo_query "" "") <| jo_QueryText := "DROP TABLE d.t" |>) 101 in
  r1 = inr (new_job (demo_query "" "job_1") "job_1" 100, true) ∧
  (jr_QueryText <$> lookup_job s1 "p" "job_1") = Some "SELECT 1" ∧
  (snd <$> match r2 with inr x => Some x | inl _ => None end) = Some true ∧
  (jr_QueryText <$> lookup_job s2 "p" "job_1") = Some "DROP TABLE d.t" ∧
  js_submittedTotal s2 = 2 ∧ size (default ∅ (js_jobsByProject s2 !! "p")) = 1%nat.
Proof. vm_compute. done. Qed.

(** A restart restores the jobs but not their goroutines: a job that was
    PENDING when the snapshot was written stays PENDING, with nothing to run
    it, and its project's version starts again from zero. *)
Lemma restart_strands_pending_jobs :
  let s := loadPersistence (persistLockedInner demo_submitted) newJobService in
  (jr_State <$> lookup_job s "p" "job_1") = Some jobStatePending ∧
  js_projectVersions s !! "p" = None.
Proof. vm_compute. done. Qed.
