(* ===== verification/Sessions.v ===== *)
(** * Sessions and their transactions (session_service.go)

    A session owns temporary tables; a transaction is a snapshot of them taken
    at BEGIN.  The query engine that computes the rows of CREATE TEMP TABLE is
    the parameter [exec]; the random session id is an argument of [create]. *)

From S2P Require Import Prelude GoStrings Regexp SqlPatterns GoTime Cells TableModel.
From Stdlib Require Import Ascii.

Record sessionTempTable := SessionTempTable { tt_Fields : schema; tt_Rows : list row }.

Record sessionRecord := SessionRecord {
  se_ProjectID : string; se_SessionID : string; se_UserEmail : string;
  se_CreatedAt : Z; se_LastUsedAt : Z;
  se_TempTables : gmap string sessionTempTable;
  se_txSnapshot : option (gmap string sessionTempTable) }.
#[export] Instance sessionRecord_eta : Eta sessionRecord := λ r,
  SessionRecord (se_ProjectID r) (se_SessionID r) (se_UserEmail r) (se_CreatedAt r)
    (se_LastUsedAt r) (se_TempTables r) (se_txSnapshot r).

Inductive sessionErr :=
| TransactionActive | NoTransaction | SessionNotFound (id : string)
| CreateTempTableFailed (name : string) | NoRandomness.

(** ** Transactions *)

Definition inTransaction (r : sessionRecord) : bool := bool_decide (is_Some (se_txSnapshot r)).

Definition beginTransaction (r : sessionRecord) : sessionRecord * option sessionErr :=
  match se_txSnapshot r with
  | Some _ => (r, Some TransactionActive)
  | None => (r <| se_txSnapshot := Some (se_TempTables r) |>, None)
  end.

Definition commitTransaction (r : sessionRecord) : sessionRecord * option sessionErr :=
  match se_txSnapshot r with
  | None => (r, Some NoTransaction)
  | Some _ => (r <| se_txSnapshot := None |>, None)
  end.

Definition rollbackTransaction (r : sessionRecord) : sessionRecord * option sessionErr :=
  match se_txSnapshot r with
  | None => (r, Some NoTransaction)
  | Some snap => (r <| se_TempTables := snap |> <| se_txSnapshot := None |>, None)
  end.

Definition getTempTable (r : sessionRecord) (name : string) : option sessionTempTable :=
  se_TempTables r !! name.
Definition setTempTable (r : sessionRecord) (name : string) (t : sessionTempTable) : sessionRecord :=
  r <| se_TempTables ::= <[name := t]> |>.

(** ** The service *)

Record sessionService := SessionService {
  sv_sessions : gmap string sessionRecord; sv_idleTimeout : Z }.
#[export] Instance sessionService_eta : Eta sessionService := λ s,
  SessionService (sv_sessions s) (sv_idleTimeout s).

(** [raw] is the environment's LOCAQL_SESSION_IDLE_TIMEOUT_SECONDS. *)
Definition newSessionService (raw : string) : sessionService :=
  let dflt := 24 * 3600 * second in
  SessionService ∅
    (match parse_int (trim_space raw) with
     | Some secs => if 0 <? secs then i64_mul secs second else dflt
     | None => dflt
     end).

Definition sessionKey (p id : string) : string := p +:+ String "000" id.

Definition sessions_create (s : sessionService) (p userEmail : string) (id : option string) (now : Z)
    : sessionService * (sessionErr + sessionRecord) :=
  match id with
  | None => (s, inl NoRandomness)
  | Some id =>
      let rec := SessionRecord p id userEmail now now ∅ None in
      (s <| sv_sessions ::= <[sessionKey p id := rec]> |>, inr rec)
  end.

Definition session_idle (s : sessionService) (now : Z) (r : sessionRecord) : bool :=
  sv_idleTimeout s <? now - se_LastUsedAt r.

Definition sessions_get (s : sessionService) (p id : string) (now : Z)
    : sessionService * option sessionRecord :=
  let key := sessionKey p id in
  match sv_sessions s !! key with
  | None => (s, None)
  | Some rec =>
      if session_idle s now rec then (s <| sv_sessions ::= delete key |>, None)
      else let rec := rec <| se_LastUsedAt := now |> in
           (s <| sv_sessions ::= <[key := rec]> |>, Some rec)
  end.

Definition sessions_countAll (s : sessionService) (now : Z) : sessionService * Z :=
  let live := filter (λ '(_, r), session_idle s now r = false) (sv_sessions s) in
  (s <| sv_sessions := live |>, Z.of_nat (size live)).

(** Only the project's own idle sessions are dropped. *)
Definition sessions_list (s : sessionService) (p : string) (now : Z)
    : sessionService * list sessionRecord :=
  let kept := filter (λ '(_, r), negb (bool_decide (se_ProjectID r = p)) || negb (session_idle s now r) = true)
                (sv_sessions s) in
  (s <| sv_sessions := kept |>,
   filter (λ r, se_ProjectID r = p) (map_to_list kept).*2).

Record connectionProperty := ConnectionProperty { cp_Key : string; cp_Value : string }.

(** The first usable [session_id] property decides. *)
Fixpoint resolve_property (props : list connectionProperty) : option string :=
  match props with
  | [] => None
  | p :: rest =>
      if equal_fold (trim_space (cp_Key p)) "session_id" then
        let id := trim_space (cp_Value p) in
        if bool_decide (id = "") then resolve_property rest else Some id
      else resolve_property rest
  end.

Definition resolveSessionID (s : sessionService) (p userEmail : string) (createSession : bool)
    (props : list connectionProperty) (newID : option string) (now : Z)
    : sessionService * (sessionErr + string) :=
  match resolve_property props with
  | Some id =>
      let '(s, rec) := sessions_get s p id now in
      (s, match rec with None => inl (SessionNotFound id) | Some _ => inr id end)
  | None =>
      if createSession then
        let '(s, r) := sessions_create s p userEmail newID now in
        (s, match r with inl e => inl e | inr rec => inr (se_SessionID rec) end)
      else (s, inr "")
  end.

(** ** Control statements *)

(** What the statement reports: handled with a result line, handled with an
    error, or left to the query engine. *)
Inductive controlResult := Handled (message : string) | ControlFailed (e : sessionErr) | NotHandled.

Section Control.
Variable exec : sessionRecord → string → option (schema * list row).

Definition reply_of (r : sessionRecord * option sessionErr) (message : string)
    : sessionRecord * controlResult :=
  (r.1, match r.2 with Some e => ControlFailed e | None => Handled message end).

(** The statement on the session it runs in. *)
Definition session_statement (rec : sessionRecord) (stmt : string) : sessionRecord * controlResult :=
  if match_string sessionBeginPattern stmt then reply_of (beginTransaction rec) "BEGIN TRANSACTION"
  else if match_string sessionCommitPattern stmt then reply_of (commitTransaction rec) "COMMIT TRANSACTION"
  else if match_string sessionRollbackPattern stmt then reply_of (rollbackTransaction rec) "ROLLBACK TRANSACTION"
  else match find sessionCreateTempTablePattern stmt with
       | None => (rec, NotHandled)
       | Some m =>
           let name := sub m 1 in
           match exec rec (sub m 2) with
           | None => (rec, ControlFailed (CreateTempTableFailed name))
           | Some (fields, rows) =>
               (setTempTable rec name (SessionTempTable fields rows), Handled ("CREATE TEMP TABLE " +:+ name))
           end
       end.

Definition executeSessionControlStatement (s : sessionService) (p id stmt : string) (now : Z)
    : sessionService * controlResult :=
  let '(s, rec) := sessions_get s p id now in
  match rec with
  | None => (s, ControlFailed (SessionNotFound id))
  | Some rec =>
      let '(rec, r) := session_statement rec stmt in
      (s <| sv_sessions ::= <[sessionKey p id := rec]> |>, r)
  end.

(** ** A transaction is atomic *)

Definition ends_transaction (stmt : string) : bool :=
  negb (match_string sessionBeginPattern stmt) &&
  (match_string sessionCommitPattern stmt || match_string sessionRollbackPattern stmt).

Definition run_session (rec : sessionRecord) (stmts : list string) : sessionRecord :=
  foldl (λ r stmt, (session_statement r stmt).1) rec stmts.

Lemma session_statement_snapshot rec stmt snap :
  se_txSnapshot rec = Some snap → ends_transaction stmt = false →
  se_txSnapshot (session_statement rec stmt).1 = Some snap.
Proof.
  unfold ends_transaction, session_statement, beginTransaction. intros Hs He.
  destruct (match_string sessionBeginPattern stmt); simpl in *; [by rewrite Hs|].
  apply orb_false_iff in He as [-> ->].
  destruct (find sessionCreateTempTablePattern stmt) as [m|]; [|done]. simpl.
  by destruct (exec rec (sub m 2)) as [[? ?]|].
Qed.

Lemma run_session_snapshot rec stmts snap :
  se_txSnapshot rec = Some snap → Forall (λ s, ends_transaction s = false) stmts →
  se_txSnapshot (run_session rec stmts) = Some snap.
Proof.
  intros Hs Hall. revert rec Hs. induction Hall as [|stmt stmts He _ IH]; intros rec Hs; [done|].
  simpl. apply IH. by apply session_statement_snapshot.
Qed.

(** C30. A transaction is atomic for the session's tables: whatever statements
    run between BEGIN and ROLLBACK - tables created or replaced, statements that
    fail, further BEGINs, which are refused - the rollback leaves exactly the
    tables of the BEGIN, the commit exactly those the statements produced, and
    neither leaves a transaction open. *)
Theorem transaction_atomic (rec : sessionRecord) (stmts : list string) :
  se_txSnapshot rec = None → Forall (λ s, ends_transaction s = false) stmts →
  let mid := run_session (beginTransaction rec).1 stmts in
  rollbackTransaction mid = (mid <| se_TempTables := se_TempTables rec |> <| se_txSnapshot := None |>, None) ∧
  commitTransaction mid = (mid <| se_txSnapshot := None |>, None).
Proof.
  intros Hn Hall mid. assert (se_txSnapshot mid = Some (se_TempTables rec)) as Hs.
  { apply run_session_snapshot; [|done]. unfold beginTransaction. by rewrite Hn. }
  unfold rollbackTransaction, commitTransaction. by rewrite Hs.
Qed.
End Control.

(** ** Idle sessions *)

Lemma sessions_get_spec s p id now :
  let '(s', r) := sessions_get s p id now in
  (∀ rec, sv_sessions s !! sessionKey p id = Some rec → now - se_LastUsedAt rec ≤ sv_idleTimeout s →
     r = Some (rec <| se_LastUsedAt := now |>) ∧ sv_sessions s' !! sessionKey p id = r) ∧
  (∀ rec, sv_sessions s !! sessionKey p id = Some rec → sv_idleTimeout s < now - se_LastUsedAt rec →
     r = None ∧ sv_sessions s' !! sessionKey p id = None) ∧
  (sv_sessions s !! sessionKey p id = None → r = None ∧ s' = s) ∧
  (∀ k, k ≠ sessionKey p id → sv_sessions s' !! k = sv_sessions s !! k) ∧
  sv_idleTimeout s' = sv_idleTimeout s.
Proof.
  unfold sessions_get, session_idle. destruct (sv_sessions s !! sessionKey p id) as [rec|] eqn:E.
  - destruct (_ <? _) eqn:Ei; bools; simpl.
    + split_and!; try done; [intros rec' [= <-]; lia| |intros k Hk; by rewrite lookup_delete_ne].
      intros rec' _ _. by rewrite lookup_delete_eq.
    + split_and!; try done; [|intros rec' [= <-]; lia|intros k Hk; by rewrite lookup_insert_ne].
      intros rec' [= <-] _. by rewrite lookup_insert_eq.
  - by split_and!.
Qed.

(** Attaching to a session never invents one: a request that names a
    session runs in it only if it exists and was used within the idle timeout,
    which restarts the timeout; otherwise it fails, an idle session is removed
    for good, and no session is created even if the request also asked for a
    new one.  Other sessions are untouched. *)
Theorem resolveSessionID_attach (s : sessionService) (p userEmail : string) (createSession : bool)
    (props : list connectionProperty) (newID : option string) (now : Z) (id : string) :
  resolve_property props = Some id →
  let '(s', r) := resolveSessionID s p userEmail createSession props newID now in
  (r = inr id ↔ ∃ rec, sv_sessions s !! sessionKey p id = Some rec ∧
                       now - se_LastUsedAt rec ≤ sv_idleTimeout s) ∧
  (r = inr id → ∃ rec, sv_sessions s' !! sessionKey p id = Some rec ∧ se_LastUsedAt rec = now) ∧
  (r ≠ inr id → r = inl (SessionNotFound id) ∧ sv_sessions s' !! sessionKey p id = None) ∧
  (∀ k, k ≠ sessionKey p id → sv_sessions s' !! k = sv_sessions s !! k).
Proof.
  intros Hp. unfold resolveSessionID. rewrite Hp.
  pose proof (sessions_get_spec s p id now) as Hg. destruct (sessions_get s p id now) as [s' r].
  destruct Hg as (Hlive & Hidle & Hnone & Hframe & _).
  destruct (sv_sessions s !! sessionKey p id) as [rec|] eqn:E.
  - destruct (decide (now - se_LastUsedAt rec ≤ sv_idleTimeout s)) as [Hle|Hgt].
    + destruct (Hlive rec eq_refl Hle) as [-> Hs']. split; [split; [by exists rec|done]|].
      split; [intros _; by eexists|]. done.
    + destruct (Hidle rec eq_refl) as [-> Hs']; [lia|]. split; [split; [done|]|].
      * intros (rec' & [= <-] & ?). lia.
      * done.
  - destruct (Hnone eq_refl) as [-> ->]. split; [split; [done|by intros (? & ? & _)]|]. done.
Qed.

(** ** Concrete sessions *)

Definition demo_exec : sessionRecord → string → option (schema * list row) := λ _ q,
  if bool_decide (q = "SELECT 1 AS x") then Some ([col "x" "INT64"], [["1"]]) else None.
Definition demo_session : sessionRecord := SessionRecord "p" "session_1" "u" 0 0 ∅ None.

Example create_temp_table_matches :
  (λ m, (sub m 1, sub m 2)) <$> find sessionCreateTempTablePattern "create temporary table tmp as SELECT 1 AS x" =
  Some ("tmp", "SELECT 1 AS x").
Proof. vm_compute. reflexivity. Qed.

Lemma transaction_atomic_witness :
  let mid := run_session demo_exec (beginTransaction demo_session).1
               ["CREATE TEMP TABLE tmp AS SELECT 1 AS x"; "BEGIN"; "CREATE TEMP TABLE u AS oops"] in
  size (se_TempTables mid) = 1%nat ∧ se_TempTables (rollbackTransaction mid).1 = ∅.
Proof.
  split; [vm_compute; reflexivity|].
  destruct (transaction_atomic demo_exec demo_session
    ["CREATE TEMP TABLE tmp AS SELECT 1 AS x"; "BEGIN"; "CREATE TEMP TABLE u AS oops"]) as [Hr _].
  - reflexivity.
  - repeat (constructor; [vm_compute; reflexivity|]). constructor.
  - rewrite Hr. reflexivity.
Defined.

Lemma resolveSessionID_attach_witness :
  let s := SessionService {[sessionKey "p" "session_1" := demo_session]} 100 in
  (resolveSessionID s "p" "u" true [ConnectionProperty "session_id" "session_1"] (Some "session_2") 101).2 =
  inl (SessionNotFound "session_1").
Proof.
  intros s. pose proof (resolveSessionID_attach s "p" "u" true
    [ConnectionProperty "session_id" "session_1"] (Some "session_2") 101 "session_1") as Hx.
  destruct (resolveSessionID s "p" "u" true [ConnectionProperty "session_id" "session_1"]
    (Some "session_2") 101) as [s' r].
  destruct Hx as (Hiff & _ & Hno & _); [vm_compute; reflexivity|]. apply Hno. intros E.
  apply Hiff in E as (rec & Hrec & Hle). vm_compute in Hrec. injection Hrec as <-. vm_compute in Hle. congruence.
Defined.
