(* ===== verification/EnginePool.v ===== *)
(** * The pool of embedded SQL engines

    [internal/server/sql_engine_pool.go] and the part of [sql_engine.go] that
    leases an engine for a query, brings its tables in line with the catalog
    and returns it.  Opening, executing and closing belong to the embedded
    GoogleSQL driver, a third-party package: [SqlEngine] is what the code calls
    of it, [SqlEngineLaws] what it relies on.

    An engine is a pointer into [sp_heap]; [sp_all] is the slice [p.all].  Each
    section of the code under [p.mu] is one function; the calls on an engine
    between two such sections are functions of that engine alone. *)

From S2P Require Import Prelude GoStrings Cells TableModel.
From Stdlib Require Import Ascii.

(** ** Identifiers *)

Definition backquote : ascii := "096"%char.

(** [strings.ReplaceAll(id, "`", "``")] *)
Fixpoint double_backquotes (s : string) : string :=
  match s with
  | EmptyString => EmptyString
  | String c r =>
      if Ascii.eqb c backquote then String c (String c (double_backquotes r))
      else String c (double_backquotes r)
  end.

Definition quoteIdent (id : string) : string :=
  String backquote (double_backquotes id +:+ String backquote EmptyString).

(** Cut at the first dot; [None] when there is none. *)
Fixpoint cut_dot (key : string) : option (string * string) :=
  match key with
  | EmptyString => None
  | String c r =>
      if Ascii.eqb c "." then Some (EmptyString, r)
      else match cut_dot r with
           | Some (a, b) => Some (String c a, b)
           | None => None
           end
  end.

Definition qualifiedTableIdentFromKey (key : string) : string :=
  match cut_dot key with
  | Some (a, b) => quoteIdent a +:+ "." +:+ quoteIdent b
  | None => quoteIdent key
  end.

Definition splitTableKey (key : string) : string * string :=
  default (key, "") (cut_dot key).

Definition table_key (datasetID tableID : string) : string := datasetID +:+ "." +:+ tableID.

(** ** The embedded engine *)

Class SqlEngine (DB : Type) := {
  (** [sql.Open("googlesqlite", ":memory:")] *)
  db_open : res string DB;
  (** [db.Exec] of a statement without parameters *)
  db_exec : DB → string → DB * res string unit;
  (** The [CREATE TABLE] and [INSERT]s [materializeTable] sends for the table
      with this qualified name, schema and rows. *)
  db_load : DB → string → schema → list row → DB * res string unit;
  (** What a query reads from the table with this qualified name. *)
  db_table : DB → string → option (schema * list row);
}.

Class SqlEngineLaws (DB : Type) `{SqlEngine DB} := {
  open_empty db q : db_open = Ok db → db_table db q = None;
  exec_drop db q db' :
    db_exec db ("DROP TABLE IF EXISTS " +:+ q) = (db', Ok tt) →
    ∀ q', db_table db' q' = if decide (q' = q) then None else db_table db q';
  exec_schema db s db' r :
    db_exec db ("CREATE SCHEMA " +:+ s) = (db', r) → ∀ q, db_table db' q = db_table db q;
  load_ok db q sch rows db' :
    db_load db q sch rows = (db', Ok tt) →
    ∀ q', db_table db' q' = if decide (q' = q) then Some (sch, rows) else db_table db q';
  (** A load that fails has not touched the other tables. *)
  load_frame db q sch rows db' r :
    db_load db q sch rows = (db', r) → ∀ q', q' ≠ q → db_table db' q' = db_table db q';
}.

Section Pool.
Context {DB : Type} `{SqlEngine DB}.

Record pooledEngine := PooledEngine {
  pe_db : DB;
  pe_schemas : gset string;
  pe_tables : gmap string Z;
  pe_signature : string;
  pe_refCount : Z;
  (** [db.Close] was called *)
  pe_closed : bool;
}.
#[export] Instance pooledEngine_eta : Eta pooledEngine := λ e,
  PooledEngine (pe_db e) (pe_schemas e) (pe_tables e) (pe_signature e) (pe_refCount e) (pe_closed e).

Record sqlEnginePool := SqlEnginePool {
  sp_all : list nat;
  sp_heap : gmap nat pooledEngine;
  sp_next : nat;
}.
#[export] Instance sqlEnginePool_eta : Eta sqlEnginePool := λ p,
  SqlEnginePool (sp_all p) (sp_heap p) (sp_next p).

Definition newSQLEnginePool : sqlEnginePool := SqlEnginePool [] ∅ 0.
Definition sqlEnginePoolMaxIdle : nat := 8.

(** Assign through the pointer [id]. *)
Definition on_engine (id : nat) (f : pooledEngine → pooledEngine) (p : sqlEnginePool) : sqlEnginePool :=
  p <| sp_heap ::= alter f id |>.

Definition put_engine (id : nat) (e : pooledEngine) (p : sqlEnginePool) : sqlEnginePool :=
  p <| sp_heap ::= <[id := e]> |>.
Definition close_engine (e : pooledEngine) : pooledEngine := e <| pe_closed := true |>.
Definition set_db (db : DB) (e : pooledEngine) : pooledEngine := e <| pe_db := db |>.

(** ** Signatures *)

Record cacheableTableRef := CacheableRef {
  cr_datasetID : string;
  cr_tableID : string;
  cr_version : Z;
}.

Definition signature_part (r : cacheableTableRef) : string :=
  cr_datasetID r +:+ "." +:+ cr_tableID r +:+ "@" +:+ format_int (cr_version r).

Definition tableSignature (refs : list cacheableTableRef) : string :=
  match refs with
  | [] => ""
  | _ => join "|" (sort_strings (signature_part <$> refs))
  end.

(** ** Operations on one engine *)

Fixpoint drop_tables (keys : list string) (db : DB) : DB * res string unit :=
  match keys with
  | [] => (db, Ok tt)
  | k :: keys =>
      match db_exec db ("DROP TABLE IF EXISTS " +:+ qualifiedTableIdentFromKey k) with
      | (db, Ok _) => drop_tables keys db
      | (db, e) => (db, e)
      end
  end.

(** [range pe.tables]: Go leaves the order open; here it is the map's own. *)
Definition reset (e : pooledEngine) : pooledEngine * res string unit :=
  match drop_tables (map_to_list (pe_tables e)).*1 (pe_db e) with
  | (db, Ok _) => (e <| pe_db := db |> <| pe_tables := ∅ |> <| pe_signature := "" |>, Ok tt)
  | (db, r) => (e <| pe_db := db |>, r)
  end.

(** A panic of the driver becomes an error. *)
Definition safeResetPooledEngine (e : pooledEngine) : pooledEngine * option string :=
  match reset e with
  | (e, Ok _) => (e, None)
  | (e, Err m) => (e, Some m)
  | (e, Panic) => (e, Some "panic during reset")
  end.

Definition ensureSchema (e : pooledEngine) (datasetID : string) : pooledEngine * res string unit :=
  if bool_decide (datasetID ∈ pe_schemas e) then (e, Ok tt) else
  match db_exec (pe_db e) ("CREATE SCHEMA " +:+ quoteIdent datasetID) with
  | (db, Ok _) => (e <| pe_db := db |> <| pe_schemas ::= λ s, {[datasetID]} ∪ s |>, Ok tt)
  | (db, r) => (e <| pe_db := db |>, r)
  end.

Definition markTableMaterialized (e : pooledEngine) (datasetID tableID : string) (version : Z) : pooledEngine :=
  e <| pe_tables ::= <[table_key datasetID tableID := version]> |>.

Definition materializedVersion (e : pooledEngine) (datasetID tableID : string) : option Z :=
  pe_tables e !! table_key datasetID tableID.

Definition dropMaterialized (e : pooledEngine) (datasetID tableID : string) : pooledEngine * res string unit :=
  let key := table_key datasetID tableID in
  match pe_tables e !! key with
  | None => (e, Ok tt)
  | Some _ =>
      match db_exec (pe_db e) ("DROP TABLE IF EXISTS " +:+ qualifiedTableIdentFromKey key) with
      | (db, Ok _) => (e <| pe_db := db |> <| pe_tables ::= delete key |>, Ok tt)
      | (db, r) => (e <| pe_db := db |>, r)
      end
  end.

(** ** Bringing an engine in line with the catalog *)

Record resolvedTable := ResolvedTable {
  rt_datasetID : string;
  rt_tableID : string;
  rt_fields : schema;
  rt_rows : list row;
  rt_found : bool;
  rt_version : Z;
  rt_hasVersion : bool;
}.

(** The part of [resolveAllRefs] that decides whether the set may be shared. *)
Definition resolved_cacheable (readOnly : bool) (resolved : list resolvedTable) : bool :=
  readOnly && forallb rt_hasVersion resolved.

Definition cache_ref (r : resolvedTable) : cacheableTableRef :=
  CacheableRef (rt_datasetID r) (rt_tableID r) (rt_version r).

Definition cacheSignature (cacheable : bool) (resolved : list resolvedTable) : string :=
  if cacheable then tableSignature (cache_ref <$> resolved) else "".

Definition resolved_key (r : resolvedTable) : string := table_key (rt_datasetID r) (rt_tableID r).

Fixpoint drop_unwanted (want keys : list string) (e : pooledEngine) : pooledEngine * res string unit :=
  match keys with
  | [] => (e, Ok tt)
  | k :: keys =>
      if bool_decide (k ∈ want) then drop_unwanted want keys e
      else let '(d, t) := splitTableKey k in
           match dropMaterialized e d t with
           | (e, Ok _) => drop_unwanted want keys e
           | (e, r) => (e, r)
           end
  end.

Definition reconcileSharedEngine (e : pooledEngine) (wanted : list resolvedTable) : pooledEngine * res string unit :=
  drop_unwanted (resolved_key <$> wanted) (map_to_list (pe_tables e)).*1 e.

Definition materializeResolvedRef (e : pooledEngine) (r : resolvedTable) : pooledEngine * res string unit :=
  if match materializedVersion e (rt_datasetID r) (rt_tableID r) with
     | Some v => rt_hasVersion r && (v =? rt_version r)
     | None => false
     end
  then (e, Ok tt)
  else match ensureSchema e (rt_datasetID r) with
       | (e, Ok _) =>
           let e := markTableMaterialized e (rt_datasetID r) (rt_tableID r) (rt_version r) in
           if negb (rt_found r) then (e, Ok tt)
           else let '(db, out) := db_load (pe_db e)
                      (quoteIdent (rt_datasetID r) +:+ "." +:+ quoteIdent (rt_tableID r))
                      (rt_fields r) (rt_rows r) in
                (e <| pe_db := db |>, out)
       | (e, out) => (e, out)
       end.

Fixpoint materialize_refs (e : pooledEngine) (resolved : list resolvedTable) : pooledEngine * res string unit :=
  match resolved with
  | [] => (e, Ok tt)
  | r :: resolved =>
      match materializeResolvedRef e r with
      | (e, Ok _) => materialize_refs e resolved
      | (e, out) => (e, out)
      end
  end.

Definition materializeAllResolved (e : pooledEngine) (resolved : list resolvedTable) (shared : bool)
    : pooledEngine * res string unit :=
  match (if shared then reconcileSharedEngine e resolved else (e, Ok tt)) with
  | (e, Ok _) => materialize_refs e resolved
  | (e, out) => (e, out)
  end.

(** ** The pool, one function per section under [p.mu] *)

Definition refCount (p : sqlEnginePool) (id : nat) : Z := default 0 (pe_refCount <$> sp_heap p !! id).
Definition signature (p : sqlEnginePool) (id : nat) : string := default "" (pe_signature <$> sp_heap p !! id).

Definition tagSignature (p : sqlEnginePool) (id : nat) (sig : string) : sqlEnginePool :=
  on_engine id (λ e, e <| pe_signature := sig |>) p.

Definition openFresh (p : sqlEnginePool) : sqlEnginePool * res string nat :=
  match db_open with
  | Ok db =>
      let id := sp_next p in
      (SqlEnginePool (sp_all p ++ [id]) (<[id := PooledEngine db ∅ ∅ "" 1 false]> (sp_heap p)) (S id), Ok id)
  | Err m => (p, Err m)
  | Panic => (p, Panic)
  end.

Definition discard (p : sqlEnginePool) (id : nat) : sqlEnginePool :=
  on_engine id close_engine (p <| sp_all ::= λ l, filter (λ i, i ≠ id) l |>).

Definition first_idle (p : sqlEnginePool) : option nat :=
  list_find (λ id, refCount p id = 0) (sp_all p) ≫= λ ix, Some ix.2.

(** Lease an idle engine: its count and signature are set before unlocking. *)
Definition claimed (e : pooledEngine) : pooledEngine :=
  e <| pe_refCount := 1 |> <| pe_signature := "" |>.
Definition claim (id : nat) (p : sqlEnginePool) : sqlEnginePool := on_engine id claimed p.

Definition join_lease (e : pooledEngine) : pooledEngine := e <| pe_refCount ::= λ n, n + 1 |>.

Inductive leaseOutcome :=
| LeaseHit (id : nat)
(** an idle engine, to be reset if [dirty] *)
| LeaseReuse (id : nat) (dirty : bool)
| LeaseOpen.

(** [acquirePrivate] up to [p.mu.Unlock]. *)
Definition acquirePrivate_locked (p : sqlEnginePool) : sqlEnginePool * leaseOutcome :=
  match first_idle p with
  | Some id => (claim id p, LeaseReuse id true)
  | None => (p, LeaseOpen)
  end.

(** The idle engine [acquireShared] repurposes: the first blank one, else the
    first. *)
Definition reuse_candidate (p : sqlEnginePool) : option nat :=
  match list_find (λ id, refCount p id = 0 ∧ signature p id = "") (sp_all p) with
  | Some (_, id) => Some id
  | None => first_idle p
  end.

(** [acquireShared] up to [p.mu.Unlock]. *)
Definition acquireShared_locked (p : sqlEnginePool) (sig : string) : sqlEnginePool * leaseOutcome :=
  match list_find (λ id, signature p id = sig) (sp_all p) with
  | Some (_, id) => (on_engine id join_lease p, LeaseHit id)
  | None =>
      match reuse_candidate p with
      | Some id => (claim id p, LeaseReuse id (bool_decide (signature p id ≠ "")))
      | None => (p, LeaseOpen)
      end
  end.

Definition acquire_locked (p : sqlEnginePool) (sig : string) : sqlEnginePool * leaseOutcome :=
  if String.eqb sig "" then acquirePrivate_locked p else acquireShared_locked p sig.

(** Run an operation of one engine through the pointer. *)
Definition run_engine {A} (p : sqlEnginePool) (id : nat) (f : pooledEngine → pooledEngine * A)
    : option (sqlEnginePool * A) :=
  match sp_heap p !! id with
  | None => None
  | Some e => let '(e, a) := f e in Some (put_engine id e p, a)
  end.

(** The rest of [acquirePrivate] and [acquireShared]: reset a dirty engine,
    replace one that cannot be reset, open one if there was none. *)
Definition finish_lease (p : sqlEnginePool) (out : leaseOutcome) : sqlEnginePool * res string nat :=
  match out with
  | LeaseHit id => (p, Ok id)
  | LeaseOpen => openFresh p
  | LeaseReuse id false => (p, Ok id)
  | LeaseReuse id true =>
      match run_engine p id safeResetPooledEngine with
      | None => (p, Panic)
      | Some (p, None) => (p, Ok id)
      | Some (p, Some _) => openFresh (discard p id)
      end
  end.

Definition is_hit (out : leaseOutcome) : bool := match out with LeaseHit _ => true | _ => false end.

Definition acquirePrivate (p : sqlEnginePool) : sqlEnginePool * res string nat :=
  let '(p, out) := acquirePrivate_locked p in finish_lease p out.

Definition acquireShared (p : sqlEnginePool) (sig : string) : sqlEnginePool * res string (nat * bool) :=
  let '(p, out) := acquireShared_locked p sig in
  let '(p, r) := finish_lease p out in (p, r ≫= λ id, Ok (id, is_hit out)).

(** The engine, whether it already holds the tables, and whether it is shared. *)
Definition acquire (p : sqlEnginePool) (sig : string) : sqlEnginePool * res string (nat * bool * bool) :=
  if String.eqb sig ""
  then let '(p, r) := acquirePrivate p in (p, r ≫= λ id, Ok (id, false, false))
  else let '(p, r) := acquireShared p sig in (p, r ≫= λ x, Ok (x, true)).

Definition evictOverCapLocked (p : sqlEnginePool) : sqlEnginePool :=
  let idle := filter (λ id, refCount p id = 0) (sp_all p) in
  if bool_decide (length idle ≤ sqlEnginePoolMaxIdle)%nat then p else
  (* the stable sort: blank engines first *)
  let sorted := filter (λ id, signature p id = "") idle ++ filter (λ id, signature p id ≠ "") idle in
  let evict := take (length idle - sqlEnginePoolMaxIdle) sorted in
  p <| sp_all ::= λ l, filter (λ id, id ∉ evict) l |>
    <| sp_heap ::= λ h, foldr (alter close_engine) h evict |>.

Definition unleased (e : pooledEngine) : pooledEngine := e <| pe_refCount := 0 |>.

(** The section of [releasePrivate] after a reset that worked. *)
Definition releasePrivate_locked (p : sqlEnginePool) (id : nat) : sqlEnginePool :=
  evictOverCapLocked (on_engine id unleased p).

Definition releasePrivate (p : sqlEnginePool) (id : nat) : sqlEnginePool :=
  match run_engine p id safeResetPooledEngine with
  | None => p
  | Some (p, None) => releasePrivate_locked p id
  | Some (p, Some _) => discard (on_engine id unleased p) id
  end.

Definition leave_lease (e : pooledEngine) : pooledEngine :=
  if 0 <? pe_refCount e then e <| pe_refCount ::= λ n, n - 1 |> else e.

Definition releaseShared (p : sqlEnginePool) (id : nat) : sqlEnginePool :=
  let p := on_engine id leave_lease p in
  if refCount p id =? 0 then evictOverCapLocked p else p.

Definition releaseFunc (p : sqlEnginePool) (id : nat) (shared : bool) : sqlEnginePool :=
  if shared then releaseShared p id else releasePrivate p id.

(** What [openMaterializedSQLDatabase] does once every reference is resolved:
    the engine to run the query on, or the error that made it release it. *)
Definition openMaterializedSQLDatabase (p : sqlEnginePool) (readOnly : bool) (resolved : list resolvedTable)
    : sqlEnginePool * res string (nat * bool) :=
  let sig := cacheSignature (resolved_cacheable readOnly resolved) resolved in
  match acquire p sig with
  | (p, Ok (id, hit, shared)) =>
      if (hit : bool) then (p, Ok (id, shared)) else
      match run_engine p id (λ e, materializeAllResolved e resolved shared) with
      | None => (p, Panic)
      | Some (p, Ok _) => (if (shared : bool) then tagSignature p id sig else p, Ok (id, shared))
      | Some (p, Err m) => (releaseFunc p id shared, Err m)
      | Some (p, Panic) => (p, Panic)
      end
  | (p, Err m) => (p, Err m)
  | (p, Panic) => (p, Panic)
  end.

End Pool.
Arguments pooledEngine : clear implicits.
Arguments sqlEnginePool : clear implicits.
