(* ===== verification/EnginePoolRun.v ===== *)
(** * The engine pool under concurrent queries

    Signatures identify a set of table versions; the goroutines that lease
    engines interleave between the pool's critical sections; a query on a
    shared engine reads exactly the tables it resolved.  The last section shows
    the two ways out of that guarantee: a signature does not name the project,
    and a shared engine whose materialization failed goes back unreset. *)

From S2P Require Import Prelude GoStrings Cells TableModel EnginePool.
From Stdlib Require Import Ascii.

(** ** Signatures *)

(** No separator of the signature occurs where it would be read as one. *)
Definition clean_ref (r : cacheableTableRef) : Prop :=
  str_mem "." (cr_datasetID r) = false ∧ str_mem "|" (cr_datasetID r) = false ∧
  str_mem "@" (cr_tableID r) = false ∧ str_mem "|" (cr_tableID r) = false.

Lemma signature_part_inj r r' : clean_ref r → clean_ref r' → signature_part r = signature_part r' → r = r'.
Proof.
  intros (Hd & _ & Ht & _) (Hd' & _ & Ht' & _) E. unfold signature_part in E.
  apply (str_sep_inj ".") in E as [Ed E]; [|done..].
  apply (str_sep_inj "@") in E as [Et E]; [|done..].
  apply format_int_injective in E. destruct r, r'; simpl in *. by subst.
Qed.

Lemma signature_part_no_bar r : clean_ref r → str_mem "|" (signature_part r) = false.
Proof.
  intros (_ & Hd & _ & Ht). unfold signature_part.
  rewrite !str_mem_app, Hd, Ht, format_int_no_bar. done.
Qed.

Lemma signature_parts_perm refs refs' :
  Forall clean_ref refs → Forall clean_ref refs' →
  signature_part <$> refs ≡ₚ signature_part <$> refs' → refs ≡ₚ refs'.
Proof.
  intros Hc. revert refs'. induction Hc as [|r refs Hr Hc IH]; intros refs' Hc' Hp.
  { apply Permutation_nil in Hp. by destruct refs'. }
  simpl in Hp. assert (signature_part r ∈ signature_part <$> refs') as (r' & Er & Hin)%list_elem_of_fmap_1.
  { rewrite <-Hp. left. }
  apply list_elem_of_split in Hin as (l1 & l2 & ->).
  apply Forall_app in Hc' as [Hc1 Hc2]. inversion Hc2 as [|? ? Hr' Hc2']; subst.
  assert (r = r') as <- by by apply signature_part_inj.
  rewrite fmap_app, fmap_cons, <-Permutation_middle in Hp. apply Permutation_cons_inv in Hp.
  rewrite <-Permutation_middle. constructor. apply IH; [by apply Forall_app|by rewrite fmap_app].
Qed.

Lemma signature_split refs :
  refs ≠ [] → Forall clean_ref refs →
  split_on "|" (tableSignature refs) = sort_strings (signature_part <$> refs).
Proof.
  intros Hne Hc. destruct refs as [|r refs]; [done|]. unfold tableSignature. apply split_join.
  - intros Hnil. pose proof (length_sort_strings (signature_part <$> r :: refs)) as Hlen.
    by rewrite Hnil in Hlen.
  - apply Forall_forall. intros s. rewrite elem_of_sort_strings.
    intros (x & -> & Hx)%list_elem_of_fmap_1. apply signature_part_no_bar.
    by eapply Forall_forall in Hc.
Qed.

Lemma signature_nonempty refs : refs ≠ [] → tableSignature refs ≠ "".
Proof.
  destruct refs as [|r refs]; [done|]. intros _ E. simpl tableSignature in E.
  assert (Hin : signature_part r ∈ sort_strings (signature_part <$> r :: refs)).
  { apply elem_of_sort_strings. left. }
  destruct (sort_strings _) as [|x l]; [by apply elem_of_nil in Hin|].
  destruct l as [|y l]; [|by destruct x]. simpl in E. subst x.
  apply list_elem_of_singleton in Hin. unfold signature_part in Hin.
  by destruct (cr_datasetID r).
Qed.

Lemma signature_eq_perm refs refs' :
  Forall clean_ref refs → Forall clean_ref refs' →
  tableSignature refs = tableSignature refs' → refs ≡ₚ refs'.
Proof.
  intros Hc Hc' E. destruct (decide (refs = [])) as [->|Hne].
  { destruct refs'; [done|]. symmetry in E. by apply signature_nonempty in E. }
  destruct (decide (refs' = [])) as [->|Hne']; [by apply signature_nonempty in E|].
  apply signature_parts_perm; [done..|].
  rewrite <-(sort_strings_perm (_ <$> refs)), <-(sort_strings_perm (_ <$> refs')).
  by rewrite <-!signature_split, E by done.
Qed.

(** The cache key of a query is canonical: two sets of table versions have
    the same signature exactly when they are the same set, in whatever order
    the query lists its tables, for names without the separators. *)
Theorem tableSignature_canonical (refs refs' : list cacheableTableRef) :
  Forall clean_ref refs → Forall clean_ref refs' →
  (tableSignature refs = tableSignature refs' ↔ refs ≡ₚ refs').
Proof.
  intros Hc Hc'. split; [by apply signature_eq_perm|]. intros Hp.
  destruct refs as [|r refs]; [by apply Permutation_nil_l in Hp as <-|].
  destruct refs' as [|r' refs']; [by apply Permutation_nil_r in Hp|]. unfold tableSignature. f_equal.
  apply (StronglySorted_unique String.le); [apply sort_strings_sorted..|].
  by rewrite !sort_strings_perm, Hp.
Qed.

Lemma tableSignature_canonical_witness :
  let refs := [CacheableRef "d" "events" 3; CacheableRef "d" "users" 12] in
  (tableSignature refs = tableSignature (reverse refs) ↔ refs ≡ₚ reverse refs) ∧
  tableSignature refs = "d.events@3|d.users@12".
Proof.
  split; [|vm_compute; reflexivity].
  apply tableSignature_canonical; repeat constructor.
Defined.

(** ** Qualified names *)

Lemma cut_dot_key d t : str_mem "." d = false → cut_dot (table_key d t) = Some (d, t).
Proof.
  unfold table_key. induction d as [|c d IH]; [done|]. cbn [str_mem]. intros [Hc Hd]%orb_false_iff.
  rewrite str_app_cons. cbn [cut_dot]. rewrite IH by done.
  destruct (Ascii.eqb_spec c "."); [|done]. subst. by rewrite bool_decide_true in Hc.
Qed.

Lemma double_backquotes_sep a b x y :
  double_backquotes a +:+ String backquote (String "." x) =
  double_backquotes b +:+ String backquote (String "." y) → a = b ∧ x = y.
Proof.
  revert b. induction a as [|c a IH]; intros [|c' b]; cbn [double_backquotes];
    repeat match goal with |- context [Ascii.eqb ?u ?v] => destruct (Ascii.eqb_spec u v) end; rewrite ?str_app_cons, ?str_app_nil; intros E;
    unfold backquote in *; simplify_eq; try done.
  all: by edestruct IH as [-> ->].
Qed.

Lemma double_backquotes_end a b :
  double_backquotes a +:+ String backquote "" = double_backquotes b +:+ String backquote "" → a = b.
Proof.
  intros E. apply (f_equal (λ s, s +:+ String "." "")) in E. rewrite !str_app_assoc in E.
  by apply double_backquotes_sep in E as [-> _].
Qed.

Definition qualified (r : resolvedTable) : string :=
  quoteIdent (rt_datasetID r) +:+ "." +:+ quoteIdent (rt_tableID r).

Lemma qualified_inj r r' : qualified r = qualified r' → resolved_key r = resolved_key r'.
Proof.
  unfold qualified, quoteIdent, resolved_key. rewrite !str_app_cons. intros [= E].
  rewrite !str_app_assoc, !str_app_cons, !str_app_nil in E.
  apply double_backquotes_sep in E as [-> [= E]]. by apply double_backquotes_end in E as ->.
Qed.

Lemma qualified_of_key r :
  str_mem "." (rt_datasetID r) = false → qualifiedTableIdentFromKey (resolved_key r) = qualified r.
Proof. intros Hd. unfold qualifiedTableIdentFromKey, resolved_key. by rewrite cut_dot_key. Qed.

(** ** One engine *)

Section Run.
Context {DB : Type} `{SqlEngineLaws DB}.
#[local] Abbreviation engine := (pooledEngine DB).

(** What the code knows of the tables an engine holds: every one is tracked. *)
Definition tracked (e : engine) : Prop :=
  ∀ q, db_table (pe_db e) q ≠ None → ∃ k, k ∈ dom (pe_tables e) ∧ q = qualifiedTableIdentFromKey k.

Definition blank (e : engine) : Prop :=
  pe_tables e = ∅ ∧ ∀ q, db_table (pe_db e) q = None.

(** The engine holds exactly the tables of [R], with their contents. *)
Definition holds_exactly (e : engine) (R : list resolvedTable) : Prop :=
  (∀ r, r ∈ R → db_table (pe_db e) (qualified r) = Some (rt_fields r, rt_rows r)) ∧
  (∀ q, db_table (pe_db e) q ≠ None → ∃ r, r ∈ R ∧ q = qualified r).

(** The fields only the pool assigns. *)
Definition same_lease (e e' : engine) : Prop :=
  pe_signature e' = pe_signature e ∧ pe_refCount e' = pe_refCount e ∧ pe_closed e' = pe_closed e.

Definition clean_table (r : resolvedTable) : Prop := clean_ref (cache_ref r).

Lemma blank_tracked e : blank e → tracked e.
Proof. intros [_ Hb] q Hq. by rewrite Hb in Hq. Qed.

Lemma same_lease_trans e1 e2 e3 : same_lease e1 e2 → same_lease e2 e3 → same_lease e1 e3.
Proof. unfold same_lease. naive_solver congruence. Qed.

Lemma drop_tables_spec keys db db' :
  drop_tables keys db = (db', Ok tt) →
  ∀ q, db_table db' q ≠ None → db_table db q ≠ None ∧ ∀ k, k ∈ keys → q ≠ qualifiedTableIdentFromKey k.
Proof.
  revert db. induction keys as [|k keys IH]; intros db; simpl.
  - intros [= ->] q Hq. split; [done|]. by intros k ?%elem_of_nil.
  - destruct (db_exec _ _) as [db1 [[]|e|]] eqn:He; [|done..]. intros Hd q Hq.
    destruct (IH _ Hd q Hq) as [H1 H2]. rewrite (exec_drop _ _ _ He) in H1. case_decide; [done|].
    split; [done|]. intros k' [->|Hk]%elem_of_cons; [done|]. by apply H2.
Qed.

Lemma reset_ok e e' :
  tracked e → safeResetPooledEngine e = (e', None) →
  blank e' ∧ pe_signature e' = "" ∧ pe_refCount e' = pe_refCount e ∧ pe_closed e' = pe_closed e.
Proof.
  intros Ht. unfold safeResetPooledEngine, reset.
  destruct (drop_tables _ _) as [db [[]|m|]] eqn:Hd; simpl; intros [= <-]. simpl.
  split_and!; try done. split; [done|]. intros q. simpl.
  destruct (db_table db q) eqn:Hq; [|done]. exfalso.
  destruct (drop_tables_spec _ _ _ Hd q) as [H1 H2]; [congruence|].
  destruct (Ht q H1) as (k & Hk & Hqk). apply (H2 k); [|done].
  apply elem_of_dom in Hk as [v Hv]. apply list_elem_of_fmap_2'  with (k, v); [|done].
  by apply elem_of_map_to_list.
Qed.

Lemma ensureSchema_frame e d e' out :
  ensureSchema e d = (e', out) →
  same_lease e e' ∧ pe_tables e' = pe_tables e ∧ ∀ q, db_table (pe_db e') q = db_table (pe_db e) q.
Proof.
  unfold ensureSchema. case_bool_decide; [by intros [= <- _]|].
  destruct (db_exec _ _) as [db out'] eqn:He. pose proof (exec_schema _ _ _ _ He).
  destruct out' as [[]|?|]; by intros [= <- _].
Qed.

(** One reference: the engine stays tracked whatever happens; a table it did
    not hold is there afterwards if it was found. *)
Lemma materializeResolvedRef_spec e r e' out :
  clean_table r → tracked e → materializeResolvedRef e r = (e', out) →
  tracked e' ∧ same_lease e e' ∧
  dom (pe_tables e') ⊆ {[resolved_key r]} ∪ dom (pe_tables e) ∧
  (∀ q, q ≠ qualified r → db_table (pe_db e') q = db_table (pe_db e) q) ∧
  (resolved_key r ∉ dom (pe_tables e) → rt_found r = true → out = Ok tt →
     db_table (pe_db e') (qualified r) = Some (rt_fields r, rt_rows r)).
Proof.
  intros Hc Ht. unfold materializeResolvedRef, materializedVersion. fold (resolved_key r).
  destruct (match pe_tables e !! resolved_key r with Some v => _ | None => false end) eqn:Hv.
  { intros [= <- <-]. split_and!; try done; [set_solver|]. intros Hno. exfalso. apply Hno.
    apply elem_of_dom. destruct (pe_tables e !! _); [by eexists|done]. }
  destruct (ensureSchema e _) as [e1 out1] eqn:He.
  destruct (ensureSchema_frame _ _ _ _ He) as (Hl & Htab & Hdb).
  destruct out1 as [[]|m|]; cycle 1.
  1-2: intros [= <- <-]; split_and!; try done; [|by rewrite Htab; set_solver];
    intros q Hq; rewrite Hdb in Hq; rewrite Htab; by apply Ht.
  set (e2 := markTableMaterialized _ _ _ _).
  assert (tracked e2) as Ht2.
  { intros q Hq. simpl in Hq. rewrite Hdb in Hq. destruct (Ht q Hq) as (k & Hk & ->).
    exists k. split; [|done]. simpl. rewrite Htab. set_solver. }
  assert (dom (pe_tables e2) = {[resolved_key r]} ∪ dom (pe_tables e)) as Hdom.
  { simpl. rewrite Htab. by rewrite dom_insert_L. }
  destruct (rt_found r) eqn:Hf; simpl.
  2: { intros [= <- <-]. split_and!; try done; by rewrite Hdom. }
  fold (qualified r). destruct (db_load _ _ _ _) as [db out2] eqn:Hload. intros [= <- <-].
  pose proof (load_frame _ _ _ _ _ _ Hload) as Hframe. split_and!; try done.
  - intros q Hq. simpl in Hq. destruct (decide (q = qualified r)) as [->|Hne].
    + exists (resolved_key r). rewrite qualified_of_key by apply Hc. split; [|done].
      change (resolved_key r ∈ dom (pe_tables e2)). rewrite Hdom. set_solver.
    + rewrite Hframe in Hq by done. by apply Ht2.
  - change (dom (pe_tables e2) ⊆ {[resolved_key r]} ∪ dom (pe_tables e)). by rewrite Hdom.
  - intros q Hne. simpl. rewrite Hframe by done. apply Hdb.
  - intros _ _ ->. simpl. rewrite (load_ok _ _ _ _ _ Hload). by rewrite decide_True.
Qed.

Lemma materialize_refs_tracked R e e' out :
  Forall clean_table R → tracked e → materialize_refs e R = (e', out) → tracked e' ∧ same_lease e e'.
Proof.
  intros Hc. revert e. induction Hc as [|r R Hr Hc IH]; intros e Ht; simpl.
  - intros [= <- _]. by split.
  - destruct (materializeResolvedRef e r) as [e1 out1] eqn:Hm.
    destruct (materializeResolvedRef_spec _ _ _ _ Hr Ht Hm) as (Ht1 & Hl1 & _).
    destruct out1 as [[]|m|]; [|by intros [= <- _]..]. intros Hrest.
    destruct (IH _ Ht1 Hrest) as [Ht' Hl']. split; [done|]. by eapply same_lease_trans.
Qed.

(** A whole set of found tables none of which the engine held. *)
Lemma materialize_refs_fresh R e e' :
  Forall clean_table R → NoDup (resolved_key <$> R) → (∀ r, r ∈ R → rt_found r = true) →
  (∀ r, r ∈ R → resolved_key r ∉ dom (pe_tables e)) → tracked e →
  materialize_refs e R = (e', Ok tt) →
  (∀ r, r ∈ R → db_table (pe_db e') (qualified r) = Some (rt_fields r, rt_rows r)) ∧
  (∀ q, (∀ r, r ∈ R → q ≠ qualified r) → db_table (pe_db e') q = db_table (pe_db e) q).
Proof.
  intros Hc. revert e. induction Hc as [|r R Hr Hc IH]; intros e Hnd Hf Hnew Ht; simpl.
  - intros [= <-]. split; [by intros r ?%elem_of_nil|done].
  - destruct (materializeResolvedRef e r) as [e1 out1] eqn:Hm.
    destruct (materializeResolvedRef_spec _ _ _ _ Hr Ht Hm) as (Ht1 & _ & Hdom & Hq & Hin).
    apply NoDup_cons in Hnd as [Hnr Hnd].
    destruct out1 as [[]|m|]; [|done..]. intros Hrest.
    assert (Hin' : ∀ r', r' ∈ R → resolved_key r' ≠ resolved_key r).
    { intros r' Hr' E. apply Hnr. rewrite <-E. by apply list_elem_of_fmap_2. }
    destruct (IH e1 Hnd) as [H1 H2]; [|..|done|done|]; [|..].
    + intros r' Hr'. apply Hf. by right.
    + intros r' Hr' Hd. apply Hdom in Hd. pose proof (Hnew r' ltac:(by right)). set_solver.
    + split.
      * intros r' [->|Hr']%elem_of_cons; [|by apply H1].
        rewrite H2 by (intros r'' Hr'' E%qualified_inj; by eapply Hin').
        apply Hin; [apply Hnew; left|apply Hf; left|done].
      * intros q Hne. rewrite H2, Hq; [done|..]; [apply Hne; left|].
        intros r' Hr'. apply Hne. by right.
Qed.

Lemma materialize_blank e R e' :
  blank e → Forall clean_table R → NoDup (resolved_key <$> R) → (∀ r, r ∈ R → rt_found r = true) →
  materializeAllResolved e R true = (e', Ok tt) →
  holds_exactly e' R ∧ tracked e' ∧ same_lease e e'.
Proof.
  intros Hb Hc Hnd Hf. unfold materializeAllResolved, reconcileSharedEngine.
  pose proof (blank_tracked _ Hb) as Ht. destruct Hb as [Htab Hdb].
  rewrite Htab, map_to_list_empty. simpl. intros Hm.
  destruct (materialize_refs_tracked _ _ _ _ Hc Ht Hm) as [Ht' Hl].
  destruct (materialize_refs_fresh _ _ _ Hc Hnd Hf ltac:(rewrite Htab; set_solver) Ht Hm) as [H1 H2].
  split_and!; [|done..]. split; [done|]. intros q Hq.
  destruct (decide (Exists (λ r, q = qualified r) R)) as [(r & Hr & ->)%Exists_exists|Hno]; [by exists r|].
  exfalso. apply Hq. rewrite H2; [apply Hdb|]. intros r Hr ->. apply Hno, Exists_exists. by exists r.
Qed.

(** ** Interleavings

    A query's goroutine moves through [openMaterializedSQLDatabase], runs its
    statement and releases the engine.  Between two of the pool's critical
    sections any other goroutine may run.  The steps below are those of a run
    in which resets and the materializations of shared leases succeed; a
    private lease may fail. *)

Inductive lease_pc :=
| Acquiring
| Opening
| Resetting (id : nat)
| Materializing (id : nat)
| Tagging (id : nat)
| Running (id : nat)
| Leaving (id : nat)
| Returning (id : nat).

Definition leased (pc : lease_pc) : option nat :=
  match pc with
  | Acquiring | Opening => None
  | Resetting id | Materializing id | Tagging id | Running id | Leaving id | Returning id => Some id
  end.

Record client := Client {
  cl_readOnly : bool;
  cl_resolved : list resolvedTable;
  cl_pc : lease_pc;
}.
#[export] Instance client_eta : Eta client := λ c, Client (cl_readOnly c) (cl_resolved c) (cl_pc c).

Definition cl_sig (c : client) : string :=
  cacheSignature (resolved_cacheable (cl_readOnly c) (cl_resolved c)) (cl_resolved c).
Definition cl_shared (c : client) : bool := negb (String.eqb (cl_sig c) "").

Definition after_acquire (out : leaseOutcome) : lease_pc :=
  match out with
  | LeaseHit id => Running id
  | LeaseReuse id dirty => if dirty then Resetting id else Materializing id
  | LeaseOpen => Opening
  end.

Record world := World { w_pool : sqlEnginePool DB; w_clients : list client }.

(** The statement of a private lease changes no table but those the lease
    tracks: it names its target, which the code passes as a reference. *)
Definition statement_effect (e e' : engine) : Prop :=
  ∃ db', e' = set_db db' e ∧
    ∀ q, (∀ k, k ∈ dom (pe_tables e) → q ≠ qualifiedTableIdentFromKey k) →
         db_table db' q = db_table (pe_db e) q.

(** Table versions name contents: what a query resolves for a versioned table
    is the content of that version. *)
Variable content : string → string → Z → schema * list row.

Definition query_ok (R : list resolvedTable) : Prop :=
  Forall clean_table R ∧ NoDup (resolved_key <$> R) ∧
  ∀ r, r ∈ R → rt_hasVersion r = true →
    rt_found r = true ∧ (rt_fields r, rt_rows r) = content (rt_datasetID r) (rt_tableID r) (rt_version r).

(** One step of the goroutine [c]: the pool and what is left of the goroutine. *)
Inductive lease_step (p : sqlEnginePool DB) (c : client) : sqlEnginePool DB → list client → Prop :=
| step_acquire p' out :
    cl_pc c = Acquiring → acquire_locked p (cl_sig c) = (p', out) →
    lease_step p c p' [c <| cl_pc := after_acquire out |>]
| step_open p' id :
    cl_pc c = Opening → openFresh p = (p', Ok id) → lease_step p c p' [c <| cl_pc := Materializing id |>]
| step_open_failed p' m :
    cl_pc c = Opening → openFresh p = (p', Err m) → lease_step p c p' []
| step_reset p' id :
    cl_pc c = Resetting id → run_engine p id safeResetPooledEngine = Some (p', None) →
    lease_step p c p' [c <| cl_pc := Materializing id |>]
| step_materialize p' id out :
    cl_pc c = Materializing id →
    run_engine p id (λ e, materializeAllResolved e (cl_resolved c) (cl_shared c)) = Some (p', out) →
    (cl_shared c = true → out = Ok tt) →
    lease_step p c p'
      [c <| cl_pc := match out with Ok _ => if cl_shared c then Tagging id else Running id | _ => Leaving id end |>]
| step_tag id :
    cl_pc c = Tagging id → lease_step p c (tagSignature p id (cl_sig c)) [c <| cl_pc := Running id |>]
| step_statement id e e' :
    cl_pc c = Running id → cl_shared c = false → sp_heap p !! id = Some e → statement_effect e e' →
    lease_step p c (put_engine id e' p) [c]
| step_done id : cl_pc c = Running id → lease_step p c p [c <| cl_pc := Leaving id |>]
| step_leave_shared id :
    cl_pc c = Leaving id → cl_shared c = true → lease_step p c (releaseShared p id) []
| step_leave_private p' id :
    cl_pc c = Leaving id → cl_shared c = false →
    run_engine p id safeResetPooledEngine = Some (p', None) →
    lease_step p c p' [c <| cl_pc := Returning id |>]
| step_return id : cl_pc c = Returning id → lease_step p c (releasePrivate_locked p id) [].

Inductive pool_reachable : world → Prop :=
| pool_init : pool_reachable (World newSQLEnginePool [])
| pool_arrive p cs readOnly R :
    pool_reachable (World p cs) → query_ok R →
    pool_reachable (World p (cs ++ [Client readOnly R Acquiring]))
| pool_progress p cs1 c cs2 p' mid :
    pool_reachable (World p (cs1 ++ c :: cs2)) → lease_step p c p' mid →
    pool_reachable (World p' (cs1 ++ mid ++ cs2)).

(** ** The invariant *)

(** The goroutines that lease engine [id]. *)
Definition holders (id : nat) (cs : list client) : list client :=
  filter (λ c, leased (cl_pc c) = Some id) cs.

(** A signature's tables, as some query resolved them. *)
Definition warm (e : engine) : Prop :=
  pe_signature e ≠ "" ∧ tracked e ∧
  ∃ R, query_ok R ∧ forallb rt_hasVersion R = true ∧
       pe_signature e = tableSignature (cache_ref <$> R) ∧ holds_exactly e R.

Definition reads (e : engine) (c : client) : Prop :=
  cl_shared c = true ∧ cl_sig c = pe_signature e ∧
  match cl_pc c with Running _ | Leaving _ => True | _ => False end.

(** The only holder of an engine without signature. *)
Definition owns (e : engine) (c : client) : Prop :=
  match cl_pc c with
  | Resetting _ => tracked e
  | Materializing _ | Returning _ => blank e
  | Tagging _ => cl_shared c = true ∧ tracked e ∧ holds_exactly e (cl_resolved c)
  | Running _ | Leaving _ => cl_shared c = false ∧ tracked e
  | Acquiring | Opening => False
  end.

Definition engine_ok (e : engine) (hs : list client) : Prop :=
  pe_closed e = false ∧ pe_refCount e = Z.of_nat (length hs) ∧
  ((warm e ∧ Forall (reads e) hs) ∨
   (pe_signature e = "" ∧ blank e ∧ hs = []) ∨
   (pe_signature e = "" ∧ ∃ c, hs = [c] ∧ owns e c)).

Record pool_inv (p : sqlEnginePool DB) (cs : list client) : Prop := {
  inv_nodup : NoDup (sp_all p);
  inv_fresh id : id ∈ sp_all p → (id < sp_next p)%nat;
  inv_leased c id : c ∈ cs → leased (cl_pc c) = Some id → id ∈ sp_all p;
  inv_queries c : c ∈ cs → query_ok (cl_resolved c);
  inv_engines id : id ∈ sp_all p → ∃ e, sp_heap p !! id = Some e ∧ engine_ok e (holders id cs);
}.

Lemma holders_app id cs1 cs2 : holders id (cs1 ++ cs2) = holders id cs1 ++ holders id cs2.
Proof. apply filter_app. Qed.

Lemma holders_nil id cs : (∀ c, c ∈ cs → leased (cl_pc c) ≠ Some id) → holders id cs = [].
Proof.
  intros Hno. unfold holders. induction cs as [|c cs IH]; [done|].
  rewrite filter_cons_False by (apply Hno; left). apply IH. intros c' Hc'. apply Hno. by right.
Qed.

(** A step that touches the engine [id] only. *)
Lemma inv_step_at p p' cs1 mid mid' cs2 id :
  pool_inv p (cs1 ++ mid ++ cs2) → id ∈ sp_all p →
  sp_all p' = sp_all p → sp_next p' = sp_next p →
  (∀ i, i ≠ id → sp_heap p' !! i = sp_heap p !! i) →
  (∀ c i, c ∈ mid ∨ c ∈ mid' → leased (cl_pc c) = Some i → i = id) →
  (∀ c, c ∈ mid' → query_ok (cl_resolved c)) →
  (∀ e, sp_heap p !! id = Some e →
     engine_ok e (holders id cs1 ++ holders id mid ++ holders id cs2) →
     ∃ e', sp_heap p' !! id = Some e' ∧
       engine_ok e' (holders id cs1 ++ holders id mid' ++ holders id cs2)) →
  pool_inv p' (cs1 ++ mid' ++ cs2).
Proof.
  intros [Hnd Hfr Hl Hq He] Hid Hall Hnext Hheap Hmid Hq' Hstep.
  split; rewrite ?Hall, ?Hnext; try done.
  - intros c i Hc Hi. rewrite !elem_of_app in Hc. destruct Hc as [Hc|[Hc|Hc]].
    + eapply Hl; [|done]. rewrite elem_of_app. by left.
    + by rewrite (Hmid c i) by auto.
    + eapply Hl; [|done]. rewrite !elem_of_app. by right; right.
  - intros c Hc. rewrite !elem_of_app in Hc. destruct Hc as [Hc|[Hc|Hc]]; [|by apply Hq'|];
      apply Hq; rewrite !elem_of_app; auto.
  - intros i Hi. destruct (He i Hi) as (e & Hei & Hok). rewrite !holders_app in *.
    destruct (decide (i = id)) as [->|Hne]; [by eapply Hstep|].
    exists e. rewrite Hheap by done. split; [done|].
    rewrite (holders_nil i mid), (holders_nil i mid') in *; [done|..];
      intros c Hc E; apply Hne; eauto.
Qed.

Lemma run_engine_inv {A} p id (f : engine → engine * A) p' a :
  run_engine p id f = Some (p', a) →
  ∃ e e', sp_heap p !! id = Some e ∧ f e = (e', a) ∧ p' = put_engine id e' p.
Proof.
  unfold run_engine. destruct (sp_heap p !! id) as [e|]; [|done].
  destruct (f e) as [e' a'] eqn:Hf. intros [= <- <-]. eauto.
Qed.

Lemma holders_self id c : leased (cl_pc c) = Some id → holders id [c] = [c].
Proof. intros Hc. unfold holders. by rewrite filter_cons_True. Qed.

Lemma holders_other id c : leased (cl_pc c) ≠ Some id → holders id [c] = [].
Proof. intros Hc. unfold holders. by rewrite filter_cons_False. Qed.

(** A holder that is not a reader has the engine to itself. *)
Lemma engine_owner e hs1 c hs2 :
  engine_ok e (hs1 ++ [c] ++ hs2) → ¬ reads e c →
  pe_closed e = false ∧ pe_refCount e = 1 ∧ pe_signature e = "" ∧ hs1 = [] ∧ hs2 = [] ∧ owns e c.
Proof.
  intros (Hcl & Hrc & [[_ Hr]|[(_ & _ & Hnil)|(Hs & c' & Hc & Ho)]]) Hnr.
  - exfalso. apply Hnr. rewrite Forall_forall in Hr. apply Hr. rewrite !elem_of_app. right. left. left.
  - by destruct hs1.
  - destruct hs1 as [|x hs1]; simplify_eq/=; [by split_and!|]. by destruct hs1.
Qed.

Lemma put_engine_lookup id e (p : sqlEnginePool DB) : sp_heap (put_engine id e p) !! id = Some e.
Proof. apply lookup_insert_eq. Qed.

Lemma put_engine_ne id e i (p : sqlEnginePool DB) :
  i ≠ id → sp_heap (put_engine id e p) !! i = sp_heap p !! i.
Proof. intros. by apply lookup_insert_ne. Qed.

(** A step of an owner that keeps the engine. *)
Lemma inv_owner_step p cs1 c pc' cs2 id e e' :
  pool_inv p (cs1 ++ [c] ++ cs2) → leased (cl_pc c) = Some id → leased pc' = Some id →
  sp_heap p !! id = Some e → ¬ reads e c →
  (owns e c → pe_signature e = "" →
     engine_ok e' [c <| cl_pc := pc' |>] ∨ same_lease e e' ∧ owns e' (c <| cl_pc := pc' |>)) →
  pool_inv (put_engine id e' p) (cs1 ++ [c <| cl_pc := pc' |>] ++ cs2).
Proof.
  intros Hinv Hc Hc' He Hnr Hstep.
  assert (Hin : c ∈ cs1 ++ [c] ++ cs2) by (rewrite !elem_of_app; right; left; left).
  apply (inv_step_at p _ cs1 [c] _ cs2 id); try done.
  - by eapply inv_leased.
  - intros. by apply put_engine_ne.
  - intros x i [->%list_elem_of_singleton| ->%list_elem_of_singleton] Hi; simpl in Hi; congruence.
  - intros x ->%list_elem_of_singleton. simpl. by eapply (inv_queries _ _ Hinv).
  - intros e0 He0 Hok. exists e'. split; [apply put_engine_lookup|].
    assert (e0 = e) as -> by congruence. rewrite holders_self in Hok by done.
    rewrite holders_self by done.
    apply engine_owner in Hok as (Hcl & Hrc & Hs & -> & -> & Ho); [|done].
    destruct (Hstep Ho Hs) as [Hok|((Hs' & Hr' & Hc'') & Ho')]; [done|].
    unfold engine_ok. rewrite Hc'', Hr', Hs'. split_and!; [done|done|]. right; right. split; [done|]. by eexists.
Qed.

Lemma cl_sig_pc c pc : cl_sig (c <| cl_pc := pc |>) = cl_sig c.
Proof. done. Qed.

Lemma shared_query c :
  cl_shared c = true → query_ok (cl_resolved c) →
  forallb rt_hasVersion (cl_resolved c) = true ∧ cl_sig c = tableSignature (cache_ref <$> cl_resolved c) ∧
  cl_sig c ≠ "" ∧ ∀ r, r ∈ cl_resolved c → rt_found r = true.
Proof.
  unfold cl_shared, cl_sig, cacheSignature, resolved_cacheable. intros Hs (_ & _ & Hq).
  destruct (cl_readOnly c); [|done]. simpl in *. destruct (forallb _ _) eqn:Hv; [|done].
  bools. split_and!; [done..|]. intros r Hr. apply Hq; [done|].
  rewrite forallb_forall in Hv. apply Hv. by apply list_elem_of_In.
Qed.

(** ** Every step preserves it *)

Lemma inv_reset p cs1 c cs2 id p' pc' :
  pool_inv p (cs1 ++ [c] ++ cs2) →
  (cl_pc c = Resetting id ∧ pc' = Materializing id) ∨
  (cl_pc c = Leaving id ∧ cl_shared c = false ∧ pc' = Returning id) →
  run_engine p id safeResetPooledEngine = Some (p', None) →
  pool_inv p' (cs1 ++ [c <| cl_pc := pc' |>] ++ cs2).
Proof.
  intros Hinv Hpc Hrun. apply run_engine_inv in Hrun as (e & e' & He & Hr & ->).
  eapply inv_owner_step; try done.
  - destruct Hpc as [[-> _]|(-> & _)]; done.
  - destruct Hpc as [[_ ->]|(_ & _ & ->)]; done.
  - intros (Hsh & _ & Hrd). destruct Hpc as [[E _]|(E & Hn & _)]; [by rewrite E in Hrd|congruence].
  - intros Ho Hs. right. assert (tracked e) as Ht.
    { unfold owns in Ho. destruct Hpc as [[E _]|(E & _)]; rewrite E in Ho; [done|apply Ho]. }
    destruct (reset_ok _ _ Ht Hr) as (Hb & Hs' & Hrc & Hcl).
    split; [unfold same_lease; split_and!; congruence|]. destruct Hpc as [[_ ->]|(_ & _ & ->)]; done.
Qed.

Lemma inv_materialize p cs1 c cs2 id p' out :
  pool_inv p (cs1 ++ [c] ++ cs2) → cl_pc c = Materializing id →
  run_engine p id (λ e, materializeAllResolved e (cl_resolved c) (cl_shared c)) = Some (p', out) →
  (cl_shared c = true → out = Ok tt) →
  pool_inv p' (cs1 ++ [c <| cl_pc :=
    match out with Ok _ => if cl_shared c then Tagging id else Running id | _ => Leaving id end |>] ++ cs2).
Proof.
  intros Hinv Hpc Hrun Hout. apply run_engine_inv in Hrun as (e & e' & He & Hr & ->).
  assert (query_ok (cl_resolved c)) as Hq.
  { eapply (inv_queries _ _ Hinv). rewrite !elem_of_app. right; left; left. }
  eapply inv_owner_step; try done.
  - by rewrite Hpc.
  - by destruct out as [[]|?|], (cl_shared c).
  - intros (_ & _ & Hrd). by rewrite Hpc in Hrd.
  - intros Ho Hs. right. unfold owns in Ho. rewrite Hpc in Ho. destruct (cl_shared c) eqn:Hsh.
    + rewrite (Hout eq_refl) in *. destruct Hq as (Hc & Hnd & Hq') eqn:Eq. clear Eq.
      destruct (materialize_blank e _ e' Ho Hc Hnd) as (Hh & Ht & Hl); [|done|].
      { by apply shared_query. }
      split; [done|]. by split_and!.
    + destruct (materialize_refs_tracked (cl_resolved c) e e' out) as [Ht Hl];
        [apply Hq|by apply blank_tracked|done|].
      split; [done|]. destruct out as [[]|?|]; by split.
Qed.

Lemma on_engine_put id (f : engine → engine) (p : sqlEnginePool DB) e :
  sp_heap p !! id = Some e → on_engine id f p = put_engine id (f e) p.
Proof.
  intros He. unfold on_engine, put_engine. destruct p as [l h n]. simpl in *. f_equal.
  apply map_eq. intros i. destruct (decide (i = id)) as [->|].
  - rewrite lookup_alter_eq, lookup_insert_eq, He. done.
  - by rewrite lookup_alter_ne, lookup_insert_ne.
Qed.

Lemma inv_tag p cs1 c cs2 id :
  pool_inv p (cs1 ++ [c] ++ cs2) → cl_pc c = Tagging id →
  pool_inv (tagSignature p id (cl_sig c)) (cs1 ++ [c <| cl_pc := Running id |>] ++ cs2).
Proof.
  intros Hinv Hpc. assert (Hin : c ∈ cs1 ++ [c] ++ cs2) by (rewrite !elem_of_app; right; left; left).
  destruct (inv_engines _ _ Hinv id) as (e & He & Hok).
  { eapply inv_leased; [done|done|by rewrite Hpc]. }
  unfold tagSignature. erewrite on_engine_put by done. eapply inv_owner_step; try done.
  - by rewrite Hpc.
  - intros (_ & _ & Hrd). by rewrite Hpc in Hrd.
  - intros Ho Hs. left. rewrite !holders_app, holders_self in Hok by by rewrite Hpc.
    unfold owns in Ho. rewrite Hpc in Ho. destruct Ho as (Hsh & Ht & Hh).
    pose proof (inv_queries _ _ Hinv _ Hin) as Hq.
    destruct (shared_query _ Hsh Hq) as (Hv & Esig & Hne & _).
    apply engine_owner in Hok as (Hcl & Hrc & _); [|intros (_ & _ & Hrd); by rewrite Hpc in Hrd].
    split_and!; [done|done|]. left. split; [|by constructor].
    split_and!; [done|done|]. by exists (cl_resolved c).
Qed.

Lemma inv_statement p cs1 c cs2 id e e' :
  pool_inv p (cs1 ++ [c] ++ cs2) → cl_pc c = Running id → cl_shared c = false →
  sp_heap p !! id = Some e → statement_effect e e' →
  pool_inv (put_engine id e' p) (cs1 ++ [c] ++ cs2).
Proof.
  intros Hinv Hpc Hsh He (db' & -> & Hst).
  assert (c = c <| cl_pc := Running id |>) as Ec by (destruct c; simpl in *; by subst).
  rewrite Ec at 1. eapply inv_owner_step; try done.
  - by rewrite Hpc.
  - intros (Hs & _). congruence.
  - intros Ho Hs. right. split; [done|]. split; [done|]. unfold owns in Ho. rewrite Hpc in Ho.
    destruct Ho as [_ Ht]. intros q Hq. simpl in *.
    destruct (decide (db_table (pe_db e) q = None)) as [Hn|Hn]; [|by apply Ht].
    destruct (decide (Exists (λ k, q = qualifiedTableIdentFromKey k) (elements (dom (pe_tables e)))))
      as [(k & Hk & ->)%Exists_exists|Hno]; [exists k; split; [by apply elem_of_elements|done]|].
    exfalso. apply Hq. rewrite Hst; [done|]. intros k Hk ->. apply Hno, Exists_exists.
    exists k. split; [by apply elem_of_elements|done].
Qed.

Lemma inv_done p cs1 c cs2 id :
  pool_inv p (cs1 ++ [c] ++ cs2) → cl_pc c = Running id →
  pool_inv p (cs1 ++ [c <| cl_pc := Leaving id |>] ++ cs2).
Proof.
  intros Hinv Hpc. assert (Hin : c ∈ cs1 ++ [c] ++ cs2) by (rewrite !elem_of_app; right; left; left).
  assert (Hc : leased (cl_pc c) = Some id) by by rewrite Hpc.
  apply (inv_step_at p _ cs1 [c] _ cs2 id); try done.
  - by eapply inv_leased.
  - intros x i [->%list_elem_of_singleton| ->%list_elem_of_singleton] Hi; simpl in Hi; congruence.
  - intros x ->%list_elem_of_singleton. simpl. by eapply (inv_queries _ _ Hinv).
  - intros e He Hok. exists e. split; [done|]. rewrite holders_self in * by done.
    destruct Hok as (Hcl & Hrc & Hcase). split_and!; [done|by rewrite !length_app in *; simpl in *|].
    destruct Hcase as [[Hw Hr]|[(_ & _ & Hnil)|(Hs & c' & Hc' & Ho)]].
    + left. split; [done|]. rewrite !Forall_app in *. destruct Hr as (H1 & H2 & H3). split_and!; [done| |done].
      apply Forall_singleton. apply Forall_singleton in H2 as (? & ? & ?). by split_and!.
    + by destruct (holders id cs1).
    + right; right. split; [done|]. destruct (holders id cs1) as [|x l]; simplify_eq/=; [|by destruct l].
      eexists. split; [by f_equal|]. unfold owns in *. by rewrite Hpc in Ho.
Qed.

(** An idle engine the pool hands out: it holds nothing untracked, and nothing
    at all if it has no signature. *)
Lemma idle_engine p cs id e :
  pool_inv p cs → id ∈ sp_all p → sp_heap p !! id = Some e → pe_refCount e = 0 →
  pe_closed e = false ∧ tracked e ∧ holders id cs = [] ∧ (pe_signature e = "" → blank e).
Proof.
  intros Hinv Hid He Hrc. destruct (inv_engines _ _ Hinv id Hid) as (e' & He' & Hcl & Hrc' & Hcase).
  assert (e' = e) as -> by congruence. assert (Hnil : holders id cs = []).
  { destruct (holders id cs); [done|simpl in Hrc'; lia]. }
  rewrite Hnil in Hcase. destruct Hcase as [[Hw _]|[(Hs & Hb & _)|(_ & c & Hc & _)]]; [..|done].
  - destruct Hw as (Hne & Ht & _). by split_and!.
  - split_and!; [done|by apply blank_tracked|done|done].
Qed.

Lemma inv_claim p cs1 c cs2 id e pc' :
  pool_inv p (cs1 ++ [c] ++ cs2) → cl_pc c = Acquiring → id ∈ sp_all p →
  sp_heap p !! id = Some e → pe_refCount e = 0 → leased pc' = Some id →
  (tracked e → (pe_signature e = "" → blank e) →
     owns (claimed e) (c <| cl_pc := pc' |>)) →
  pool_inv (claim id p) (cs1 ++ [c <| cl_pc := pc' |>] ++ cs2).
Proof.
  intros Hinv Hpc Hid He Hrc Hpc' Ho. destruct (idle_engine _ _ _ _ Hinv Hid He Hrc) as (Hcl & Ht & Hno & Hb).
  unfold claim. erewrite on_engine_put by done.
  apply (inv_step_at p _ cs1 [c] _ cs2 id); try done.
  - intros. by apply put_engine_ne.
  - intros x i [->%list_elem_of_singleton| ->%list_elem_of_singleton] Hi; simpl in Hi; [by rewrite Hpc in Hi|congruence].
  - intros x ->%list_elem_of_singleton. simpl. eapply (inv_queries _ _ Hinv). rewrite !elem_of_app. right; left; left.
  - intros e0 _ _. rewrite !holders_app in Hno. apply app_nil in Hno as [-> [_ ->]%app_nil].
    eexists. split; [apply put_engine_lookup|]. rewrite holders_self by done.
    split_and!; [done|done|]. right; right. split; [done|]. eexists. split; [done|]. by apply Ho.
Qed.

Lemma refCount_zero p cs id :
  pool_inv p cs → id ∈ sp_all p → refCount p id = 0 → ∃ e, sp_heap p !! id = Some e ∧ pe_refCount e = 0.
Proof.
  intros Hinv Hid Hz. destruct (inv_engines _ _ Hinv id Hid) as (e & He & _).
  exists e. split; [done|]. unfold refCount in Hz. by rewrite He in Hz.
Qed.

Lemma signature_of (p : sqlEnginePool DB) id e : sp_heap p !! id = Some e → signature p id = pe_signature e.
Proof. unfold signature. by intros ->. Qed.

Lemma inv_no_lease p cs1 c pc' cs2 :
  pool_inv p (cs1 ++ [c] ++ cs2) → leased (cl_pc c) = None → leased pc' = None →
  pool_inv p (cs1 ++ [c <| cl_pc := pc' |>] ++ cs2).
Proof.
  intros [Hnd Hfr Hl Hq He] Hc Hc'. split; try done.
  - intros x id. rewrite !elem_of_app. intros [Hx|[->%list_elem_of_singleton|Hx]] Hid; [|simpl in Hid; congruence|];
      (eapply Hl; [|done]); rewrite !elem_of_app; auto.
  - intros x. rewrite !elem_of_app. intros [Hx|[->%list_elem_of_singleton|Hx]]; simpl; eapply Hq;
      rewrite !elem_of_app; [by left|right; left; left|by right; right].
  - intros id Hid. destruct (He id Hid) as (e & ? & Hok). exists e. split; [done|].
    rewrite !holders_app in *. rewrite holders_other in Hok by congruence.
    by rewrite holders_other by (simpl; congruence).
Qed.

Lemma inv_hit p cs1 c cs2 id e :
  pool_inv p (cs1 ++ [c] ++ cs2) → cl_pc c = Acquiring → id ∈ sp_all p →
  sp_heap p !! id = Some e → pe_signature e = cl_sig c → cl_shared c = true →
  pool_inv (put_engine id (join_lease e) p) (cs1 ++ [c <| cl_pc := Running id |>] ++ cs2).
Proof.
  intros Hinv Hpc Hid He Hsig Hsh.
  assert (Hq : query_ok (cl_resolved c)).
  { eapply (inv_queries _ _ Hinv). rewrite !elem_of_app. right; left; left. }
  apply (inv_step_at p _ cs1 [c] _ cs2 id); try done.
  - intros. by apply put_engine_ne.
  - intros x i [->%list_elem_of_singleton| ->%list_elem_of_singleton] Hi; simpl in Hi; [by rewrite Hpc in Hi|congruence].
  - by intros x ->%list_elem_of_singleton.
  - intros e0 He0 Hok. assert (e0 = e) as -> by congruence. eexists. split; [apply put_engine_lookup|].
    rewrite holders_other in Hok by by rewrite Hpc. rewrite holders_self by done.
    destruct Hok as (Hcl & Hrc & Hcase). destruct (shared_query _ Hsh Hq) as (_ & _ & Hne & _).
    split_and!; [done|simpl; rewrite !length_app in *; simpl in *; lia|]. left.
    destruct Hcase as [[Hw Hr]|[(E & _)|(E & _)]]; [|congruence..]. split; [done|].
    rewrite !Forall_app in *. destruct Hr as (H1 & _ & H3). split_and!; [done| |done].
    apply Forall_singleton. by split_and!.
Qed.

Lemma list_find_in {A} (P : A → Prop) `{∀ x, Decision (P x)} l i x :
  list_find P l = Some (i, x) → x ∈ l ∧ P x.
Proof.
  intros (Hl & HP & _)%list_find_Some. split; [|done]. by eapply list_elem_of_lookup_2.
Qed.

Lemma first_idle_in (p : sqlEnginePool DB) id : first_idle p = Some id → id ∈ sp_all p ∧ refCount p id = 0.
Proof.
  unfold first_idle. destruct (list_find _ _) as [[i x]|] eqn:Hf; [|done]. intros [= <-].
  by apply list_find_in in Hf.
Qed.

Lemma reuse_candidate_in (p : sqlEnginePool DB) id :
  reuse_candidate p = Some id → id ∈ sp_all p ∧ refCount p id = 0.
Proof.
  unfold reuse_candidate. destruct (list_find _ _) as [[i x]|] eqn:Hf; [|apply first_idle_in].
  intros [= <-]. apply list_find_in in Hf. naive_solver.
Qed.

Lemma inv_acquire p cs1 c cs2 p' out :
  pool_inv p (cs1 ++ [c] ++ cs2) → cl_pc c = Acquiring → acquire_locked p (cl_sig c) = (p', out) →
  pool_inv p' (cs1 ++ [c <| cl_pc := after_acquire out |>] ++ cs2).
Proof.
  intros Hinv Hpc. unfold acquire_locked. destruct (String.eqb (cl_sig c) "") eqn:Hsig.
  - unfold acquirePrivate_locked. destruct (first_idle p) as [id|] eqn:Hf; intros [= <- <-].
    + apply first_idle_in in Hf as [Hid Hz]. destruct (refCount_zero _ _ _ Hinv Hid Hz) as (e & He & Hrc).
      eapply inv_claim; [done..|]. by intros Ht _.
    + apply inv_no_lease; [done|by rewrite Hpc|done].
  - assert (Hsh : cl_shared c = true) by (unfold cl_shared; by rewrite Hsig).
    unfold acquireShared_locked. destruct (list_find _ _) as [[i id]|] eqn:Hf.
    { intros [= <- <-]. apply list_find_in in Hf as [Hid Hs].
      destruct (inv_engines _ _ Hinv id Hid) as (e & He & _). rewrite (signature_of _ _ _ He) in Hs.
      erewrite on_engine_put by done. by apply inv_hit. }
    destruct (reuse_candidate p) as [id|] eqn:Hr; intros [= <- <-].
    + apply reuse_candidate_in in Hr as [Hid Hz]. destruct (refCount_zero _ _ _ Hinv Hid Hz) as (e & He & Hrc).
      rewrite (signature_of _ _ _ He). eapply inv_claim; [done..|by case_bool_decide|].
      intros Ht Hb. simpl. case_bool_decide as Hs; [done|]. simpl. apply Hb.
      by destruct (decide (pe_signature e = "")).
    + apply inv_no_lease; [done|by rewrite Hpc|done].
Qed.

Lemma inv_gone p cs1 c cs2 :
  pool_inv p (cs1 ++ [c] ++ cs2) → leased (cl_pc c) = None → pool_inv p (cs1 ++ [] ++ cs2).
Proof.
  intros [Hnd Hfr Hl Hq He] Hc. split; try done.
  - intros x id. rewrite !elem_of_app, elem_of_nil. intros [Hx|[[]|Hx]]; apply Hl; rewrite !elem_of_app; auto.
  - intros x. rewrite !elem_of_app, elem_of_nil. intros [Hx|[[]|Hx]]; apply Hq; rewrite !elem_of_app; auto.
  - intros id Hid. destruct (He id Hid) as (e & ? & Hok). exists e. split; [done|].
    rewrite !holders_app in *. by rewrite holders_other in Hok by congruence.
Qed.

Lemma inv_open p cs1 c cs2 p' id :
  pool_inv p (cs1 ++ [c] ++ cs2) → cl_pc c = Opening → openFresh p = (p', Ok id) →
  pool_inv p' (cs1 ++ [c <| cl_pc := Materializing id |>] ++ cs2).
Proof.
  intros [Hnd Hfr Hl Hq He] Hpc. unfold openFresh. destruct db_open as [db|?|] eqn:Hdb; [|done..]. intros [= <- <-].
  assert (Hnew : sp_next p ∉ sp_all p) by (intros Hin%Hfr; lia).
  assert (Hlease : ∀ x i, x ∈ cs1 ∨ x ∈ cs2 → leased (cl_pc x) = Some i → i ∈ sp_all p).
  { intros x i Hx. apply Hl. rewrite !elem_of_app. naive_solver. }
  split; cbn [sp_all sp_heap sp_next].
  - apply NoDup_app. split_and!; [done| |by apply NoDup_singleton].
    by intros x Hx ->%list_elem_of_singleton.
  - intros i [Hi%Hfr| ->%list_elem_of_singleton]%elem_of_app; lia.
  - intros x i Hx Hi. rewrite elem_of_app. rewrite !elem_of_app in Hx.
    destruct Hx as [Hx|[->%list_elem_of_singleton|Hx]]; [left; eauto| |left; eauto].
    right. simpl in Hi. simplify_eq. by left.
  - intros x. rewrite !elem_of_app. intros [Hx|[->%list_elem_of_singleton|Hx]]; simpl; eapply Hq;
      rewrite !elem_of_app; [by left|right; left; left|by right; right].
  - intros i Hi. rewrite !holders_app. destruct (decide (i = sp_next p)) as [->|Hne].
    + rewrite (holders_nil _ cs1), (holders_nil _ cs2), holders_self by (eauto || done).
      eexists. rewrite lookup_insert_eq. split; [done|]. split_and!; [done|done|]. right; right.
      split; [done|]. eexists. split; [done|]. split; [done|]. intros q. by apply open_empty.
    + rewrite lookup_insert_ne by done. apply elem_of_app in Hi as [Hi|Hi%list_elem_of_singleton]; [|done].
      destruct (He i Hi) as (e & ? & Hok). exists e. split; [done|]. rewrite !holders_app in Hok.
      rewrite holders_other in Hok by by rewrite Hpc. rewrite holders_other; [done|]. simpl. congruence.
Qed.

Definition idle (p : sqlEnginePool DB) : list nat := filter (λ id, refCount p id = 0) (sp_all p).

Lemma close_all_lookup (l : list nat) (h : gmap nat engine) i :
  foldr (alter close_engine) h l !! i = (if decide (i ∈ l) then close_engine else id) <$> h !! i.
Proof.
  induction l as [|k l IH]; simpl; [by destruct (h !! i)|].
  destruct (decide (k = i)) as [->|Hne].
  - rewrite lookup_alter_eq, IH. rewrite (decide_True (P := i ∈ i :: l)) by left.
    case_decide; destruct (h !! i); simpl; done.
  - rewrite lookup_alter_ne, IH by done. destruct (decide (i ∈ l)) as [Hi|Hi].
    + by rewrite decide_True by by right.
    + by rewrite decide_False by (intros [->|?]%elem_of_cons; done).
Qed.

Lemma filter_notin_perm {A} `{EqDecision A} (l ev rest : list A) :
  NoDup l → ev ++ rest ≡ₚ l → filter (λ x, x ∉ ev) l ≡ₚ rest.
Proof.
  intros Hnd Hp. rewrite <-Hp in *. rewrite filter_app.
  apply NoDup_app in Hnd as (_ & Hdis & _).
  assert (Hev : ∀ l', (∀ x, x ∈ l' → x ∈ ev) → filter (λ x, x ∉ ev) l' = []).
  { induction l' as [|x l' IH]; intros Hsub; [done|]. rewrite filter_cons_False.
    - apply IH. intros y Hy. apply Hsub. by right.
    - intros Hno. apply Hno, Hsub. left. }
  rewrite Hev by done. simpl. rewrite filter_all; [done|]. intros x Hx Hin. by eapply Hdis.
Qed.

Lemma evict_case p :
  (length (idle p) ≤ sqlEnginePoolMaxIdle)%nat ∧ evictOverCapLocked p = p ∨
  ∃ ev rest, ev ++ rest ≡ₚ idle p ∧ length rest = sqlEnginePoolMaxIdle ∧
    sp_all (evictOverCapLocked p) = filter (λ id, id ∉ ev) (sp_all p) ∧
    sp_next (evictOverCapLocked p) = sp_next p ∧
    ∀ i, i ∉ ev → sp_heap (evictOverCapLocked p) !! i = sp_heap p !! i.
Proof.
  unfold evictOverCapLocked. fold (idle p). case_bool_decide as Hlen; [by left|]. right.
  set (sorted := filter (λ id, signature p id = "") (idle p) ++ filter (λ id, signature p id ≠ "") (idle p)).
  assert (Hp : sorted ≡ₚ idle p).
  { unfold sorted. clear. induction (idle p) as [|x l IH]; [done|]. rewrite !filter_cons.
    destruct (decide (signature p x = "")) as [Hs|Hs].
    - rewrite decide_False by (intros Hn; by apply Hn). simpl. by constructor.
    - rewrite decide_True by done. rewrite <-Permutation_middle. by constructor. }
  exists (take (length (idle p) - sqlEnginePoolMaxIdle) sorted), (drop (length (idle p) - sqlEnginePoolMaxIdle) sorted).
  split_and!; simpl; try done.
  - by rewrite take_drop.
  - rewrite length_drop, Hp. unfold sqlEnginePoolMaxIdle in *. lia.
  - intros i Hi. fold (@close_engine DB). rewrite close_all_lookup, decide_False by done. by destruct (_ !! i).
Qed.

Lemma inv_evict p cs : pool_inv p cs → pool_inv (evictOverCapLocked p) cs.
Proof.
  intros Hinv. destruct (evict_case p) as [[_ ->]|(ev & rest & Hp & _ & Hall & Hnext & Hheap)]; [done|].
  assert (Hev : ∀ i, i ∈ ev → i ∈ sp_all p ∧ refCount p i = 0).
  { intros i Hi. assert (i ∈ idle p) as Hin by (rewrite <-Hp; apply elem_of_app; by left).
    by apply list_elem_of_filter in Hin as [? ?]. }
  destruct Hinv as [Hnd Hfr Hl Hq He] eqn:E. rename Hinv into Hinv'. assert (Hinv := Hinv'). clear E.
  split; rewrite ?Hall, ?Hnext; try done.
  - by apply NoDup_filter.
  - intros i [_ Hi]%list_elem_of_filter. by apply Hfr.
  - intros c i Hc Hi. apply list_elem_of_filter. split; [|by eapply Hl].
    intros (Hin & Hz)%Hev. destruct (refCount_zero _ _ _ Hinv Hin Hz) as (e & Hei & Hrc).
    destruct (idle_engine _ _ _ _ Hinv Hin Hei Hrc) as (_ & _ & Hno & _).
    assert (c ∈ holders i cs) as Hcc by (by apply list_elem_of_filter). rewrite Hno in Hcc.
    by apply elem_of_nil in Hcc.
  - intros i [Hi Hin]%list_elem_of_filter. rewrite Hheap by done. by apply He.
Qed.

Lemma evict_bounded p : NoDup (sp_all p) → (length (idle (evictOverCapLocked p)) ≤ sqlEnginePoolMaxIdle)%nat.
Proof.
  intros Hnd. destruct (evict_case p) as [[Hle ->]|(ev & rest & Hp & Hrest & Hall & _ & Hheap)]; [done|].
  assert (idle (evictOverCapLocked p) = filter (λ id, id ∉ ev) (idle p)) as ->.
  { unfold idle. rewrite Hall. clear -Hheap. induction (sp_all p) as [|x l IH]; [done|].
    rewrite (filter_cons _ x l), (filter_cons (λ id, refCount p id = 0) x l).
    destruct (decide (x ∉ ev)) as [Hx|Hx].
    - rewrite filter_cons.
      assert (refCount (evictOverCapLocked p) x = refCount p x) as -> by (unfold refCount; by rewrite Hheap).
      destruct (decide (refCount p x = 0)); [|done]. rewrite filter_cons_True by done. by f_equal.
    - destruct (decide (refCount p x = 0)); [|done]. by rewrite filter_cons_False. }
  rewrite (filter_notin_perm _ ev rest); [lia| |done]. by apply NoDup_filter.
Qed.

(** Giving up a lease: the engine loses the holder [c] and nothing else. *)
Lemma inv_give_up p cs1 c cs2 id e e' :
  pool_inv p (cs1 ++ [c] ++ cs2) → leased (cl_pc c) = Some id → sp_heap p !! id = Some e →
  pe_refCount e' = pe_refCount e - 1 → pe_closed e' = pe_closed e → pe_signature e' = pe_signature e →
  pe_db e' = pe_db e → pe_tables e' = pe_tables e →
  (reads e c ∨ (owns e c → blank e)) →
  pool_inv (put_engine id e' p) (cs1 ++ [] ++ cs2).
Proof.
  intros Hinv Hc He Hrc Hcl Hsig Hdb Htab Hwho.
  assert (Hin : c ∈ cs1 ++ [c] ++ cs2) by (rewrite !elem_of_app; right; left; left).
  apply (inv_step_at p _ cs1 [c] _ cs2 id); try done.
  - by eapply inv_leased.
  - intros. by apply put_engine_ne.
  - intros x i [->%list_elem_of_singleton|Hx] Hi; [congruence|by apply elem_of_nil in Hx].
  - by intros x ?%elem_of_nil.
  - intros e0 He0 Hok. assert (e0 = e) as -> by congruence. rewrite holders_self in Hok by done.
    eexists. split; [apply put_engine_lookup|]. destruct Hok as (Hcl' & Hrc' & Hcase).
    split_and!; [congruence|rewrite !length_app in *; simpl in *; lia|].
    destruct Hcase as [[Hw Hr]|[(_ & _ & Hnil)|(Hs & c' & Hc' & Ho)]].
    + left. destruct Hw as (Hne & Ht & R & HR). unfold warm, tracked, holds_exactly in *.
      rewrite Hsig, Hdb, Htab. split; [by eauto|]. rewrite !Forall_app in *. destruct Hr as (H1 & _ & H3).
      split_and!; [|done|]; eapply Forall_impl; try done; unfold reads; by rewrite Hsig.
    + by destruct (holders id cs1).
    + right; left. destruct (holders id cs1) as [|x l] eqn:E1; simplify_eq/=; [|by destruct l].
      split; [congruence|]. split; [|done]. destruct Hwho as [(Hsh & Hsig' & Hpc)|Hb].
      * exfalso. unfold owns in Ho. unfold cl_shared in Hsh. rewrite Hsig', Hs in Hsh. done.
      * destruct (Hb Ho) as [Hb1 Hb2]. split; [congruence|]. intros q. rewrite Hdb. apply Hb2.
Qed.

Lemma lease_step_inv p c p' mid cs1 cs2 :
  pool_inv p (cs1 ++ c :: cs2) → lease_step p c p' mid → pool_inv p' (cs1 ++ mid ++ cs2).
Proof.
  intros Hinv Hstep. change (pool_inv p (cs1 ++ [c] ++ cs2)) in Hinv.
  assert (Heng : ∀ id, leased (cl_pc c) = Some id → ∃ e, sp_heap p !! id = Some e ∧
            engine_ok e (holders id cs1 ++ [c] ++ holders id cs2)).
  { intros id Hid. destruct (inv_engines _ _ Hinv id) as (e & He & Hok).
    - eapply inv_leased; [done| |done]. rewrite !elem_of_app. right; left; left.
    - rewrite !holders_app, (holders_self id c) in Hok by done. eauto. }
  destruct Hstep as [p' out Hpc Ha|p' id Hpc Ho|p' m Hpc Ho|p' id Hpc Hr|p' id out Hpc Hr Hout|id Hpc|id e e' Hpc Hsh He Hst
    |id Hpc|id Hpc Hsh|p' id Hpc Hsh Hr|id Hpc].
  - by eapply inv_acquire.
  - by eapply inv_open.
  - unfold openFresh in Ho. destruct db_open; simplify_eq. eapply inv_gone; [done|by rewrite Hpc].
  - eapply inv_reset; [done|by left|done].
  - by eapply inv_materialize.
  - by apply inv_tag.
  - by eapply inv_statement.
  - by apply inv_done.
  - destruct (Heng id) as (e & He & Hok); [by rewrite Hpc|]. unfold releaseShared.
    rewrite (on_engine_put _ _ _ _ He).
    assert (Hinv' : pool_inv (put_engine id (leave_lease e) p) (cs1 ++ [] ++ cs2)).
    { assert (Hrc : 0 < pe_refCount e).
      { destruct Hok as (_ & -> & _). rewrite !length_app. simpl. lia. }
      unfold leave_lease. rewrite (proj2 (Z.ltb_lt _ _) Hrc).
      eapply inv_give_up; [done|by rewrite Hpc|done..|].
      destruct Hok as (_ & _ & [[_ Hr]|[(_ & _ & Hnil)|(_ & c' & Hc' & Ho)]]).
      - left. rewrite !Forall_app in Hr. destruct Hr as (_ & Hr & _). by rewrite Forall_singleton in Hr.
      - by destruct (holders id cs1).
      - right. unfold owns. rewrite Hpc. intros [Hn _]. congruence. }
    case_match; [by apply inv_evict|done].
  - eapply inv_reset; [done|right; by split_and!|done].
  - destruct (Heng id) as (e & He & Hok); [by rewrite Hpc|]. unfold releasePrivate_locked.
    rewrite (on_engine_put _ _ _ _ He). apply inv_evict.
    apply engine_owner in Hok as (Hcl & Hrc & Hs & _ & _ & Ho);
      [|intros (_ & _ & Hrd); by rewrite Hpc in Hrd].
    eapply inv_give_up; [done|by rewrite Hpc|done|simpl; lia|done..|].
    right. intros _. unfold owns in Ho. by rewrite Hpc in Ho.
Qed.

Lemma inv_arrive p cs c :
  pool_inv p cs → query_ok (cl_resolved c) → leased (cl_pc c) = None → pool_inv p (cs ++ [c]).
Proof.
  intros [Hnd Hfr Hl Hq He] HR Hc. split; try done.
  - intros x i [Hx| ->%list_elem_of_singleton]%elem_of_app Hi; [by eapply Hl|congruence].
  - intros x [Hx| ->%list_elem_of_singleton]%elem_of_app; [by eapply Hq|done].
  - intros i Hi. destruct (He i Hi) as (e & ? & Hok). exists e. split; [done|].
    by rewrite holders_app, holders_other, app_nil_r by congruence.
Qed.

Lemma pool_reachable_inv w : pool_reachable w → pool_inv (w_pool w) (w_clients w).
Proof.
  induction 1 as [|p cs ro R _ IH HR|p cs1 c cs2 p' mid _ IH Hstep]; simpl in *.
  - split; simpl; try (by intros ? ?%elem_of_nil || by intros ? ? ?%elem_of_nil). by apply NoDup_nil.
  - by apply inv_arrive.
  - by eapply lease_step_inv.
Qed.

(** ** What the pool guarantees *)

Lemma idle_mono p p' :
  sp_all p' = sp_all p → (∀ i, i ∈ sp_all p → refCount p' i = 0 → refCount p i = 0) →
  (length (idle p') ≤ length (idle p))%nat.
Proof.
  intros Hall Hz. unfold idle. rewrite Hall. clear Hall. induction (sp_all p) as [|x l IH]; [done|].
  rewrite !filter_cons. assert (IH' := IH (λ i Hi, Hz i (list_elem_of_further _ _ _ Hi))).
  pose proof (Hz x (list_elem_of_here _ _)). repeat case_decide; simpl; try lia; naive_solver.
Qed.

(** A step on one engine that ends with a holder of it leaves it in use. *)
Lemma idle_at p p' cs' id c' :
  pool_inv p' cs' → sp_all p' = sp_all p → (∀ i, i ≠ id → sp_heap p' !! i = sp_heap p !! i) →
  c' ∈ cs' → leased (cl_pc c') = Some id → (length (idle p') ≤ length (idle p))%nat.
Proof.
  intros Hinv Hall Hheap Hc Hid. apply idle_mono; [done|]. intros i Hi Hz.
  destruct (decide (i = id)) as [->|Hne].
  - destruct (refCount_zero p' cs' id) as (e & He & Hrc); [done|by rewrite Hall|done|].
    destruct (idle_engine p' cs' id e) as (_ & _ & Hno & _); [done|by rewrite Hall|done|done|].
    assert (c' ∈ holders id cs') as Hin by by apply list_elem_of_filter. rewrite Hno in Hin.
    by apply elem_of_nil in Hin.
  - unfold refCount in *. by rewrite Hheap in Hz.
Qed.

Lemma filter_ext_in {A} (P Q : A → Prop) `{∀ x, Decision (P x), ∀ x, Decision (Q x)} (l : list A) :
  (∀ x, x ∈ l → P x ↔ Q x) → filter P l = filter Q l.
Proof.
  induction l as [|x l IH]; intros Hl; [done|]. rewrite !filter_cons, IH by (intros; apply Hl; by right).
  pose proof (Hl x (list_elem_of_here _ _)). repeat case_decide; naive_solver.
Qed.

Lemma idle_open p cs : pool_inv p cs → idle (openFresh p).1 = idle p.
Proof.
  intros Hinv. unfold openFresh. destruct db_open as [db|?|]; [|done..]. unfold idle. simpl. rewrite filter_app.
  rewrite filter_cons_False by (unfold refCount; simpl; by rewrite lookup_insert_eq).
  rewrite filter_nil, app_nil_r. apply filter_ext_in. intros x Hx%(inv_fresh _ _ Hinv).
  unfold refCount. simpl. by rewrite lookup_insert_ne by lia.
Qed.

Lemma idle_bound_step p c p' mid cs1 cs2 :
  pool_inv p (cs1 ++ c :: cs2) → lease_step p c p' mid →
  (length (idle p) ≤ sqlEnginePoolMaxIdle)%nat → (length (idle p') ≤ sqlEnginePoolMaxIdle)%nat.
Proof.
  intros Hinv Hstep Hb. pose proof (lease_step_inv _ _ _ _ _ _ Hinv Hstep) as Hinv'.
  assert (Hat : ∀ id c' (q : sqlEnginePool DB), p' = q → mid = [c'] → leased (cl_pc c') = Some id → sp_all q = sp_all p →
    (∀ i, i ≠ id → sp_heap q !! i = sp_heap p !! i) → (length (idle p') ≤ sqlEnginePoolMaxIdle)%nat).
  { intros id c' q <- -> Hid Hall Hheap. etrans; [|exact Hb]. eapply idle_at; try done.
    rewrite !elem_of_app. right; left; left. }
  assert (Hon : ∀ id (f : engine → engine) i, i ≠ id → sp_heap (on_engine id f p) !! i = sp_heap p !! i).
  { intros. by apply lookup_alter_ne. }
  destruct Hstep as [p' out Hpc Ha|p' id Hpc Ho|p' m Hpc Ho|p' id Hpc Hr|p' id out Hpc Hr Hout|id Hpc|id e e' Hpc Hsh He Hst
    |id Hpc|id Hpc Hsh|p' id Hpc Hsh Hr|id Hpc].
  - assert (p' = p ∨ ∃ id f, p' = on_engine id f p ∧ leased (after_acquire out) = Some id)
      as [->|(id & f & -> & Hid)]; [|done|by eapply (Hat id); try reflexivity; eauto].
    unfold acquire_locked, acquirePrivate_locked, acquireShared_locked in Ha.
    repeat case_match; simplify_eq; try (by left); right; eexists _, _; split; try reflexivity;
      simpl; try done; by case_bool_decide.
  - pose proof (idle_open _ _ Hinv) as Hopen. rewrite Ho in Hopen. simpl in Hopen. by rewrite Hopen.
  - unfold openFresh in Ho. destruct db_open; by simplify_eq.
  - apply run_engine_inv in Hr as (e & e' & He & _ & ->). eapply (Hat id); try reflexivity.
    intros. by apply put_engine_ne.
  - apply run_engine_inv in Hr as (e & e' & He & _ & ->). eapply (Hat id); try reflexivity;
      [by destruct out as [[]|?|], (cl_shared c)|]. intros. by apply put_engine_ne.
  - eapply (Hat id); try reflexivity. by apply Hon.
  - eapply (Hat id); try reflexivity; [by rewrite Hpc|]. intros. by apply put_engine_ne.
  - done.
  - unfold releaseShared in *. case_match; bools.
    + apply evict_bounded. apply (inv_nodup _ _ Hinv).
    + etrans; [|exact Hb]. apply idle_mono; [done|]. intros i Hi Hz. destruct (decide (i = id)) as [->|Hne]; [done|].
      unfold refCount in *. by rewrite Hon in Hz.
  - apply run_engine_inv in Hr as (e & e' & He & _ & ->). eapply (Hat id); try reflexivity.
    intros. by apply put_engine_ne.
  - apply evict_bounded. apply (inv_nodup _ _ Hinv).
Qed.

Lemma reachable_idle w :
  pool_reachable w → (length (idle (w_pool w)) ≤ sqlEnginePoolMaxIdle)%nat.
Proof.
  induction 1 as [|p cs ro R _ IH HR|p cs1 c cs2 p' mid Hr IH Hstep]; simpl in *; [lia|done|].
  apply pool_reachable_inv in Hr. by eapply idle_bound_step.
Qed.

(** Two resolved sets with the same table versions are held by the same engines. *)
Lemma holds_exactly_perm e R R' :
  query_ok R → query_ok R' → forallb rt_hasVersion R = true → forallb rt_hasVersion R' = true →
  cache_ref <$> R ≡ₚ cache_ref <$> R' → holds_exactly e R → holds_exactly e R'.
Proof.
  intros HR HR' Hv Hv' Hp [H1 H2].
  assert (Hmatch : ∀ L L', query_ok L → query_ok L' → forallb rt_hasVersion L = true →
    forallb rt_hasVersion L' = true → cache_ref <$> L ≡ₚ cache_ref <$> L' → ∀ r, r ∈ L →
    ∃ r', r' ∈ L' ∧ qualified r' = qualified r ∧ (rt_fields r', rt_rows r') = (rt_fields r, rt_rows r)).
  { intros L L' (_ & _ & HL) (_ & _ & HL') HvL HvL' HpL r Hr.
    assert (cache_ref r ∈ cache_ref <$> L') as (r' & E & Hr')%list_elem_of_fmap_1.
    { rewrite <-HpL. by apply list_elem_of_fmap_2. }
    exists r'. split; [done|]. rewrite forallb_forall in HvL, HvL'.
    destruct (HL r Hr) as [_ ->]; [by apply HvL, list_elem_of_In|].
    destruct (HL' r' Hr') as [_ ->]; [by apply HvL', list_elem_of_In|].
    unfold qualified, cache_ref in *. by simplify_eq/=; destruct r, r'; simplify_eq/=. }
  split.
  - intros r Hr. destruct (Hmatch R' R HR' HR Hv' Hv (symmetry Hp) r Hr) as (r' & Hr' & Eq & Ec).
    rewrite <-Eq, <-Ec. by apply H1.
  - intros q Hq. destruct (H2 q Hq) as (r & Hr & ->).
    destruct (Hmatch R R' HR HR' Hv Hv' Hp r Hr) as (r' & Hr' & <- & _). by exists r'.
Qed.

Lemma lookup_split (cs : list client) i c : cs !! i = Some c → ∃ cs1 cs2, cs = cs1 ++ c :: cs2 ∧ length cs1 = i.
Proof.
  intros Hi. exists (take i cs), (drop (S i) cs). split; [by rewrite take_drop_middle|].
  apply lookup_lt_Some in Hi. rewrite length_take. lia.
Qed.


(** The pool keeps its books: in every interleaving an engine's reference
    count is the number of goroutines that lease it and no leased engine is
    closed; a goroutine that may write has its engine to itself; and at most
    eight idle engines are kept. *)
Theorem pool_leases_exclusive (p : sqlEnginePool DB) (cs : list client) :
  pool_reachable (World p cs) →
  (∀ i c id, cs !! i = Some c → leased (cl_pc c) = Some id →
     (∃ e, sp_heap p !! id = Some e ∧ pe_closed e = false ∧
           pe_refCount e = Z.of_nat (length (holders id cs))) ∧
     (cl_shared c = false → ∀ k c', cs !! k = Some c' → leased (cl_pc c') = Some id → k = i)) ∧
  (length (idle p) ≤ sqlEnginePoolMaxIdle)%nat.
Proof.
  intros Hw. split; [|apply (reachable_idle _ Hw)]. apply pool_reachable_inv in Hw. simpl in Hw.
  intros i c id Hi Hid. destruct (inv_engines _ _ Hw id) as (e & He & Hok).
  { eapply inv_leased; [done| |done]. by eapply list_elem_of_lookup_2. }
  split; [exists e; split_and!; [done|apply Hok..]|]. intros Hsh k c' Hk Hid'.
  apply lookup_split in Hi as (cs1 & cs2 & -> & <-).
  change (c :: cs2) with ([c] ++ cs2) in Hok. rewrite !holders_app, (holders_self id c) in Hok by done.
  apply engine_owner in Hok as (_ & _ & _ & H1 & H2 & _); [|intros [? _]; congruence].
  assert (Hno : ∀ l, holders id l = [] → c' ∉ l).
  { intros l Hl Hin. assert (c' ∈ holders id l) as Hx by by apply list_elem_of_filter.
    rewrite Hl in Hx. by apply elem_of_nil in Hx. }
  apply lookup_app_Some in Hk as [Hk|[Hle Hk]].
  - exfalso. eapply (Hno cs1 H1). by eapply list_elem_of_lookup_2.
  - destruct (k - length cs1)%nat as [|n] eqn:En; [lia|]. simpl in Hk.
    exfalso. eapply (Hno cs2 H2). by eapply list_elem_of_lookup_2.
Qed.
End Run.

(** ** A concrete engine

    A map of tables.  Creating a table that exists fails, and so does loading a
    row with a cell its INT64 column cannot take, after the table was created:
    [materializeTable] does not undo its [CREATE TABLE]. *)

Definition cell_fits (f : tableField) (cell : string) : bool :=
  let '(v, null) := loadStoredCell cell in
  null || String.eqb v "" || negb (String.eqb (Type_ f) "INT64") || bool_decide (is_Some (parse_int v)).

Definition row_fits (sch : schema) (r : row) : bool :=
  forallb (λ fc, cell_fits fc.1 fc.2) (zip sch r).

Definition mapDB : Type := gmap string (schema * list row).

#[local] Instance map_engine : SqlEngine mapDB := {
  db_open := Ok ∅;
  db_exec db s :=
    (if has_prefix s "DROP TABLE IF EXISTS " then delete (trim_prefix s "DROP TABLE IF EXISTS ") db else db, Ok tt);
  db_load db q sch rows :=
    match db !! q with
    | Some _ => (db, Err "table already exists")
    | None =>
        if forallb (row_fits sch) rows then (<[q := (sch, rows)]> db, Ok tt)
        else (<[q := (sch, [])]> db, Err "invalid syntax")
    end;
  db_table db q := db !! q }.

#[local] Instance map_engine_laws : SqlEngineLaws mapDB.
Proof.
  split; simpl.
  - by intros db q [= <-].
  - intros db q db'. rewrite has_prefix_app, trim_prefix_app. intros [= <-] q'.
    case_decide as E; [subst; apply lookup_delete_eq|by apply lookup_delete_ne].
  - intros db s db' r [= <- _] q. done.
  - intros db q sch rows db'. destruct (db !! q); [done|]. case_match; [|done]. intros [= <-] q'.
    case_decide as E; [subst; apply lookup_insert_eq|by apply lookup_insert_ne].
  - intros db q sch rows db' r. destruct (db !! q); [by intros [= <- _]|].
    case_match; intros [= <- _] q' Hne; by apply lookup_insert_ne.
Qed.

Definition number_schema : schema := [col "n" "INT64"].
Definition demo_content (d t : string) (v : Z) : schema * list row := (number_schema, [["1"]; ["2"]]).
Definition numbers (rows : list row) : resolvedTable := ResolvedTable "d" "t" number_schema rows true 4 true.
Definition demo_query : list resolvedTable := [numbers [["1"]; ["2"]]].

Definition warm_pool : sqlEnginePool mapDB :=
  SqlEnginePool [0%nat]
    {[0%nat := PooledEngine {["`d`.`t`" := (number_schema, [["1"]; ["2"]])]} {["d"]} {["d.t" := 4]} "d.t@4" 1 false]} 1.

Definition reader (pc : lease_pc) : client := Client true demo_query pc.

Lemma demo_query_ok : query_ok demo_content demo_query.
Proof.
  split_and!.
  - repeat constructor.
  - apply NoDup_singleton.
  - by intros r ->%list_elem_of_singleton.
Qed.

Lemma warm_reachable : pool_reachable demo_content (World warm_pool [reader (Running 0)]).
Proof.
  assert (∃ p, pool_reachable demo_content (World p [reader (Tagging 0)]) ∧
                      tagSignature p 0 (cl_sig (reader (Tagging 0))) = warm_pool) as (p & Hp & Ep).
  { eexists. split.
    - eapply (pool_progress _ _ [] (reader (Materializing 0)) [] _ [reader (Tagging 0)]).
      + eapply (pool_progress _ newSQLEnginePool [] (reader Opening) [] _ [reader (Materializing 0)]).
        * eapply (pool_progress _ newSQLEnginePool [] (reader Acquiring) [] _ [reader Opening]).
          -- apply (pool_arrive _ newSQLEnginePool [] true demo_query); [constructor|apply demo_query_ok].
          -- exact (step_acquire newSQLEnginePool (reader Acquiring) _ LeaseOpen eq_refl eq_refl).
        * exact (step_open newSQLEnginePool (reader Opening) _ 0 eq_refl eq_refl).
      + refine (step_materialize _ (reader (Materializing 0)) _ 0 (Ok tt) eq_refl _ (λ _, eq_refl)).
        vm_compute. reflexivity.
    - vm_compute. reflexivity. }
  rewrite <-Ep. eapply (pool_progress _ p [] (reader (Tagging 0)) [] _ [reader (Running 0)]); [done|].
  exact (step_tag p (reader (Tagging 0)) 0 eq_refl).
Qed.

Definition joined : sqlEnginePool mapDB := (acquire_locked warm_pool "d.t@4").1.

Lemma joined_reachable : pool_reachable demo_content (World joined [reader (Running 0); reader (Running 0)]).
Proof.
  eapply (pool_progress _ warm_pool [reader (Running 0)] (reader Acquiring) [] _ [reader (Running 0)]).
  - apply (pool_arrive _ warm_pool [reader (Running 0)]); [apply warm_reachable|apply demo_query_ok].
  - refine (step_acquire warm_pool (reader Acquiring) _ (LeaseHit 0) eq_refl _). vm_compute. reflexivity.
Qed.


Lemma pool_leases_exclusive_witness :
  (length (idle joined) ≤ sqlEnginePoolMaxIdle)%nat ∧
  ∃ e, sp_heap joined !! 0%nat = Some e ∧ pe_refCount e = 2.
Proof.
  destruct (pool_leases_exclusive demo_content joined [reader (Running 0); reader (Running 0)] joined_reachable)
    as [Hl Hb].
  split; [exact Hb|]. destruct (Hl 0%nat (reader (Running 0)) 0%nat eq_refl eq_refl) as [(e & He & _ & Hr) _].
  exists e. split; [exact He|exact Hr].
Defined.

(** ** Where the guarantee ends *)

Definition tables_of (p : sqlEnginePool mapDB) (id : nat) (q : string) : option (schema * list row) :=
  sp_heap p !! id ≫= λ e, db_table (pe_db e) q.

(** A signature names dataset, table and version but not the project, and
    versions restart when a table is created again.  After a query of one
    project, a query of another project whose table has the same name and
    version is answered from the first project's rows. *)
Theorem signature_ignores_project :
  let '(p1, r1) := openMaterializedSQLDatabase newSQLEnginePool true [numbers [["1"]; ["2"]]] in
  let '(p2, r2) := openMaterializedSQLDatabase (releaseFunc p1 0 true) true [numbers [["7"]]] in
  r1 = Ok (0%nat, true) ∧ r2 = Ok (0%nat, true) ∧
  tables_of p2 0 "`d`.`t`" = Some (number_schema, [["1"]; ["2"]]).
Proof. vm_compute. split_and!; reflexivity. Qed.

(** A shared engine whose materialization failed goes back to the pool
    blank by its signature but with the failed table marked as present.  A row
    the engine refuses makes the first query fail; the same query again
    succeeds, on an empty table. *)
Theorem failed_materialization_poisons :
  let '(p1, r1) := openMaterializedSQLDatabase newSQLEnginePool true [numbers [["1"]; ["x"]]] in
  let '(p2, r2) := openMaterializedSQLDatabase p1 true [numbers [["1"]; ["x"]]] in
  r1 = Err "invalid syntax" ∧ r2 = Ok (0%nat, true) ∧ tables_of p2 0 "`d`.`t`" = Some (number_schema, []).
Proof. vm_compute. split_and!; reflexivity. Qed.
