(* ===== verification/SqlText.v ===== *)
(** * Rewriting query text for the engine (sql_engine.go, sql_statements.go)

    The textual steps between a client's query and the statement the embedded
    engine runs: references lose their project, the ingestion-time
    pseudocolumns get their internal names and are hidden from [SELECT *], an
    INSERT gets its column list, and the subquery of a MERGE is cut out.  The
    scanners run on the rest of the text; their fuel is its length. *)

From S2P Require Import Prelude GoStrings Regexp SqlPatterns GoTime Cells TableModel Partitioning SqlStatements EnginePool.
From Stdlib Require Import Ascii.

(** ** References without their project *)

(** [regexp.QuoteMeta] makes the project a literal; it is matched without case. *)
Definition stripProjectPrefix (queryText projectID : string) : string :=
  if bool_decide (projectID = "") then queryText
  else
    let queryText := replace_all (wholeQuoted projectID) (λ m, sub m 1) queryText in
    let queryText := replace_all (perSegmentQuoted projectID) (λ m, sub m 1) queryText in
    replace_all (bareProject projectID) (λ m, sub m 1) queryText.

(** ** Scanning *)

Definition isSQLIdentifierByte : ascii → bool := word_char.

(** [strings.Index] as the text before and after the first occurrence. *)
Fixpoint cut_at (sub s : string) : option (string * string) :=
  if has_prefix s sub then Some ("", str_drop (String.length sub) s)
  else match s with
       | EmptyString => None
       | String c r => '(a, b) ← cut_at sub r; Some (String c a, b)
       end.

(** The rest of a literal up to its closing quote, a doubled quote standing for
    one; the text after it. *)
Fixpoint scan_quoted (q : ascii) (s : string) : string * string :=
  match s with
  | EmptyString => ("", "")
  | String c r =>
      if Ascii.eqb c q then
        match r with
        | String d r' =>
            if Ascii.eqb d q then let '(a, b) := scan_quoted q r' in (String c (String d a), b)
            else (String c "", r)
        | EmptyString => (String c "", "")
        end
      else let '(a, b) := scan_quoted q r in (String c a, b)
  end.

Fixpoint span_ident (s : string) : string * string :=
  match s with
  | String c r => if isSQLIdentifierByte c then let '(a, b) := span_ident r in (String c a, b) else ("", s)
  | EmptyString => ("", "")
  end.

Definition squote : ascii := "039"%char.
Definition dquote : ascii := "034"%char.
Definition is_quote (c : ascii) : bool := Ascii.eqb c squote || Ascii.eqb c dquote.
Definition is_any_quote (c : ascii) : bool := is_quote c || Ascii.eqb c backtick.

(** ** Pseudocolumns *)

Definition quoted_pseudocolumn (identifier : string) : string :=
  let u := to_upper identifier in
  if bool_decide (u = "_PARTITIONTIME") then quoteIdent ingestionPartitionTimeColumn
  else if bool_decide (u = "_PARTITIONDATE") then quoteIdent ingestionPartitionDateColumn
  else String backtick (identifier +:+ String backtick "").
Definition bare_pseudocolumn (token : string) : string :=
  let u := to_upper token in
  if bool_decide (u = "_PARTITIONTIME") then ingestionPartitionTimeColumn
  else if bool_decide (u = "_PARTITIONDATE") then ingestionPartitionDateColumn
  else token.

Fixpoint rewrite_from (fuel : nat) (s : string) : string :=
  match fuel with
  | O => s
  | S fuel =>
      match s with
      | EmptyString => ""
      | String c r =>
          if has_prefix s "--" then
            match cut_at (String "010" "") (str_drop 2 s) with
            | None => s
            | Some (a, b) => "--" +:+ a +:+ String "010" (rewrite_from fuel b)
            end
          else if has_prefix s "/*" then
            match cut_at "*/" (str_drop 2 s) with
            | None => s
            | Some (a, b) => "/*" +:+ a +:+ "*/" +:+ rewrite_from fuel b
            end
          else if is_quote c then
            let '(a, b) := scan_quoted c r in String c (a +:+ rewrite_from fuel b)
          else if Ascii.eqb c backtick then
            match cut_at (String backtick "") r with
            | None => s
            | Some (identifier, b) => quoted_pseudocolumn identifier +:+ rewrite_from fuel b
            end
          else if isSQLIdentifierByte c then
            let '(token, b) := span_ident s in bare_pseudocolumn token +:+ rewrite_from fuel b
          else String c (rewrite_from fuel r)
      end
  end.
Definition rewriteIngestionPseudocolumns (queryText : string) : string :=
  rewrite_from (String.length queryText) queryText.

(** ** Keywords, parentheses and lists outside of literals *)

(** The text before the matching parenthesis and after it; [s] starts at the
    opening one with depth 0. *)
Fixpoint matching_paren (fuel : nat) (depth : Z) (s : string) : option (string * string) :=
  match fuel, s with
  | S fuel, String c r =>
      if is_any_quote c then
        let '(a, b) := scan_quoted c r in
        '(x, y) ← matching_paren fuel depth b; Some (String c (a +:+ x), y)
      else if Ascii.eqb c "(" then '(x, y) ← matching_paren fuel (depth + 1) r; Some (String c x, y)
      else if Ascii.eqb c ")" then
        if depth - 1 =? 0 then Some ("", r)
        else '(x, y) ← matching_paren fuel (depth - 1) r; Some (String c x, y)
      else '(x, y) ← matching_paren fuel depth r; Some (String c x, y)
  | _, _ => None
  end.
Definition findMatchingParen (s : string) : option (string * string) := matching_paren (String.length s) 0 s.

(** The text before the first occurrence of the keyword outside of parentheses,
    and the text that starts with it. *)
Fixpoint top_level_keyword (fuel : nat) (depth : nat) (keyword s : string) : option (string * string) :=
  match fuel, s with
  | S fuel, String c r =>
      if is_any_quote c then
        let '(a, b) := scan_quoted c r in
        '(x, y) ← top_level_keyword fuel depth keyword b; Some (String c (a +:+ x), y)
      else if Ascii.eqb c "(" then '(x, y) ← top_level_keyword fuel (S depth) keyword r; Some (String c x, y)
      else if Ascii.eqb c ")" then '(x, y) ← top_level_keyword fuel (pred depth) keyword r; Some (String c x, y)
      else if (depth =? 0)%nat && isSQLIdentifierByte c then
        let '(token, b) := span_ident s in
        if equal_fold token keyword then Some ("", s)
        else '(x, y) ← top_level_keyword fuel depth keyword b; Some (token +:+ x, y)
      else '(x, y) ← top_level_keyword fuel depth keyword r; Some (String c x, y)
  | _, _ => None
  end.
Definition findTopLevelSQLKeyword (s keyword : string) : option (string * string) :=
  top_level_keyword (String.length s) 0 keyword s.

(** [cur] is the item being read. *)
Fixpoint split_list (fuel : nat) (depth : nat) (cur s : string) : list string :=
  match fuel, s with
  | S fuel, String c r =>
      if is_any_quote c then
        let '(a, b) := scan_quoted c r in split_list fuel depth (cur +:+ String c a) b
      else if Ascii.eqb c "(" then split_list fuel (S depth) (cur +:+ String c "") r
      else if Ascii.eqb c ")" then split_list fuel (pred depth) (cur +:+ String c "") r
      else if Ascii.eqb c "," && (depth =? 0)%nat then cur :: split_list fuel depth "" r
      else split_list fuel depth (cur +:+ String c "") r
  | _, _ => [cur]
  end.
Definition splitTopLevelSQLList (value : string) : list string := split_list (S (String.length value)) 0 "" value.

(** ** Hiding the pseudocolumns *)

Definition directPseudocolumnProjectionCounts (queryText : string) : Z * Z :=
  match cut_at "SELECT" (to_upper queryText) with
  | None => (0, 0)
  | Some (before, _) =>
      let rest := str_drop (String.length before + 6) queryText in
      let projection := trim_space (match findTopLevelSQLKeyword rest "FROM" with
                                    | Some (p, _) => p | None => rest end) in
      let projection := trim_space (trim_prefix (to_upper projection) "DISTINCT") in
      let items := trim_space <$> splitTopLevelSQLList projection in
      let time := filter (λ i, match_string directPartitionTimeProjection i = true) items in
      let date := filter (λ i, match_string directPartitionTimeProjection i = false ∧
                               match_string directPartitionDateProjection i = true) items in
      (Z.of_nat (length time), Z.of_nat (length date))
  end.

(** The kept columns with their indexes. *)
Fixpoint kept_columns (i : nat) (keepTime keepDate : Z) (sch : schema) : list (nat * tableField) :=
  match sch with
  | [] => []
  | f :: sch =>
      let name := to_lower (Name f) in
      if bool_decide (name = ingestionPartitionTimeColumn) then
        if keepTime <=? 0 then kept_columns (S i) keepTime keepDate sch
        else (i, TableField "_PARTITIONTIME" (Type_ f) (Mode f) (Fields f)) ::
             kept_columns (S i) (keepTime - 1) keepDate sch
      else if bool_decide (name = ingestionPartitionDateColumn) then
        if keepDate <=? 0 then kept_columns (S i) keepTime keepDate sch
        else (i, TableField "_PARTITIONDATE" (Type_ f) (Mode f) (Fields f)) ::
             kept_columns (S i) keepTime (keepDate - 1) sch
      else (i, f) :: kept_columns (S i) keepTime keepDate sch
  end.

Definition hideWildcardIngestionPseudocolumns (queryText : string) (sch : schema) (rows : list row)
    : schema * list row :=
  let '(keepTime, keepDate) := directPseudocolumnProjectionCounts queryText in
  let kept := kept_columns 0 keepTime keepDate sch in
  if (length kept =? length sch)%nat then (kept.*2, rows)
  else (kept.*2, (λ r, cell_at r <$> kept.*1) <$> rows).

(** ** INSERT and MERGE *)

Definition writes_pseudocolumns (queryText : string) : bool :=
  match_string ingestionPseudocolumnWritePattern queryText ||
  match_string ingestionPseudocolumnInsertPattern queryText.

Definition addImplicitInsertColumns (queryText : string) (sch : schema) : string :=
  match find insertTargetPattern queryText with
  | None => queryText
  | Some z =>
      let boundary := sub_end z 1 in
      let tail := str_drop boundary queryText in
      if (String.length (sub z 1) =? 0)%nat || has_prefix (trim_space tail) "(" then queryText
      else str_take boundary queryText +:+ " (" +:+
           join ", " ((λ f, quoteIdent (Name f)) <$> sch) +:+ ")" +:+ tail
  end.

(** [strings.TrimLeft(_, " \t\r\n")] *)
Fixpoint trim_blanks (s : string) : string :=
  match s with
  | String c r =>
      if Ascii.eqb c " " || Ascii.eqb c "009" || Ascii.eqb c "013" || Ascii.eqb c "010" then trim_blanks r else s
  | EmptyString => ""
  end.

(** The text of a MERGE before its USING subquery, the subquery, and the text
    after it; [None] when there is no such subquery. *)
Definition merge_source (engineStatement : string) : option (string * string * string) :=
  '(before, at_using) ← findTopLevelSQLKeyword engineStatement "USING";
  let after := str_drop 5 at_using in
  let trimmed := trim_blanks after in
  if has_prefix trimmed "(" then
    '(inside, rest) ← findMatchingParen trimmed;
    let subquery := trim_space (str_drop 1 inside) in
    let upper := to_upper subquery in
    if has_prefix upper "SELECT" || has_prefix upper "WITH"
    then Some (str_take (String.length engineStatement - String.length trimmed) engineStatement, subquery, rest)
    else None
  else None.

(** The rewritten statement with the table that has to be created for it;
    [counter] is the value the merge counter was advanced to. *)
Definition rewriteMergeUsingSubquery (datasetID engineStatement : string) (counter : Z)
    : string * option (string * string) :=
  match merge_source engineStatement with
  | None => (engineStatement, None)
  | Some (before, subquery, rest) =>
      let qualified := quoteIdent datasetID +:+ "." +:+
                       quoteIdent ("__locaql_merge_src_" +:+ format_int counter) in
      (before +:+ qualified +:+ rest,
       Some ("CREATE TABLE " +:+ qualified +:+ " AS (" +:+ subquery +:+ ")", "DROP TABLE " +:+ qualified))
  end.
