(* ===== verification/QueryParams.v ===== *)
(** * Query parameters (query_parameters.go)

    From the raw JSON of [queryParameters] to the values bound to the engine's
    placeholders.  [GoFloats] stands for Go's float64: its values, its parser
    and the text [%v] gives to a JSON number that is not an integer of up to 53
    bits (those are printed exactly here). *)

From S2P Require Import Prelude GoStrings GoJson Pagination StorageWrite Jobs.
From Stdlib Require Import Ascii.

Class GoFloats := {
  float64 : Type;
  parse_float : string → option float64;
  sprint_float : string → string;
}.

(** ** Standard library *)

Definition parse_bool (s : string) : option bool :=
  if bool_decide (s ∈ ["1"; "t"; "T"; "TRUE"; "true"; "True"]) then Some true
  else if bool_decide (s ∈ ["0"; "f"; "F"; "FALSE"; "false"; "False"]) then Some false
  else None.

(** base64.StdEncoding's decoder: line breaks are skipped, the last quantum is
    padded, trailing bits are ignored. *)
Definition b64_std_val (c : ascii) : option Z :=
  if bool_decide (c = "+"%char) then Some 62
  else if bool_decide (c = "/"%char) then Some 63
  else if bool_decide (c = "-"%char) || bool_decide (c = "_"%char) then None
  else b64_val c.

Fixpoint without_breaks (s : string) : list ascii :=
  match s with
  | EmptyString => []
  | String c r =>
      if bool_decide (c = "010"%char) || bool_decide (c = "013"%char) then without_breaks r
      else c :: without_breaks r
  end.

Fixpoint b64_std_quads (l : list ascii) : option string :=
  match l with
  | [] => Some ""
  | a :: b :: c :: d :: r =>
      x ← b64_std_val a; y ← b64_std_val b;
      let first := char_of (x * 4 + y `div` 16) in
      if bool_decide (c = "="%char) then
        if bool_decide (d = "="%char) && bool_decide (r = []) then Some (String first "") else None
      else
        z ← b64_std_val c;
        let second := char_of ((y `mod` 16) * 16 + z `div` 4) in
        if bool_decide (d = "="%char) then
          if bool_decide (r = []) then Some (String first (String second "")) else None
        else
          w ← b64_std_val d; t ← b64_std_quads r;
          Some (String first (String second (String (char_of ((z `mod` 4) * 64 + w)) t)))
  | _ => None
  end.

Definition b64_std_decode (s : string) : option string := b64_std_quads (without_breaks s).

Fixpoint strip_zeros (digits : list ascii) : list ascii :=
  match digits with
  | [] => []
  | c :: r => match strip_zeros r with
              | [] => if bool_decide (c = "0"%char) then [] else [c]
              | r => c :: r
              end
  end.

(** [%v] of a float64 that is an integer: from a million on, the shortest
    digits with an exponent. *)
Definition sprint_integer (n : Z) : string :=
  if Z.abs n <? 1000000 then format_int n
  else
    let digits := String.list_ascii_of_string (format_int (Z.abs n)) in
    let exponent := Z.of_nat (length digits) - 1 in
    (if n <? 0 then "-" else "") +:+
    match strip_zeros digits with
    | [] => ""
    | c :: [] => String c ""
    | c :: r => String c (String "." (String.string_of_list_ascii r))
    end +:+ "e+" +:+ (if exponent <? 10 then "0" else "") +:+ format_int exponent.

Section Parameters.
Context `{GoFloats}.

(** A number literal of a JSON document as [%v] prints it. *)
Definition sprint_number (lit : string) : string :=
  match parse_int lit with
  | Some n => if (Z.abs n <=? 9007199254740992) && negb (bool_decide (lit = "-0"))
              then sprint_integer n else sprint_float lit
  | None => sprint_float lit
  end.

(** ** Parameters of a request *)

Definition scalarQueryParameterTypes : list string :=
  ["STRING"; "INT64"; "FLOAT64"; "BOOL"; "BOOLEAN"; "BYTES"; "DATE"; "DATETIME"; "TIME"; "TIMESTAMP"].

Inductive paramErr :=
| ExpectedObject (i : nat)
| MissingType (i : nat)
| UnsupportedType (i : nat) (typeName : string)
| InvalidValue (i : nat) (typeName value : string)
| NameRequired (i : nat).

Definition as_object (v : json) : list (string * json) := match v with JObj ms => ms | _ => [] end.
Definition as_string (v : json) : string := match v with JStr s => s | _ => "" end.

(** [fmt.Sprintf("%v", v)] of a decoded value; of arrays and objects, which no
    client sends here, only that there is a text. *)
Definition sprint_value (nested : json → string) (v : json) : string :=
  match v with
  | JStr s => s
  | JBool b => if b then "true" else "false"
  | JNum lit => sprint_number lit
  | _ => nested v
  end.

Variable nested : json → string.

Definition parse_parameter (i : nat) (rawParam : json) : paramErr + storedQueryParameter :=
  match rawParam with
  | JObj paramMap =>
      let name := as_string (obj_get paramMap "name") in
      let typeMap := as_object (obj_get paramMap "parameterType") in
      let typeName := to_upper (trim_space (as_string (obj_get typeMap "type"))) in
      if bool_decide (typeName = "") then inl (MissingType i)
      else if bool_decide (typeName ∈ scalarQueryParameterTypes) then
        match obj_get (as_object (obj_get paramMap "parameterValue")) "value" with
        | JNull => inr (QueryParameter name typeName "" true)
        | v => inr (QueryParameter name typeName (sprint_value nested v) false)
        end
      else inl (UnsupportedType i typeName)
  | _ => inl (ExpectedObject i)
  end.

Fixpoint parse_parameters (i : nat) (rawParams : list json) : paramErr + list storedQueryParameter :=
  match rawParams with
  | [] => inr []
  | raw :: rest =>
      match parse_parameter i raw with
      | inl e => inl e
      | inr p => match parse_parameters (S i) rest with inl e => inl e | inr ps => inr (p :: ps) end
      end
  end.

(** [mode] inferred from the first parameter when it is empty. *)
Definition parameter_mode (mode : string) (params : list storedQueryParameter) : string :=
  let mode :=
    if bool_decide (mode = "") then
      match params with
      | p :: _ => if bool_decide (qp_Name p ≠ "") then "NAMED" else "POSITIONAL"
      | [] => mode
      end
    else mode in
  to_upper (trim_space mode).

Definition parseQueryParametersFromRaw (mode : string) (rawParams : list json)
    : paramErr + (list storedQueryParameter * string) :=
  match rawParams with
  | [] => inr ([], mode)
  | _ => match parse_parameters 0 rawParams with
         | inl e => inl e
         | inr params => inr (params, parameter_mode mode params)
         end
  end.

(** ** Binding *)

Inductive queryValue :=
| VNull
| VInt64 (z : Z)
| VFloat64 (f : float64)
| VBool (b : bool)
| VBytes (s : string)
| VString (s : string).

(** [sql.Named(name, v)] or a positional value. *)
Record queryArg := QueryArg { qa_name : option string; qa_value : queryValue }.

Definition queryParameterValueForType (p : storedQueryParameter) : option queryValue :=
  if qp_IsNull p then Some VNull
  else if bool_decide (qp_Type p = "INT64") then VInt64 <$> parse_int (qp_Value p)
  else if bool_decide (qp_Type p = "FLOAT64") then VFloat64 <$> parse_float (qp_Value p)
  else if bool_decide (qp_Type p ∈ ["BOOL"; "BOOLEAN"]) then VBool <$> parse_bool (qp_Value p)
  else if bool_decide (qp_Type p = "BYTES") then VBytes <$> b64_std_decode (qp_Value p)
  else Some (VString (qp_Value p)).

Definition bind_parameter (mode : string) (i : nat) (p : storedQueryParameter) : paramErr + queryArg :=
  match queryParameterValueForType p with
  | None => inl (InvalidValue i (qp_Type p) (qp_Value p))
  | Some v =>
      if bool_decide (mode = "POSITIONAL") then inr (QueryArg None v)
      else if bool_decide (qp_Name p = "") then inl (NameRequired i)
      else inr (QueryArg (Some (qp_Name p)) v)
  end.

Fixpoint build_args (mode : string) (i : nat) (params : list storedQueryParameter) : paramErr + list queryArg :=
  match params with
  | [] => inr []
  | p :: rest =>
      match bind_parameter mode i p with
      | inl e => inl e
      | inr a => match build_args mode (S i) rest with inl e => inl e | inr l => inr (a :: l) end
      end
  end.

Definition buildQueryArgs (mode : string) (params : list storedQueryParameter) : paramErr + list queryArg :=
  build_args mode 0 params.
End Parameters.

(** ** Bound values have the declared types *)

Section Theorems.
Context `{GoFloats} (nested : json → string).

(** The Go type the driver must see for the engine to infer the declared type. *)
Definition value_has_type (typeName : string) (v : queryValue) : Prop :=
  match v with
  | VNull => True
  | VInt64 z => typeName = "INT64" ∧ in_i64 z
  | VFloat64 _ => typeName = "FLOAT64"
  | VBool _ => typeName ∈ ["BOOL"; "BOOLEAN"]
  | VBytes _ => typeName = "BYTES"
  | VString _ => typeName ∈ ["STRING"; "DATE"; "DATETIME"; "TIME"; "TIMESTAMP"]
  end.

Definition bound_as (mode : string) (p : storedQueryParameter) (a : queryArg) : Prop :=
  value_has_type (qp_Type p) (qa_value a) ∧
  (qa_value a = VNull ↔ qp_IsNull p = true) ∧
  qa_name a = (if bool_decide (mode = "POSITIONAL") then None else Some (qp_Name p)) ∧
  (mode ≠ "POSITIONAL" → qp_Name p ≠ "").

Lemma value_typed p v :
  qp_Type p ∈ scalarQueryParameterTypes → queryParameterValueForType p = Some v →
  value_has_type (qp_Type p) v ∧ (v = VNull ↔ qp_IsNull p = true).
Proof.
  unfold queryParameterValueForType. intros Ht Hv. destruct (qp_IsNull p); [by simplify_eq|].
  unfold scalarQueryParameterTypes in Ht.
  repeat (case_bool_decide;
    [apply fmap_Some in Hv as (x & Hx & ->); simpl; split; [by eauto using parse_int_range|done]|]).
  simplify_eq. split; [|done]. simpl. rewrite !elem_of_cons, elem_of_nil in *.
  clear H. intuition congruence.
Qed.

Lemma bind_typed mode i p a :
  qp_Type p ∈ scalarQueryParameterTypes → bind_parameter mode i p = inr a → bound_as mode p a.
Proof.
  unfold bind_parameter, bound_as. intros Ht Hb.
  destruct (queryParameterValueForType p) as [v|] eqn:Ev; [|done].
  destruct (value_typed p v Ht Ev) as [H1 H2].
  repeat case_bool_decide; simplify_eq; by split_and!.
Qed.

Lemma parse_parameters_typed raws : ∀ i params,
  parse_parameters nested i raws = inr params →
  length params = length raws ∧ Forall (λ p, qp_Type p ∈ scalarQueryParameterTypes) params.
Proof.
  induction raws as [|raw raws IH]; intros i params Hp; simpl in Hp; [by simplify_eq|].
  destruct (parse_parameter nested i raw) as [|p] eqn:E; [done|].
  destruct (parse_parameters nested (S i) raws) as [|ps] eqn:E2; [done|]. simplify_eq.
  destruct (IH _ _ E2) as [Hl Hf]. split; [simpl; lia|]. constructor; [|done].
  unfold parse_parameter in E. destruct raw as [| | | | |ms]; try done.
  case_bool_decide; [done|]. case_bool_decide as Hin; [|done]. clear IH E2.
  destruct (obj_get (as_object (obj_get ms "parameterValue")) "value"); injection E as <-; exact Hin.
Qed.

Lemma build_args_spec mode params : ∀ i,
  Forall (λ p, qp_Type p ∈ scalarQueryParameterTypes) params →
  match build_args mode i params with
  | inr args => Forall2 (bound_as mode) params args
  | inl e => ∃ k p, params !! k = Some p ∧ bind_parameter mode (i + k) p = inl e ∧
      ∀ j q, (j < k)%nat → params !! j = Some q → ∃ a, bind_parameter mode (i + j) q = inr a
  end.
Proof.
  induction params as [|p params IH]; intros i Hf; simpl; [constructor|].
  apply Forall_cons in Hf as [Hp Hf]. destruct (bind_parameter mode i p) as [e|a] eqn:E.
  - exists 0%nat, p. rewrite Nat.add_0_r. split_and!; [done..|lia].
  - specialize (IH (S i) Hf). destruct (build_args mode (S i) params) as [e|args].
    + destruct IH as (k & q & Hk & Hq & Hb). exists (S k), q. rewrite Nat.add_succ_r.
      split_and!; [done..|]. intros [|j] q' Hj Hq'; simpl in Hq'; simplify_eq.
      * rewrite Nat.add_0_r. by eexists.
      * rewrite Nat.add_succ_r. apply (Hb j); [lia|done].
    + constructor; [by eapply bind_typed|done].
Qed.


(** ** Values survive the wire format *)

Lemma b64_char_std v : 0 ≤ v < 64 →
  b64_std_val (b64_std_char (b64_char v)) = Some v ∧ b64_std_char (b64_char v) ≠ "010"%char ∧
  b64_std_char (b64_char v) ≠ "013"%char ∧ b64_std_char (b64_char v) ≠ "="%char.
Proof.
  intros Hv.
  assert (Forall (λ v, b64_std_val (b64_std_char (b64_char v)) = Some v ∧
    b64_std_char (b64_char v) ≠ "010"%char ∧ b64_std_char (b64_char v) ≠ "013"%char ∧
    b64_std_char (b64_char v) ≠ "="%char) (seqZ 0 64)) as HF
    by (apply (bool_decide_unpack _); vm_compute; exact I).
  rewrite Forall_forall in HF. apply HF. apply elem_of_seqZ. lia.
Qed.

Lemma without_breaks_char v s : 0 ≤ v < 64 →
  without_breaks (String (b64_std_char (b64_char v)) s) = b64_std_char (b64_char v) :: without_breaks s.
Proof. intros Hv. destruct (b64_char_std v Hv) as (_ & H1 & H2 & _). simpl. by rewrite !bool_decide_false. Qed.

(** One lemma for the four shapes of a quantum. *)
Lemma b64_std_first v : 0 ≤ v < 64 →
  b64_std_val (b64_std_char (b64_char v)) = Some v ∧
  bool_decide (b64_std_char (b64_char v) = "="%char) = false.
Proof. intros Hv. destruct (b64_char_std v Hv) as (H1 & _ & _ & H2). split; [done|]. by rewrite bool_decide_false. Qed.

Lemma length_mod3 a b c r :
  (String.length (String a (String b (String c r))) mod 3 = String.length r mod 3)%nat.
Proof.
  cbn [String.length]. replace (S (S (S (String.length r)))) with (String.length r + 1 * 3)%nat by lia.
  apply Nat.Div0.mod_add.
Qed.

Lemma b64_std_roundtrip s : b64_std_decode (b64_std s) = Some s.
Proof.
  unfold b64_std_decode, b64_std.
  induction s as [|a|a b|a b c r IH] using string_ind3; [done|..];
    pose proof (code_range a); try pose proof (code_range b); try pose proof (code_range c).
  - cbn [b64_encode str_map String.length]. change (1 mod 3)%nat with 1%nat. cbv iota.
    rewrite !str_app_cons. change ("" +:+ "==") with "==". rewrite !without_breaks_char by zlia.
    cbn [without_breaks]. cbn [b64_std_quads].
    destruct (b64_std_first (code a `div` 4)) as [-> _]; [zlia|].
    destruct (b64_std_first ((code a `mod` 4) * 16)) as [-> _]; [zlia|]. simpl.
    do 2 f_equal. apply char_of_eq. zlia.
  - cbn [b64_encode str_map String.length]. change (2 mod 3)%nat with 2%nat. cbv iota.
    rewrite !str_app_cons. change ("" +:+ "=") with "=". rewrite !without_breaks_char by zlia.
    cbn [without_breaks b64_std_quads].
    destruct (b64_std_first (code a `div` 4)) as [-> _]; [zlia|].
    destruct (b64_std_first ((code a `mod` 4) * 16 + code b `div` 16)) as [-> _]; [zlia|].
    destruct (b64_std_first ((code b `mod` 16) * 4)) as [-> ->]; [zlia|]. simpl.
    do 2 f_equal; [|f_equal]; apply char_of_eq; zlia.
  - rewrite length_mod3. cbn [b64_encode str_map]. rewrite !str_app_cons, !without_breaks_char by zlia.
    cbn [b64_std_quads].
    destruct (b64_std_first (code a `div` 4)) as [-> _]; [zlia|].
    destruct (b64_std_first ((code a `mod` 4) * 16 + code b `div` 16)) as [-> _]; [zlia|].
    destruct (b64_std_first ((code b `mod` 16) * 4 + code c `div` 64)) as [-> ->]; [zlia|].
    destruct (b64_std_first (code c `mod` 64)) as [-> ->]; [zlia|].
    cbn [mbind option_bind]. rewrite IH. cbn [mbind option_bind].
    do 2 f_equal; [|f_equal; [|f_equal]]; apply char_of_eq; zlia.
Qed.
End Theorems.

(** ** Concrete parameters *)

#[local] Instance no_floats : GoFloats := {| float64 := Empty_set; parse_float := λ _, None; sprint_float := λ s, s |}.

Definition demo_parameter (name typeName : string) (value : json) : json :=
  JObj [("name", JStr name); ("parameterType", JObj [("type", JStr typeName)]);
        ("parameterValue", JObj [("value", value)])].


(** An INT64 parameter sent as a bare number of seven digits is refused: its
    text has an exponent. *)
Example unquoted_integer_refused :
  parseQueryParametersFromRaw (λ _, "") "" [demo_parameter "n" "INT64" (JNum "1000000")] =
    inr ([QueryParameter "n" "INT64" "1e+06" false], "NAMED") ∧
  buildQueryArgs "NAMED" [QueryParameter "n" "INT64" "1e+06" false] = inl (InvalidValue 0 "INT64" "1e+06").
Proof. split; by vm_compute. Qed.
