(* ===== verification/FileFormats.v ===== *)
(** * File formats of load and extract jobs (bigquery.go)

    Reading and writing rows as CSV, NEWLINE_DELIMITED_JSON, AVRO and PARQUET:
    the dispatch on format and compression, the conversion between stored cells
    and typed values, local and gs:// paths, and the shards of an extract.  The
    Avro and Parquet containers and gzip are third-party or compressed formats
    and parameters ([FileCodecs]); the values they carry are modelled.  [disk]
    maps the paths of files to their bytes. *)

From S2P Require Import Prelude GoStrings GoPath GoJson GoCsv Cells TableModel StorageWrite StreamingInserts Jobs QueryParams.
From Stdlib Require Import Ascii.

Abbreviation disk := (gmap string string).

Inductive fileErr :=
| GcsNotConfigured (uri : string) | NoBucket (uri : string) | OutsideRoot (uri : string) | TooManyWildcards (uri : string)
| ReadFailed (uri : string) | WriteFailed (uri : string)
| UnsupportedFormat (format : string) | UnsupportedCompression (format compression : string)
| BadGzip | BadCsv (e : csvErr) | RowWidth (row : nat) | NestedField (name : string)
| BadNdjson (line : nat) | LineTooLong | BadStoredJson (column : string) | BadNumber
| BadAvro | BadParquet | CannotShard.

Abbreviation F := (res fileErr).

Definition need {A} (o : option A) (e : fileErr) : F A := match o with Some a => Ok a | None => Err e end.

(** ** Values *)

(** The text of a float64 as [strconv] ('f', shortest; an integer without a
    fraction through int64) and as [encoding/json] writes it, [None] for the
    values JSON cannot carry. *)
Class FloatText `{GoFloats} := {
  float_plain : float64 → string;
  float_json : float64 → option string;
  float_zero : float64;
}.

(** What a typed file carries for one column; [FUnion] is the one-entry map an
    Avro union decodes to, [FNested] any other composite value.  Bytes and
    float32 values come as the text they are stored as. *)
Inductive fileValue `{GoFloats} :=
| FNull | FBool (b : bool) | FInt (z : Z) | FFloat (f : float64) | FText (s : string)
| FUnion (branch : string) (v : fileValue) | FNested (v : json).

Abbreviation fileRecord := (list (string * fileValue)).

(** Avro containers are written with a schema and a codec and read back as
    records; Parquet files likewise, a file that is not one makes the reader
    panic. *)
Class FileCodecs `{GoFloats} := {
  gzip : string → string;
  gunzip : string → option string;
  avro_encode : string → string → list fileRecord → option string;
  avro_decode : string → option (list fileRecord);
  parquet_encode : list (string * string * bool) → string → list fileRecord → option string;
  parquet_decode : list (string * string * bool) → string → res unit (list fileRecord);
}.

Section Formats.
Context `{FloatText} `{!FileCodecs}.

(** JSON numbers become float64. *)
#[local] Instance json_numbers : Float64Text := {|
  number_plain := λ lit, match parse_float lit with Some f => float_plain f | None => lit end;
  number_json := λ lit, match parse_float lit ≫= float_json with Some t => t | None => lit end |}.

(** [json.Unmarshal] also refuses a number out of range. *)
Fixpoint numbers_ok (v : json) : bool :=
  match v with
  | JNum lit => bool_decide (is_Some (parse_float lit))
  | JArr l => forallb numbers_ok l
  | JObj ms => forallb (λ m, numbers_ok m.2) ms
  | _ => true
  end.
Definition json_decode (s : string) : option json :=
  v ← json_unmarshal s; if numbers_ok v then Some v else None.

(** ** Compression *)

Definition normalized_compression (compression : string) : string :=
  let c := to_upper (trim_space compression) in if bool_decide (c = "") then "NONE" else c.

Definition normalizeExtractCompression (format compression : string) : F string :=
  let c := normalized_compression compression in
  let supported :=
    if bool_decide (format ∈ ["NEWLINE_DELIMITED_JSON"; "CSV"]) then Some ["NONE"; "GZIP"]
    else if bool_decide (format = "AVRO") then Some ["NONE"; "SNAPPY"; "DEFLATE"]
    else if bool_decide (format = "PARQUET") then Some ["NONE"; "SNAPPY"; "GZIP"]
    else None in
  match supported with
  | None => Ok c
  | Some l => if bool_decide (c ∈ l) then Ok c else Err (UnsupportedCompression format compression)
  end.

Definition normalizeLoadCompression (format compression : string) : F string :=
  let c := normalized_compression compression in
  let allowed :=
    if bool_decide (format ∈ ["NEWLINE_DELIMITED_JSON"; "CSV"]) then Some ["NONE"; "GZIP"]
    else if bool_decide (format ∈ ["AVRO"; "PARQUET"]) then Some ["NONE"]
    else None in
  match allowed with
  | None => Ok c
  | Some l => if bool_decide (c ∈ l) then Ok c else Err (UnsupportedCompression format compression)
  end.

Definition maybeGzip (payload compression : string) : string :=
  if bool_decide (compression = "GZIP") then gzip payload else payload.
Definition maybeGunzip (data compression : string) : F string :=
  if bool_decide (compression = "GZIP") then need (gunzip data) BadGzip else Ok data.

Definition avroCodecNameFor (compression : string) : string :=
  if bool_decide (compression = "SNAPPY") then "snappy"
  else if bool_decide (compression = "DEFLATE") then "deflate" else "null".
Definition parquetCodecFor (compression : string) : string :=
  if bool_decide (compression = "SNAPPY") then "SNAPPY"
  else if bool_decide (compression = "GZIP") then "GZIP" else "UNCOMPRESSED".

(** ** CSV *)

Definition csv_error {A} (r : res csvErr A) : F A :=
  match r with Ok a => Ok a | Err e => Err (BadCsv e) | Panic => Panic end.

Definition reject_nested (sch : schema) : F unit :=
  match rejectNestedFields sch with Some name => Err (NestedField name) | None => Ok tt end.

(** A row that is not a cell per column is an error; [i] is its number. *)
Fixpoint check_widths (width i : nat) (records : list (list string)) : F unit :=
  match records with
  | [] => Ok tt
  | r :: records => if (length r =? width)%nat then check_widths width (S i) records else Err (RowWidth i)
  end.

(** [records[skip:]]; a negative [skip] panics. *)
Definition skip_records {A} (skip : Z) (records : list A) : F (list A) :=
  if skip <? 0 then Panic else Ok (drop (Z.to_nat (Z.min skip (Z.of_nat (length records)))) records).

Definition parseCSVRows (data : string) (sch : schema) (fieldDelimiter : string) (skipLeadingRows : Z) : F (list row) :=
  _ ← reject_nested sch;
  records ← csv_error (csv_read (csv_comma fieldDelimiter) data);
  rest ← skip_records skipLeadingRows records;
  _ ← check_widths (length sch) (S (length records - length rest)) rest;
  Ok rest.

(** One value per column; a missing cell and a NULL are written as "". *)
Definition csv_cells (sch : schema) (r : row) : list string :=
  imap (λ i _, match r !! i with
               | Some cell => let '(value, isNull) := loadStoredCell cell in if isNull then "" else value
               | None => ""
               end) sch.

Definition encodeCSV (sch : schema) (rows : list row) (fieldDelimiter : string) (printHeader : bool) : F string :=
  _ ← reject_nested sch;
  csv_error (csv_write (csv_comma fieldDelimiter)
    ((if printHeader then [Name <$> sch] else []) ++ (csv_cells sch <$> rows))).

(** ** Newline-delimited JSON *)

(** [bufio.Scanner] with [ScanLines] and a buffer of 10 MiB: the lines before
    one that does not fit, and whether there is one. *)
Definition max_token : Z := 10 * 1024 * 1024.
Definition drop_return (s : string) : string :=
  match String.rev s with String c r => if bool_decide (c = return_) then String.rev r else s | EmptyString => s end.
Fixpoint take_tokens (lines : list string) : list string * bool :=
  match lines with
  | [] => ([], false)
  | l :: lines =>
      if max_token <=? Z.of_nat (String.length l) then ([], true)
      else let '(ls, long) := take_tokens lines in (drop_return l :: ls, long)
  end.
Definition scan_lines (data : string) : list string * bool :=
  let pieces := split_on newline data in
  take_tokens (match last pieces with Some "" => removelast pieces | _ => pieces end).

(** [json.Unmarshal] of a line into a [map[string]any]. *)
Definition decode_record (line : string) : option (list (string * json)) :=
  match json_decode line with Some (JObj ms) => Some ms | Some JNull => Some [] | _ => None end.

Fixpoint ndjson_rows (lineNum : nat) (lines : list string) (sch : schema) : F (list row) :=
  match lines with
  | [] => Ok []
  | line :: lines =>
      let text := trim_space line in
      if bool_decide (text = "") then ndjson_rows (S lineNum) lines sch
      else
        record ← need (decode_record text) (BadNdjson lineNum);
        rows ← ndjson_rows (S lineNum) lines sch;
        Ok (parseNDJSONRow record sch :: rows)
  end.
Definition parseNDJSONLines (data : string) (sch : schema) : F (list row) :=
  let '(lines, tooLong) := scan_lines data in
  rows ← ndjson_rows 1 lines sch;
  if tooLong then Err LineTooLong else Ok rows.

Definition stringToJSONValue (cell : string) (field : tableField) : F fileValue :=
  let '(v, isNull) := loadStoredCell cell in
  if isNull then Ok FNull
  else if bool_decide (Mode field = "REPEATED") || isRecordType (Type_ field) then
    decoded ← need (json_decode v) (BadStoredJson (Name field)); Ok (FNested decoded)
  else
    let u := to_upper (Type_ field) in
    let typed :=
      if bool_decide (u ∈ ["INT64"; "INTEGER"]) then FInt <$> parse_int v
      else if bool_decide (u ∈ ["FLOAT64"; "FLOAT"]) then FFloat <$> parse_float v
      else if bool_decide (u ∈ ["BOOL"; "BOOLEAN"]) then FBool <$> parse_bool v
      else None in
    Ok (default (FText v) typed).

(** [json.Marshal] of such a value. *)
Fixpoint marshal_value (v : fileValue) : F string :=
  match v with
  | FNull => Ok "null"
  | FBool b => Ok (if b then "true" else "false")
  | FInt z => Ok (format_int z)
  | FFloat f => need (float_json f) BadNumber
  | FText s => Ok (json_quote s)
  | FNested v => Ok (json_marshal v)
  | FUnion branch v => text ← marshal_value v; Ok ("{" +:+ json_quote branch +:+ ":" +:+ text +:+ "}")
  end.

Fixpoint each {A B} (f : A → F B) (l : list A) : F (list B) :=
  match l with [] => Ok [] | a :: l => b ← f a; bs ← each f l; Ok (b :: bs) end.

(** The object of a row; a later column overwrites one of the same name. *)
Definition ndjson_record (sch : schema) (r : row) : F (gmap string fileValue) :=
  members ← each id (imap (λ i field,
    v ← match r !! i with Some cell => stringToJSONValue cell field | None => Ok FNull end;
    Ok (Name field, v)) sch);
  Ok (list_to_map (reverse members)).
Definition marshal_record (record : gmap string fileValue) : F string :=
  members ← each (λ k, text ← marshal_value (default FNull (record !! k)); Ok (json_quote k +:+ ":" +:+ text))
              (sorted_keys record);
  Ok ("{" +:+ join "," members +:+ "}").
Definition encodeNDJSON (sch : schema) (rows : list row) : F string :=
  lines ← each (λ r, record ← ndjson_record sch r; text ← marshal_record record; Ok (text +:+ String newline "")) rows;
  Ok (foldr String.append "" lines).

(** ** Avro and Parquet *)

Definition avroTypeFor (bqType : string) : string :=
  let u := to_upper bqType in
  if bool_decide (u ∈ ["INT64"; "INTEGER"]) then "long"
  else if bool_decide (u ∈ ["FLOAT64"; "FLOAT"]) then "double"
  else if bool_decide (u ∈ ["BOOL"; "BOOLEAN"]) then "boolean" else "string".

Definition is_required (field : tableField) : bool := bool_decide (normalizeMode (Mode field) = "REQUIRED").

Definition avro_field_json (field : tableField) : string :=
  let t := json_quote (avroTypeFor (Type_ field)) in
  "{" +:+ json_quote "name" +:+ ":" +:+ json_quote (Name field) +:+ "," +:+ json_quote "type" +:+ ":" +:+
  (if is_required field then t else "[" +:+ json_quote "null" +:+ "," +:+ t +:+ "]") +:+ "}".
Definition buildAvroSchemaJSON (sch : schema) : string :=
  "{" +:+ json_quote "type" +:+ ":" +:+ json_quote "record" +:+ "," +:+ json_quote "name" +:+ ":" +:+
  json_quote "LocaQLRow" +:+ "," +:+ json_quote "fields" +:+ ":[" +:+ join "," (avro_field_json <$> sch) +:+ "]}".

(** A text that is not of its type becomes the type's zero value. *)
Definition plainStringToAvroValue (v fieldType : string) : fileValue :=
  let u := to_upper fieldType in
  if bool_decide (u ∈ ["INT64"; "INTEGER"]) then FInt (default 0 (parse_int v))
  else if bool_decide (u ∈ ["FLOAT64"; "FLOAT"]) then FFloat (default float_zero (parse_float v))
  else if bool_decide (u ∈ ["BOOL"; "BOOLEAN"]) then FBool (default false (parse_bool v))
  else FText v.

Definition stringToAvroValue (cell : string) (field : tableField) : fileValue :=
  let '(raw, isNull) := loadStoredCell cell in
  if isNull then FNull
  else
    let value := plainStringToAvroValue raw (Type_ field) in
    if is_required field then value else FUnion (avroTypeFor (Type_ field)) value.

Definition stringToParquetValue (cell : string) (field : tableField) : fileValue :=
  let '(v, isNull) := loadStoredCell cell in
  if isNull then FNull else plainStringToAvroValue v (Type_ field).

(** One record per row, as the map the encoder is given. *)
Definition typed_record (convert : string → tableField → fileValue) (sch : schema) (r : row) : fileRecord :=
  imap (λ i field, (Name field, match r !! i with Some cell => convert cell field | None => FNull end)) sch.
Definition record_get (record : fileRecord) (key : string) : fileValue :=
  default FNull (snd <$> List.find (λ p, String.eqb p.1 key) (reverse record)).

Definition unwrapAvroUnion (v : fileValue) : fileValue := match v with FUnion _ w => w | _ => v end.

(** [scalarValueToString] on the values of a typed file. *)
Definition value_cell (v : fileValue) : F string :=
  match v with
  | FNull => Ok storedNullCell
  | FBool b => Ok (storeStringCell (if b then "true" else "false"))
  | FInt z => Ok (storeStringCell (format_int z))
  | FFloat f => Ok (storeStringCell (float_plain f))
  | FText s => Ok (storeStringCell s)
  | FUnion _ _ | FNested _ => text ← marshal_value v; Ok (storeStringCell text)
  end.

Definition typed_rows (unwrap : fileValue → fileValue) (sch : schema) (records : list fileRecord) : F (list row) :=
  each (λ record, each (λ field, value_cell (unwrap (record_get record (Name field)))) sch) records.

Definition parseAvroRows (data : string) (sch : schema) : F (list row) :=
  _ ← reject_nested sch;
  records ← need (avro_decode data) BadAvro;
  typed_rows unwrapAvroUnion sch records.
Definition encodeAvro (sch : schema) (rows : list row) (codecName : string) : F string :=
  _ ← reject_nested sch;
  need (avro_encode (buildAvroSchemaJSON sch) codecName (typed_record stringToAvroValue sch <$> rows)) BadAvro.

(** A Parquet column: its name, its physical type and whether it is required. *)
Definition parquetNodeFor (bqType : string) : string :=
  let u := to_upper bqType in
  if bool_decide (u ∈ ["INT64"; "INTEGER"]) then "INT64"
  else if bool_decide (u ∈ ["FLOAT64"; "FLOAT"]) then "DOUBLE"
  else if bool_decide (u ∈ ["BOOL"; "BOOLEAN"]) then "BOOLEAN" else "STRING".
Definition buildParquetSchema (sch : schema) : list (string * string * bool) :=
  (λ field, (Name field, parquetNodeFor (Type_ field), is_required field)) <$> sch.

Definition parseParquetRows (data : string) (sch : schema) : F (list row) :=
  _ ← reject_nested sch;
  match parquet_decode (buildParquetSchema sch) data with
  | Ok records => typed_rows id sch records
  | Err _ => Err BadParquet
  | Panic => Panic
  end.
Definition encodeParquet (sch : schema) (rows : list row) (codec : string) : F string :=
  _ ← reject_nested sch;
  need (parquet_encode (buildParquetSchema sch) codec (typed_record stringToParquetValue sch <$> rows)) BadParquet.

(** ** Dispatch *)

Definition load_format (sourceFormat : string) : string :=
  let f := to_upper (trim_space sourceFormat) in if bool_decide (f = "") then "CSV" else f.

(** The parser of one file. *)
Definition loadRowsParser (sourceFormat fieldDelimiter : string) (skipLeadingRows : Z) (sch : schema) (compression : string)
    : F (string → F (list row)) :=
  let format := load_format sourceFormat in
  c ← normalizeLoadCompression format compression;
  if bool_decide (format = "NEWLINE_DELIMITED_JSON") then
    Ok (λ data, data ← maybeGunzip data c; parseNDJSONLines data sch)
  else if bool_decide (format = "CSV") then
    Ok (λ data, data ← maybeGunzip data c; parseCSVRows data sch fieldDelimiter skipLeadingRows)
  else if bool_decide (format = "AVRO") then Ok (λ data, parseAvroRows data sch)
  else if bool_decide (format = "PARQUET") then Ok (λ data, parseParquetRows data sch)
  else Err (UnsupportedFormat format).

Definition readRowsFromData (sourceFormat data fieldDelimiter : string) (skipLeadingRows : Z) (sch : schema)
    (compression : string) : F (list row * Z) :=
  parser ← loadRowsParser sourceFormat fieldDelimiter skipLeadingRows sch compression;
  rows ← parser data;
  Ok (rows, Z.of_nat (String.length data)).

Definition encodeExtractPayload (format : string) (sch : schema) (rows : list row) (fieldDelimiter : string)
    (printHeader : bool) (compression : string) : F string :=
  if bool_decide (format = "NEWLINE_DELIMITED_JSON") then
    payload ← encodeNDJSON sch rows; Ok (maybeGzip payload compression)
  else if bool_decide (format = "CSV") then
    payload ← encodeCSV sch rows fieldDelimiter printHeader; Ok (maybeGzip payload compression)
  else if bool_decide (format = "AVRO") then encodeAvro sch rows (avroCodecNameFor compression)
  else if bool_decide (format = "PARQUET") then encodeParquet sch rows (parquetCodecFor compression)
  else Err (UnsupportedFormat format).

(** ** Files *)

(** [root] is LOCAQL_FAKE_GCS_ROOT. *)
Variable root : string.

Definition resolveFakeGCSPath (uri : string) : F string :=
  let root := trim_space root in
  if bool_decide (root = "") then Err (GcsNotConfigured uri)
  else
    let '(bucket, key) := match split_on "/" (trim_prefix uri "gs://") with
                          | b :: rest => (b, join "/" rest) | [] => ("", "") end in
    if bool_decide (bucket = "") then Err (NoBucket uri)
    else
      let cleanRoot := clean root in
      let joined := join_path [cleanRoot; bucket; key] in
      if bool_decide (joined = cleanRoot) || has_prefix joined (cleanRoot +:+ "/") then Ok joined
      else Err (OutsideRoot uri).

Definition resolveLocalFilePath (uri : string) : F string :=
  let path := trim_space uri in
  if has_prefix path "gs://" then resolveFakeGCSPath path else Ok (trim_prefix path "file://").

Fixpoint count_char (c : ascii) (s : string) : nat :=
  match s with EmptyString => O | String d r => (if bool_decide (c = d) then 1 else 0) + count_char c r end.
Fixpoint replace_char (c : ascii) (by_ s : string) : string :=
  match s with
  | EmptyString => EmptyString
  | String d r => if bool_decide (c = d) then by_ +:+ r else String d (replace_char c by_ r)
  end.
Fixpoint repeat_char (c : ascii) (n : nat) : string :=
  match n with O => EmptyString | S n => String c (repeat_char c n) end.
(** [fmt.Sprintf("%012d", n)] *)
Definition pad12 (n : nat) : string :=
  let t := format_int (Z.of_nat n) in repeat_char "0" (12 - String.length t) +:+ t.

Definition resolveNumberedShardPath (uri : string) (shardIndex : nat) : F string :=
  path ← resolveLocalFilePath uri;
  match count_char "*" path with
  | O => Ok path
  | 1%nat => Ok (replace_char "*" (pad12 shardIndex) path)
  | _ => Err (TooManyWildcards uri)
  end.

(** Rows of all files, in order; [total] bytes were read. *)
Fixpoint loadRowsAcrossURIs (files : disk) (uris : list string) (parse : string → F (list row)) : F (list row * Z) :=
  match uris with
  | [] => Ok ([], 0)
  | uri :: uris =>
      path ← resolveLocalFilePath uri;
      data ← need (files !! path) (ReadFailed uri);
      fileRows ← parse data;
      '(rows, total) ← loadRowsAcrossURIs files uris parse;
      Ok (fileRows ++ rows, Z.of_nat (String.length data) + total)
  end.
Definition readRowsFromURIs (files : disk) (sourceFormat : string) (sourceURIs : list string) (fieldDelimiter : string)
    (skipLeadingRows : Z) (sch : schema) (compression : string) : F (list row * Z) :=
  parser ← loadRowsParser sourceFormat fieldDelimiter skipLeadingRows sch compression;
  loadRowsAcrossURIs files sourceURIs parser.

(** [writable] says where the operating system lets a file be created. *)
Variable writable : string → bool.

Fixpoint write_shard (files : disk) (index : nat) (payload : string) (uris : list string) : disk * F Z :=
  match uris with
  | [] => (files, Ok 0)
  | uri :: uris =>
      match resolveNumberedShardPath uri index with
      | Ok path =>
          if writable path then
            let '(files, total) := write_shard (<[path := payload]> files) index payload uris in
            (files, n ← total; Ok (Z.of_nat (String.length payload) + n))
          else (files, Err (WriteFailed uri))
      | Err e => (files, Err e)
      | Panic => (files, Panic)
      end
  end.
Fixpoint writeExtractShards (files : disk) (uris : list string) (shards : list (nat * string)) : disk * F Z :=
  match shards with
  | [] => (files, Ok 0)
  | (index, payload) :: shards =>
      match write_shard files index payload uris with
      | (files, Ok n) =>
          let '(files, total) := writeExtractShards files uris shards in (files, m ← total; Ok (n + m))
      | (files, e) => (files, e)
      end
  end.

(** [ceil(a / b)]; the code divides float64s, which is exact enough below 2^53. *)
Definition ceil_div (a b : Z) : Z := (a + b - 1) `div` b.

Fixpoint chunks {A} (fuel k : nat) (l : list A) : list (list A) :=
  match fuel, l with
  | S fuel, _ :: _ => take k l :: chunks fuel k (drop k l)
  | _, _ => []
  end.

(** The slices of the rows, one per shard. *)
Definition shard_rows {A} (payloadBytes maxShardBytes : Z) (rows : list A) : list (list A) :=
  let count := Z.of_nat (length rows) in
  let shardCount := Z.min (Z.max 1 (ceil_div payloadBytes maxShardBytes)) count in
  chunks (length rows) (Z.to_nat (ceil_div count shardCount)) rows.

(** From LOCAQL_EXTRACT_SHARD_MAX_BYTES. *)
Definition readExtractShardMaxBytes (env : string) : Z :=
  match parse_int (trim_space env) with Some n => if n <=? 0 then 0 else n | None => 0 end.

Definition writeExtractDestinations (files : disk) (maxShardBytes : Z) (uris : list string) (format : string)
    (sch : schema) (rows : list row) (fieldDelimiter : string) (printHeader : bool) (compression : string) : disk * F Z :=
  match encodeExtractPayload format sch rows fieldDelimiter printHeader compression with
  | Ok fullPayload =>
      let bytes := Z.of_nat (String.length fullPayload) in
      if (maxShardBytes <=? 0) || (bytes <=? maxShardBytes) || (length rows <=? 1)%nat
      then writeExtractShards files uris [(O, fullPayload)]
      else
        match uris with
        | [uri] =>
            if (count_char "*" uri =? 1)%nat then
              match each (λ part, encodeExtractPayload format sch part fieldDelimiter printHeader compression)
                      (shard_rows bytes maxShardBytes rows) with
              | Ok payloads => writeExtractShards files uris (imap pair payloads)
              | Err e => (files, Err e)
              | Panic => (files, Panic)
              end
            else (files, Err CannotShard)
        | _ => (files, Err CannotShard)
        end
  | Err e => (files, Err e)
  | Panic => (files, Panic)
  end.
End Formats.
