(* ===== verification/FileRoundtrip.v ===== *)
(** * What an extract writes is what a load reads

    The formats of [FileFormats] in both directions, and the shards of an
    extract that exceeds its size limit. *)

From S2P Require Import Prelude GoStrings GoPath GoJson GoFloat GoCsv Cells TableModel StorageWrite StreamingInserts JsonText Jobs QueryParams FileFormats.
From Stdlib Require Import Ascii DecimalString.

(** ** Shards *)

Lemma ceil_div_pos a b : 0 < a → 0 < b → 0 < ceil_div a b.
Proof. intros Ha Hb. unfold ceil_div. apply Z.div_str_pos. lia. Qed.

Lemma chunks_concat {A} k (l : list A) : ∀ fuel, (0 < k)%nat → (length l ≤ fuel)%nat → concat (chunks fuel k l) = l.
Proof.
  intros fuel Hk. revert l. induction fuel as [|fuel IH]; intros [|x l] Hl; simpl in *; try done; [lia|].
  destruct k as [|k]; [lia|]. simpl. rewrite IH by (rewrite length_drop; lia). f_equal. apply take_drop.
Qed.

Lemma chunks_nonempty {A} k (l : list A) : ∀ fuel, (0 < k)%nat → Forall (.≠ []) (chunks fuel k l).
Proof.
  intros fuel Hk. revert l. induction fuel as [|fuel IH]; intros [|x l]; simpl; constructor; [|by apply IH].
  by destruct k; [lia|].
Qed.

Lemma chunks_count {A} k (l : list A) : ∀ fuel, (0 < k)%nat → (k * (length (chunks fuel k l) - 1) < length l ∨ l = [])%nat.
Proof.
  intros fuel Hk. revert l. induction fuel as [|fuel IH]; intros [|x l]; simpl; auto; [lia|].
  left. destruct (IH (drop k (x :: l))) as [Hc|Hc].
  - rewrite length_drop in Hc. simpl in Hc. rewrite Nat.sub_0_r. nia.
  - rewrite Hc. destruct fuel; simpl; lia.
Qed.

(** An extract that is too large is cut into slices of its rows: none is empty,
    they follow one another, and there are no more of them than the size asks for. *)
Lemma shard_rows_partition {A} bytes maxBytes (rows : list A) :
  rows ≠ [] → 0 < maxBytes → 0 < bytes →
  concat (shard_rows bytes maxBytes rows) = rows ∧ Forall (.≠ []) (shard_rows bytes maxBytes rows) ∧
  Z.of_nat (length (shard_rows bytes maxBytes rows)) ≤ ceil_div bytes maxBytes.
Proof.
  intros Hr Hm Hb. unfold shard_rows. set (count := Z.of_nat (length rows)).
  assert (0 < count) as Hc by (destruct rows; [done|subst count; simpl; lia]).
  pose proof (ceil_div_pos bytes maxBytes Hb Hm) as Hq. set (q := ceil_div bytes maxBytes) in *.
  set (n := Z.min (Z.max 1 q) count). assert (0 < n ≤ q) as Hn by lia.
  pose proof (ceil_div_pos count n Hc ltac:(lia)) as Hk. set (k := ceil_div count n) in *.
  assert (count ≤ k * n) as Hcov.
  { subst k. unfold ceil_div. pose proof (Z.div_mod (count + n - 1) n ltac:(lia)). pose proof (Z.mod_pos_bound (count + n - 1) n ltac:(lia)). nia. }
  split_and!; [apply chunks_concat; lia|apply chunks_nonempty; lia|].
  destruct (chunks_count (Z.to_nat k) rows (length rows) ltac:(lia)) as [Hl|Hl]; [|done].
  set (m := length (chunks _ _ _)) in *. assert (k * (Z.of_nat m - 1) < k * n ∨ m = O) as [Hlt|Hz] by nia; nia.
Qed.

(** *** Shard files *)

Definition digits_of (s : string) : option Z := Z.of_uint <$> NilEmpty.uint_of_string s.

Lemma digits_of_zeros n s : digits_of (repeat_char "0" n +:+ s) = digits_of s.
Proof.
  induction n as [|n IH]; [done|]. simpl repeat_char. rewrite str_app_cons, <-IH. unfold digits_of. simpl.
  by destruct (NilEmpty.uint_of_string _).
Qed.

Lemma digits_of_format n : digits_of (format_int (Z.of_nat n)) = Some (Z.of_nat n).
Proof.
  unfold digits_of, format_int. pose proof (DecimalZ.of_to (Z.of_nat n)) as Hot. destruct (Z.of_nat n) as [|p|p] eqn:E; [done| |lia].
  simpl in *. assert (NilEmpty.uint_of_string (NilZero.string_of_uint (Pos.to_uint p)) = Some (Pos.to_uint p)) as ->.
  { pose proof (DecimalPos.Unsigned.to_uint_nonnil p). unfold NilZero.string_of_uint.
    destruct (Pos.to_uint p); [done|apply NilEmpty.usu..]. }
  simpl. by rewrite Hot.
Qed.

Lemma pad12_inj i j : pad12 i = pad12 j → i = j.
Proof.
  intros E. assert (digits_of (pad12 i) = digits_of (pad12 j)) as Ed by (by rewrite E). unfold pad12 in Ed.
  rewrite !digits_of_zeros, !digits_of_format in Ed. injection Ed. lia.
Qed.

Lemma replace_char_inj c a b s : (0 < count_char c s)%nat → replace_char c a s = replace_char c b s → a = b.
Proof.
  induction s as [|d s IH]; simpl; [lia|]. case_bool_decide; simpl.
  - intros _. apply str_app_inv_tail.
  - intros Hc [= E]. by apply IH.
Qed.

Section Roundtrip.
Context `{FloatText} `{!FileCodecs}.
Variables (root : string) (writable : string → bool).

Definition total_bytes (payloads : list string) : Z := foldr (λ p n, Z.of_nat (String.length p) + n) 0 payloads.

(** The file the [i]-th shard goes to. *)
Abbreviation shard_path uri i := (resolveNumberedShardPath root uri i).

Definition shards_apart (uri : string) : Prop := ∀ i j p, shard_path uri i = Ok p → shard_path uri j = Ok p → i = j.

Lemma wildcard_apart uri path :
  resolveLocalFilePath root uri = Ok path → count_char "*" path = 1%nat → shards_apart uri.
Proof.
  intros Hp Hc i j p. unfold resolveNumberedShardPath. rewrite Hp. cbn [mbind res_bind]. rewrite Hc.
  intros [= Ei] [= Ej]. apply pad12_inj. apply (replace_char_inj "*" _ _ path); [lia|congruence].
Qed.

Lemma shards_written uri payloads : ∀ files k files' n,
  writeExtractShards root writable files [uri] (imap (λ i p, ((k + i)%nat, p)) payloads) = (files', Ok n) →
  shards_apart uri ∨ (length payloads ≤ 1)%nat →
  n = total_bytes payloads ∧
  (∀ i p, payloads !! i = Some p → ∃ path, shard_path uri (k + i) = Ok path ∧ files' !! path = Some p) ∧
  (∀ path, (∀ i, (i < length payloads)%nat → shard_path uri (k + i) ≠ Ok path) → files' !! path = files !! path).
Proof.
  induction payloads as [|p payloads IH]; intros files k files' n; simpl.
  { intros [= <- <-] _. done. }
  rewrite Nat.add_0_r. destruct (shard_path uri k) as [path|e|] eqn:Ep; try done. destruct (writable path); [|done].
  assert (imap ((λ i p0, ((k + i)%nat, p0)) ∘ S) payloads = imap (λ i p0, ((S k + i)%nat, p0)) payloads) as ->.
  { apply imap_ext. intros i x _. simpl. f_equal. lia. }
  destruct (writeExtractShards _ _ _ _ _) as [files2 [m|e|]] eqn:Ew; simpl; try done.
  intros [= <- <-] Ha. apply IH in Ew as (-> & Hf & Ho); [|destruct Ha; [by left|right; lia]]. split_and!; [lia| |].
  - intros [|i] q Hi; simpl in Hi.
    + simplify_eq. rewrite Nat.add_0_r. exists path. split; [done|]. rewrite Ho; [apply lookup_insert_eq|].
      intros i Hlt Hq. destruct Ha as [Ha|?]; [|lia]. specialize (Ha _ _ _ Ep Hq). lia.
    + destruct (Hf i q Hi) as (pt & Hpt & Hl). exists pt. by replace (k + S i)%nat with (S k + i)%nat by lia.
  - intros pt Hpt. rewrite Ho.
    + apply lookup_insert_ne. intros <-. apply (Hpt O); [simpl; lia|]. by rewrite Nat.add_0_r.
    + intros i Hi. replace (S k + i)%nat with (k + S i)%nat by lia. apply Hpt. simpl. lia.
Qed.

Lemma load_shards files parse (parts : list (list row)) : ∀ uris payloads,
  Forall2 (λ u p, ∃ path, resolveLocalFilePath root u = Ok path ∧ files !! path = Some p) uris payloads →
  Forall2 (λ p part, parse p = Ok part) payloads parts →
  loadRowsAcrossURIs root files uris parse = Ok (concat parts, total_bytes payloads).
Proof.
  induction parts as [|part parts IH]; intros uris payloads Hu Hp; inversion Hp; subst; inversion Hu as [|u ? us ? (path & Hr & Hl)]; subst; [done|].
  simpl. rewrite Hr. simpl. rewrite Hl. simpl.
  match goal with Hx : parse _ = Ok part |- _ => rewrite Hx end. simpl. by erewrite IH.
Qed.

Lemma each_ok {A B} (f : A → F B) l bs : each f l = Ok bs ↔ Forall2 (λ a b, f a = Ok b) l bs.
Proof.
  revert bs. induction l as [|a l IH]; intros bs; simpl.
  - split; [intros [= <-]; constructor|inversion 1; done].
  - rewrite res_bind_ok. split.
    + intros (b & Hb & Hr). apply res_bind_ok in Hr as (bs' & Hbs & [= <-]). constructor; [done|by apply IH].
    + inversion 1 as [|? b ? bs' Hb Hbs]; subst. exists b. split; [done|]. apply res_bind_ok. exists bs'. split; [by apply IH|done].
Qed.

(** A format whose files are read back as [image], row by row. *)
Section Any.
Variables (format fieldDelimiter compression : string) (printHeader : bool) (sch : schema).
Variables (parse : string → F (list row)) (image : row → option row) (fit : row → Prop).
Hypothesis reads_back : ∀ part payload, Forall fit part →
  encodeExtractPayload format sch part fieldDelimiter printHeader compression = Ok payload → parse payload = Ok (omap image part).

Lemma extract_then_load files maxBytes uri rows files' n :
  writeExtractDestinations root writable files maxBytes [uri] format sch rows fieldDelimiter printHeader compression =
    (files', Ok n) →
  (∀ path, resolveLocalFilePath root uri = Ok path → count_char "*" path = count_char "*" uri) → Forall fit rows →
  ∃ shards, ∀ uris, length uris = shards →
    (∀ i u, uris !! i = Some u → resolveLocalFilePath root u = shard_path uri i) →
    loadRowsAcrossURIs root files' uris parse = Ok (omap image rows, n).
Proof.
  intros Hw Hstar Hfit.
  assert (∃ parts payloads, concat parts = rows ∧
    Forall2 (λ part p, encodeExtractPayload format sch part fieldDelimiter printHeader compression = Ok p) parts payloads ∧
    writeExtractShards root writable files [uri] (imap (λ i p, ((0 + i)%nat, p)) payloads) = (files', Ok n) ∧
    (shards_apart uri ∨ (length payloads ≤ 1)%nat)) as (parts & payloads & <- & Henc & Hws & Hap).
  { unfold writeExtractDestinations in Hw. destruct (encodeExtractPayload _ _ rows _ _ _) as [full|e|] eqn:Ef; try done.
    destruct (_ || _) eqn:Eb.
    { exists [rows], [full]. split_and!; [simpl; by rewrite app_nil_r|by repeat constructor|done|right; simpl; lia]. }
    destruct (count_char "*" uri =? 1)%nat eqn:Ec; [|done]. apply Nat.eqb_eq in Ec.
    destruct (each _ _) as [payloads|e|] eqn:Ee; try done. apply each_ok in Ee.
    rewrite !orb_false_iff in Eb. destruct Eb as [[Em Ebytes] Er]. apply Nat.leb_gt in Er.
    apply Z.leb_gt in Em, Ebytes.
    exists (shard_rows (Z.of_nat (String.length full)) maxBytes rows), payloads.
    split_and!; [|exact Ee|exact Hw|].
    - apply (shard_rows_partition (Z.of_nat (String.length full)) maxBytes rows); [by destruct rows; simpl in Er; [lia|]|lia|lia].
    - destruct (resolveLocalFilePath root uri) as [path|e|] eqn:Er'.
      + left. apply (wildcard_apart uri path); [done|]. by rewrite Hstar.
      + left. intros i j p. unfold resolveNumberedShardPath. by rewrite Er'.
      + left. intros i j p. unfold resolveNumberedShardPath. by rewrite Er'. }
  apply shards_written in Hws as (-> & Hf & _); [|done]. exists (length payloads). intros uris Hlen Hu.
  set (kept := λ part : list row, (omap image part : list row)). change (omap image (concat parts)) with (kept (concat parts)).
  assert (concat (kept <$> parts) = kept (concat parts)) as <-.
  { clear. induction parts as [|p parts IH]; [done|]. csimpl. subst kept. simpl in *. by rewrite omap_app, IH. }
  apply load_shards.
  - apply Forall2_same_length_lookup_2; [done|]. intros i u p Hi Hp. destruct (Hf i p Hp) as (path & Hpath & Hl).
    exists path. by rewrite (Hu i u Hi).
  - apply Forall2_fmap_r, Forall2_flip, Forall2_same_length_lookup_2; [by rewrite (Forall2_length _ _ _ Henc)|].
    intros i part p Hi Hp. apply reads_back; [|exact (Forall2_lookup_lr _ _ _ i part p Henc Hi Hp)].
    rewrite Forall_forall in *. intros r Hr. apply Hfit. apply list_elem_of_In, in_concat. exists part.
    split; [by eapply list_elem_of_In, list_elem_of_lookup_2|by apply list_elem_of_In].
Qed.
End Any.

(** ** CSV *)

(** The row a CSV row is read back as: NULL becomes "", "\r\n" becomes "\n", and a
    row of one column that is "" is lost. *)
Definition csv_image (sch : schema) (r : row) : option row :=
  let cells := csv_cells sch r in if blank cells then None else Some (normalised cells).

Lemma csv_cells_length sch r : length (csv_cells sch r) = length sch.
Proof. apply length_imap. Qed.

Lemma check_widths_ok width i records : Forall (λ r, length r = width) records → check_widths width i records = Ok tt.
Proof.
  intros Hf. revert i. induction Hf as [|r records Hr _ IH]; intros i; [done|]. simpl. by rewrite Hr, Nat.eqb_refl.
Qed.

Lemma omap_image sch (rows : list row) :
  omap (csv_image sch) rows = normalised <$> filter (λ r, blank r = false) (csv_cells sch <$> rows).
Proof.
  induction rows as [|r rows IH]; [done|]. csimpl. rewrite IH, filter_cons. unfold csv_image.
  destruct (blank (csv_cells sch r)); [by rewrite decide_False|by rewrite decide_True].
Qed.

Lemma csv_reads_back sch (rows : list row) fieldDelimiter printHeader payload :
  validDelim (csv_comma fieldDelimiter) = true → (printHeader = true → blank (Name <$> sch) = false) →
  encodeCSV sch rows fieldDelimiter printHeader = Ok payload →
  parseCSVRows payload sch fieldDelimiter (if printHeader then 1 else 0) = Ok (omap (csv_image sch) rows).
Proof.
  intros Hd Hh. unfold encodeCSV, parseCSVRows. destruct (reject_nested sch) as [u|e|]; try done. cbn [mbind res_bind].
  destruct (csv_read_write fieldDelimiter ((if printHeader then [Name <$> sch] else []) ++ (csv_cells sch <$> rows)) Hd)
    as (text & Hw & Hr). rewrite Hw. simpl. intros [= <-]. rewrite Hr. clear Hw Hr. cbn [csv_error mbind res_bind].
  rewrite filter_app, fmap_app, <-omap_image.
  assert (∀ header, length header = (if printHeader then 1 else 0)%nat →
    skip_records (if printHeader then 1 else 0) (header ++ omap (csv_image sch) rows) = Ok (omap (csv_image sch) rows)) as Hs.
  { intros header Hl. unfold skip_records. destruct printHeader; simpl.
    - destruct header as [|x [|y l]]; simpl in *; try lia. by rewrite Nat2Z.inj_succ, Z.min_l by lia.
    - destruct header; [|done]. rewrite Z.min_l by lia. done. }
  rewrite Hs.
  - cbn [mbind res_bind]. rewrite check_widths_ok; [done|]. rewrite omap_image, Forall_fmap, Forall_forall. simpl.
    intros r [_ Hr]%list_elem_of_filter. unfold normalised. rewrite length_fmap.
    apply list_elem_of_fmap in Hr as (x & -> & _). apply csv_cells_length.
  - destruct printHeader; [|done]. by rewrite filter_cons_True by (by apply Hh).
Qed.

Definition plain_row (sch : schema) (r : row) : Prop :=
  length r = length sch ∧ Forall (λ c, loadStoredCell c = (c, false) ∧ crlf c = c) r.

Lemma csv_image_plain sch (rows : list row) :
  (2 ≤ length sch)%nat → Forall (plain_row sch) rows → omap (csv_image sch) rows = rows.
Proof.
  intros Hl Hr. induction Hr as [|r rows [Hlen Hc] _ IH]; [done|]. csimpl. rewrite IH. unfold csv_image.
  assert (csv_cells sch r = r) as ->.
  { unfold csv_cells. apply list_eq. intros i. rewrite list_lookup_imap. destruct (sch !! i) as [f|] eqn:Ef; simpl.
    - destruct (r !! i) as [c|] eqn:Ec; [|apply lookup_ge_None in Ec; apply lookup_lt_Some in Ef; lia].
      destruct (proj1 (Forall_lookup _ _) Hc i c Ec) as [Hcell _]. by rewrite Hcell.
    - apply lookup_ge_None in Ef. symmetry. apply lookup_ge_None. lia. }
  assert (normalised r = r) as ->.
  { unfold normalised. clear Hlen. induction Hc as [|c r [_ Hcr] _ IHr]; [done|]. csimpl. by rewrite Hcr, IHr. }
  unfold blank. rewrite !bool_decide_false; [done|intros ->; simpl in *; lia..].
Qed.

Lemma gunzip_gzip payload compression :
  (∀ s, gunzip (gzip s) = Some s) → maybeGunzip (maybeGzip payload compression) compression = Ok payload.
Proof. intros Hg. unfold maybeGunzip, maybeGzip. case_bool_decide; [by rewrite Hg|done]. Qed.

(** C18. CSV files are read back: when an extract job writes a table as CSV, to one
    file or to shards, plain or compressed, with or without a header, a load of
    those files in order gives the rows again - every value, with NULL read as
    the empty string and "\r\n" as "\n"; only a row of a one-column table that is
    empty or NULL is lost.  A table of two or more columns whose cells have
    neither comes back unchanged. *)
Theorem csv_extract_load (files files' : disk) (maxBytes n : Z) (uri : string) (sch : schema) (rows : list row)
    (fieldDelimiter compression c : string) (printHeader : bool) :
  (∀ s, gunzip (gzip s) = Some s) → validDelim (csv_comma fieldDelimiter) = true →
  (printHeader = true → blank (Name <$> sch) = false) →
  (∀ path, resolveLocalFilePath root uri = Ok path → count_char "*" path = count_char "*" uri) →
  normalizeExtractCompression "CSV" compression = Ok c →
  writeExtractDestinations root writable files maxBytes [uri] "CSV" sch rows fieldDelimiter printHeader c = (files', Ok n) →
  (∃ shards, ∀ uris, length uris = shards →
     (∀ i u, uris !! i = Some u → resolveLocalFilePath root u = shard_path uri i) →
     readRowsFromURIs root files' "CSV" uris fieldDelimiter (if printHeader then 1 else 0) sch compression =
       Ok (omap (csv_image sch) rows, n)) ∧
  ((2 ≤ length sch)%nat → Forall (plain_row sch) rows → omap (csv_image sch) rows = rows).
Proof.
  intros Hg Hd Hh Hs Hc Hw. split; [|apply csv_image_plain]. unfold readRowsFromURIs, loadRowsParser.
  change (load_format "CSV") with "CSV". assert (normalizeLoadCompression "CSV" compression = Ok c) as -> by exact Hc.
  cbn [mbind res_bind]. rewrite (bool_decide_false ("CSV" = "NEWLINE_DELIMITED_JSON")), bool_decide_true by done. cbn [mbind res_bind].
  eapply (extract_then_load _ _ _ _ _ _ _ (λ _, True)); [|exact Hw|exact Hs|by apply Forall_true]. intros part payload _. unfold encodeExtractPayload.
  rewrite (bool_decide_false ("CSV" = "NEWLINE_DELIMITED_JSON")), bool_decide_true by done. intros Hp.
  apply res_bind_ok in Hp as (text & Ht & [= <-]). rewrite gunzip_gzip by done. by apply csv_reads_back.
Qed.

(** ** Avro and Parquet *)

(** The cell a typed file gives back: a text that is not of its column's type has
    become the zero value, and numbers and booleans are in their standard form. *)
Definition typed_cell (f : tableField) (cell : string) : string :=
  let '(v, isNull) := loadStoredCell cell in
  if isNull then storedNullCell
  else match value_cell (plainStringToAvroValue v (Type_ f)) with Ok t => t | _ => "" end.
Definition typed_row (sch : schema) (r : row) : row :=
  imap (λ i f, match r !! i with Some cell => typed_cell f cell | None => storedNullCell end) sch.

Lemma value_cell_plain v t : ∃ text, value_cell (plainStringToAvroValue v t) = Ok text.
Proof. unfold plainStringToAvroValue. repeat case_bool_decide; simpl; by eexists. Qed.

Lemma unwrap_plain v t : unwrapAvroUnion (plainStringToAvroValue v t) = plainStringToAvroValue v t.
Proof. unfold plainStringToAvroValue. by repeat case_bool_decide. Qed.

Lemma avro_cell cell f : value_cell (unwrapAvroUnion (stringToAvroValue cell f)) = Ok (typed_cell f cell).
Proof.
  unfold stringToAvroValue, typed_cell. destruct (loadStoredCell cell) as [v [|]]; [done|].
  destruct (value_cell_plain v (Type_ f)) as [t Ht]. destruct (is_required f); cbn [unwrapAvroUnion]; rewrite ?unwrap_plain, Ht; done.
Qed.
Lemma parquet_cell cell f : value_cell (id (stringToParquetValue cell f)) = Ok (typed_cell f cell).
Proof.
  unfold stringToParquetValue, typed_cell, id. destruct (loadStoredCell cell) as [v [|]]; [done|].
  destruct (value_cell_plain v (Type_ f)) as [t Ht]. by rewrite Ht.
Qed.

Lemma record_get_elem (record : fileRecord) k v : NoDup record.*1 → (k, v) ∈ record → record_get record k = v.
Proof. intros Hn Hin. unfold record_get. by rewrite (find_last _ k v). Qed.

Lemma typed_reads convert unwrap sch (rows : list row) :
  (∀ cell f, value_cell (unwrap (convert cell f)) = Ok (typed_cell f cell)) → unwrap FNull = FNull →
  NoDup (Name <$> sch) →
  typed_rows unwrap sch (typed_record convert sch <$> rows) = Ok (typed_row sch <$> rows).
Proof.
  intros Hc Hu Hn. unfold typed_rows. apply each_ok. apply Forall2_fmap. apply Forall_Forall2_diag, Forall_forall. intros r _.
  apply each_ok. apply Forall2_same_length_lookup_2; [unfold typed_row; by rewrite length_imap|].
  intros i f cell Hf Hcell. unfold typed_row in Hcell. rewrite list_lookup_imap, Hf in Hcell. simpl in Hcell. simplify_eq.
  erewrite record_get_elem; [|..].
  - instantiate (1 := match r !! i with Some c => convert c f | None => FNull end). destruct (r !! i); [apply Hc|by rewrite Hu].
  - assert ((typed_record convert sch r).*1 = Name <$> sch) as ->; [|done]. unfold typed_record. rewrite fmap_imap.
    apply list_eq. intros j. rewrite list_lookup_imap, list_lookup_fmap. by destruct (sch !! j).
  - unfold typed_record. apply list_elem_of_lookup. exists i. by rewrite list_lookup_imap, Hf.
Qed.

Definition typed_image (sch : schema) (r : row) : option row := Some (typed_row sch r).
Lemma omap_typed_image sch (rows : list row) : omap (typed_image sch) rows = typed_row sch <$> rows.
Proof. induction rows as [|r rows IH]; [done|]. csimpl. by rewrite IH. Qed.

Definition parses_back (format fieldDelimiter c : string) (printHeader : bool) (sch : schema) (parse : string → F (list row)) : Prop :=
  loadRowsParser format fieldDelimiter 0 sch "" = Ok parse ∧ ∀ part payload,
    encodeExtractPayload format sch part fieldDelimiter printHeader c = Ok payload → parse payload = Ok (omap (typed_image sch) part).

Lemma avro_parses_back fieldDelimiter c printHeader sch :
  (∀ sj codec records file, avro_encode sj codec records = Some file → avro_decode file = Some records) →
  NoDup (Name <$> sch) → parses_back "AVRO" fieldDelimiter c printHeader sch (λ data, parseAvroRows data sch).
Proof.
  intros Ha Hn. split.
  - unfold loadRowsParser. change (load_format "AVRO") with "AVRO".
    assert (normalizeLoadCompression "AVRO" "" = Ok "NONE") as -> by (vm_compute; reflexivity). cbn [mbind res_bind].
    by rewrite (bool_decide_false ("AVRO" = "NEWLINE_DELIMITED_JSON")), (bool_decide_false ("AVRO" = "CSV")), bool_decide_true by done.
  - intros part payload. rewrite omap_typed_image. unfold encodeExtractPayload, encodeAvro, parseAvroRows.
    rewrite (bool_decide_false ("AVRO" = "NEWLINE_DELIMITED_JSON")), (bool_decide_false ("AVRO" = "CSV")), bool_decide_true by done.
    intros He. apply res_bind_ok in He as ([] & Hr & He). rewrite Hr. simpl. destruct (avro_encode _ _ _) eqn:Ee; [|done].
    simplify_eq/=. rewrite (Ha _ _ _ _ Ee). simpl. by apply typed_reads; [apply avro_cell|..].
Qed.

Lemma parquet_parses_back fieldDelimiter c printHeader sch :
  (∀ columns codec records file, parquet_encode columns codec records = Some file → parquet_decode columns file = Ok records) →
  NoDup (Name <$> sch) → parses_back "PARQUET" fieldDelimiter c printHeader sch (λ data, parseParquetRows data sch).
Proof.
  intros Hp Hn. split.
  - unfold loadRowsParser. change (load_format "PARQUET") with "PARQUET".
    assert (normalizeLoadCompression "PARQUET" "" = Ok "NONE") as -> by (vm_compute; reflexivity). cbn [mbind res_bind].
    by rewrite (bool_decide_false ("PARQUET" = "NEWLINE_DELIMITED_JSON")), (bool_decide_false ("PARQUET" = "CSV")),
      (bool_decide_false ("PARQUET" = "AVRO")), bool_decide_true by done.
  - intros part payload. rewrite omap_typed_image. unfold encodeExtractPayload, encodeParquet, parseParquetRows.
    rewrite (bool_decide_false ("PARQUET" = "NEWLINE_DELIMITED_JSON")), (bool_decide_false ("PARQUET" = "CSV")),
      (bool_decide_false ("PARQUET" = "AVRO")), bool_decide_true by done.
    intros He. apply res_bind_ok in He as ([] & Hr & He). rewrite Hr. simpl. destruct (parquet_encode _ _ _) eqn:Ee; [|done].
    simplify_eq/=. rewrite (Hp _ _ _ _ Ee). by apply typed_reads; [apply parquet_cell|..].
Qed.

(** Avro and Parquet files are read back: when an extract job writes a table as
    AVRO or PARQUET and the container format preserves its records, a load of the
    files gives every row again, NULLs included, with each value in the standard
    form of its column's type; rows whose values already are come back unchanged. *)
Theorem typed_extract_load (format : string) (files files' : disk) (maxBytes n : Z) (uri : string) (sch : schema)
    (rows : list row) (fieldDelimiter compression c : string) (printHeader : bool) :
  (∀ sj codec records file, avro_encode sj codec records = Some file → avro_decode file = Some records) →
  (∀ columns codec records file, parquet_encode columns codec records = Some file → parquet_decode columns file = Ok records) →
  format ∈ ["AVRO"; "PARQUET"] → NoDup (Name <$> sch) →
  (∀ path, resolveLocalFilePath root uri = Ok path → count_char "*" path = count_char "*" uri) →
  normalizeExtractCompression format compression = Ok c →
  writeExtractDestinations root writable files maxBytes [uri] format sch rows fieldDelimiter printHeader c = (files', Ok n) →
  (∃ shards, ∀ uris, length uris = shards →
     (∀ i u, uris !! i = Some u → resolveLocalFilePath root u = shard_path uri i) →
     readRowsFromURIs root files' format uris fieldDelimiter 0 sch "" = Ok (typed_row sch <$> rows, n)) ∧
  (Forall (λ r, Forall2 (λ f c, typed_cell f c = c) sch r) rows → typed_row sch <$> rows = rows).
Proof.
  intros Ha Hp Hf Hn Hs Hc Hw. split.
  - assert (∃ parse, parses_back format fieldDelimiter c printHeader sch parse) as (parse & Hparse & Hback).
    { apply elem_of_cons in Hf as [->|Hf]; [by eexists; apply avro_parses_back|].
      apply list_elem_of_singleton in Hf as ->. by eexists; apply parquet_parses_back. }
    unfold readRowsFromURIs. rewrite Hparse. cbn [mbind res_bind]. rewrite <-omap_typed_image.
    eapply (extract_then_load _ _ _ _ _ _ _ (λ _, True)); [|exact Hw|done|by apply Forall_true]. intros part payload _. apply Hback.
  - intros Hr. clear Hw. induction Hr as [|r rows Hr _ IH]; [done|]. csimpl. rewrite IH. f_equal. unfold typed_row.
    apply list_eq. intros i. rewrite list_lookup_imap. destruct (sch !! i) as [f|] eqn:Ef; simpl.
    + destruct (Forall2_lookup_l _ _ _ _ _ Hr Ef) as (cell & Hcell & Hcc). by rewrite Hcell, Hcc.
    + symmetry. apply lookup_ge_None. apply lookup_ge_None in Ef. by rewrite <-(Forall2_length _ _ _ Hr).
Qed.

(** ** Newline-delimited JSON *)

#[local] Existing Instance json_numbers.

(** What the numbers of a JSON file rely on: floats are written as JSON numbers,
    integers of up to 53 bits survive their conversion to float64. *)
Definition float_laws : Prop :=
  (∀ f t, float_json f = Some t → number_literal t) ∧
  (∀ z, Z.abs z < 2 ^ 53 → ∃ f, parse_float (format_int z) = Some f ∧ float_plain f = format_int z).

(** Cells that a JSON file can carry: NULL, integers of up to 53 bits, floats that
    are printed as they were stored, booleans, UTF-8 text. *)
Definition value_safe (v : string) (value : F fileValue) : Prop :=
  match value with
  | Ok (FInt z) => v = format_int z ∧ Z.abs z < 2 ^ 53
  | Ok (FBool b) => v = if b then "true" else "false"
  | Ok (FFloat f) => ∃ t f', float_json f = Some t ∧ parse_float t = Some f' ∧ float_plain f' = v
  | Ok (FText _) => utf8_clean v = v
  | _ => False
  end.
Definition ndjson_safe (f : tableField) (cell : string) : Prop :=
  cell = storedNullCell ∨ ∃ v, cell = storeStringCell v ∧ value_safe v (stringToJSONValue cell f).

Definition flat (f : tableField) : Prop := Mode f ≠ "REPEATED" ∧ isRecordType (Type_ f) = false.

Lemma flat_value f v : flat f → ∃ value, stringToJSONValue (storeStringCell v) f = Ok value ∧
  (value = FText v ∨ (∃ z, value = FInt z) ∨ (∃ b, value = FBool b) ∨ ∃ x, value = FFloat x).
Proof.
  intros [Hm Hr]. unfold stringToJSONValue. rewrite load_store_cell, (bool_decide_false (Mode f = "REPEATED")), Hr by done. cbn [orb].
  eexists. split; [done|]. repeat case_bool_decide; [destruct (parse_int v)|destruct (parse_float v)|destruct (parse_bool v)|]; simpl; eauto 6.
Qed.

(** A safe cell is printed as a text that is read back as the cell. *)
Lemma safe_value f cell value :
  float_laws → flat f → ndjson_safe f cell → stringToJSONValue cell f = Ok value →
  ∀ text, marshal_value value = Ok text →
  ∃ j, prints j text ∧ numbers_ok j = true ∧ scalarValueToString j = cell.
Proof.
  intros [Hfl Hint] Hflat [->|(v & -> & Hs)] Hv text Ht.
  { unfold stringToJSONValue in Hv. change (loadStoredCell storedNullCell) with ("", true) in Hv. simplify_eq/=.
    exists JNull. split_and!; [apply prints_null|done..]. }
  destruct (flat_value f v Hflat) as (w & Hw & Hcases). rewrite Hw in Hv. injection Hv as <-. rewrite Hw in Hs.
  destruct Hcases as [->|[[z ->]|[[b ->]|[x ->]]]]; simpl in Hs, Ht.
  - injection Ht as <-. exists (JStr (utf8_clean v)). split_and!; [apply prints_string|done|]. simpl. by rewrite Hs.
  - destruct Hs as [-> Hz]. injection Ht as <-. destruct (Hint z Hz) as (x & Hx & Hpl).
    exists (JNum (format_int z)). split_and!; [apply prints_number, format_int_literal|simpl; by rewrite Hx, bool_decide_true|].
    simpl. by rewrite Hx, Hpl.
  - injection Ht as <-. exists (JBool b). split_and!; [apply prints_bool|done|]. simpl. by rewrite Hs; destruct b.
  - destruct Hs as (t & y & Hj & Hy & Hpl). rewrite Hj in Ht. injection Ht as <-.
    exists (JNum t). split_and!; [by apply prints_number, (Hfl x)|simpl; by rewrite Hy, bool_decide_true|]. simpl. by rewrite Hy, Hpl.
Qed.

Lemma keys_print (record : gmap string fileValue) (Q : string → json → Prop) : ∀ keys texts,
  (∀ k, k ∈ keys → ∀ text, marshal_value (default FNull (record !! k)) = Ok text →
     ∃ j, prints j text ∧ numbers_ok j = true ∧ Q k j) →
  each (λ k, text ← marshal_value (default FNull (record !! k)); Ok (json_quote k +:+ ":" +:+ text)) keys = Ok texts →
  ∃ ms ts, texts = member_text <$> ts ∧ ms.*1 = utf8_clean <$> keys ∧ members_print ms ts ∧
    forallb (λ m, numbers_ok m.2) ms = true ∧ Forall2 (λ k m, Q k m.2) keys ms.
Proof.
  induction keys as [|k keys IH]; intros texts Hk He; simpl in He.
  { injection He as <-. exists [], []. split_and!; done || constructor. }
  apply res_bind_ok in He as (x & Hx & He). apply res_bind_ok in Hx as (text & Ht & [= <-]).
  apply res_bind_ok in He as (xs & Hxs & [= <-]). destruct (Hk k ltac:(left) text Ht) as (j & Hp & Hn & HQ).
  destruct (IH xs) as (ms & ts & -> & Hks & Hms & Hall & Hf); [intros k' Hin; apply Hk; by right|done|].
  exists ((utf8_clean k, j) :: ms), ((k, text) :: ts). split_and!; csimpl.
  - done.
  - by rewrite Hks.
  - constructor; done.
  - by rewrite Hn.
  - constructor; done.
Qed.

Definition clean_name (f : tableField) : Prop := utf8_clean (Name f) = Name f.

Section Rows.
Variables (sch : schema) (r : row).
Hypotheses (laws : float_laws) (all_flat : Forall flat sch) (names : NoDup (Name <$> sch)) (clean_names : Forall clean_name sch).
Hypothesis safe : Forall2 ndjson_safe sch r.

Lemma record_values record : ndjson_record sch r = Ok record →
  (∀ i f cell, sch !! i = Some f → r !! i = Some cell → ∃ v, stringToJSONValue cell f = Ok v ∧ record !! Name f = Some v) ∧
  (∀ k, is_Some (record !! k) → ∃ i f cell, sch !! i = Some f ∧ r !! i = Some cell ∧ Name f = k).
Proof.
  unfold ndjson_record. intros He. apply res_bind_ok in He as (members & Hm & [= <-]). apply each_ok in Hm.
  assert (∀ i f cell, sch !! i = Some f → r !! i = Some cell → ∃ v, stringToJSONValue cell f = Ok v ∧ members !! i = Some (Name f, v)) as Hval.
  { intros i f cell Hf Hc. eapply (Forall2_lookup_l _ _ _ i) in Hm as ([k v] & Hi & Hv).
    2:{ rewrite list_lookup_imap, Hf. done. }
    cbv beta in Hv. rewrite Hc in Hv. unfold id in Hv. apply res_bind_ok in Hv as (w & Hw & [= <- <-]). by exists w. }
  assert (members.*1 = Name <$> sch) as Hk.
  { pose proof (Forall2_length _ _ _ Hm) as Hlen. rewrite length_imap in Hlen. apply list_eq. intros i. rewrite !list_lookup_fmap.
    destruct (sch !! i) as [f|] eqn:Hf; simpl.
    - destruct (Forall2_lookup_l _ _ _ _ _ safe Hf) as (cell & Hc & _). destruct (Hval i f cell Hf Hc) as (v & _ & Hi). by rewrite Hi.
    - apply lookup_ge_None in Hf. rewrite (lookup_ge_None_2 members) by lia. done. }
  assert (list_to_map (reverse members) = (list_to_map members : gmap string fileValue)) as ->.
  { apply list_to_map_proper; [by rewrite reverse_Permutation, Hk|by rewrite reverse_Permutation]. }
  split.
  - intros i f cell Hf Hc. destruct (Hval i f cell Hf Hc) as (v & Hv & Hi). exists v. split; [done|].
    apply elem_of_list_to_map_1; [by rewrite Hk|]. by eapply list_elem_of_lookup_2.
  - intros k [v Hv]. apply elem_of_list_to_map_2 in Hv. assert (k ∈ Name <$> sch) as Hin by (rewrite <-Hk; apply list_elem_of_fmap; by exists (k, v)).
    apply list_elem_of_fmap in Hin as (f & -> & Hf). apply list_elem_of_lookup in Hf as [i Hf].
    destruct (Forall2_lookup_l _ _ _ _ _ safe Hf) as (cell & Hc & _). eauto 6.
Qed.

Lemma names_unique i j f g : sch !! i = Some f → sch !! j = Some g → Name f = Name g → i = j.
Proof.
  intros Hf Hg E. apply (NoDup_lookup (Name <$> sch) i j (Name f)); [done|by rewrite list_lookup_fmap, Hf|rewrite E; by rewrite list_lookup_fmap, Hg].
Qed.

(** One line of the file, and the row it is read as. *)
Lemma safe_line record text : ndjson_record sch r = Ok record → marshal_record record = Ok text →
  ∃ ms body, prints (JObj ms) text ∧ forallb (λ m, numbers_ok m.2) ms = true ∧ parseNDJSONRow ms sch = r ∧
    text = "{" +:+ body +:+ "}".
Proof.
  intros Hr Ht. destruct (record_values record Hr) as [Hval Hdom]. unfold marshal_record in Ht.
  apply res_bind_ok in Ht as (texts & Htexts & [= <-]).
  destruct (keys_print record (λ k j, ∀ i f cell, sch !! i = Some f → r !! i = Some cell → Name f = k → scalarValueToString j = cell)
    (sorted_keys record) texts) as (ms & ts & -> & Hk & Hms & Hn & HQ); [|done|].
  { intros k Hin%elem_of_sorted_keys text Htext. destruct (Hdom k) as (i & f & cell & Hf & Hc & <-); [done|].
    destruct (Hval i f cell Hf Hc) as (v & Hv & Hl). rewrite Hl in Htext. simpl in Htext.
    destruct (safe_value f cell v laws) with (text := text) as (j & Hp & Hj & Hcell); [|by eapply Forall2_lookup_lr|done|done|].
    { by eapply Forall_lookup_1. }
    exists j. split_and!; [done|done|]. intros i' f' cell' Hf' Hc' E. rewrite (names_unique i' i f' f) in * by done. congruence. }
  exists ms, (join "," (member_text <$> ts)). split_and!; [by apply prints_object|done| |done].
  unfold parseNDJSONRow. apply list_eq. intros i. rewrite list_lookup_fmap. destruct (sch !! i) as [f|] eqn:Hf; simpl.
  - destruct (Forall2_lookup_l _ _ _ _ _ safe Hf) as (cell & Hc & _). rewrite Hc. f_equal.
    destruct (Hval i f cell Hf Hc) as (v & _ & Hl).
    assert (Name f ∈ sorted_keys record) as Hin by (apply elem_of_sorted_keys; by eexists).
    apply list_elem_of_lookup in Hin as [n Hin]. destruct (Forall2_lookup_l _ _ _ _ _ HQ Hin) as ([k' j] & Hm & Hq).
    assert (k' = Name f) as ->.
    { assert (ms.*1 !! n = Some (utf8_clean (Name f))) as E by (by rewrite Hk, list_lookup_fmap, Hin).
      rewrite list_lookup_fmap, Hm in E. simpl in E. simplify_eq. by eapply (Forall_lookup_1 _ _ _ _ clean_names). }
    unfold obj_get, obj_lookup. rewrite (find_last ms (Name f) j); [by apply (Hq i f cell)| |by eapply list_elem_of_lookup_2].
    assert (ms.*1 = sorted_keys record) as ->; [|apply NoDup_sorted_keys].
    rewrite Hk. apply list_eq. intros m. rewrite list_lookup_fmap. destruct (sorted_keys record !! m) as [k|] eqn:Em; [|done]. simpl. f_equal.
    destruct (Hdom k) as (i' & f' & cell' & Hf' & _ & <-); [apply elem_of_sorted_keys; by eapply list_elem_of_lookup_2|].
    by eapply (Forall_lookup_1 _ _ _ _ clean_names).
  - symmetry. apply lookup_ge_None. apply lookup_ge_None in Hf. by rewrite <-(Forall2_length _ _ _ safe).
Qed.
End Rows.

Lemma braces_trimmed body : let t := "{" +:+ body +:+ "}" in trim_space t = t ∧ drop_return t = t.
Proof.
  intros t. assert (∃ r, String.rev t = String "}" r) as [r Hr].
  { subst t. rewrite <-str_app_assoc, rev_append. by eexists. }
  split.
  - unfold trim_space. assert (trim_left t = t) as -> by reflexivity. unfold trim_right. rewrite Hr.
    change (trim_go (String.rev <$> space_encodings) 0 (String "}" r)) with (String "}" r). rewrite <-Hr. apply rev_rev.
  - unfold drop_return. by rewrite Hr.
Qed.

Definition row_text (sch : schema) (r : row) : F string := record ← ndjson_record sch r; marshal_record record.

(** A file of lines is scanned into those lines. *)
Lemma scan_lines_text lines :
  Forall (λ l, str_mem newline l = false ∧ drop_return l = l ∧ Z.of_nat (String.length l) < max_token) lines →
  scan_lines (foldr String.append "" ((λ l, l +:+ String newline "") <$> lines)) = (lines, false).
Proof.
  intros Hl. unfold scan_lines.
  assert (split_on newline (foldr String.append "" ((λ l, l +:+ String newline "") <$> lines)) = lines ++ [""]) as ->.
  { induction Hl as [|l lines (Hn & _) _ IH]; [done|]. csimpl. rewrite str_app_assoc, str_app_cons, str_app_nil, split_on_sep by done.
    by rewrite IH. }
  rewrite last_snoc, removelast_last. induction Hl as [|l lines (_ & Hd & Hlen) _ IH]; [done|]. cbn [take_tokens].
  rewrite (proj2 (Z.leb_gt _ _)) by done. by rewrite IH, Hd.
Qed.

Lemma ndjson_reads_back sch (rows : list row) text :
  float_laws → Forall flat sch → NoDup (Name <$> sch) → Forall clean_name sch →
  Forall (λ r, Forall2 ndjson_safe sch r ∧ ∀ t, row_text sch r = Ok t → Z.of_nat (String.length t) < max_token) rows →
  encodeNDJSON sch rows = Ok text → parseNDJSONLines text sch = Ok rows.
Proof.
  intros Hlaws Hflat Hnames Hclean Hrows Ht. unfold encodeNDJSON in Ht. apply res_bind_ok in Ht as (out & Hout & [= <-]).
  apply each_ok in Hout.
  assert (∃ lines, out = (λ l, l +:+ String newline "") <$> lines ∧
    Forall2 (λ r l, ∃ ms, decode_record l = Some ms ∧ parseNDJSONRow ms sch = r) rows lines ∧
    Forall (λ l, (str_mem newline l = false ∧ drop_return l = l ∧ Z.of_nat (String.length l) < max_token) ∧ trim_space l = l ∧ l ≠ "") lines)
    as (lines & -> & Hparse & Hshape).
  { induction Hout as [|r o rows out Ho Hout IH]; [by exists []|]. apply Forall_cons in Hrows as [[Hsafe Hlen] Hrows].
    destruct (IH Hrows) as (lines & -> & Hp & Hs). apply res_bind_ok in Ho as (record & Hr & Ho).
    apply res_bind_ok in Ho as (l & Hl & [= <-]).
    destruct (safe_line sch r Hlaws Hflat Hnames Hclean Hsafe record l Hr Hl) as (ms & body & Hpr & Hnum & Hrow & ->).
    destruct (braces_trimmed body) as [Htr Hdr]. exists (("{" +:+ body +:+ "}") :: lines). split_and!; [done| |].
    - constructor; [|done]. exists ms. split; [|done]. unfold decode_record, json_decode. rewrite (prints_unmarshal _ _ Hpr). simpl. by rewrite Hnum.
    - constructor; [|done]. split_and!; [by destruct Hpr|done| |done|done]. apply Hlen. unfold row_text. rewrite Hr. exact Hl. }
  unfold parseNDJSONLines. rewrite scan_lines_text by (eapply Forall_impl; [exact Hshape|]; by intros l [Hl _]).
  assert (∀ n, ndjson_rows n lines sch = Ok rows) as ->; [|done]. clear Hout Hrows.
  induction Hparse as [|r l rows lines (ms & Hd & Hr) _ IH]; intros n; [done|].
  apply Forall_cons in Hshape as [(_ & Htr & Hne) Hshape]. cbn [ndjson_rows]. rewrite Htr, bool_decide_false by done.
  rewrite Hd. cbn [need mbind res_bind]. by rewrite IH, Hr.
Qed.

(** C19. NDJSON files are read back: when an extract job writes a flat table as
    newline-delimited JSON, to one file or to shards, plain or compressed, a load
    of those files in order gives exactly the rows again, provided the cells are
    ones a JSON number or string can carry (integers of up to 53 bits, text that
    is UTF-8, floats and booleans in their standard form) and no line reaches the
    10 MiB the reader takes. *)
Theorem ndjson_extract_load (files files' : disk) (maxBytes n : Z) (uri : string) (sch : schema) (rows : list row)
    (fieldDelimiter compression c : string) (printHeader : bool) :
  float_laws → (∀ s, gunzip (gzip s) = Some s) →
  Forall flat sch → NoDup (Name <$> sch) → Forall clean_name sch →
  Forall (λ r, Forall2 ndjson_safe sch r ∧ ∀ t, row_text sch r = Ok t → Z.of_nat (String.length t) < max_token) rows →
  (∀ path, resolveLocalFilePath root uri = Ok path → count_char "*" path = count_char "*" uri) →
  normalizeExtractCompression "NEWLINE_DELIMITED_JSON" compression = Ok c →
  writeExtractDestinations root writable files maxBytes [uri] "NEWLINE_DELIMITED_JSON" sch rows fieldDelimiter printHeader c =
    (files', Ok n) →
  ∃ shards, ∀ uris, length uris = shards →
    (∀ i u, uris !! i = Some u → resolveLocalFilePath root u = shard_path uri i) →
    readRowsFromURIs root files' "NEWLINE_DELIMITED_JSON" uris fieldDelimiter 0 sch compression = Ok (rows, n).
Proof.
  intros Hlaws Hg Hflat Hnames Hclean Hrows Hs Hc Hw. unfold readRowsFromURIs, loadRowsParser.
  change (load_format "NEWLINE_DELIMITED_JSON") with "NEWLINE_DELIMITED_JSON".
  assert (normalizeLoadCompression "NEWLINE_DELIMITED_JSON" compression = Ok c) as -> by exact Hc.
  cbn [mbind res_bind]. rewrite bool_decide_true by done. cbn [mbind res_bind].
  assert (omap Some rows = rows) as <- by (clear; induction rows as [|r rows IH]; [done|]; csimpl; by rewrite IH).
  eapply (extract_then_load _ _ _ _ _ _ _ _); [|exact Hw|exact Hs|exact Hrows]. intros part payload Hpart.
  unfold encodeExtractPayload. rewrite bool_decide_true by done. intros Hp. apply res_bind_ok in Hp as (text & Ht & [= <-]).
  rewrite gunzip_gzip by done. cbn [mbind res_bind]. rewrite (ndjson_reads_back sch part) by done.
  f_equal. clear. induction part as [|r part IH]; [done|]. csimpl. by rewrite <-IH.
Qed.
End Roundtrip.

(** ** Exact float64s *)

(** Integers of fewer than 53 bits are read exactly. *)
Lemma decimal_parts_format z :
  decimal_parts (format_int z) = (bool_decide (z < 0), Z.abs z, 0).
Proof.
  assert (∀ p, let u := NilZero.string_of_uint (Pos.to_uint p) in
    span_digits u = (u, "") ∧ digits_value (u +:+ "") = Z.pos p ∧ (∀ r, u ≠ String "-" r)) as Hp.
  { intros p u. pose proof (format_int_literal (Z.pos p)) as Hl. change (format_int (Z.pos p)) with u in Hl.
    assert (all_digits u = true) as Hd.
    { subst u. unfold NilZero.string_of_uint. pose proof (string_of_uint_digits (Pos.to_uint p)). by destruct (Pos.to_uint p). }
    split_and!.
    - rewrite <-(str_app_nil_r u) at 1. by apply span_digits_app.
    - rewrite str_app_nil_r. unfold digits_value. pose proof (digits_of_format (Pos.to_nat p)) as Hf. unfold digits_of in Hf.
      rewrite positive_nat_Z in Hf. change (format_int (Z.pos p)) with u in Hf.
      destruct (NilEmpty.uint_of_string u); [|done]. simpl in Hf. congruence.
    - intros r ->. by simpl in Hd. }
  unfold decimal_parts. destruct z as [|p|p]; [done| |].
  - destruct (Hp p) as (Hs & Hv & Hm). change (format_int (Z.pos p)) with (NilZero.string_of_uint (Pos.to_uint p)).
    assert ((match NilZero.string_of_uint (Pos.to_uint p) with String "-" s => (true, s) | _ => (false, NilZero.string_of_uint (Pos.to_uint p)) end)
      = (false, NilZero.string_of_uint (Pos.to_uint p))) as ->.
    { destruct (NilZero.string_of_uint (Pos.to_uint p)) as [|c r]; [done|]. destruct c as [[] [] [] [] [] [] [] []]; try done. }
    rewrite Hs. cbv beta iota. rewrite Hv. done.
  - destruct (Hp p) as (Hs & Hv & _).
    change (format_int (Z.neg p)) with (String "-" (NilZero.string_of_uint (Pos.to_uint p))). cbv beta iota.
    rewrite Hs. cbv beta iota. rewrite Hv. done.
Qed.

Lemma float_of_format z : Z.abs z < 2 ^ 53 →
  ∃ f, float_of_literal (format_int z) = Some f ∧ float_integer f = Some z.
Proof.
  intros Hz. unfold float_of_literal. rewrite decimal_parts_format. cbv beta iota.
  destruct (Z.abs z =? 0) eqn:E0; [apply Z.eqb_eq in E0; exists (F64 0 0); split; [done|]; replace z with 0 by lia; done|].
  apply Z.eqb_neq in E0. rewrite (proj2 (Z.leb_le 0 0)) by lia. rewrite Z.pow_0_r, Z.mul_1_r, small_integer_float by lia.
  pose proof (Z.log2_nonneg (Z.abs z)). assert (Z.log2 (Z.abs z) < 53) by (apply Z.log2_lt_pow2; lia). cbn [f_m f_e].
  rewrite Z.log2_mul_pow2 by lia. rewrite (proj2 (Z.leb_gt _ _)) by lia. eexists. split; [done|]. case_bool_decide.
  - replace (- (Z.abs z * 2 ^ (52 - Z.log2 (Z.abs z)))) with (z * 2 ^ (52 - Z.log2 (Z.abs z))) by (rewrite Z.abs_neq by lia; ring).
    apply shifted_integer. lia.
  - rewrite shifted_integer by lia. by rewrite Z.abs_eq by lia.
Qed.

(** ** Concrete files *)

Section Concrete.
(** Exact float64s; only those that are integers have a text here. *)
#[local] Instance exact_floats : GoFloats := {|
  float64 := f64;
  parse_float := λ s, match parse_number s with Some (_, "") => float_of_literal s | _ => None end;
  sprint_float := λ s, s |}.
#[local] Instance integer_text : FloatText := {|
  float_plain := λ f, default "" (format_int <$> float_integer f);
  float_json := λ f, format_int <$> float_integer f;
  float_zero := F64 0 0 |}.

Lemma integer_text_laws : float_laws.
Proof.
  split.
  - intros f t. simpl. destruct (float_integer f) as [z|]; [|done]. intros [= <-]. apply format_int_literal.
  - intros z Hz. destruct (float_of_format z Hz) as (f & Hf & Hi). exists f. simpl. rewrite Hi. split; [|done].
    pose proof (parse_number_literal (format_int z) "" (format_int_literal z) I) as Hp. rewrite str_app_nil_r in Hp. by rewrite Hp.
Qed.

(** A container that holds one known table. *)
Definition demo_records : list fileRecord := [[("n", FUnion "long" (FInt 5)); ("s", FNull)]].
Definition is_demo (records : list fileRecord) : bool :=
  match records with
  | [[("n", FUnion "long" (FInt 5)); ("s", FNull)]] => true
  | _ => false
  end.
#[local] Instance demo_codecs : FileCodecs := {|
  gzip := λ s, "gz" +:+ s;
  gunzip := λ s, if has_prefix s "gz" then Some (str_drop 2 s) else None;
  avro_encode := λ _ _ records, if is_demo records then Some "avro" else None;
  avro_decode := λ file, if bool_decide (file = "avro") then Some demo_records else None;
  parquet_encode := λ _ _ _, None;
  parquet_decode := λ _ _, Panic |}.

Lemma demo_gzip s : gunzip (gzip s) = Some s.
Proof. simpl. by destruct s. Qed.
Lemma is_demo_spec records : is_demo records = true → records = demo_records.
Proof. unfold is_demo. repeat case_match; done. Qed.

Definition everywhere (path : string) : bool := true.
Definition demo_schema : schema := [TableField "n" "INT64" "" []; TableField "s" "STRING" "" []].
Definition demo_rows : list row := [["1"; "a,b"]; ["2"; "c"]; ["3"; "d"]].

(** Three rows do not fit in 8 bytes: they go to shard files. *)
Definition demo_extract (format : string) (rows : list row) (c : string) : disk * F Z :=
  writeExtractDestinations "" everywhere ∅ 8 ["/tmp/out-*.csv"] format demo_schema rows "" true c.

Lemma csv_extract_load_witness :
  let '(files, n) := demo_extract "CSV" demo_rows "GZIP" in
  n = Ok 34 ∧ size files = 3%nat ∧
  (∃ shards, ∀ uris, length uris = shards →
     (∀ i u, uris !! i = Some u → resolveLocalFilePath "" u = resolveNumberedShardPath "" "/tmp/out-*.csv" i) →
     readRowsFromURIs "" files "CSV" uris "" 1 demo_schema "gzip" = Ok (omap (csv_image demo_schema) demo_rows, 34)) ∧
  omap (csv_image demo_schema) demo_rows = demo_rows.
Proof.
  destruct (demo_extract "CSV" demo_rows "GZIP") as [files n] eqn:E.
  assert (n = Ok 34 ∧ size files = 3%nat) as [-> Hsize].
  { assert ((demo_extract "CSV" demo_rows "GZIP").2 = Ok 34) as E2 by (vm_compute; reflexivity).
    assert (size (demo_extract "CSV" demo_rows "GZIP").1 = 3%nat) as E1 by (vm_compute; reflexivity). rewrite E in E1, E2. exact (conj E2 E1). }
  destruct (csv_extract_load "" everywhere ∅ files 8 34 "/tmp/out-*.csv" demo_schema demo_rows "" "gzip" "GZIP" true) as [Hload Hsame].
  - apply demo_gzip.
  - vm_compute. reflexivity.
  - intros _. vm_compute. reflexivity.
  - intros path Hp. vm_compute in Hp. injection Hp as <-. reflexivity.
  - vm_compute. reflexivity.
  - exact E.
  - split_and!; [done|done|exact Hload|]. apply Hsame; [simpl; lia|]. repeat constructor.
Defined.

Lemma typed_extract_load_witness :
  let '(files, n) := demo_extract "AVRO" [["5"; storedNullCell]] "NONE" in
  n = Ok 4 ∧
  (∃ shards, ∀ uris, length uris = shards →
     (∀ i u, uris !! i = Some u → resolveLocalFilePath "" u = resolveNumberedShardPath "" "/tmp/out-*.csv" i) →
     readRowsFromURIs "" files "AVRO" uris "" 0 demo_schema "" = Ok (typed_row demo_schema <$> [["5"; storedNullCell]], 4)) ∧
  typed_row demo_schema <$> [["5"; storedNullCell]] = [["5"; storedNullCell]].
Proof.
  destruct (demo_extract "AVRO" [["5"; storedNullCell]] "NONE") as [files n] eqn:E.
  assert (n = Ok 4) as -> by (change n with (files, n).2; rewrite <-E; vm_compute; reflexivity).
  destruct (typed_extract_load "" everywhere "AVRO" ∅ files 8 4 "/tmp/out-*.csv" demo_schema [["5"; storedNullCell]] "" "" "NONE" true)
    as [Hload Hsame].
  - intros sj codec records file. simpl. destruct (is_demo records) eqn:Er; [|done]. intros [= <-]. apply is_demo_spec in Er as ->. done.
  - intros columns codec records file. done.
  - left.
  - apply (bool_decide_unpack _). by vm_compute.
  - intros path Hp. vm_compute in Hp. injection Hp as <-. reflexivity.
  - vm_compute. reflexivity.
  - exact E.
  - split_and!; [done|exact Hload|]. apply Hsame. repeat constructor.
Defined.

Lemma ndjson_extract_load_witness :
  let '(files, n) := demo_extract "NEWLINE_DELIMITED_JSON" demo_rows "NONE" in
  n = Ok 50 ∧ size files = 3%nat ∧
  ∃ shards, ∀ uris, length uris = shards →
    (∀ i u, uris !! i = Some u → resolveLocalFilePath "" u = resolveNumberedShardPath "" "/tmp/out-*.csv" i) →
    readRowsFromURIs "" files "NEWLINE_DELIMITED_JSON" uris "" 0 demo_schema "" = Ok (demo_rows, 50).
Proof.
  destruct (demo_extract "NEWLINE_DELIMITED_JSON" demo_rows "NONE") as [files n] eqn:E.
  assert (n = Ok 50 ∧ size files = 3%nat) as [-> Hsize].
  { assert ((demo_extract "NEWLINE_DELIMITED_JSON" demo_rows "NONE").2 = Ok 50) as E2 by (vm_compute; reflexivity).
    assert (size (demo_extract "NEWLINE_DELIMITED_JSON" demo_rows "NONE").1 = 3%nat) as E1 by (vm_compute; reflexivity). rewrite E in E1, E2. exact (conj E2 E1). }
  split_and!; [done|done|].
  apply (ndjson_extract_load "" everywhere ∅ files 8 50 "/tmp/out-*.csv" demo_schema demo_rows "" "" "NONE" true).
  - exact integer_text_laws.
  - exact demo_gzip.
  - by repeat constructor.
  - apply (bool_decide_unpack _). by vm_compute.
  - repeat constructor.
  - repeat (apply Forall_cons; split; [split; [constructor; [|constructor; [|constructor]]|
      intros t Ht; vm_compute in Ht; injection Ht as <-; vm_compute; reflexivity]|]); [..|constructor].
    all: right; first [exists "1"; split; [reflexivity|]|exists "2"; split; [reflexivity|]|exists "3"; split; [reflexivity|]
      |exists "a,b"; split; [reflexivity|]|exists "c"; split; [reflexivity|]|exists "d"; split; [reflexivity|]].
    all: vm_compute; try split; reflexivity.
  - intros path Hp. vm_compute in Hp. injection Hp as <-. reflexivity.
  - vm_compute. reflexivity.
  - exact E.
Defined.

(** A JSON integer of more than 53 bits is loaded as another integer. *)
Example large_integer_changes_on_load :
  (text ← encodeNDJSON [TableField "n" "INT64" "" []] [["9007199254740993"]];
   parseNDJSONLines text [TableField "n" "INT64" "" []]) = Ok [["9007199254740992"]].
Proof. vm_compute. reflexivity. Qed.

(** The rows of a one-column table that are empty or NULL vanish in a CSV file. *)
Example csv_loses_empty_rows :
  (text ← encodeCSV [TableField "s" "STRING" "" []] [["a"]; [""]; [storedNullCell]; ["b"]] "" false;
   parseCSVRows text [TableField "s" "STRING" "" []] "" 0) = Ok [["a"]; ["b"]].
Proof. vm_compute. reflexivity. Qed.

(** CSV cells are stored as they are read: a text that looks like the NULL tag is
    read as NULL. *)
Example csv_cell_not_escaped :
  (rows ← parseCSVRows (storedNullCell +:+ ",x") [TableField "s" "STRING" "" []; TableField "t" "STRING" "" []] "" 0;
   Ok (match rows with [[cell; _]] => loadStoredCell cell | _ => ("", false) end)) = Ok ("", true).
Proof. vm_compute. reflexivity. Qed.

(** With LOCAQL_FAKE_GCS_ROOT set to the working directory or to the root of the
    file system no object can be named: each "resolves outside" it. *)
Example gcs_root_unusable :
  resolveFakeGCSPath "." "gs://bucket/a.csv" = Err (OutsideRoot "gs://bucket/a.csv") ∧
  resolveFakeGCSPath "/" "gs://bucket/a.csv" = Err (OutsideRoot "gs://bucket/a.csv") ∧
  resolveFakeGCSPath "data/" "gs://bucket/a.csv" = Ok "data/bucket/a.csv".
Proof. split_and!; vm_compute; reflexivity. Qed.
End Concrete.
