(* ===== verification/StorageArrow.v ===== *)
(** * Rows as Arrow record batches (storage_arrow.go)

    The conversion of stored rows to a record batch, which the Storage Read API
    sends, and of a record batch to stored rows, which the Storage Write API
    receives, with the framing of IPC messages.  A type assertion that fails
    panics.  Times are nanoseconds since 1970; the conversions of the Arrow
    library between them and its own units, the text of a float64 (format 'g')
    and the payloads of IPC messages are the class [ArrowLib].  Lengths of
    messages are below 2^31. *)

From S2P Require Import Prelude GoStrings GoTime GoJson Cells TableModel Partitioning StorageWrite QueryParams.
From Stdlib Require Import Ascii DecimalString.

(** ** Values *)

Inductive arrowType :=
| ABoolean | AInt64 | AFloat64 | AString | ABinary | ADate32 | ATimestamp (utc : bool) | ATime64.
#[export] Instance arrowType_eq_dec : EqDecision arrowType.
Proof. solve_decision. Defined.

Record arrowField := ArrowField { af_Name : string; af_Type : arrowType; af_Nullable : bool }.

Inductive arrowValue `{GoFloats} :=
| AvBool (b : bool) | AvInt64 (z : Z) | AvFloat64 (f : float64) | AvString (s : string) | AvBinary (s : string)
| AvDate32 (d : Z) | AvTimestamp (us : Z) | AvTime64 (us : Z).

(** A record batch; a null is [None]. *)
Record arrowRecord `{GoFloats} := ArrowRecord {
  ar_Schema : list arrowField;
  ar_Columns : list (list (option arrowValue));
  ar_NumRows : nat;
}.
Arguments ArrowRecord {_}.

(** An IPC message before framing: its metadata and its body. *)
Abbreviation ipcPayload := (string * string)%type.

Class ArrowLib `{GoFloats} := {
  float_g : float64 → string;
  date32_from_time : Z → Z;
  date32_to_time : Z → Z;
  timestamp_from_time : Z → option Z;
  timestamp_to_time : Z → Z;
  time64_to_time : Z → Z;
  schema_payload : list arrowField → ipcPayload;
  record_payload : arrowRecord → option ipcPayload;
  (** [ipc.NewReader] on a stream and the first record of it. *)
  ipc_first_record : string → option arrowRecord;
}.

(** ** Times of day *)

(** The digits of a fraction of [10^k], without trailing zeros. *)
Fixpoint frac_digits (k : nat) (n : Z) : string :=
  match k with
  | O => ""
  | S k =>
      if n =? 0 then ""
      else String (digit (n `div` 10 ^ Z.of_nat k)) (frac_digits k (n `mod` 10 ^ Z.of_nat k))
  end.

(** [Format("15:04:05.999999999")] *)
Definition format_time_of_day (t : Z) : string :=
  let d := t `mod` day in
  fmt2 (d `div` hour) +:+ ":" +:+ fmt2 ((d `div` minute) `mod` 60) +:+ ":" +:+ fmt2 ((d `div` second) `mod` 60) +:+
  (let n := d `mod` second in if n =? 0 then "" else "." +:+ frac_digits 9 n).

(** [Format("2006-01-02 15:04:05.999999999")] in UTC *)
Definition format_datetime (t : Z) : string := format_date t +:+ " " +:+ format_time_of_day t.

(** The nanoseconds of a fraction: nine digits count, any more are read. *)
Fixpoint parse_frac (k : nat) (s : string) : option Z :=
  match s with
  | EmptyString => Some 0
  | String c r =>
      d ← digit_val c;
      match k with
      | O => parse_frac O r
      | S k => n ← parse_frac k r; Some (d * 10 ^ Z.of_nat k + n)
      end
  end.

(** [time.Parse] with the layouts of [parseStoredTimeOfDay]: both take a
    fraction of a second. *)
Definition parse_time_of_day (s : string) : option Z :=
  '(h, r) ← take_hour s;
  match r with
  | String ":" r =>
      '(m, r) ← take_num 2 0 r; _ ← GoTime.check (m <? 60);
      match r with
      | String ":" r =>
          '(sec, r) ← take_num 2 0 r; _ ← GoTime.check (sec <? 60);
          n ← match r with
              | EmptyString => Some 0
              | String "." (String _ _ as f) | String "," (String _ _ as f) => parse_frac 9 f
              | _ => None
              end;
          Some (h * hour + m * minute + sec * second + n)
      | _ => None
      end
  | _ => None
  end.

(** ** Types and schemas *)

Definition arrowFieldType (bqType : string) : option arrowType :=
  let t := to_upper bqType in
  if bool_decide (t ∈ ["BOOL"; "BOOLEAN"]) then Some ABoolean
  else if bool_decide (t ∈ ["INT64"; "INTEGER"]) then Some AInt64
  else if bool_decide (t ∈ ["FLOAT64"; "FLOAT"]) then Some AFloat64
  else if bool_decide (t = "STRING") then Some AString
  else if bool_decide (t = "BYTES") then Some ABinary
  else if bool_decide (t = "DATE") then Some ADate32
  else if bool_decide (t = "DATETIME") then Some (ATimestamp false)
  else if bool_decide (t = "TIMESTAMP") then Some (ATimestamp true)
  else if bool_decide (t = "TIME") then Some ATime64
  else None.

Inductive arrowErr :=
| ArrowNested (column : string) | ArrowUnmapped (column : string) | ArrowBadValue (column value : string)
| ArrowAbsent (column : string) | ArrowUnreadable.

Definition arrow_field (f : tableField) : res arrowErr arrowField :=
  if bool_decide (Mode f = "REPEATED") || isRecordType (Type_ f) then Err (ArrowNested (Name f))
  else match arrowFieldType (Type_ f) with
       | None => Err (ArrowUnmapped (Name f))
       | Some t => Ok (ArrowField (Name f) t (negb (bool_decide (normalizeMode (Mode f) = "REQUIRED"))))
       end.

(** The first failure of a loop. *)
Fixpoint each_arrow {A B} (f : A → res arrowErr B) (l : list A) : res arrowErr (list B) :=
  match l with
  | [] => Ok []
  | x :: l => y ← f x; ys ← each_arrow f l; Ok (y :: ys)
  end.

Definition buildArrowSchema (fields : schema) : res arrowErr (list arrowField) := each_arrow arrow_field fields.

(** ** Cells to values *)

Section Convert.
Context `{GoFloats} `{!ArrowLib} `{TimestampParser}.

Definition parseStoredDate (value : string) : option Z :=
  parse_date (trim_space (trim_char "034" value)).
Definition parseStoredTimeOfDay (value : string) : option Z :=
  parse_time_of_day (trim_space (trim_char "034" value)).

Definition time64_micros (t : Z) : Z :=
  (t `div` hour) * 3600000000 + ((t `mod` hour) `div` minute) * 60000000 + ((t `mod` minute) `div` second) * 1000000 +
  (t `mod` second) `div` 1000.

(** [appendArrowValue] into a builder of type [b], which the code asserts. *)
Definition appendArrowValue (b : arrowType) (bqType value : string) : res string arrowValue :=
  let append (t : arrowType) (v : option arrowValue) : res string arrowValue :=
    if bool_decide (b = t) then match v with Some v => Ok v | None => Err value end else Panic in
  let append_timestamp : res string arrowValue :=
    match b with
    | ATimestamp _ =>
        match t ← parsePartitionTimestamp value; timestamp_from_time t with
        | Some us => Ok (AvTimestamp us)
        | None => Err value
        end
    | _ => Panic
    end in
  let t := to_upper bqType in
  if bool_decide (t ∈ ["BOOL"; "BOOLEAN"]) then append ABoolean (AvBool <$> parse_bool value)
  else if bool_decide (t ∈ ["INT64"; "INTEGER"]) then append AInt64 (AvInt64 <$> parse_int value)
  else if bool_decide (t ∈ ["FLOAT64"; "FLOAT"]) then append AFloat64 (AvFloat64 <$> parse_float value)
  else if bool_decide (t = "STRING") then append AString (Some (AvString value))
  else if bool_decide (t = "BYTES") then append ABinary (Some (AvBinary value))
  else if bool_decide (t = "DATE") then append ADate32 (AvDate32 ∘ date32_from_time <$> parseStoredDate value)
  else if bool_decide (t = "DATETIME") || bool_decide (t = "TIMESTAMP") then append_timestamp
  else if bool_decide (t = "TIME") then append ATime64 (AvTime64 ∘ time64_micros <$> parseStoredTimeOfDay value)
  else Err value.

(** One cell of a row. *)
Definition arrow_cell (r : row) (i : nat) (field : tableField) (t : arrowType) : res arrowErr (option arrowValue) :=
  let '(value, isNull) := loadStoredCell (default "" (r !! i)) in
  if isNull then Ok None
  else match appendArrowValue t (Type_ field) value with
       | Ok v => Ok (Some v)
       | Err v => Err (ArrowBadValue (Name field) v)
       | Panic => Panic
       end.

Definition arrow_row (sch : list arrowField) (fields : schema) (r : row) : res arrowErr (list (option arrowValue)) :=
  each_arrow (λ '(i, (field, af)), arrow_cell r i field (af_Type af)) (imap pair (zip fields sch)).

Definition arrow_columns (n : nat) (values : list (list (option arrowValue))) : list (list (option arrowValue)) :=
  (λ i, omap (lookup i) values) <$> seq 0 n.

Definition buildArrowRecord (sch : list arrowField) (fields : schema) (rows : list row) : res arrowErr arrowRecord :=
  values ← each_arrow (arrow_row sch fields) rows;
  Ok (ArrowRecord sch (arrow_columns (length fields) values) (length rows)).

(** ** Values to cells *)

(** A non-null value of a column of type [bqType]. *)
Definition arrowColumnValueToString (v : arrowValue) (bqType : string) : res unit string :=
  let t := to_upper bqType in
  if bool_decide (t ∈ ["BOOL"; "BOOLEAN"]) then
    match v with AvBool b => Ok (if b then "true" else "false") | _ => Panic end
  else if bool_decide (t ∈ ["INT64"; "INTEGER"]) then match v with AvInt64 z => Ok (format_int z) | _ => Panic end
  else if bool_decide (t ∈ ["FLOAT64"; "FLOAT"]) then match v with AvFloat64 f => Ok (float_g f) | _ => Panic end
  else if bool_decide (t = "STRING") then match v with AvString s => Ok (storeStringCell s) | _ => Panic end
  else if bool_decide (t = "BYTES") then match v with AvBinary s => Ok (storeStringCell s) | _ => Panic end
  else if bool_decide (t = "DATE") then match v with AvDate32 d => Ok (format_date (date32_to_time d)) | _ => Panic end
  else if bool_decide (t = "DATETIME") || bool_decide (t = "TIMESTAMP") then
    match v with AvTimestamp us => Ok (format_datetime (timestamp_to_time us)) | _ => Panic end
  else if bool_decide (t = "TIME") then
    match v with AvTime64 us => Ok (format_time_of_day (time64_to_time us)) | _ => Panic end
  else Err ().

(** The cell of a field in row [r]; [column] is the batch's column of that name. *)
Definition record_cell (column : option (list (option arrowValue))) (r : nat) (f : tableField) : res arrowErr string :=
  match column with
  | None => Ok storedNullCell
  | Some c =>
      match c !! r with
      | None => Panic
      | Some None => Ok storedNullCell
      | Some (Some v) =>
          match arrowColumnValueToString v (Type_ f) with
          | Ok s => Ok s
          | Err _ => Err (ArrowUnmapped (Name f))
          | Panic => Panic
          end
      end
  end.

(** The first column of the field's name, which a REQUIRED field must have. *)
Definition record_column (rec : arrowRecord) (f : tableField) : res arrowErr (option (list (option arrowValue))) :=
  match list_find (λ af, af_Name af = Name f) (ar_Schema rec) with
  | Some (i, _) => match ar_Columns rec !! i with Some c => Ok (Some c) | None => Panic end
  | None => if bool_decide (normalizeMode (Mode f) = "REQUIRED") then Err (ArrowAbsent (Name f)) else Ok None
  end.

Definition arrowRecordToRows (rec : arrowRecord) (fields : schema) : res arrowErr (list row) :=
  columns ← each_arrow (record_column rec) fields;
  each_arrow (λ r, each_arrow (λ '(f, c), record_cell c r f) (zip fields columns)) (seq 0 (ar_NumRows rec)).

(** ** Messages *)

Definition arrowIPCContinuationToken : Z := 4294967295.
Definition arrowIPCAlignment : Z := 8.

(** [binary.LittleEndian.PutUint32] *)
Definition le32 (z : Z) : string :=
  String (chr (z `mod` 256)) (String (chr ((z `div` 256) `mod` 256))
    (String (chr ((z `div` 65536) `mod` 256)) (String (chr ((z `div` 16777216) `mod` 256)) ""))).

Fixpoint zero_bytes (n : nat) : string := match n with O => "" | S n => String "000" (zero_bytes n) end.

Definition serializeArrowIPCMessage (p : ipcPayload) : string :=
  let '(meta, body) := p in
  let metaLen := Z.of_nat (String.length meta) in
  let paddedLen := metaLen + 8 in
  let rem := Z.rem paddedLen arrowIPCAlignment in
  let paddedLen := if negb (rem =? 0) then paddedLen + (arrowIPCAlignment - rem) else paddedLen in
  le32 arrowIPCContinuationToken +:+ le32 (paddedLen - 8) +:+ meta +:+
  zero_bytes (Z.to_nat (paddedLen - metaLen - 8)) +:+ body.

Definition serializeArrowSchemaMessage (sch : list arrowField) : string :=
  serializeArrowIPCMessage (schema_payload sch).
Definition serializeArrowRecordBatchMessage (rec : arrowRecord) : option string :=
  serializeArrowIPCMessage <$> record_payload rec.

Definition arrowIPCEOSMarker : string := bytes [255; 255; 255; 255; 0; 0; 0; 0]%nat.

Definition decodeArrowRecordBatch (schemaBytes batchBytes : string) : option arrowRecord :=
  ipc_first_record (schemaBytes +:+ batchBytes +:+ arrowIPCEOSMarker).

Definition decodeArrowAppendRows (schemaBytes batchBytes : string) (fields : schema) : res arrowErr (list row) :=
  match decodeArrowRecordBatch schemaBytes batchBytes with
  | None => Err ArrowUnreadable
  | Some rec => arrowRecordToRows rec fields
  end.

End Convert.

(** ** Times are read back *)

Lemma parse_frac_digits k n : 0 ≤ n < 10 ^ Z.of_nat k → parse_frac k (frac_digits k n) = Some n.
Proof.
  revert n. induction k as [|k IH]; intros n Hn.
  { simpl. f_equal. change (10 ^ Z.of_nat 0) with 1 in Hn. lia. }
  cbn [frac_digits]. destruct (Z.eqb_spec n 0) as [->|H0]; [done|].
  rewrite Nat2Z.inj_succ, Z.pow_succ_r in Hn by lia. assert (0 < 10 ^ Z.of_nat k) by (apply Z.pow_pos_nonneg; lia).
  cbn [parse_frac]. rewrite digit_val_digit.
  - cbn [mbind option_bind]. rewrite IH by (apply Z.mod_pos_bound; lia). cbn [mbind option_bind]. f_equal.
    pose proof (Z.div_mod n (10 ^ Z.of_nat k)). lia.
  - split; [apply Z.div_pos; lia|]. apply Z.div_lt_upper_bound; lia.
Qed.

Lemma frac_digits_cons k n : n ≠ 0 → 0 < n < 10 ^ Z.of_nat k → ∃ c r, frac_digits k n = String c r.
Proof.
  intros H0 Hn. destruct k as [|k]; [change (10 ^ Z.of_nat 0) with 1 in Hn; lia|].
  cbn [frac_digits]. destruct (Z.eqb_spec n 0); [done|eauto].
Qed.

Lemma parse_format_time t : 0 ≤ t < day → parse_time_of_day (format_time_of_day t) = Some t.
Proof.
  intros Ht. unfold day in Ht. unfold format_time_of_day, parse_time_of_day. rewrite Z.mod_small by (unfold day; lia). cbv zeta.
  rewrite take_hour_fmt by (unfold hour; zlia). cbn [mbind option_bind].
  rewrite !(str_app_cons ":"), !str_app_nil. rewrite take_num_fmt2 by (unfold minute; zlia). cbn [mbind option_bind].
  assert ((((t `div` minute) `mod` 60) <? 60) = true) as -> by (unfold minute; zlia). cbn [GoTime.check mbind option_bind].
  rewrite take_num_fmt2 by (unfold second; zlia). cbn [mbind option_bind].
  assert ((((t `div` second) `mod` 60) <? 60) = true) as -> by (unfold second; zlia). cbn [GoTime.check mbind option_bind].
  destruct (Z.eqb_spec (t `mod` second) 0) as [E|E].
  - cbn [mbind option_bind]. f_equal. revert E. unfold hour, minute, second. zlia.
  - assert (Hn : 0 < t `mod` second < 10 ^ Z.of_nat 9) by (change (10 ^ Z.of_nat 9) with second; unfold second in *; zlia).
    destruct (frac_digits_cons 9 _ E Hn) as (c & r & Ec). rewrite str_app_cons, str_app_nil, Ec, <-Ec.
    rewrite parse_frac_digits by lia. cbn [mbind option_bind]. f_equal. unfold hour, minute, second. zlia.
Qed.

Lemma format_date_head t r : 0 ≤ year_of t ≤ 9999 → ∃ c s, format_date t +:+ r = String c s ∧ is_digit c = true.
Proof.
  unfold year_of, format_date. destruct (date_of t) as [[y m] d]. simpl. intros Hy.
  unfold fmt_year. assert ((0 <=? y) && (y <=? 9999) = true) as -> by lia. unfold fmt4.
  rewrite !str_app_cons. eexists _, _. split; [done|]. unfold digit.
  assert (0 ≤ y `div` 1000 < 10) as Hd by zlia. set (z := y `div` 1000) in *.
  assert (z ∈ [0;1;2;3;4;5;6;7;8;9]) as Hin by (rewrite !list_elem_of_cons || idtac; set_unfold; lia).
  set_unfold in Hin. by destruct_or! Hin; subst z; rewrite Hin.
Qed.

Lemma parse_format_date t : 0 ≤ year_of t ≤ 9999 → parse_date (format_date t) = Some (t `div` day * day).
Proof.
  unfold year_of, format_date. pose proof (date_of_valid t) as Hv. destruct (date_of t) as [[y m] d]. simpl. intros Hy.
  destruct (Hv y m d eq_refl) as (Hm & Hd & Ht). unfold parse_date.
  rewrite take_num_year by lia. cbn [mbind option_bind]. rewrite (str_app_cons "-"), str_app_nil.
  rewrite take_month_fmt by lia. cbn [mbind option_bind]. rewrite (str_app_cons "-"), str_app_nil.
  rewrite <-fmt2_nil, take_day_fmt by lia. cbn [mbind option_bind]. rewrite bool_decide_true by done. simpl. by rewrite Ht.
Qed.

(** ** Batches are read back *)

Definition time_byte (c : ascii) : bool := is_digit c || (c =? "-")%char || (c =? ":")%char || (c =? ".")%char.

Lemma digit_byte z : 0 ≤ z < 10 → time_byte (digit z) = true.
Proof.
  intros H. assert (z = 0 ∨ z = 1 ∨ z = 2 ∨ z = 3 ∨ z = 4 ∨ z = 5 ∨ z = 6 ∨ z = 7 ∨ z = 8 ∨ z = 9) as Hc by lia.
  by destruct_or! Hc; subst z.
Qed.

Lemma fmt2_bytes z : 0 ≤ z < 100 → all_chars time_byte (fmt2 z) = true.
Proof. intros. unfold fmt2. cbn [all_chars]. by rewrite !digit_byte by zlia. Qed.

Lemma frac_bytes k n : 0 ≤ n < 10 ^ Z.of_nat k → all_chars time_byte (frac_digits k n) = true.
Proof.
  revert n. induction k as [|k IH]; intros n Hn; [done|]. cbn [frac_digits].
  rewrite Nat2Z.inj_succ, Z.pow_succ_r in Hn by lia. assert (0 < 10 ^ Z.of_nat k) by (apply Z.pow_pos_nonneg; lia).
  destruct (n =? 0); [done|]. cbn [all_chars]. rewrite digit_byte, IH; [done|apply Z.mod_pos_bound; lia|].
  split; [apply Z.div_pos; lia|]. apply Z.div_lt_upper_bound; lia.
Qed.

Lemma format_time_bytes t : all_chars time_byte (format_time_of_day t) = true.
Proof.
  unfold format_time_of_day. cbv zeta. set (d := t `mod` day).
  assert (0 ≤ d < day) as Hd by (unfold d, day; zlia). unfold day in Hd. clearbody d.
  rewrite !all_chars_app, !fmt2_bytes by (unfold hour, minute, second; zlia).
  change (all_chars time_byte ":") with true. cbn [andb].
  destruct (_ =? 0); [done|]. rewrite all_chars_app. change (all_chars time_byte ".") with true. cbn [andb]. apply frac_bytes.
  change (10 ^ Z.of_nat 9) with second. unfold second. zlia.
Qed.

Lemma format_date_bytes t : 0 ≤ year_of t ≤ 9999 → all_chars time_byte (format_date t) = true.
Proof.
  unfold year_of, format_date. pose proof (date_of_valid t) as Hv. destruct (date_of t) as [[y m] d]. simpl. intros Hy.
  destruct (Hv y m d eq_refl) as (Hm & Hd & _). pose proof (days_in_le m y).
  rewrite !all_chars_app, !fmt2_bytes by lia. change (all_chars time_byte "-") with true. cbn [andb]. unfold fmt_year.
  assert ((0 <=? y) && (y <=? 9999) = true) as -> by lia. unfold fmt4. cbn [all_chars]. by rewrite !digit_byte by zlia.
Qed.

(** Nothing is trimmed off a date or a time, and neither looks like a tag. *)
Lemma time_text_kept s :
  all_chars time_byte s = true → trim_space (trim_char "034" s) = s ∧ loadStoredCell s = (s, false).
Proof.
  intros Hs. rewrite (trim_char_outside time_byte) by done. split.
  - apply (trim_space_outside time_byte); [by apply (bool_decide_unpack _); vm_compute..|done].
  - unfold loadStoredCell. destruct s as [|c s]; [done|]. rewrite bool_decide_false by (intros [= -> _]; done).
    destruct (has_prefix (String c s) storedEscapedCellPrefix) eqn:E; [|done].
    apply has_prefix_spec in E as (r & E). unfold storedEscapedCellPrefix in E. rewrite str_app_cons in E.
    injection E as -> _. done.
Qed.

Lemma load_plain c s : c ≠ "000"%char → loadStoredCell (String c s) = (String c s, false).
Proof.
  intros Hc. unfold loadStoredCell. rewrite bool_decide_false by (by intros [= -> _]).
  destruct (has_prefix (String c s) storedEscapedCellPrefix) eqn:E; [|done].
  apply has_prefix_spec in E as (r & E). unfold storedEscapedCellPrefix in E. rewrite str_app_cons in E.
  by injection E as -> _.
Qed.

Lemma int_untagged z : loadStoredCell (format_int z) = (format_int z, false).
Proof. unfold format_int, NilZero.string_of_int. destruct (Z.to_int z) as [u|u]; [destruct u|]; by apply load_plain. Qed.

Lemma datetime_untagged t : 0 ≤ year_of t ≤ 9999 → loadStoredCell (format_datetime t) = (format_datetime t, false).
Proof.
  intros Hy. unfold format_datetime. destruct (format_date_head t (" " +:+ format_time_of_day t) Hy) as (c & s & -> & Hc).
  apply load_plain. by intros ->.
Qed.

Lemma digit_val_range c v : digit_val c = Some v → 0 ≤ v < 10.
Proof. unfold digit_val. cbv zeta. destruct (_ && _) eqn:E; [|done]. intros [= <-]. bools. lia. Qed.

Lemma take_num_range n : ∀ acc s v r, 0 ≤ acc → take_num n acc s = Some (v, r) → 0 ≤ v < (acc + 1) * 10 ^ Z.of_nat n.
Proof.
  induction n as [|n IH]; intros acc s v r Ha; cbn [take_num].
  { intros [= <- _]. change (10 ^ Z.of_nat 0) with 1. lia. }
  destruct s as [|c s]; [done|]. destruct (digit_val c) as [d|] eqn:Ed; [|done]. cbn [mbind option_bind]. intros Ht.
  apply digit_val_range in Ed. apply IH in Ht; [|lia]. rewrite Nat2Z.inj_succ, Z.pow_succ_r by lia.
  assert (0 < 10 ^ Z.of_nat n) by (apply Z.pow_pos_nonneg; lia). nia.
Qed.

Lemma days_year y m d n :
  0 ≤ y ≤ 9999 → 1 ≤ m ≤ 12 → 1 ≤ d ≤ 31 → n = days_from_civil y m d → -719528 ≤ n ≤ 2932896.
Proof.
  intros Hy Hm Hd ->. unfold days_from_civil. cbv zeta. destruct (Z.leb_spec m 2); zlia.
Qed.

Lemma year_days n : -719528 ≤ n ≤ 2932896 → 0 ≤ year_of (n * day) ≤ 9999.
Proof.
  intros Hn. unfold year_of. destruct (date_of (n * day)) as [[y m] d] eqn:E. simpl.
  apply date_of_valid in E as (Hm & Hd & Hdays). rewrite Z.div_mul in Hdays by done.
  pose proof (days_in_le m y). unfold days_from_civil in Hdays. cbv zeta in Hdays.
  destruct (Z.leb_spec m 2); zlia.
Qed.

Lemma parse_date_midnight s t : parse_date s = Some t → ∃ n, t = n * day ∧ 0 ≤ year_of t ≤ 9999.
Proof.
  unfold parse_date, take_month, take_day. destruct (take_num 4 0 s) as [[y r]|] eqn:Ey; [|done]. cbn [mbind option_bind].
  apply take_num_range in Ey; [|done]. change ((0 + 1) * 10 ^ Z.of_nat 4) with 10000 in Ey.
  intros Ht. destruct r as [|c r]; [done|]. destruct c as [[] [] [] [] [] [] [] []]; try discriminate.
  destruct (take_num 2 0 r) as [[m r2]|] eqn:Em; [|discriminate]. cbn [mbind option_bind] in Ht.
  destruct ((1 <=? m) && (m <=? 12)) eqn:Hm; [|discriminate]. cbn [GoTime.check mbind option_bind] in Ht.
  destruct r2 as [|c r2]; [discriminate|]. destruct c as [[] [] [] [] [] [] [] []]; try discriminate.
  destruct (take_num 2 0 r2) as [[d r3]|] eqn:Ed; [|discriminate]. cbn [mbind option_bind] in Ht.
  destruct ((1 <=? d) && (d <=? days_in m y)) eqn:Hd; [|discriminate]. cbn [GoTime.check mbind option_bind] in Ht.
  destruct (bool_decide (r3 = "")); [|discriminate]. cbn [GoTime.check mbind option_bind] in Ht. injection Ht as <-.
  bools. pose proof (days_in_le m y). eexists. split; [done|]. apply year_days. eapply (days_year y m d); [lia..|done].
Qed.

Lemma parse_frac_range k s n : parse_frac k s = Some n → 0 ≤ n < 10 ^ Z.of_nat k.
Proof.
  revert k n. induction s as [|c s IH]; intros k n; cbn [parse_frac].
  { intros [= <-]. split; [lia|]. apply Z.pow_pos_nonneg; lia. }
  destruct (digit_val c) as [d|] eqn:Ed; [|done]. cbn [mbind option_bind]. apply digit_val_range in Ed.
  destruct k as [|k]; [apply IH|]. destruct (parse_frac k s) as [m|] eqn:Em; [|done]. cbn [mbind option_bind].
  intros [= <-]. apply IH in Em. rewrite Nat2Z.inj_succ, Z.pow_succ_r by lia. nia.
Qed.

Lemma parse_time_range s t : parse_time_of_day s = Some t → 0 ≤ t < day.
Proof.
  unfold parse_time_of_day, take_hour. intros Ht.
  destruct (match take_num 2 0 s with Some p => Some p | None => take_num 1 0 s end) as [[h r]|] eqn:Eh; [|discriminate].
  assert (0 ≤ h) as Hh.
  { destruct (take_num 2 0 s) as [[h' r']|] eqn:E2.
    - injection Eh as <- <-. apply take_num_range in E2; lia.
    - apply take_num_range in Eh; lia. }
  cbn [mbind option_bind] in Ht. destruct (h <=? 23) eqn:H23; [|discriminate]. cbn [GoTime.check mbind option_bind] in Ht.
  destruct r as [|c r]; [discriminate|]. destruct c as [[] [] [] [] [] [] [] []]; try discriminate.
  destruct (take_num 2 0 r) as [[m r2]|] eqn:Em; [|discriminate]. cbn [mbind option_bind] in Ht. apply take_num_range in Em; [|done].
  destruct (m <? 60) eqn:Hm; [|discriminate]. cbn [GoTime.check mbind option_bind] in Ht.
  destruct r2 as [|c r2]; [discriminate|]. destruct c as [[] [] [] [] [] [] [] []]; try discriminate.
  destruct (take_num 2 0 r2) as [[sec r3]|] eqn:Es; [|discriminate]. cbn [mbind option_bind] in Ht. apply take_num_range in Es; [|done].
  destruct (sec <? 60) eqn:Hs; [|discriminate]. cbn [GoTime.check mbind option_bind] in Ht. bools.
  assert (∀ n, 0 ≤ n < second → Some (h * hour + m * minute + sec * second + n) = Some t → 0 ≤ t < day) as Hdone.
  { intros n Hn [= <-]. unfold hour, minute, second, day in *. lia. }
  destruct r3 as [|c r3]; [by apply (Hdone 0)|]. destruct c as [[] [] [] [] [] [] [] []]; try discriminate.
  all: destruct r3 as [|c r3]; [discriminate|]; destruct (parse_frac 9 (String c r3)) as [n|] eqn:En; [|discriminate].
  all: apply parse_frac_range in En; by apply (Hdone n).
Qed.

Section Roundtrip.
Context `{GoFloats} `{!ArrowLib} `{TimestampParser}.

(** What is used of the Arrow library and of the timestamp parser: times of the
    library's units survive the conversion to Go's, the default timestamp layout
    is read, and a float64 is read back from its text, which is plain. *)
Record arrow_laws : Prop := {
  al_date : ∀ n, 0 ≤ year_of (n * day) ≤ 9999 → date32_to_time (date32_from_time (n * day)) = n * day;
  al_timestamp : ∀ t us, timestamp_from_time t = Some us → timestamp_from_time (timestamp_to_time us) = Some us;
  al_time64 : ∀ us, 0 ≤ us < 86400000000 → time64_to_time us = us * 1000;
  al_layout : ∀ t, 0 ≤ year_of t ≤ 9999 → parsePartitionTimestamp (format_datetime t) = Some t;
  al_ipc : ∀ rec message, serializeArrowRecordBatchMessage rec = Some message →
           ipc_first_record (serializeArrowSchemaMessage (ar_Schema rec) +:+ message +:+ arrowIPCEOSMarker) = Some rec;
  al_float : ∀ f, parse_float (float_g f) = Some f ∧ loadStoredCell (float_g f) = (float_g f, false);
}.
Context (Hlaws : arrow_laws).

(** Timestamps of a batch have years of four digits. *)
Definition in_years (v : arrowValue) : Prop :=
  match v with AvTimestamp us => 0 ≤ year_of (timestamp_to_time us) ≤ 9999 | _ => True end.

(** A value written as a cell is read back as that value. *)
Definition reads_back (t : arrowType) (bqType : string) (v : arrowValue) (cell : string) : Prop :=
  arrowColumnValueToString v bqType = Ok cell ∧
  ∃ raw, loadStoredCell cell = (raw, false) ∧ appendArrowValue t bqType raw = Ok v.

Lemma time_micros_range t : 0 ≤ t < day → 0 ≤ time64_micros t < 86400000000 ∧ time64_micros (time64_micros t * 1000) = time64_micros t.
Proof. unfold time64_micros, day, hour, minute, second. intros. split; zlia. Qed.

Lemma value_reads_back b bqType s v :
  arrowFieldType bqType = Some b → appendArrowValue b bqType s = Ok v → in_years v →
  ∃ cell, reads_back b bqType v cell.
Proof.
  unfold arrowFieldType, reads_back, appendArrowValue, arrowColumnValueToString. intros Hb Hv Hin.
  cbv zeta in *.
  repeat (match type of Hb with context [if ?b then _ else _] => destruct b end; [injection Hb as <-|]).
  - rewrite bool_decide_true in Hv by done. destruct (parse_bool s) as [x|] eqn:E; [|done]. injection Hv as <-.
    eexists. split; [done|]. exists (if x then "true" else "false"). by destruct x.
  - rewrite bool_decide_true in Hv by done. destruct (parse_int s) as [z|] eqn:E; [|done]. injection Hv as <-.
    eexists. split; [done|]. eexists. split; [apply int_untagged|].
    rewrite parse_format_int by (by eapply parse_int_range). done.
  - rewrite bool_decide_true in Hv by done. destruct (parse_float s) as [f|] eqn:E; [|done]. injection Hv as <-.
    eexists. split; [done|]. eexists. split; [by apply (al_float Hlaws)|].
    by rewrite (proj1 (al_float Hlaws f)).
  - injection Hv as <-. eexists. split; [done|]. exists s. split; [apply load_store_cell|done].
  - injection Hv as <-. eexists. split; [done|]. exists s. split; [apply load_store_cell|done].
  - rewrite bool_decide_true in Hv by done. unfold parseStoredDate in *.
    destruct (parse_date _) as [t|] eqn:E; [|done]. injection Hv as <-.
    destruct (parse_date_midnight _ _ E) as (n & -> & Hy). eexists. split; [done|].
    rewrite (al_date Hlaws) by done. destruct (time_text_kept (format_date (n * day))) as [Ht Hl]; [by apply format_date_bytes|].
    eexists. split; [exact Hl|]. rewrite Ht, parse_format_date by done. rewrite Z.div_mul by done. done.
  - simpl in Hv |- *. destruct (parsePartitionTimestamp s) as [t|]; [|done]. simpl in Hv.
    destruct (timestamp_from_time t) as [us|] eqn:E; [|done]. injection Hv as <-. simpl in Hin.
    eexists. split; [done|]. eexists. split; [by apply datetime_untagged|].
    rewrite (al_layout Hlaws) by done. simpl. by rewrite (al_timestamp Hlaws t us).
  - simpl in Hv |- *. destruct (parsePartitionTimestamp s) as [t|]; [|done]. simpl in Hv.
    destruct (timestamp_from_time t) as [us|] eqn:E; [|done]. injection Hv as <-. simpl in Hin.
    eexists. split; [done|]. eexists. split; [by apply datetime_untagged|].
    rewrite (al_layout Hlaws) by done. simpl. by rewrite (al_timestamp Hlaws t us).
  - rewrite bool_decide_true in Hv by done. unfold parseStoredTimeOfDay in *.
    destruct (parse_time_of_day _) as [t|] eqn:E; [|done]. injection Hv as <-.
    pose proof (parse_time_range _ _ E) as Hr. destruct (time_micros_range t Hr) as [Hm Hmm].
    eexists. split; [done|]. rewrite (al_time64 Hlaws) by done.
    destruct (time_text_kept (format_time_of_day (time64_micros t * 1000))) as [Ht Hl]; [apply format_time_bytes|].
    eexists. split; [exact Hl|]. rewrite Ht, parse_format_time by (unfold day; lia). simpl. by rewrite Hmm.
  - done.
Qed.
End Roundtrip.

(** ** Loops *)

Lemma each_arrow_ok {A B} (f : A → res arrowErr B) l ys : each_arrow f l = Ok ys ↔ Forall2 (λ x y, f x = Ok y) l ys.
Proof.
  revert ys. induction l as [|x l IH]; intros ys; simpl.
  - split; [intros [= <-]; constructor|by inversion 1].
  - rewrite res_bind_ok. setoid_rewrite res_bind_ok. setoid_rewrite IH. split.
    + intros (y & Hy & ys' & Hys & [= <-]). by constructor.
    + inversion 1; subst. eauto.
Qed.

(** A loop whose steps all succeed succeeds, and its results are theirs. *)
Lemma each_arrow_total {A B} (f : A → res arrowErr B) (P : nat → B → Prop) l :
  (∀ i x, l !! i = Some x → ∃ y, f x = Ok y ∧ P i y) →
  ∃ ys, each_arrow f l = Ok ys ∧ length ys = length l ∧ ∀ i y, ys !! i = Some y → P i y.
Proof.
  revert P. induction l as [|x l IH]; intros P Hl; simpl.
  { exists []. by split_and!. }
  destruct (Hl 0%nat x eq_refl) as (y & -> & Hy). destruct (IH (λ i, P (S i))) as (ys & -> & Hlen & Hys).
  { intros i z Hz. by apply (Hl (S i)). }
  exists (y :: ys). split_and!; [done|simpl; by rewrite Hlen|]. intros [|i] z Hz; [by injection Hz as <-|by apply Hys].
Qed.

Lemma each_arrow_lookup {A B} (f : A → res arrowErr B) l ys i x y :
  each_arrow f l = Ok ys → l !! i = Some x → ys !! i = Some y → f x = Ok y.
Proof. intros Hf%each_arrow_ok Hx Hy. by eapply Forall2_lookup_lr in Hf. Qed.

Lemma each_arrow_length {A B} (f : A → res arrowErr B) l ys : each_arrow f l = Ok ys → length ys = length l.
Proof. intros Hf%each_arrow_ok. symmetry. by eapply Forall2_length. Qed.

Lemma each_arrow_no_panic {A B} (f : A → res arrowErr B) l :
  (∀ x, x ∈ l → is_panic (f x) = false) → is_panic (each_arrow f l) = false.
Proof.
  induction l as [|x l IH]; intros Hf; [done|]. simpl. specialize (Hf x ltac:(left)) as Hx.
  destruct (f x) as [y|e|]; [|done|done]. simpl.
  destruct (each_arrow f l) as [ys|e|] eqn:E; [done|done|]. apply IH. intros z Hz. apply Hf. by right.
Qed.

Lemma lookup_columns `{GoFloats} n (values : list (list (option arrowValue))) i r vs :
  (i < n)%nat → Forall (λ vs, length vs = n) values → values !! r = Some vs →
  ∃ c, arrow_columns n values !! i = Some c ∧ c !! r = vs !! i.
Proof.
  intros Hi Hlen Hr. unfold arrow_columns. rewrite list_lookup_fmap, lookup_seq_lt by done. eexists. split; [done|]. simpl.
  revert r Hr. induction Hlen as [|x values Hx Hlen IH]; intros r Hr; [done|]. simpl.
  destruct (lookup_lt_is_Some_2 x i) as [v Hv]; [lia|]. rewrite Hv. destruct r as [|r]; simpl in Hr |- *; [|by apply IH].
  injection Hr as <-. done.
Qed.

Section Batches.
Context `{GoFloats} `{!ArrowLib} `{TimestampParser} (Hlaws : arrow_laws).
Context (fields : schema) (sch : list arrowField) (Hsch : buildArrowSchema fields = Ok sch).

Lemma schema_field i f : fields !! i = Some f →
  ∃ af, sch !! i = Some af ∧ af_Name af = Name f ∧ arrowFieldType (Type_ f) = Some (af_Type af).
Proof.
  intros Hf. pose proof (each_arrow_length _ _ _ Hsch) as Hlen.
  destruct (lookup_lt_is_Some_2 sch i) as [af Haf]; [rewrite Hlen; by eapply lookup_lt_Some|].
  pose proof (each_arrow_lookup _ _ _ _ _ _ Hsch Hf Haf) as E. unfold arrow_field in E.
  destruct (_ || _); [done|]. destruct (arrowFieldType (Type_ f)) eqn:Et; [|done]. injection E as <-. by eexists.
Qed.

Lemma append_no_panic b bqType s : arrowFieldType bqType = Some b → is_panic (appendArrowValue b bqType s) = false.
Proof.
  unfold arrowFieldType, appendArrowValue. intros Hb. cbv zeta in *.
  repeat (match type of Hb with context [if ?c then _ else _] => destruct c end;
    [injection Hb as <-; rewrite ?bool_decide_true by done; simpl; by repeat case_match|]).
  done.
Qed.

(** The values of a row, by column. *)
Definition row_values (r : row) (vs : list (option arrowValue)) : Prop :=
  length vs = length fields ∧
  ∀ i f af v, fields !! i = Some f → sch !! i = Some af → vs !! i = Some v → arrow_cell r i f (af_Type af) = Ok v.

Lemma arrow_row_values r vs : arrow_row sch fields r = Ok vs ↔ row_values r vs.
Proof.
  pose proof (each_arrow_length _ _ _ Hsch) as Hlen. unfold arrow_row, row_values. split.
  - intros Hvs. split.
    + rewrite (each_arrow_length _ _ _ Hvs), length_imap, length_zip. lia.
    + intros i f af v Hf Haf Hv. eapply (each_arrow_lookup _ _ _ i (i, (f, af)) v Hvs); [|done].
      rewrite list_lookup_imap, lookup_zip_with, Hf. simpl. by rewrite Haf.
  - intros [Hl Hvs]. apply each_arrow_ok, Forall2_same_length_lookup. split; [rewrite length_imap, length_zip; lia|].
    intros i [j [f af]] v Hx Hv. rewrite list_lookup_imap, lookup_zip_with in Hx.
    destruct (fields !! i) as [f'|] eqn:Hf; [|done]. simpl in Hx. destruct (sch !! i) as [af'|] eqn:Haf; [|done].
    injection Hx as <- <- <-. by apply Hvs.
Qed.

(** What a value is written as. *)
Definition written (af : arrowField) (f : tableField) (ov : option arrowValue) (cell : string) : Prop :=
  match ov with
  | None => cell = storedNullCell
  | Some v => reads_back (af_Type af) (Type_ f) v cell
  end.

Definition row_written (vs : list (option arrowValue)) (r : row) : Prop :=
  length r = length fields ∧ length vs = length fields ∧
  ∀ i f af ov cell, fields !! i = Some f → sch !! i = Some af → vs !! i = Some ov → r !! i = Some cell → written af f ov cell.

Lemma written_cell af f ov cell r i :
  written af f ov cell → r !! i = Some cell → arrow_cell r i f (af_Type af) = Ok ov.
Proof.
  intros Hw Hr. unfold arrow_cell. rewrite Hr. simpl. destruct ov as [v|]; simpl in Hw.
  - destruct Hw as (_ & raw & -> & Hv). by rewrite Hv.
  - by rewrite Hw.
Qed.

Lemma row_written_values vs r : row_written vs r → row_values r vs.
Proof.
  intros (Hr & Hvs & Hw). split; [done|]. intros i f af v Hf Haf Hv.
  destruct (lookup_lt_is_Some_2 r i) as [cell Hc]; [rewrite Hr; by eapply lookup_lt_Some|].
  eapply written_cell; [by eapply Hw|done].
Qed.

(** A row whose cells are texts of values of their columns. *)
Definition canonical_row (r : row) : Prop := ∃ vs, row_written vs r.

Lemma canonical_unique r vs r' : canonical_row r → row_values r vs → row_written vs r' → r' = r.
Proof.
  intros (vs0 & Hw0) Hv (Hr' & Hvs & Hw). pose proof (row_written_values _ _ Hw0) as [Hl0 Hv0]. destruct Hv as [Hl Hv].
  destruct Hw0 as (Hr & Hvs0 & Hw0). assert (vs = vs0) as ->.
  { apply list_eq_same_length with (length fields); [done..|]. intros i v v0 Hi Hx Hx0.
    destruct (lookup_lt_is_Some_2 fields i) as [f Hf]; [done|]. destruct (schema_field i f Hf) as (af & Haf & _).
    specialize (Hv i f af v Hf Haf Hx). specialize (Hv0 i f af v0 Hf Haf Hx0). congruence. }
  apply list_eq_same_length with (length fields); [done..|]. intros i c c0 Hi Hc Hc0.
  destruct (lookup_lt_is_Some_2 fields i) as [f Hf]; [done|]. destruct (schema_field i f Hf) as (af & Haf & _).
  destruct (lookup_lt_is_Some_2 vs0 i) as [v Hx]; [lia|].
  specialize (Hw i f af v c Hf Haf Hx Hc). specialize (Hw0 i f af v c0 Hf Haf Hx Hc0).
  destruct v as [v|]; simpl in Hw, Hw0; [|congruence]. destruct Hw as (E & _), Hw0 as (E0 & _). congruence.
Qed.

Section Decode.
Context (Hnames : NoDup (Name <$> fields)).
Context (rows : list row) (values : list (list (option arrowValue))).
Context (Hvalues : each_arrow (arrow_row sch fields) rows = Ok values).
Definition batch : arrowRecord := ArrowRecord sch (arrow_columns (length fields) values) (length rows).
Context (Hyears : Forall (Forall (λ ov, from_option in_years True ov)) (ar_Columns batch)).

Lemma values_of r vs : values !! r = Some vs → ∃ x, rows !! r = Some x ∧ row_values x vs.
Proof.
  intros Hr. destruct (lookup_lt_is_Some_2 rows r) as [x Hx].
  { rewrite <-(each_arrow_length _ _ _ Hvalues). by eapply lookup_lt_Some. }
  exists x. split; [done|]. apply arrow_row_values. by eapply each_arrow_lookup.
Qed.

Lemma values_lengths : Forall (λ vs, length vs = length fields) values.
Proof. apply Forall_lookup. intros r vs (x & _ & [Hl _])%values_of. done. Qed.

Lemma batch_columns : ∃ columns, each_arrow (record_column batch) fields = Ok columns ∧ length columns = length fields ∧
  ∀ i c, columns !! i = Some c → ∃ col, c = Some col ∧ ar_Columns batch !! i = Some col.
Proof.
  apply each_arrow_total. intros i f Hf. destruct (schema_field i f Hf) as (af & Haf & Hn & _).
  unfold record_column. assert (list_find (λ af, af_Name af = Name f) (ar_Schema batch) = Some (i, af)) as ->.
  { apply list_find_Some. split_and!; [done|done|]. intros j y Hy Hj E.
    pose proof (each_arrow_length _ _ _ Hsch) as Hlen.
    destruct (lookup_lt_is_Some_2 fields j) as [g Hg]; [rewrite <-Hlen; by eapply lookup_lt_Some|].
    destruct (schema_field j g Hg) as (ag & Hag & Hgn & _). simpl in Hy. assert (j = i); [|lia].
    eapply NoDup_lookup; [exact Hnames|by rewrite list_lookup_fmap, Hg; simpl|].
    rewrite list_lookup_fmap, Hf. simpl. congruence. }
  assert (is_Some (ar_Columns batch !! i)) as [c Hc].
  { simpl. unfold arrow_columns. apply lookup_lt_is_Some. rewrite length_fmap, length_seq. by eapply lookup_lt_Some. }
  rewrite Hc. eauto.
Qed.

Lemma batch_cell r vs x i f af ov col :
  values !! r = Some vs → rows !! r = Some x → row_values x vs →
  fields !! i = Some f → sch !! i = Some af → vs !! i = Some ov → ar_Columns batch !! i = Some col →
  arrowFieldType (Type_ f) = Some (af_Type af) →
  ∃ cell, record_cell (Some col) r f = Ok cell ∧ written af f ov cell.
Proof.
  intros Hr Hx [_ Hvs] Hf Haf Hov Hcol Ht.
  destruct (lookup_columns (length fields) values i r vs) as (col' & Hcol' & Hc);
    [by eapply lookup_lt_Some|apply values_lengths|done|].
  simpl in Hcol. rewrite Hcol' in Hcol. injection Hcol as ->. unfold record_cell. rewrite Hc, Hov.
  destruct ov as [v|]; [|by eexists]. specialize (Hvs i f af (Some v) Hf Haf Hov). unfold arrow_cell in Hvs.
  destruct (loadStoredCell _) as [s isNull]. destruct isNull; [done|].
  destruct (appendArrowValue _ _ s) as [w| |] eqn:Ea; [|done|done]. injection Hvs as ->.
  assert (in_years v) as Hin.
  { rewrite Forall_lookup in Hyears. specialize (Hyears i col Hcol'). rewrite Forall_lookup in Hyears.
    apply (Hyears r (Some v)). by rewrite Hc. }
  destruct (value_reads_back Hlaws _ _ _ _ Ht Ea Hin) as (cell & Hcell). exists cell. split; [|done].
  by destruct Hcell as [-> _].
Qed.

Lemma decoded_rows : ∃ rows', arrowRecordToRows batch fields = Ok rows' ∧ length rows' = length rows ∧
  ∀ r row', rows' !! r = Some row' → ∃ vs, values !! r = Some vs ∧ row_written vs row'.
Proof.
  destruct batch_columns as (columns & Hcols & Hclen & Hcol). unfold arrowRecordToRows. rewrite Hcols.
  change (ar_NumRows batch) with (length rows). change (mbind ?f (Ok columns)) with (f columns). cbv beta.
  destruct (each_arrow_total (λ r, each_arrow (λ '(f, c), record_cell c r f) (zip fields columns))
    (λ r row', ∃ vs, values !! r = Some vs ∧ row_written vs row') (seq 0 (length rows))) as (rows' & Hrows & Hlen & Hall).
  - intros r r' Hr. apply lookup_seq in Hr as [-> Hr]. simpl.
    destruct (lookup_lt_is_Some_2 values r) as [vs Hvs]; [by rewrite (each_arrow_length _ _ _ Hvalues)|].
    destruct (values_of r vs Hvs) as (x & Hx & Hxv). pose proof (proj1 Hxv) as Hvlen.
    destruct (each_arrow_total (λ '(f, c), record_cell c r f)
      (λ i cell, ∀ f af ov, fields !! i = Some f → sch !! i = Some af → vs !! i = Some ov → written af f ov cell)
      (zip fields columns)) as (row' & Hrow & Hrlen & Hw).
    + intros i [f c] Hi. rewrite lookup_zip_with in Hi. destruct (fields !! i) as [f'|] eqn:Hf; [|done]. simpl in Hi.
      destruct (columns !! i) as [c'|] eqn:Hc; [|done]. injection Hi as <- <-.
      destruct (Hcol i c' Hc) as (col & -> & Hcol'). destruct (schema_field i f' Hf) as (af & Haf & _ & Ht).
      destruct (lookup_lt_is_Some_2 vs i) as [ov Hov]; [rewrite Hvlen; by eapply lookup_lt_Some|].
      destruct (batch_cell r vs x i f' af ov col) as (cell & Hcell & Hw); [done..|]. exists cell. split; [done|].
      intros f2 af2 ov2 E1 E2 E3. by simplify_eq.
    + exists row'. split; [done|]. exists vs. split; [done|]. split_and!; [|done|].
      * rewrite Hrlen, length_zip. lia.
      * intros i f af ov cell Hf Haf Hov Hc. by eapply Hw.
  - exists rows'. split_and!; [done|by rewrite Hlen, length_seq|done].
Qed.

Lemma decoded_same : ∃ rows', arrowRecordToRows batch fields = Ok rows' ∧
  buildArrowRecord sch fields rows' = Ok batch ∧ (Forall canonical_row rows → rows' = rows).
Proof.
  destruct decoded_rows as (rows' & Hrows & Hlen & Hall). exists rows'. split; [done|].
  pose proof (each_arrow_length _ _ _ Hvalues) as Hvlen. split.
  - unfold buildArrowRecord, batch. assert (each_arrow (arrow_row sch fields) rows' = Ok values) as ->.
    { apply each_arrow_ok, Forall2_same_length_lookup. split; [lia|]. intros r row' vs Hr Hvs.
      destruct (Hall r row' Hr) as (vs' & Hvs' & Hw). simplify_eq. by apply arrow_row_values, row_written_values. }
    simpl. by rewrite Hlen.
  - intros Hcan. apply list_eq_same_length with (length rows); [done..|]. intros r x' x Hr Hx' Hx.
    destruct (Hall r x' Hx') as (vs & Hvs & Hw). destruct (values_of r vs Hvs) as (x2 & Hx2 & Hxv). simplify_eq.
    eapply canonical_unique; [|done|done]. rewrite Forall_lookup in Hcan. by eapply Hcan.
Qed.
End Decode.

Lemma build_no_panic rows : is_panic (buildArrowRecord sch fields rows) = false.
Proof.
  unfold buildArrowRecord. assert (is_panic (each_arrow (arrow_row sch fields) rows) = false) as Hp.
  { apply each_arrow_no_panic. intros r _. unfold arrow_row. apply each_arrow_no_panic.
    intros [i [f af]] Hin. apply list_elem_of_lookup in Hin as [j Hj].
    rewrite list_lookup_imap, lookup_zip_with in Hj. destruct (fields !! j) as [f'|] eqn:Hf; [|done]. simpl in Hj.
    destruct (schema_field j f' Hf) as (af' & Haf & _ & Ht). rewrite Haf in Hj. injection Hj as <- <- <-.
    unfold arrow_cell. destruct (loadStoredCell _) as [s []]; [done|].
    pose proof (append_no_panic _ _ s Ht) as Hnp. by destruct (appendArrowValue _ _ s). }
  by destruct (each_arrow _ rows).
Qed.
End Batches.


(** What the Storage Write service is given to decode Arrow rows with. *)
Definition arrow_runtime `{GoFloats} `{!ArrowLib} : ArrowRuntime := {|
  ArrowBatch := string;
  StorageWrite.decodeArrowAppendRows := λ schemaBytes message fields,
    match decodeArrowAppendRows schemaBytes message fields with Ok rows => Some rows | _ => None end |}.

(** ** Framing *)

Lemma length_zero_bytes n : String.length (zero_bytes n) = n.
Proof. induction n; simpl; congruence. Qed.

(** A message starts with eight bytes of prefix, its metadata is padded to a
    multiple of eight, the length in the prefix is that of the padded metadata,
    and the body follows. *)
Lemma ipc_frame meta body :
  ∃ n pad, serializeArrowIPCMessage (meta, body) = le32 arrowIPCContinuationToken +:+ le32 n +:+ meta +:+ zero_bytes pad +:+ body ∧
    n = Z.of_nat (String.length (meta +:+ zero_bytes pad)) ∧ n `mod` 8 = 0 ∧ (pad < 8)%nat.
Proof.
  unfold serializeArrowIPCMessage. set (len := Z.of_nat (String.length meta)). cbv zeta. unfold arrowIPCAlignment.
  assert (Hrem : Z.rem (len + 8) 8 = len `mod` 8) by (subst len; zlia).
  rewrite Hrem. destruct (Z.eqb_spec (len `mod` 8) 0) as [E|E]; cbn [negb].
  - eexists _, _. split; [done|]. rewrite str_length_app, length_zero_bytes. subst len. split_and!; zlia.
  - eexists _, _. split; [done|]. rewrite str_length_app, length_zero_bytes. subst len. split_and!; zlia.
Qed.

(** A client's column of another type than the table's is asserted to be of the
    table's: the conversion panics. *)
Example arrow_type_mismatch_panics `{GoFloats} `{!ArrowLib} `{TimestampParser} :
  arrowRecordToRows (ArrowRecord [ArrowField "n" AString true] [[Some (AvString "5")]] 1) [col "n" "INT64"] = Panic.
Proof. reflexivity. Qed.

(** ** A batch *)

#[export] Instance arrowField_eq_dec : EqDecision arrowField.
Proof. solve_decision. Defined.
#[export] Instance arrowValue_eq_dec `{GoFloats} `{!EqDecision float64} : EqDecision arrowValue.
Proof. solve_decision. Defined.
#[export] Instance arrowRecord_eq_dec `{GoFloats} `{!EqDecision float64} : EqDecision arrowRecord.
Proof. solve_decision. Defined.

Section Demo.
#[local] Instance one_float : GoFloats := {|
  float64 := unit;
  parse_float := λ s, if String.eqb s "0" then Some () else None;
  sprint_float := λ s, s |}.
#[local] Instance one_float_eq_dec : EqDecision float64.
Proof. unfold float64. simpl. apply _. Defined.

Definition demo_fields : schema := [col "d" "DATE"; col "n" "INT64"; col "t" "TIMESTAMP"; col "h" "TIME"].
Definition demo_arrow : list arrowField :=
  [ArrowField "d" ADate32 true; ArrowField "n" AInt64 true; ArrowField "t" (ATimestamp true) true; ArrowField "h" ATime64 true].
Definition demo_rows : list row :=
  [["2024-02-29"; storedNullCell; "2024-02-29 12:00:00.5"; "23:59:59.000001"];
   ["1969-12-31"; "-5"; "1970-01-01 00:00:00"; "00:00:00"]].
Definition demo_record : arrowRecord :=
  ArrowRecord demo_arrow
    [[Some (AvDate32 19782); Some (AvDate32 (-1))]; [None; Some (AvInt64 (-5))];
     [Some (AvTimestamp 1709208000500000); Some (AvTimestamp 0)]; [Some (AvTime64 86399000001); Some (AvTime64 0)]] 2.

Definition demo_message (part : string) : string := serializeArrowIPCMessage (part, "").
#[local] Instance demo_lib : ArrowLib := {|
  float_g := λ _, "0";
  date32_from_time := λ t, t `div` day;
  date32_to_time := λ d, d * day;
  timestamp_from_time := λ t, Some (t `div` 1000);
  timestamp_to_time := λ us, us * 1000;
  time64_to_time := λ us, us * 1000;
  schema_payload := λ _, ("schema", "");
  record_payload := λ rec, if bool_decide (rec = demo_record) then Some ("record", "") else None;
  ipc_first_record := λ s,
    if String.eqb s (demo_message "schema" +:+ demo_message "record" +:+ arrowIPCEOSMarker) then Some demo_record else None |}.
#[local] Instance demo_timestamps : TimestampParser := λ s,
  match split_on " " s with
  | [d; t] => d ← parse_date d; t ← parse_time_of_day t; Some (d + t)
  | _ => None
  end.

Lemma no_space s : all_chars time_byte s = true → str_mem " " s = false.
Proof.
  induction s as [|c s IH]; [done|]. cbn [all_chars str_mem]. intros [Hc Hs]%andb_true_iff. rewrite IH by done.
  rewrite bool_decide_false; [done|]. by intros <-.
Qed.

Lemma format_time_day t : format_time_of_day t = format_time_of_day (t `mod` day).
Proof. unfold format_time_of_day. by rewrite Zmod_mod. Qed.

Lemma demo_laws : arrow_laws.
Proof.
  split.
  - intros n _. simpl. by rewrite Z.div_mul.
  - intros t us [= <-]. simpl. by rewrite Z.div_mul.
  - done.
  - intros t Hy. unfold parsePartitionTimestamp, demo_timestamps, format_datetime.
    rewrite (str_app_cons " " ""), str_app_nil.
    rewrite split_on_sep by by apply no_space, format_date_bytes.
    rewrite split_on_plain by apply no_space, format_time_bytes.
    rewrite parse_format_date by done. cbn [mbind option_bind]. rewrite format_time_day, parse_format_time.
    + cbn [mbind option_bind]. f_equal. unfold day. zlia.
    + apply Z.mod_pos_bound. done.
  - intros rec message. unfold serializeArrowRecordBatchMessage. simpl record_payload. case_bool_decide as Hd; [|done].
    intros [= <-]. rewrite Hd. reflexivity.
  - intros []. split; reflexivity.
Qed.

End Demo.
