(* ===== verification/SchemaDetect.v ===== *)
(** * Schema autodetection (schema_autodetect.go)

    A schema inferred from the first rows of a CSV or NDJSON file, or read from
    the schema an Avro or Parquet file carries (which the containers' readers
    provide: [EmbeddedSchemas]).  Go iterates over the keys of a decoded record
    in no particular order: the order is an argument of the detection. *)

From S2P Require Import Prelude GoStrings GoJson GoFloat GoCsv Cells TableModel StorageWrite StreamingInserts Jobs QueryParams FileFormats FileRoundtrip.
From Stdlib Require Import Ascii.

Definition autodetectSampleLimit : nat := 500.

Inductive detectErr :=
| DetectFile (e : fileErr) | NoRows | NestedValue (field : string) | AvroSchemaInvalid | AvroNotRecord | AvroNoFields
| AvroFieldType (field : string) | ParquetNoSchema | ParquetNested (field : string) | ParquetRepeated (field : string)
| ParquetKind (field : string) | DetectFormat (format : string).

Abbreviation A_ := (res detectErr).

(** A Parquet column as its footer describes it. *)
Inductive parquetKind := KBoolean | KInt32 | KInt64 | KInt96 | KFloat | KDouble | KByteArray | KFixedLenByteArray.
Record parquetColumn := ParquetColumn {
  pq_Name : string; pq_Leaf : bool; pq_Repeated : bool; pq_Required : bool; pq_Kind : parquetKind }.

(** [goavro]'s [Codec.Schema()] of a container file, [None] when it is not one;
    the columns of a Parquet file, a panic when it is not one. *)
Class EmbeddedSchemas := {
  avro_schema_json : string → option string;
  parquet_columns : string → res unit (list parquetColumn);
}.

(** ** Scalar types *)

Definition widenScalarType (a b : string) : string :=
  if bool_decide (a = "") then b
  else if bool_decide (b = "") then a
  else if bool_decide (a = b) then a
  else if bool_decide (a = "INT64" ∧ b = "FLOAT64") || bool_decide (a = "FLOAT64" ∧ b = "INT64") then "FLOAT64"
  else "STRING".

(** A column nobody has seen a value of is a STRING. *)
Definition final_type (t : string) : string := if bool_decide (t = "") then "STRING" else t.
Definition nullable_field (name t : string) : tableField := TableField name (final_type t) "NULLABLE" [].

Section Detect.
Context `{FloatText} `{!FileCodecs} `{EmbeddedSchemas}.

(** ** NDJSON *)

(** [None] for a nested value.  A JSON number is a float64: an integer when it has
    no fraction. *)
Definition classifyJSONScalar (v : json) : option string :=
  match v with
  | JNull => Some ""
  | JBool _ => Some "BOOL"
  | JStr _ => Some "STRING"
  | JNum lit => Some (match float_of_literal lit with
                      | Some f => if bool_decide (is_Some (float_integer f)) then "INT64" else "FLOAT64"
                      | None => "FLOAT64"
                      end)
  | JArr _ | JObj _ => None
  end.

(** The columns seen so far, in the order of their first appearance, and their types. *)
Record ndjsonColumns := NdjsonColumns { nc_order : list string; nc_types : gmap string string }.

Definition observe (st : ndjsonColumns) (kv : string * json) : A_ ndjsonColumns :=
  let '(key, value) := kv in
  let order := if bool_decide (is_Some (nc_types st !! key)) then nc_order st else nc_order st ++ [key] in
  match classifyJSONScalar value with
  | None => Err (NestedValue key)
  | Some observed =>
      Ok (NdjsonColumns order (<[key := widenScalarType (default "" (nc_types st !! key)) observed]> (nc_types st)))
  end.
Fixpoint observe_all (st : ndjsonColumns) (kvs : list (string * json)) : A_ ndjsonColumns :=
  match kvs with [] => Ok st | kv :: kvs => st ← observe st kv; observe_all st kvs end.

(** The map a line decodes to; [iterate n] is the order in which the [n]-th sample's
    keys are visited. *)
Definition record_map (ms : list (string * json)) : gmap string json := list_to_map (reverse ms).

Fixpoint sample_lines (iterate : nat → gmap string json → list (string * json)) (sampled : nat) (lines : list string)
    (st : ndjsonColumns) : A_ (ndjsonColumns * nat) :=
  match lines with
  | [] => Ok (st, sampled)
  | line :: lines =>
      if (autodetectSampleLimit <=? sampled)%nat then Ok (st, sampled)
      else
        let text := trim_space line in
        if bool_decide (text = "") then sample_lines iterate sampled lines st
        else match decode_record text with
             | None => Err (DetectFile (BadNdjson sampled))
             | Some ms =>
                 st ← observe_all st (iterate sampled (record_map ms));
                 sample_lines iterate (S sampled) lines st
             end
  end.

Definition ndjson_schema (st : ndjsonColumns) : schema :=
  (λ key, nullable_field key (default "" (nc_types st !! key))) <$> nc_order st.

Definition detectSchemaFromNDJSON (iterate : nat → gmap string json → list (string * json)) (data : string) : A_ schema :=
  let '(lines, tooLong) := scan_lines data in
  '(st, sampled) ← sample_lines iterate 0 lines (NdjsonColumns [] ∅);
  if tooLong && (sampled <? autodetectSampleLimit)%nat then Err (DetectFile LineTooLong)
  else if (sampled =? 0)%nat then Err NoRows
  else Ok (ndjson_schema st).

(** ** CSV *)

Definition classifyCSVScalar (v : string) : string :=
  let v := trim_space v in
  if bool_decide (v = "") then ""
  else if bool_decide (is_Some (parse_int v)) then "INT64"
  else if bool_decide (is_Some (parse_float v)) then "FLOAT64"
  else if bool_decide (is_Some (parse_bool (to_lower v))) then "BOOL"
  else "STRING".

(** The columns of one row widen the types; a short row leaves the others alone. *)
Definition widen_row (types : list string) (r : list string) : list string :=
  imap (λ col t, match r !! col with Some cell => widenScalarType t (classifyCSVScalar cell) | None => t end) types.
Definition inferCSVColumnTypes (rows : list (list string)) (width : nat) : list string :=
  foldl widen_row (replicate width "") rows.

Definition looksLikeCSVHeader (firstRow dataTypes : list string) : bool :=
  existsb (λ '(cell, t), negb (bool_decide (t = "")) && negb (bool_decide (t = "STRING")) &&
                         bool_decide (classifyCSVScalar cell = "STRING")) (zip firstRow dataTypes).

Definition genericCSVColumnNames (width : nat) : list string :=
  (λ i, "string_field_" +:+ format_int (Z.of_nat i)) <$> seq 0 width.

Definition detectCSVHeader (sample : list (list string)) (width : nat) : list string * nat :=
  match sample with
  | first :: _ :: _ =>
      if looksLikeCSVHeader first (inferCSVColumnTypes (tail sample) width) then (first, 1%nat)
      else (genericCSVColumnNames width, O)
  | _ => (genericCSVColumnNames width, O)
  end.

Definition detectSchemaFromCSV (data fieldDelimiter : string) (skipLeadingRows : Z) : A_ (schema * nat) :=
  match csv_read (csv_comma fieldDelimiter) data with
  | Err e => Err (DetectFile (BadCsv e))
  | Panic => Panic
  | Ok records =>
      match skip_records skipLeadingRows records with
      | Err e => Err (DetectFile e)
      | Panic => Panic
      | Ok [] => Err NoRows
      | Ok ((first :: _) as records) =>
          let sample := take autodetectSampleLimit records in
          let width := length first in
          let '(names, startRow) := detectCSVHeader sample width in
          let dataTypes := inferCSVColumnTypes (drop startRow sample) width in
          Ok (zip_with nullable_field names dataTypes, startRow)
      end
  end.

(** ** Avro *)

Definition bigQueryScalarForAvroPrimitive (t : string) : option string :=
  if bool_decide (t ∈ ["string"; "bytes"]) then Some "STRING"
  else if bool_decide (t ∈ ["long"; "int"]) then Some "INT64"
  else if bool_decide (t ∈ ["double"; "float"]) then Some "FLOAT64"
  else if bool_decide (t = "boolean") then Some "BOOL"
  else None.

(** The one branch of a union beside "null". *)
Fixpoint sole_branch (branches : list json) (primitive : string) (sawNull : bool) : option string :=
  match branches with
  | [] => if sawNull && negb (bool_decide (primitive = "")) then Some primitive else None
  | JStr name :: branches =>
      if bool_decide (name = "null") then sole_branch branches primitive true
      else if bool_decide (primitive = "") then sole_branch branches name sawNull
      else None
  | _ :: _ => None
  end.
Definition soleNonNullAvroBranch (branches : list json) : option string := sole_branch branches "" false.

(** The scalar type and whether it is nullable. *)
Definition bigQueryTypeForAvroFieldType (t : json) : option (string * bool) :=
  match t with
  | JStr name => (λ b, (b, false)) <$> bigQueryScalarForAvroPrimitive name
  | JArr branches => primitive ← soleNonNullAvroBranch branches; (λ b, (b, true)) <$> bigQueryScalarForAvroPrimitive primitive
  | _ => None
  end.

(** [json.Unmarshal] into a struct: keys match up to case, the last one wins; null
    does not change a string. *)
Definition struct_member (ms : list (string * json)) (key : string) : option json :=
  snd <$> List.find (λ p, equal_fold p.1 key) (reverse ms).
Definition string_member (ms : list (string * json)) (key : string) : option string :=
  foldl (λ acc m, s ← acc;
    if equal_fold m.1 key
    then match m.2 with JStr t => Some t | JNull => Some s | _ => None end
    else Some s) (Some "") ms.
Definition avro_field (v : json) : option (string * json) :=
  match v with
  | JObj ms => name ← string_member ms "name"; Some (name, default JNull (struct_member ms "type"))
  | JNull => Some ("", JNull)
  | _ => None
  end.
Definition avro_record (v : json) : option (string * list (string * json)) :=
  match v with
  | JObj ms =>
      typ ← string_member ms "type";
      fields ← match struct_member ms "fields" with
               | None | Some JNull => Some []
               | Some (JArr l) => mapM avro_field l
               | Some _ => None
               end;
      Some (typ, fields)
  | JNull => Some ("", [])
  | _ => None
  end.

Fixpoint avro_columns (fields : list (string * json)) : A_ schema :=
  match fields with
  | [] => Ok []
  | (name, t) :: fields =>
      match bigQueryTypeForAvroFieldType t with
      | None => Err (AvroFieldType name)
      | Some (bqType, nullable) =>
          rest ← avro_columns fields;
          Ok (TableField name bqType (if nullable : bool then "NULLABLE" else "REQUIRED") [] :: rest)
      end
  end.
Definition detectSchemaFromAvro (data : string) : A_ schema :=
  match avro_schema_json data with
  | None => Err (DetectFile BadAvro)
  | Some text =>
      match json_decode text ≫= avro_record with
      | None => Err AvroSchemaInvalid
      | Some (typ, fields) =>
          if negb (bool_decide (typ = "record")) then Err AvroNotRecord
          else if bool_decide (fields = []) then Err AvroNoFields
          else avro_columns fields
      end
  end.

(** ** Parquet *)

Definition bigQueryTypeForParquetKind (k : parquetKind) : option string :=
  match k with
  | KBoolean => Some "BOOL"
  | KInt32 | KInt64 => Some "INT64"
  | KFloat | KDouble => Some "FLOAT64"
  | KByteArray => Some "STRING"
  | KInt96 | KFixedLenByteArray => None
  end.
Fixpoint parquet_fields (columns : list parquetColumn) : A_ schema :=
  match columns with
  | [] => Ok []
  | c :: columns =>
      if negb (pq_Leaf c) then Err (ParquetNested (pq_Name c))
      else if pq_Repeated c then Err (ParquetRepeated (pq_Name c))
      else match bigQueryTypeForParquetKind (pq_Kind c) with
           | None => Err (ParquetKind (pq_Name c))
           | Some bqType =>
               rest ← parquet_fields columns;
               Ok (TableField (pq_Name c) bqType (if pq_Required c then "REQUIRED" else "NULLABLE") [] :: rest)
           end
  end.
Definition detectSchemaFromParquet (data : string) : A_ schema :=
  match parquet_columns data with
  | Ok [] => Err ParquetNoSchema
  | Ok columns => parquet_fields columns
  | Err _ => Err ParquetNoSchema
  | Panic => Panic
  end.

(** ** Dispatch *)

Definition normalizeCompressionForAutodetect (compression : string) : string := to_upper (trim_space compression).

(** The schema and the number of header rows found. *)
Definition detectSchemaFromBytes (iterate : nat → gmap string json → list (string * json))
    (sourceFormat data fieldDelimiter : string) (skipLeadingRows : Z) (compression : string) : A_ (schema * nat) :=
  let format := to_upper (trim_space sourceFormat) in
  let unzipped := maybeGunzip data (normalizeCompressionForAutodetect compression) in
  let without_header (r : A_ schema) : A_ (schema * nat) := sch ← r; Ok (sch, O) in
  if bool_decide (format ∈ [""; "CSV"]) then
    match unzipped with
    | Ok data => detectSchemaFromCSV data fieldDelimiter skipLeadingRows
    | Err e => Err (DetectFile e)
    | Panic => Panic
    end
  else if bool_decide (format = "NEWLINE_DELIMITED_JSON") then
    match unzipped with
    | Ok data => without_header (detectSchemaFromNDJSON iterate data)
    | Err e => Err (DetectFile e)
    | Panic => Panic
    end
  else if bool_decide (format = "AVRO") then without_header (detectSchemaFromAvro data)
  else if bool_decide (format = "PARQUET") then without_header (detectSchemaFromParquet data)
  else Err (DetectFormat format).
End Detect.

(** ** Widening *)

Ltac widen_cases :=
  unfold widenScalarType; repeat case_bool_decide; simpl; repeat case_bool_decide; simpl in *; destruct_and?; subst; try done; try congruence.

Lemma widen_comm a b : widenScalarType a b = widenScalarType b a.
Proof. widen_cases; naive_solver. Qed.
Lemma widen_idem a : widenScalarType a a = a.
Proof. widen_cases. Qed.

(** The types a column of a text file can have. *)
Definition scalar_type (t : string) : Prop := t ∈ [""; "INT64"; "FLOAT64"; "BOOL"; "STRING"].

Lemma widen_scalar a b : scalar_type a → scalar_type b → scalar_type (widenScalarType a b).
Proof.
  unfold scalar_type. intros Ha Hb. unfold widenScalarType. repeat case_bool_decide; simpl; try done; set_solver.
Qed.
Lemma widen_assoc a b c : scalar_type a → scalar_type b → scalar_type c →
  widenScalarType a (widenScalarType b c) = widenScalarType (widenScalarType a b) c.
Proof.
  unfold scalar_type. rewrite !elem_of_cons, !elem_of_nil. intros Ha Hb Hc. destruct_or!; subst; vm_compute; reflexivity.
Qed.

(** ** Detection does not depend on the iteration order *)

Definition iterates (iterate : nat → gmap string json → list (string * json)) : Prop :=
  ∀ n m, iterate n m ≡ₚ map_to_list m.

Section Order.
Context `{FloatText} `{!FileCodecs} `{EmbeddedSchemas}.

Definition columns_ok (st : ndjsonColumns) : Prop :=
  NoDup (nc_order st) ∧ ∀ k, k ∈ nc_order st ↔ is_Some (nc_types st !! k).

Definition classified (kvs : list (string * json)) : Prop := Forall (λ kv, is_Some (classifyJSONScalar kv.2)) kvs.

(** What a record does to the types. *)
Definition widened (types : gmap string string) (m : gmap string json) (k : string) : option string :=
  match m !! k with
  | Some v => Some (widenScalarType (default "" (types !! k)) (default "" (classifyJSONScalar v)))
  | None => types !! k
  end.

Lemma observe_all_spec kvs : ∀ st, columns_ok st → NoDup kvs.*1 → classified kvs →
  ∃ st', observe_all st kvs = Ok st' ∧ columns_ok st' ∧ ∀ k, nc_types st' !! k = widened (nc_types st) (list_to_map kvs) k.
Proof.
  induction kvs as [|[key v] kvs IH]; intros st Hst Hn Hc.
  { exists st. split_and!; [done|apply Hst..|]. intros k. unfold widened. simpl. by rewrite lookup_empty. }
  apply NoDup_cons in Hn as [Hkey Hn]. apply Forall_cons in Hc as [[t Ht] Hc]. simpl in Ht. simpl. unfold observe. rewrite Ht. simpl.
  set (st1 := NdjsonColumns _ _). destruct (IH st1) as (st' & He & Hok & Hty); [|done|done|].
  { destruct Hst as [Hnd Hdom]. subst st1. split; simpl.
    - case_bool_decide as Hk; [done|]. apply NoDup_app. split_and!; [done| |apply NoDup_singleton].
      intros x Hx ->%list_elem_of_singleton. apply Hk, Hdom, Hx.
    - intros k. rewrite lookup_insert_is_Some. case_bool_decide as Hk.
      + rewrite Hdom. destruct (decide (key = k)) as [->|]; naive_solver.
      + rewrite elem_of_app, list_elem_of_singleton, Hdom. destruct (decide (key = k)) as [->|]; naive_solver. }
  exists st'. split_and!; [done|apply Hok..|]. intros k. rewrite Hty. unfold widened. simpl. destruct (decide (key = k)) as [->|Hne].
  - rewrite lookup_insert_eq, (not_elem_of_list_to_map_1 kvs) by done. subst st1. simpl. by rewrite lookup_insert_eq, Ht.
  - rewrite lookup_insert_ne by done. subst st1. simpl. by rewrite !lookup_insert_ne.
Qed.

Lemma observe_all_nested kvs : ∀ st, ¬ classified kvs → ∃ e, observe_all st kvs = Err e.
Proof.
  induction kvs as [|[key v] kvs IH]; intros st Hc; [by destruct Hc; constructor|]. simpl. unfold observe.
  destruct (classifyJSONScalar v) as [t|] eqn:Ht; [|by eexists]. simpl. apply IH. intros Hc'. apply Hc. constructor; [by eexists|done].
Qed.

Definition same_columns (st1 st2 : ndjsonColumns) : Prop := columns_ok st1 ∧ columns_ok st2 ∧ nc_types st1 = nc_types st2.

(** The two runs end alike. *)
Definition agree {A} (R : A → A → Prop) (r1 r2 : A_ A) : Prop :=
  match r1, r2 with Ok a, Ok b => R a b | Err _, Err _ => True | _, _ => False end.

Lemma observe_permuted m kvs1 kvs2 st1 st2 :
  same_columns st1 st2 → kvs1 ≡ₚ map_to_list m → kvs2 ≡ₚ map_to_list m →
  agree same_columns (observe_all st1 kvs1) (observe_all st2 kvs2).
Proof.
  intros (Hs1 & Hs2 & Ht) P1 P2. assert (NoDup kvs1.*1 ∧ NoDup kvs2.*1) as [N1 N2] by (rewrite P1, P2; split; apply NoDup_fst_map_to_list).
  assert (list_to_map kvs1 = m ∧ list_to_map kvs2 = m) as [M1 M2].
  { split; (transitivity (list_to_map (map_to_list m) : gmap string json); [by apply list_to_map_proper|apply list_to_map_to_list]). }
  destruct (decide (classified kvs1)) as [C1|C1].
  - assert (classified kvs2) as C2 by (unfold classified; by rewrite P2, <-P1).
    destruct (observe_all_spec kvs1 st1 Hs1 N1 C1) as (s1 & -> & O1 & T1). destruct (observe_all_spec kvs2 st2 Hs2 N2 C2) as (s2 & -> & O2 & T2).
    split; [done|]. split; [done|]. apply map_eq. intros k. by rewrite T1, T2, M1, M2, Ht.
  - assert (¬ classified kvs2) as C2 by (intros C2; apply C1; unfold classified; by rewrite P1, <-P2).
    destruct (observe_all_nested kvs1 st1 C1) as [e1 ->], (observe_all_nested kvs2 st2 C2) as [e2 ->]. done.
Qed.

Lemma sample_permuted it1 it2 lines : iterates it1 → iterates it2 → ∀ sampled st1 st2, same_columns st1 st2 →
  agree (λ a b, same_columns a.1 b.1 ∧ a.2 = b.2) (sample_lines it1 sampled lines st1) (sample_lines it2 sampled lines st2).
Proof.
  intros I1 I2. induction lines as [|line lines IH]; intros sampled st1 st2 Hs; [done|]. cbn [sample_lines].
  destruct (_ <=? _)%nat; [done|]. case_bool_decide; [by apply IH|]. destruct (decode_record _) as [ms|]; [|done].
  pose proof (observe_permuted (record_map ms) _ _ _ _ Hs (I1 sampled (record_map ms)) (I2 sampled (record_map ms))) as Ho.
  destruct (observe_all st1 _) as [s1|e1|], (observe_all st2 _) as [s2|e2|]; try done. by apply IH.
Qed.

(** What NDJSON autodetection finds does not depend on the order in which Go
    happens to iterate over the keys of a record: whatever the orders, the
    detection succeeds or fails alike, and the schemas it finds have the same
    columns with the same types - though not in the same order. *)
Theorem ndjson_detection_deterministic it1 it2 (data : string) :
  iterates it1 → iterates it2 →
  agree (λ s1 s2 : schema, s1 ≡ₚ s2) (detectSchemaFromNDJSON it1 data) (detectSchemaFromNDJSON it2 data).
Proof.
  intros I1 I2. unfold detectSchemaFromNDJSON. destruct (scan_lines data) as [lines tooLong].
  assert (same_columns (NdjsonColumns [] ∅) (NdjsonColumns [] ∅)) as Hs.
  { assert (columns_ok (NdjsonColumns [] ∅)); [|done]. split; [constructor|]. intros k. simpl. rewrite lookup_empty, elem_of_nil.
    split; [done|by intros []]. }
  pose proof (sample_permuted it1 it2 lines I1 I2 0 _ _ Hs) as Ha.
  destruct (sample_lines it1 _ _ _) as [[s1 n1]|e1|], (sample_lines it2 _ _ _) as [[s2 n2]|e2|]; try done.
  unfold agree in Ha. destruct Ha as [([N1 D1] & [N2 D2] & Ht) Hn]. cbn [fst snd] in *. subst n2. cbn [mbind res_bind]. destruct (_ && _); [done|]. destruct (_ =? _)%nat; [done|]. simpl.
  unfold ndjson_schema. rewrite Ht. apply fmap_Permutation. apply NoDup_Permutation; [done|done|]. intros k. by rewrite D1, D2, Ht.
Qed.
End Order.

(** ** A detected schema fits its file *)

Section Csv.
Context `{FloatText} `{!FileCodecs}.

Lemma classify_scalar v : scalar_type (classifyCSVScalar v).
Proof. unfold classifyCSVScalar, scalar_type. repeat case_bool_decide; set_solver. Qed.

(** A value fits a type when it does not widen it. *)
Definition fits (cell t : string) : Prop := widenScalarType t (classifyCSVScalar cell) = t.

Lemma fits_widen cell t u : scalar_type t → scalar_type u → fits cell t → fits cell (widenScalarType t u).
Proof.
  unfold fits. intros Ht Hu Hf. pose proof (classify_scalar cell) as Hc.
  by rewrite <-widen_assoc, (widen_comm u), widen_assoc, Hf by done.
Qed.
Lemma fits_final cell t : scalar_type t → fits cell t → fits cell (final_type t).
Proof.
  intros Ht. unfold fits, final_type. case_bool_decide as E; [subst|done]. unfold widenScalarType at 1. simpl. intros ->. done.
Qed.

Lemma widen_row_length types r : length (widen_row types r) = length types.
Proof. apply length_imap. Qed.
Lemma infer_length rows width : length (inferCSVColumnTypes rows width) = width.
Proof.
  unfold inferCSVColumnTypes. rewrite <-(length_replicate width "") at 2. generalize (replicate width "").
  induction rows as [|r rows IH]; intros types; [done|]. simpl. rewrite IH. apply widen_row_length.
Qed.

(** Each row of the sample fits the types found, column by column. *)
Definition row_fits (r types : list string) : Prop := ∀ col cell t, r !! col = Some cell → types !! col = Some t → fits cell t.

Lemma widen_row_scalar types r : Forall scalar_type types → Forall scalar_type (widen_row types r).
Proof.
  intros Hs. apply Forall_lookup. intros col t. unfold widen_row. rewrite list_lookup_imap. destruct (types !! col) as [u|] eqn:Eu; [|done].
  simpl. pose proof (proj1 (Forall_lookup _ _) Hs col u Eu). destruct (r !! col); intros [= <-]; [|done].
  apply widen_scalar; [done|apply classify_scalar].
Qed.
Lemma widen_row_keeps types r q : Forall scalar_type types → row_fits q types → row_fits q (widen_row types r).
Proof.
  intros Hs Hq col cell t Hc Ht. unfold widen_row in Ht. rewrite list_lookup_imap in Ht. destruct (types !! col) as [u|] eqn:Eu; [|done].
  simpl in Ht. pose proof (proj1 (Forall_lookup _ _) Hs col u Eu). destruct (r !! col); simplify_eq; [|by eapply Hq].
  apply fits_widen; [done|apply classify_scalar|by eapply Hq].
Qed.
Lemma widen_row_fits types r : Forall scalar_type types → row_fits r (widen_row types r).
Proof.
  intros Hs col cell t Hc Ht. unfold widen_row in Ht. rewrite list_lookup_imap, Hc in Ht. destruct (types !! col) as [u|] eqn:Eu; [|done].
  simplify_eq/=. unfold fits. pose proof (proj1 (Forall_lookup _ _) Hs col u Eu). pose proof (classify_scalar cell).
  by rewrite <-widen_assoc, widen_idem.
Qed.

Lemma infer_fits rows width : Forall scalar_type (inferCSVColumnTypes rows width) ∧
  Forall (λ r, row_fits r (inferCSVColumnTypes rows width)) rows.
Proof.
  unfold inferCSVColumnTypes.
  assert (Forall scalar_type (replicate width "")) as Hs by (apply Forall_replicate; unfold scalar_type; set_solver).
  assert (∀ types, Forall scalar_type types →
    Forall scalar_type (foldl widen_row types rows) ∧ Forall (λ r, row_fits r (foldl widen_row types rows)) rows ∧
    ∀ q, row_fits q types → row_fits q (foldl widen_row types rows)) as Hgen; [|by destruct (Hgen _ Hs) as (? & ? & _)].
  clear Hs. induction rows as [|r rows IH]; intros types Hs; [by split_and!|]. simpl.
  destruct (IH (widen_row types r) (widen_row_scalar _ r Hs)) as (Hs' & Hf & Hk). split_and!; [done| |].
  - constructor; [|done]. by apply Hk, widen_row_fits.
  - intros q Hq. by apply Hk, widen_row_keeps.
Qed.

Lemma header_width sample width names start :
  detectCSVHeader sample width = (names, start) → (∀ first, head sample = Some first → length first = width) →
  length names = width ∧ (start ≤ 1)%nat.
Proof.
  intros Hd Hw. unfold detectCSVHeader in Hd. assert (length (genericCSVColumnNames width) = width) as Hg
    by (unfold genericCSVColumnNames; by rewrite length_fmap, length_seq).
  destruct sample as [|first [|second sample]]; [by simplify_eq; auto..|]. destruct (looksLikeCSVHeader _ _); simplify_eq; [|by auto].
  split; [|done]. by apply Hw.
Qed.

Lemma detected_field name t : scalar_type t →
  Mode (nullable_field name t) ≠ "REPEATED" ∧ isRecordType (Type_ (nullable_field name t)) = false ∧ normalizeMode (Mode (nullable_field name t)) ≠ "REQUIRED".
Proof.
  unfold scalar_type. rewrite !elem_of_cons, elem_of_nil. intros Ht. split_and!; [done| |done].
  destruct_or!; subst; vm_compute; done.
Qed.

Lemma detected_fields names types : Forall scalar_type types →
  Forall (λ f, Mode f ≠ "REPEATED" ∧ isRecordType (Type_ f) = false ∧ normalizeMode (Mode f) ≠ "REQUIRED") (zip_with nullable_field names types).
Proof.
  intros Hs. apply Forall_lookup. intros i f Hf. apply lookup_zip_with_Some in Hf as (n & t & -> & _ & Ht).
  apply detected_field. by eapply Forall_lookup_1.
Qed.

Lemma flat_not_rejected sch : Forall (λ f, Mode f ≠ "REPEATED" ∧ isRecordType (Type_ f) = false ∧ normalizeMode (Mode f) ≠ "REQUIRED") sch →
  reject_nested sch = Ok tt.
Proof.
  intros Hs. unfold reject_nested, rejectNestedFields. destruct (list_find _ sch) as [[i f]|] eqn:E; [|done].
  apply list_find_Some in E as (Hl & Hf & _). destruct (proj1 (Forall_lookup _ _) Hs i f Hl) as (Hm & Hr & _).
  rewrite Hr, bool_decide_false in Hf by done. done.
Qed.
Lemma flat_rows_valid sch (rows : list row) : Forall (λ f, Mode f ≠ "REPEATED" ∧ isRecordType (Type_ f) = false ∧ normalizeMode (Mode f) ≠ "REQUIRED") sch →
  validateStoredRows sch rows = None.
Proof.
  intros Hs. apply validateStoredRows_none, Forall_forall. intros r _ i f Hf. destruct (proj1 (Forall_lookup _ _) Hs i f Hf) as (Hm & Hr & Hq).
  unfold cell_conforms. destruct (loadStoredCell _) as [v [|]]; [done|by left].
Qed.

Definition even_rows (width : nat) (records : list (list string)) : Prop := Forall (λ r, length r = width) records.

(** C33. What CSV autodetection finds, the load accepts: when a schema is detected
    for a file whose rows all have as many fields as its first, loading the file
    with that schema, skipping the rows detection skipped and the header it found,
    succeeds and gives exactly the remaining rows; they are valid for the schema,
    and every sampled value is of its column's type or of one that widens to it. *)
Theorem detected_schema_loads (data fieldDelimiter : string) (skip : Z) (sch : schema) (header : nat) (records : list (list string)) :
  detectSchemaFromCSV data fieldDelimiter skip = Ok (sch, header) →
  csv_read (csv_comma fieldDelimiter) data = Ok records →
  even_rows (length sch) (drop (Z.to_nat skip) records) →
  let rows := drop (Z.to_nat skip + header) records in
  parseCSVRows data sch fieldDelimiter (skip + Z.of_nat header) = Ok rows ∧
  validateStoredRows sch rows = None ∧
  ∀ i r col cell f, (i + header < autodetectSampleLimit)%nat → rows !! i = Some r → r !! col = Some cell →
    sch !! col = Some f → fits cell (Type_ f).
Proof.
  unfold detectSchemaFromCSV. intros Hd Hread. rewrite Hread in Hd. unfold skip_records in Hd.
  destruct (skip <? 0) eqn:Es; [done|]. apply Z.ltb_ge in Es. intros Heven.
  destruct (Z.le_gt_cases (Z.of_nat (length records)) skip) as [Hle|Hlt].
  { rewrite Z.min_r, Nat2Z.id, drop_all in Hd by done. done. }
  rewrite Z.min_l in Hd by lia. destruct (drop (Z.to_nat skip) records) as [|first rest] eqn:Edrop; [done|].
  remember (take autodetectSampleLimit (first :: rest)) as sample eqn:Hsample.
  destruct (detectCSVHeader _ _) as [names start] eqn:Eh. injection Hd as <- <-.
  destruct (header_width _ _ _ _ Eh) as [Hnames Hstart].
  { intros f Hf. rewrite Hsample in Hf. unfold autodetectSampleLimit in Hf. simpl in Hf. congruence. }
  set (types := inferCSVColumnTypes (drop start sample) (length first)) in *.
  destruct (infer_fits (drop start sample) (length first)) as [Hscalar Hfit]. fold types in Hscalar, Hfit.
  assert (length types = length first) as Htypes by apply infer_length.
  set (sch := zip_with nullable_field names types) in *.
  assert (length sch = length first) as Hsch by (subst sch; rewrite length_zip_with; lia).
  assert (drop (Z.to_nat skip + start) records = drop start (first :: rest)) as Hrows by (by rewrite <-Edrop, drop_drop).
  pose proof (detected_fields names types Hscalar) as Hflat. fold sch in Hflat. cbv zeta. rewrite Hrows. split_and!.
  - unfold parseCSVRows. rewrite (flat_not_rejected _ Hflat), Hread. cbn [csv_error mbind res_bind].
    assert (skip_records (skip + Z.of_nat start) records = Ok (drop start (first :: rest))) as ->.
    { unfold skip_records. rewrite (proj2 (Z.ltb_ge _ _)) by lia. f_equal. rewrite <-Hrows.
      assert (length (first :: rest) = length records - Z.to_nat skip)%nat as Hl by (by rewrite <-Edrop, length_drop). simpl in Hl.
      rewrite Z.min_l by lia. f_equal. lia. }
    cbn [mbind res_bind]. rewrite check_widths_ok; [done|]. rewrite Hsch in Heven. rewrite Hsch. by apply Forall_drop.
  - by apply flat_rows_valid.
  - intros i r col cell f Hi Hr Hcell Hf. subst sch. apply lookup_zip_with_Some in Hf as (n & t & -> & _ & Ht). simpl.
    apply fits_final; [by eapply Forall_lookup_1|]. eapply (Forall_lookup_1 _ _ i r Hfit); [|done|done].
    rewrite Hsample. rewrite lookup_drop in Hr. rewrite lookup_drop, lookup_take, decide_True by lia. done.
Qed.
End Csv.

(** ** Concrete files *)

Section Concrete.
#[local] Existing Instance exact_floats.
#[local] Existing Instance integer_text.
#[local] Existing Instance demo_codecs.
#[local] Instance no_schemas : EmbeddedSchemas := {| avro_schema_json := λ _, None; parquet_columns := λ _, Panic |}.

Definition lines (l : list string) : string := join (String newline "") l.
Definition demo_csv : string := lines ["name,age,ok"; "ann,7,true"; "bob,,false"; "eve,8.5,true"].
(** [strconv.ParseFloat] here reads JSON numbers. *)
Definition demo_detected : schema :=
  [nullable_field "name" "STRING"; nullable_field "age" "FLOAT64"; nullable_field "ok" "BOOL"].

Lemma detected_schema_loads_witness :
  detectSchemaFromCSV demo_csv "" 0 = Ok (demo_detected, 1%nat) ∧
  parseCSVRows demo_csv demo_detected "" 1 = Ok [["ann"; "7"; "true"]; ["bob"; ""; "false"]; ["eve"; "8.5"; "true"]].
Proof.
  split; [vm_compute; reflexivity|].
  destruct (detected_schema_loads demo_csv "" 0 demo_detected 1
    [["name"; "age"; "ok"]; ["ann"; "7"; "true"]; ["bob"; ""; "false"]; ["eve"; "8.5"; "true"]]) as [Hload _].
  - vm_compute. reflexivity.
  - vm_compute. reflexivity.
  - repeat constructor.
  - exact Hload.
Defined.

Definition forwards (n : nat) (m : gmap string json) : list (string * json) := map_to_list m.
Definition backwards (n : nat) (m : gmap string json) : list (string * json) := reverse (map_to_list m).
Definition demo_ndjson : string := "{" +:+ json_quote "a" +:+ ":1," +:+ json_quote "b" +:+ ":" +:+ json_quote "x" +:+ "}".

Lemma ndjson_detection_deterministic_witness :
  is_ok (detectSchemaFromNDJSON forwards demo_ndjson) = true ∧
  agree (λ s1 s2 : schema, s1 ≡ₚ s2) (detectSchemaFromNDJSON forwards demo_ndjson) (detectSchemaFromNDJSON backwards demo_ndjson).
Proof.
  split; [vm_compute; reflexivity|]. apply (ndjson_detection_deterministic forwards backwards demo_ndjson).
  - by intros n m.
  - intros n m. apply reverse_Permutation.
Defined.

(** The order of the columns is left to chance: two runs over the same file may
    number them differently. *)
Example detected_column_order_varies :
  (map Name <$> match detectSchemaFromNDJSON forwards demo_ndjson with Ok s => Some s | _ => None end) ≠
  (map Name <$> match detectSchemaFromNDJSON backwards demo_ndjson with Ok s => Some s | _ => None end).
Proof. vm_compute. discriminate. Qed.

(** A large integer is detected as a FLOAT64 only when it has a fraction: what
    does not fit an INT64 is still called one. *)
Example huge_number_detected_as_int64 : classifyJSONScalar (JNum "1e30") = Some "INT64".
Proof. vm_compute. reflexivity. Qed.

(** A file of text columns only has no header the detection can tell from data. *)
Example text_header_becomes_data :
  detectSchemaFromCSV (lines ["name,city"; "ann,rome"; "bob,oslo"]) "" 0 =
  Ok ([nullable_field "string_field_0" "STRING"; nullable_field "string_field_1" "STRING"], O).
Proof. vm_compute. reflexivity. Qed.
End Concrete.
