(* ===== verification/EngineValues.v ===== *)
(** * Rows in and out of the engine (sql_engine.go)

    The embedded engine is given each table by [CREATE TABLE] and [INSERT]
    statements and answers with rows of Go values.  Here are the texts of those
    statements with their bound arguments, and the cells its answers become.
    [goValue] is what the driver takes and gives: nil, bool, int64, float64,
    string (bytes come as the text they are turned into), a slice for an ARRAY
    or, by position, a STRUCT. *)

From S2P Require Import Prelude GoStrings GoJson GoCsv GoFloat Cells TableModel EnginePool StorageWrite StreamingInserts JsonText Jobs QueryParams FileFormats FileRoundtrip.
From Stdlib Require Import Ascii.

#[warnings="-register-all"]
Inductive goValue `{GoFloats} :=
| VNull | VBool (b : bool) | VInt (z : Z) | VFloat (f : float64) | VText (s : string)
| VList (items : list goValue) | VObj (members : list (string * goValue)).

(** The conversion of a float64 to int64, and the text [fmt] prints for a value
    that [json.Marshal] refuses. *)
Class DriverText `{GoFloats} := {
  float_to_int : float64 → Z;
  sprint_go : goValue → string;
}.

Inductive valueErr :=
| BadScalar (t : string) | BadRepeatedJson (column : string) | BadRecordJson (column : string) | NotAnObject (column : string)
| NotAnArray (column : string) | NotAStruct (column : string) | NotJson | EngineRefused | RowsUnreadable.

Abbreviation E_ := (res valueErr).
Definition some_or {A} (o : option A) (e : valueErr) : E_ A := match o with Some a => Ok a | None => Err e end.

(** ** Column types *)

Definition realSQLScalarTypes : list string :=
  ["INT64"; "FLOAT64"; "STRING"; "BOOL"; "BYTES"; "DATE"; "DATETIME"; "TIME"; "TIMESTAMP"; "NUMERIC"; "BIGNUMERIC"].

Fixpoint sqliteColumnType (field : tableField) : string :=
  let rendered :=
    if isRecordType (Type_ field) then
      "STRUCT<" +:+ join ", " ((λ f, quoteIdent (Name f) +:+ " " +:+ sqliteColumnType f) <$> Fields field) +:+ ">"
    else
      let t := to_upper (trim_space (Type_ field)) in
      if bool_decide (t ∈ realSQLScalarTypes) then t else "STRING" in
  if bool_decide (Mode field = "REPEATED") then "ARRAY<" +:+ rendered +:+ ">" else rendered.

(** [googlesqlite]'s description of a column type. *)
#[warnings="-register-all"]
Inductive sqlTypeDescriptor := TypeDescriptor (name : string) (element : option sqlTypeDescriptor)
  (fieldTypes : list (string * sqlTypeDescriptor)).
Definition no_descriptor : sqlTypeDescriptor := TypeDescriptor "" None [].

(** [json.Unmarshal] into the struct, members in order; the driver writes each
    member once. *)
Fixpoint decode_descriptor (v : json) : option sqlTypeDescriptor :=
  match v with
  | JNull => Some no_descriptor
  | JObj ms =>
      (fix members (ms : list (string * json)) (name : string) (element : option sqlTypeDescriptor)
           (fields : list (string * sqlTypeDescriptor)) {struct ms} : option sqlTypeDescriptor :=
         match ms with
         | [] => Some (TypeDescriptor name element fields)
         | (k, v) :: ms =>
             if equal_fold k "name" then
               match v with JStr s => members ms s element fields | JNull => members ms name element fields | _ => None end
             else if equal_fold k "elementType" then
               match v with
               | JNull => members ms name None fields
               | _ => d ← decode_descriptor v; members ms name (Some d) fields
               end
             else if equal_fold k "fieldTypes" then
               match v with
               | JNull => members ms name element []
               | JArr items =>
                   fields ← (fix named (items : list json) : option (list (string * sqlTypeDescriptor)) :=
                     match items with
                     | [] => Some []
                     | item :: items =>
                         n ← match item with
                             | JNull => Some ("", no_descriptor)
                             | JObj fs =>
                                 (fix field (fs : list (string * json)) (name : string) (t : sqlTypeDescriptor) {struct fs} :=
                                    match fs with
                                    | [] => Some (name, t)
                                    | (k, v) :: fs =>
                                        if equal_fold k "name" then
                                          match v with JStr s => field fs s t | JNull => field fs name t | _ => None end
                                        else if equal_fold k "type" then
                                          match v with JNull => field fs name t | _ => d ← decode_descriptor v; field fs name d end
                                        else field fs name t
                                    end) fs "" no_descriptor
                             | _ => None
                             end;
                         rest ← named items; Some (n :: rest)
                     end) items;
                   members ms name element fields
               | _ => None
               end
             else members ms name element fields
         end) ms "" None []
  | _ => None
  end.

Fixpoint sqlTypeDescriptorToField (name : string) (desc : sqlTypeDescriptor) : tableField :=
  let 'TypeDescriptor t element fieldTypes := desc in
  match element with
  | Some d =>
      let elem := sqlTypeDescriptorToField name d in
      TableField (Name elem) (Type_ elem) "REPEATED" (Fields elem)
  | None =>
      match fieldTypes with
      | [] => TableField name (if bool_decide (t = "DOUBLE") then "FLOAT64" else t) "" []
      | _ => TableField name "RECORD" "" ((λ ft, sqlTypeDescriptorToField ft.1 ft.2) <$> fieldTypes)
      end
  end.

Definition sqlColumnToTableField (name databaseTypeName : string) : tableField :=
  match json_unmarshal databaseTypeName ≫= decode_descriptor with
  | Some ((TypeDescriptor t _ _) as desc) =>
      if bool_decide (t = "") then TableField name "STRING" "" [] else sqlTypeDescriptorToField name desc
  | None => TableField name "STRING" "" []
  end.

(** ** Arguments of an INSERT *)

Section Values.
Context `{FloatText} `{!DriverText}.

Definition convertScalarForInsert (fieldType cell : string) : E_ goValue :=
  let '(cell, isNull) := loadStoredCell cell in
  if isNull then Ok VNull
  else
    let t := to_upper (trim_space fieldType) in
    if bool_decide (t = "INT64") then
      if bool_decide (cell = "") then Ok VNull else some_or (VInt <$> parse_int cell) (BadScalar t)
    else if bool_decide (t = "FLOAT64") then
      if bool_decide (cell = "") then Ok VNull else some_or (VFloat <$> parse_float cell) (BadScalar t)
    else if bool_decide (t = "BOOL") then
      if bool_decide (cell = "") then Ok VNull else some_or (VBool <$> parse_bool cell) (BadScalar t)
    else Ok (VText cell).

(** A decoded value as it is bound; the decoder has checked its numbers. *)
Fixpoint go_of_json (v : json) : goValue :=
  match v with
  | JNull => VNull
  | JBool b => VBool b
  | JNum lit => match parse_float lit with Some f => VFloat f | None => VText lit end
  | JStr s => VText s
  | JArr items => VList (go_of_json <$> items)
  | JObj ms => VObj ((λ '(k, v), (k, go_of_json v)) <$> ms)
  end.

(** [fmt.Sprintf("%v")] of a decoded value. *)
Fixpoint sprint_json (v : json) : string :=
  match v with
  | JNull => "<nil>"
  | JBool b => if b then "true" else "false"
  | JNum lit => sprint_number lit
  | JStr s => s
  | JArr items => "[" +:+ join " " (sprint_json <$> items) +:+ "]"
  | JObj ms =>
      let texts : gmap string string := list_to_map (reverse ((λ '(k, v), (k, sprint_json v)) <$> ms)) in
      "map[" +:+ join " " ((λ k, k +:+ ":" +:+ default "" (texts !! k)) <$> sorted_keys texts) +:+ "]"
  end.

(** The value of a scalar leaf. *)
Definition leaf_value (fieldType : string) (decoded : json) : E_ goValue :=
  let t := to_upper (trim_space fieldType) in
  if bool_decide (t = "INT64") then
    match decoded with
    | JNum lit => Ok (match parse_float lit with Some f => VInt (float_to_int f) | None => VText lit end)
    | JStr s => some_or (VInt <$> parse_int s) (BadScalar t)
    | _ => Ok (go_of_json decoded)
    end
  else if bool_decide (t = "FLOAT64") then
    match decoded with
    | JStr s => some_or (VFloat <$> parse_float s) (BadScalar t)
    | _ => Ok (go_of_json decoded)
    end
  else if bool_decide (t = "BOOL") then
    match decoded with
    | JStr s => some_or (VBool <$> parse_bool s) (BadScalar t)
    | _ => Ok (go_of_json decoded)
    end
  else Ok (VText (sprint_json decoded)).

Definition cast_text (fieldType : string) : string :=
  "CAST(? AS " +:+ sqliteColumnType (TableField "" fieldType "" []) +:+ ")".

(** The parts of a list, with the arguments they bind, in order. *)
Definition parts {A} (f : A → E_ (string * list goValue)) : list A → E_ (list string * list goValue) :=
  fix go l :=
    match l with
    | [] => Ok ([], [])
    | a :: l => '(e, p) ← f a; '(es, ps) ← go l; Ok (e :: es, p ++ ps)
    end.

Fixpoint exprForDecodedValue (field : tableField) (decoded : json) : E_ (string * list goValue) :=
  match decoded with
  | JNull => Ok ("NULL", [])
  | _ =>
      if isRecordType (Type_ field) then
        match decoded with
        | JObj obj =>
            '(es, ps) ← parts (λ sub, '(e, p) ← exprForDecodedValue sub (obj_get obj (Name sub));
                                     Ok (e +:+ " AS " +:+ quoteIdent (Name sub), p)) (Fields field);
            Ok ("STRUCT(" +:+ join ", " es +:+ ")", ps)
        | _ => Err (NotAnObject (Name field))
        end
      else v ← leaf_value (Type_ field) decoded; Ok (cast_text (Type_ field), [v])
  end.

Definition structExprForDecodedValue (field : tableField) (obj : list (string * json)) : E_ (string * list goValue) :=
  '(es, ps) ← parts (λ sub, '(e, p) ← exprForDecodedValue sub (obj_get obj (Name sub));
                           Ok (e +:+ " AS " +:+ quoteIdent (Name sub), p)) (Fields field);
  Ok ("STRUCT(" +:+ join ", " es +:+ ")", ps).

Definition base_field (field : tableField) : tableField := TableField (Name field) (Type_ field) "" (Fields field).

Definition buildInsertValueExpr (field : tableField) (cell : string) : E_ (string * list goValue) :=
  let '(cell, isNull) := loadStoredCell cell in
  if isNull then Ok ("NULL", [])
  else if bool_decide (Mode field = "REPEATED") then
    if bool_decide (cell = "") then Ok ("NULL", [])
    else
      match json_decode cell with
      | Some JNull | Some (JArr []) => Ok ("[]", [])
      | Some (JArr decoded) =>
          '(es, ps) ← parts (exprForDecodedValue (base_field field)) decoded;
          Ok ("[" +:+ join ", " es +:+ "]", ps)
      | _ => Err (BadRepeatedJson (Name field))
      end
  else if isRecordType (Type_ field) then
    if bool_decide (cell = "") then Ok ("NULL", [])
    else
      match json_decode cell with
      | Some JNull => structExprForDecodedValue field []
      | Some (JObj decoded) => structExprForDecodedValue field decoded
      | _ => Err (BadRecordJson (Name field))
      end
  else v ← convertScalarForInsert (Type_ field) cell; Ok (cast_text (Type_ field), [v]).

(** ** Materialization *)

Definition nested_column (f : tableField) : bool := bool_decide (Mode f = "REPEATED") || isRecordType (Type_ f).

(** The arguments of the columns from the [i]th on. *)
Fixpoint scalar_values (r : row) (i : nat) (fields : schema) : E_ (list goValue) :=
  match fields with
  | [] => Ok []
  | f :: fields => v ← convertScalarForInsert (Type_ f) (cell_at r i); vs ← scalar_values r (S i) fields; Ok (v :: vs)
  end.
Definition scalarRowValues (fields : schema) (r : row) : E_ (list goValue) := scalar_values r 0 fields.

(** The VALUES of one row of a table with nested columns. *)
Definition nested_row (fields : schema) (r : row) : E_ (list string * list goValue) :=
  parts (λ fc : tableField * string, buildInsertValueExpr fc.1 fc.2) (imap (λ i f, (f, cell_at r i)) fields).

Definition create_table_text (qualified : string) (fields : schema) : string :=
  "CREATE TABLE " +:+ qualified +:+ " (" +:+
    join ", " ((λ f, quoteIdent (Name f) +:+ " " +:+ sqliteColumnType f) <$> fields) +:+ ")".
Definition insert_text (qualified : string) (values : list string) : string :=
  "INSERT INTO " +:+ qualified +:+ " VALUES (" +:+ join ", " values +:+ ")".

End Values.

(** The driver: [db.Exec], and what a transaction does before its rows, at its
    commit; [db.Query] gives the columns with their types, the rows read, and
    whether reading them ended without an error. *)
Class SqlDriver (DB : Type) `{GoFloats} := {
  drv_exec : DB → string → list goValue → option DB;
  drv_begin : DB → string → bool;
  drv_commit : DB → option DB;
  drv_query : DB → string → list queryArg → option (list (string * string) * list (list goValue) * bool);
}.

Section Driver.
Context {DB : Type} `{FloatText} `{!DriverText} `{!SqlDriver DB}.

(** Rows inserted one by one, up to the first failure. *)
Fixpoint exec_rows (db : DB) (statement : row → E_ (string * list goValue)) (rows : list row) : DB * E_ unit :=
  match rows with
  | [] => (db, Ok tt)
  | r :: rows =>
      match statement r with
      | Ok (text, args) =>
          match drv_exec db text args with
          | Some db => exec_rows db statement rows
          | None => (db, Err EngineRefused)
          end
      | Err e => (db, Err e)
      | Panic => (db, Panic)
      end
  end.

(** One transaction: what it inserted is gone when it does not commit. *)
Definition materializeScalarRows (db : DB) (qualified : string) (fields : schema) (rows : list row) : DB * E_ unit :=
  let text := insert_text qualified ((λ _, "?") <$> fields) in
  if drv_begin db text then
    match exec_rows db (λ r, vs ← scalarRowValues fields r; Ok (text, vs)) rows with
    | (db', Ok _) => match drv_commit db' with Some db' => (db', Ok tt) | None => (db, Err EngineRefused) end
    | (_, e) => (db, e)
    end
  else (db, Err EngineRefused).

Definition materializeNestedRows (db : DB) (qualified : string) (fields : schema) (rows : list row) : DB * E_ unit :=
  exec_rows db (λ r, '(es, ps) ← nested_row fields r; Ok (insert_text qualified es, ps)) rows.

Definition materializeTable (db : DB) (datasetID tableID : string) (fields : schema) (rows : list row) : DB * E_ unit :=
  let qualified := quoteIdent datasetID +:+ "." +:+ quoteIdent tableID in
  match drv_exec db (create_table_text qualified fields) [] with
  | None => (db, Err EngineRefused)
  | Some db =>
      if bool_decide (rows = []) then (db, Ok tt)
      else if existsb nested_column fields then materializeNestedRows db qualified fields rows
      else materializeScalarRows db qualified fields rows
  end.
End Driver.

(** ** Scanned rows *)

Section Scan.
Context `{FloatText} `{!DriverText}.

Fixpoint marshal_go (v : goValue) : option string :=
  match v with
  | VNull => Some "null"
  | VBool b => Some (if b then "true" else "false")
  | VInt z => Some (format_int z)
  | VFloat f => float_json f
  | VText s => Some (json_quote s)
  | VList items => texts ← mapM marshal_go items; Some ("[" +:+ join "," texts +:+ "]")
  | VObj ms =>
      texts ← mapM (λ '(k, v), t ← marshal_go v; Some (k, t)) ms;
      Some (map_text (list_to_map (reverse texts)))
  end.

(** [scalarValueToString] of a scanned value. *)
Definition scanned_scalar (v : goValue) : string :=
  match v with
  | VNull => storedNullCell
  | VBool b => storeStringCell (if b then "true" else "false")
  | VInt z => storeStringCell (format_int z)
  | VFloat f => storeStringCell (float_plain f)
  | VText s => storeStringCell s
  | VList _ | VObj _ => storeStringCell (default (sprint_go v) (marshal_go v))
  end.

(** [single] is the call on the field without its mode. *)
Definition is_nil (v : goValue) : bool := match v with VNull => true | _ => false end.

Fixpoint normalizeScannedValue (field : tableField) (v : goValue) : E_ goValue :=
  let single (v : goValue) : E_ goValue :=
    if is_nil v then Ok VNull
    else if isRecordType (Type_ field) then
      match v with
      | VList positional =>
          ms ← (fix go (subs : list tableField) (vs : list goValue) : E_ (list (string * goValue)) :=
                  match subs, vs with
                  | sub :: subs, v :: vs => n ← normalizeScannedValue sub v; ms ← go subs vs; Ok ((Name sub, n) :: ms)
                  | _, _ => Ok []
                  end) (Fields field) positional;
          Ok (VObj ms)
      | _ => Err (NotAStruct (Name field))
      end
    else Ok v in
  if is_nil v then Ok VNull
  else if bool_decide (Mode field = "REPEATED") then
    match v with
    | VList items =>
        out ← (fix go (l : list goValue) : E_ (list goValue) :=
                 match l with [] => Ok [] | v :: l => n ← single v; ns ← go l; Ok (n :: ns) end) items;
        Ok (VList out)
    | _ => Err (NotAnArray (Name field))
    end
  else single v.

Definition cellFromScannedValue (field : tableField) (v : goValue) : E_ string :=
  if negb (bool_decide (Mode field = "REPEATED")) && negb (isRecordType (Type_ field)) then Ok (scanned_scalar v)
  else if is_nil v then Ok storedNullCell
  else n ← normalizeScannedValue field v; some_or (marshal_go n) NotJson.

(** A scanned row; it has one value per column. *)
Fixpoint scanned_row (sch : schema) (vs : list goValue) : E_ row :=
  match sch, vs with
  | field :: sch, v :: vs => cell ← cellFromScannedValue field v; r ← scanned_row sch vs; Ok (cell :: r)
  | _, _ => Ok []
  end.
Fixpoint scanned_rows (sch : schema) (rows : list (list goValue)) : E_ (list row) :=
  match rows with
  | [] => Ok []
  | vs :: rows => r ← scanned_row sch vs; rs ← scanned_rows sch rows; Ok (r :: rs)
  end.

Definition scanRealSQLRows (columns : list (string * string)) (rows : list (list goValue)) (complete : bool)
    : E_ (schema * list row) :=
  let sch := (λ c, sqlColumnToTableField c.1 c.2) <$> columns in
  result ← scanned_rows sch rows;
  if complete then Ok (sch, result) else Err RowsUnreadable.
End Scan.

(** ** The expressions of an INSERT

    The texts above are those of these expressions, which bind their arguments
    from left to right; [denoted] is the value of one: a CAST of an argument of
    its own type is that argument, a STRUCT and an ARRAY are their parts. *)

#[warnings="-register-all"]
Inductive insertExpr `{GoFloats} :=
| ENull
| ECast (t : string) (v : goValue)
| EArray (items : list insertExpr)
| EStruct (fields : list (insertExpr * string)).

Section Expressions.
Context `{GoFloats}.

Fixpoint expr_text (e : insertExpr) : string :=
  match e with
  | ENull => "NULL"
  | ECast t _ => cast_text t
  | EArray items => "[" +:+ join ", " (expr_text <$> items) +:+ "]"
  | EStruct fields => "STRUCT(" +:+ join ", " ((λ '(e, n), expr_text e +:+ " AS " +:+ quoteIdent n) <$> fields) +:+ ")"
  end.
Fixpoint expr_args (e : insertExpr) : list goValue :=
  match e with
  | ENull => []
  | ECast _ v => [v]
  | EArray items => mjoin (expr_args <$> items)
  | EStruct fields => mjoin ((λ '(e, _), expr_args e) <$> fields)
  end.
Fixpoint denoted (e : insertExpr) : goValue :=
  match e with
  | ENull => VNull
  | ECast _ v => v
  | EArray items => VList (denoted <$> items)
  | EStruct fields => VList ((λ '(e, _), denoted e) <$> fields)
  end.
(** The expression [r] renders and its value. *)
Definition renders (r : E_ (string * list goValue)) (v : goValue) : Prop :=
  ∃ e, r = Ok (expr_text e, expr_args e) ∧ denoted e = v.
End Expressions.

(** ** Values come back as they went in *)

Section Roundtrip.
Context `{FloatText} `{!DriverText}.

(** Integers of up to 53 bits survive JSON, and JSON numbers are numbers. *)
Definition number_laws : Prop :=
  (∀ f t, float_json f = Some t → number_literal t) ∧
  (∀ z, Z.abs z < 2 ^ 53 → ∃ f, parse_float (format_int z) = Some f ∧ float_to_int f = z).
Hypothesis laws : number_laws.

(** A scalar that JSON carries, for a column of its type. *)
Definition leaf_safe (fieldType : string) (v : goValue) : Prop :=
  let t := to_upper (trim_space fieldType) in
  match v with
  | VInt z => t = "INT64" ∧ Z.abs z < 2 ^ 53
  | VFloat f => t = "FLOAT64" ∧ ∃ text, float_json f = Some text ∧ parse_float text = Some f
  | VBool _ => t = "BOOL"
  | VText s => t = "STRING" ∧ utf8_clean s = s
  | _ => False
  end.

(** A value of a field, its mode aside: a scalar, or a record whose fields have
    names of their own and no arrays. *)
#[warnings="-register-all"]
Inductive single_value : tableField → goValue → Prop :=
| single_leaf f v : isRecordType (Type_ f) = false → leaf_safe (Type_ f) v → single_value f v
| single_record f vs :
    isRecordType (Type_ f) = true → NoDup (Name <$> Fields f) → Forall (λ sub, utf8_clean (Name sub) = Name sub) (Fields f) →
    Forall2 (λ sub v, Mode sub ≠ "REPEATED" ∧ (v = VNull ∧ normalizeMode (Mode sub) ≠ "REQUIRED" ∨ single_value sub v))
      (Fields f) vs →
    single_value f (VList vs).

(** The inner functions of [normalizeScannedValue], named. *)
Definition scan_subs : list tableField → list goValue → E_ (list (string * goValue)) :=
  fix go subs vs :=
    match subs, vs with
    | sub :: subs, v :: vs => n ← normalizeScannedValue sub v; ms ← go subs vs; Ok ((Name sub, n) :: ms)
    | _, _ => Ok []
    end.
Definition scan_single (field : tableField) (v : goValue) : E_ goValue :=
  if is_nil v then Ok VNull
  else if isRecordType (Type_ field) then
    match v with
    | VList positional => ms ← scan_subs (Fields field) positional; Ok (VObj ms)
    | _ => Err (NotAStruct (Name field))
    end
  else Ok v.
Definition scan_all (f : goValue → E_ goValue) : list goValue → E_ (list goValue) :=
  fix go l := match l with [] => Ok [] | v :: l => n ← f v; ns ← go l; Ok (n :: ns) end.

Lemma normalize_unfold field v :
  normalizeScannedValue field v =
  if is_nil v then Ok VNull
  else if bool_decide (Mode field = "REPEATED") then
    match v with VList items => out ← scan_all (scan_single field) items; Ok (VList out) | _ => Err (NotAnArray (Name field)) end
  else scan_single field v.
Proof. destruct field. reflexivity. Qed.

Lemma scan_all_ok f vs ns : Forall2 (λ v n, f v = Ok n) vs ns → scan_all f vs = Ok ns.
Proof. induction 1 as [|v n vs ns Hv _ IH]; [done|]. simpl. by rewrite Hv, IH. Qed.
Lemma scan_subs_ok subs vs ns :
  Forall2 (λ (sv : tableField * goValue) n, normalizeScannedValue sv.1 sv.2 = Ok n) (zip subs vs) ns → length subs = length vs →
  scan_subs subs vs = Ok (zip (Name <$> subs) ns).
Proof.
  revert vs ns. induction subs as [|s subs IH]; intros [|v vs] ns Hn Hl; simplify_eq/=; [by inversion Hn|].
  apply Forall2_cons_inv_l in Hn as (n & ns' & Hv & Hn & ->). simpl in Hv. rewrite Hv. simpl. by rewrite (IH vs ns').
Qed.
Lemma mapM_texts (ns : list goValue) texts : mapM marshal_go ns = Some texts ↔ Forall2 (λ n t, marshal_go n = Some t) ns texts.
Proof. apply mapM_Some. Qed.

(** The texts of the members, under their names. *)
Lemma marshal_members names ns texts :
  length names = length ns → Forall2 (λ n t, marshal_go n = Some t) ns texts →
  mapM (λ kv : string * goValue, let '(k, v) := kv in t ← marshal_go v; Some (k, t)) (zip names ns) = Some (zip names texts).
Proof.
  intros Hl Ht. revert names Hl. induction Ht as [|n t ns ts Hn _ IH]; intros [|k names] Hl; simplify_eq/=; [done|].
  rewrite Hn. simpl. by rewrite IH.
Qed.

Lemma parts_render {A} (f : A → E_ (string * list goValue)) l vs :
  Forall2 (λ a v, renders (f a) v) l vs →
  ∃ es, parts f l = Ok (expr_text <$> es, mjoin (expr_args <$> es)) ∧ denoted <$> es = vs.
Proof.
  induction 1 as [|a v l vs (e & Hf & <-) _ (es & Hp & <-)]; [by exists []|].
  exists (e :: es). simpl. rewrite Hf. simpl. by rewrite Hp.
Qed.
Lemma struct_renders (g : tableField → E_ (string * list goValue)) subs vs :
  Forall2 (λ sub v, renders (g sub) v) subs vs →
  renders ('(es, ps) ← parts (λ sub, '(e, p) ← g sub; Ok (e +:+ " AS " +:+ quoteIdent (Name sub), p)) subs;
           Ok ("STRUCT(" +:+ join ", " es +:+ ")", ps)) (VList vs).
Proof.
  intros Hf.
  assert (∃ fields : list (insertExpr * string),
    parts (λ sub, '(e, p) ← g sub; Ok (e +:+ " AS " +:+ quoteIdent (Name sub), p)) subs =
      Ok ((λ '(e, n), expr_text e +:+ " AS " +:+ quoteIdent n) <$> fields, mjoin ((λ '(e, _), expr_args e) <$> fields)) ∧
    (λ '(e, _), denoted e) <$> fields = vs) as (fields & Hp & Hv).
  { induction Hf as [|sub v subs vs (e & He & <-) _ (fields & Hp & <-)]; [by exists []|].
    exists ((e, Name sub) :: fields). simpl. rewrite He. simpl. by rewrite Hp. }
  exists (EStruct fields). rewrite Hp. simpl. by rewrite Hv.
Qed.

(** What it takes for a value to survive: its JSON text is read back, fits its
    field, and is inserted as the value. *)
Definition survives (f : tableField) (v : goValue) (n : goValue) (j : json) (text : string) : Prop :=
  marshal_go n = Some text ∧ prints j text ∧ numbers_ok j = true ∧ renders (exprForDecodedValue f j) v.

Lemma leaf_survives f v : isRecordType (Type_ f) = false → leaf_safe (Type_ f) v →
  is_nil v = false ∧ ∃ j text, survives f v v j text ∧ j ≠ JNull.
Proof.
  intros Hr Hs. destruct laws as [Hf Hi].
  assert (∀ j, j ≠ JNull → leaf_value (Type_ f) j = Ok v → renders (exprForDecodedValue f j) v) as Hrender.
  { intros j Hj Hl. exists (ECast (Type_ f) v). split; [|done]. destruct f as [nm ty md fs]. simpl in *.
    destruct j; try done; by rewrite Hr, Hl. }
  unfold leaf_safe in Hs. unfold leaf_value in Hrender.
  destruct v as [|b|z|x|s|items|ms]; try done; (split; [done|]); simpl in Hs.
  - rewrite Hs in Hrender. exists (JBool b), (if b then "true" else "false"). split; [|done].
    split_and!; [done|apply prints_bool|done|]. by apply Hrender.
  - destruct Hs as [Ht Hz]. destruct (Hi z Hz) as (x & Hx & Hxz). rewrite Ht in Hrender.
    exists (JNum (format_int z)), (format_int z). split; [|done].
    split_and!; [done|apply prints_number, format_int_literal|simpl; by rewrite Hx, bool_decide_true|].
    apply Hrender; [done|]. simpl. by rewrite Hx, Hxz.
  - destruct Hs as (Ht & text & Hj & Hp). rewrite Ht in Hrender. exists (JNum text), text. split; [|done].
    split_and!; [done|by apply prints_number, (Hf x)|simpl; by rewrite Hp, bool_decide_true|].
    apply Hrender; [done|]. simpl. by rewrite Hp.
  - destruct Hs as [Ht Hc]. rewrite Ht in Hrender. exists (JStr s), (json_quote s). split; [|done].
    split_and!; [done|rewrite <-Hc at 1; apply prints_string|done|]. by apply Hrender.
Qed.

Definition sub_survives (sub : tableField) (v : goValue) : Prop :=
  ∃ n j text, normalizeScannedValue sub v = Ok n ∧ survives sub v n j text ∧ conforms sub j.

Lemma subs_survive subs vs : Forall2 sub_survives subs vs →
  ∃ ns js texts, length ns = length subs ∧
    Forall2 (λ (sv : tableField * goValue) n, normalizeScannedValue sv.1 sv.2 = Ok n) (zip subs vs) ns ∧
    Forall2 (λ n t, marshal_go n = Some t) ns texts ∧ Forall2 prints js texts ∧ Forall (λ j, numbers_ok j = true) js ∧
    Forall2 (λ sub j, conforms sub j) subs js ∧
    Forall2 (λ (sj : tableField * json) v, renders (exprForDecodedValue sj.1 sj.2) v) (zip subs js) vs.
Proof.
  induction 1 as [|sub v subs vs (n & j & t & Hn & (Hm & Hp & Hj & Hr) & Hc) _ (ns & js & ts & Hl & Ha1 & Ha2 & Ha3 & Ha4 & Ha5 & Ha6)].
  { exists [], [], []. split_and!; done || constructor. }
  exists (n :: ns), (j :: js), (t :: ts). split_and!; simpl; [lia|by constructor..].
Qed.

Lemma record_survives f vs :
  isRecordType (Type_ f) = true → NoDup (Name <$> Fields f) → Forall (λ sub, utf8_clean (Name sub) = Name sub) (Fields f) →
  Forall2 sub_survives (Fields f) vs →
  ∃ n j text, scan_single f (VList vs) = Ok n ∧ survives f (VList vs) n j text ∧ j ≠ JNull ∧ shaped f j.
Proof.
  intros Hr Hn Hc Hs. pose proof (Forall2_length _ _ _ Hs) as Hlen.
  destruct (subs_survive _ _ Hs) as (ns & js & texts & Hl & Hnorm & Hm & Hp & Hnum & Hconf & Hrend).
  set (names := Name <$> Fields f) in *.
  assert (length names = length js) as Hlj by (unfold names; rewrite length_fmap; exact (Forall2_length _ _ _ Hconf)).
  destruct (prints_map names js texts Hn) as (ms & Hprint & Hget & Hall); [|done|done|].
  { unfold names. by apply Forall_fmap. }
  assert (∀ i sub j, Fields f !! i = Some sub → js !! i = Some j → obj_get ms (Name sub) = j) as Hsub.
  { intros i sub j Hi Hj. apply (Hget i); [|done]. unfold names. by rewrite list_lookup_fmap, Hi. }
  exists (VObj (zip names ns)), (JObj ms), (map_text (list_to_map (zip names texts))). split_and!.
  - unfold scan_single. simpl. rewrite Hr, (scan_subs_ok _ _ _ Hnorm) by done. done.
  - split_and!; [|done| |].
    + change (marshal_go (VObj (zip names ns))) with
        (texts ← mapM (λ kv : string * goValue, let '(k, v) := kv in t ← marshal_go v; Some (k, t)) (zip names ns);
         Some (map_text (list_to_map (reverse texts)))).
      rewrite (marshal_members names ns texts) by (done || (unfold names; rewrite length_fmap; lia)). simpl. do 2 f_equal.
      assert ((zip names texts).*1 = names) as Hk by (apply fst_zip; rewrite Hlj, (Forall2_length _ _ _ Hp); done).
      apply list_to_map_proper; [by rewrite reverse_Permutation, Hk|by rewrite reverse_Permutation].
    + change (forallb (λ m, numbers_ok m.2) ms = true). apply forallb_forall. intros m Hin.
      specialize (Hall _ Hnum). rewrite Forall_forall in Hall. apply Hall. by apply list_elem_of_In.
    + destruct f as [nm ty md fs]. cbn [exprForDecodedValue Type_ Fields] in *. rewrite Hr.
      apply (struct_renders (λ sub, exprForDecodedValue sub (obj_get ms (Name sub)))).
      apply Forall2_same_length_lookup. split; [done|]. intros i sub v Hi Hv.
      destruct (Forall2_lookup_l _ _ _ _ _ Hconf Hi) as (j & Hj & _).
      rewrite (Hsub i sub j) by done. eapply (Forall2_lookup_lr _ _ _ i (sub, j) v) in Hrend; [done| |done].
      apply lookup_zip_Some. done.
  - done.
  - constructor; [done|]. apply Forall_lookup. intros i sub Hi. destruct (Forall2_lookup_l _ _ _ _ _ Hconf Hi) as (j & Hj & Hcj).
    by rewrite (Hsub i sub j).
Qed.

Lemma single_survives f : ∀ v, single_value f v →
  ∃ n j text, scan_single f v = Ok n ∧ survives f v n j text ∧ j ≠ JNull ∧ shaped f j ∧ is_nil v = false.
Proof.
  induction f as [f IH] using tableField_nested_ind. intros v Hv. inversion Hv as [f' v' Hr Hleaf|f' vs Hr Hn Hc Hsubs]; subst.
  - destruct (leaf_survives f v Hr Hleaf) as (Hnil & j & text & Hs & Hj). exists v, j, text. split_and!; try done.
    + unfold scan_single. by rewrite Hnil, Hr.
    + by constructor.
  - destruct (record_survives f vs) as (n & j & text & Ha1 & Ha2 & Ha3 & Ha4); try done; [|by exists n, j, text].
    clear Hv Hn Hc. induction Hsubs as [|sub v subs vs [Hm Hs] _ IHs]; [constructor|]. apply Forall_cons in IH as [IH1 IH].
    constructor; [|by apply IHs]. destruct Hs as [[-> Hq]|Hs].
    + exists VNull, JNull, "null". split_and!; [by rewrite normalize_unfold| |by constructor].
      split_and!; [done|apply prints_null|done|]. exists ENull. by destruct sub.
    + destruct (IH1 v Hs) as (n & j & text & Hn & Hsv & Hj & Hsh & Hnil). exists n, j, text. split_and!; [|done|by constructor].
      rewrite normalize_unfold, Hnil, bool_decide_false by done. done.
Qed.

(** A value of a column that an INSERT and a SELECT of it carry: any scalar of the
    column's type, a record, or an array of either. *)
Definition plain_value (fieldType : string) (v : goValue) : Prop :=
  let t := to_upper (trim_space fieldType) in
  match v with
  | VInt z => t = "INT64" ∧ in_i64 z
  | VFloat f => t = "FLOAT64" ∧ float_plain f ≠ "" ∧ loadStoredCell (float_plain f) = (float_plain f, false) ∧
                parse_float (float_plain f) = Some f
  | VBool _ => t = "BOOL"
  | VText _ => t ∉ ["INT64"; "FLOAT64"; "BOOL"]
  | _ => False
  end.
Definition storable (f : tableField) (v : goValue) : Prop :=
  match v with
  | VNull => normalizeMode (Mode f) ≠ "REQUIRED"
  | _ =>
      if bool_decide (Mode f = "REPEATED") then match v with VList vs => Forall (single_value f) vs | _ => False end
      else if isRecordType (Type_ f) then single_value f v
      else plain_value (Type_ f) v
  end.

(** JSON text is never taken for one of the tags of a stored cell. *)
Lemma prints_untagged j text : prints j text → loadStoredCell text = (text, false) ∧ text ≠ "".
Proof.
  intros (_ & _ & Hne & Hp). split; [|done]. destruct text as [|c t]; [done|].
  assert (c ≠ "000"%char) as Hc.
  { intros ->. specialize (Hp "" (S (2 * String.length (String "000" t))) I ltac:(lia)). rewrite str_app_nil_r in Hp.
    change (parse_value (S (2 * String.length (String "000" t))) (String "000" t)) with (@None (json * string)) in Hp. done. }
  unfold loadStoredCell, storedNullCell, storedEscapedCellPrefix. rewrite bool_decide_false by (intros [= -> _]; done).
  assert (has_prefix (String c t) (String "000" "locaql:value:") = false) as ->; [|done].
  rewrite prefix_cons. apply andb_false_iff. left. by apply bool_decide_false.
Qed.
Lemma prints_decode j text : prints j text → numbers_ok j = true → json_decode text = Some j.
Proof. intros Hp Hn. unfold json_decode. rewrite (prints_unmarshal _ _ Hp). simpl. by rewrite Hn. Qed.

(** In a table with nested columns the code decodes a scalar cell twice: there a
    text must not look like a tag. *)
Definition untagged (v : goValue) : Prop := match v with VText s => loadStoredCell s = (s, false) | _ => True end.

Definition stored_value (f : tableField) (v : goValue) : Prop :=
  ∃ cell, cellFromScannedValue f v = Ok cell ∧ cell_conforms f cell ∧
    (untagged v → renders (buildInsertValueExpr f cell) v) ∧
    (nested_column f = false → convertScalarForInsert (Type_ f) cell = Ok v).

Lemma null_stored f : normalizeMode (Mode f) ≠ "REQUIRED" → stored_value f VNull.
Proof.
  intros Hm. exists storedNullCell. split_and!.
  - unfold cellFromScannedValue. simpl. by destruct (_ && _).
  - done.
  - by exists ENull.
  - done.
Qed.

Lemma nested_stored f v n j text :
  nested_column f = true → is_nil v = false → normalizeScannedValue f v = Ok n → marshal_go n = Some text → prints j text →
  conforms f j → renders (buildInsertValueExpr f text) v → stored_value f v.
Proof.
  intros Hf Hnil Hn Hm Hp Hc Hr. destruct (prints_untagged j text Hp) as [Hl _]. exists text. split_and!; [| |done|congruence].
  - unfold cellFromScannedValue. unfold nested_column in Hf. rewrite <-negb_orb, Hf, Hnil, Hn. simpl. by rewrite Hm.
  - unfold cell_conforms. rewrite Hl. right. exists j. split; [by apply prints_unmarshal|done].
Qed.

Lemma record_stored f v :
  Mode f ≠ "REPEATED" → isRecordType (Type_ f) = true → single_value f v → stored_value f v.
Proof.
  intros Hm Hr Hv. destruct (single_survives f v Hv) as (n & j & text & Hn & (Ht & Hp & Hj & Hrend) & Hjn & Hsh & Hnil).
  destruct (prints_untagged j text Hp) as [Hl Hne].
  apply (nested_stored f v n j text); [by unfold nested_column; rewrite Hr, orb_true_r|done| |done|done|by constructor|].
  - by rewrite normalize_unfold, Hnil, bool_decide_false.
  - unfold buildInsertValueExpr. rewrite Hl, bool_decide_false, Hr, bool_decide_false, (prints_decode j) by done.
    inversion Hsh; subst; [congruence|]. destruct f as [nm ty md fs]. simpl in *. by rewrite Hr in Hrend.
Qed.

Lemma repeated_stored f vs : Mode f = "REPEATED" → Forall (single_value f) vs → stored_value f (VList vs).
Proof.
  intros Hm Hvs.
  assert (∃ ns js texts, scan_all (scan_single f) vs = Ok ns ∧ mapM marshal_go ns = Some texts ∧ Forall2 prints js texts ∧
    forallb numbers_ok js = true ∧ Forall (λ x, x ≠ JNull) js ∧ Forall (shaped f) js ∧
    Forall2 (λ j v, renders (exprForDecodedValue (base_field f) j) v) js vs)
    as (ns & js & texts & Hscan & Hmar & Hp & Hnum & Hnn & Hsh & Hrend).
  { induction Hvs as [|v vs Hv _ (ns & js & ts & Ha1 & Ha2 & Ha3 & Ha4 & Ha5 & Ha6 & Ha7)]; [by exists [], [], []|].
    destruct (single_survives f v Hv) as (n & j & text & Hn & (Ht & Hp & Hj & Hrend) & Hjn & Hs & _).
    exists (n :: ns), (j :: js), (text :: ts). simpl. rewrite Hn, Ha1, Ht, Ha2, Hj, Ha4. split_and!; try done; constructor; try done.
    destruct f as [nm ty md fs]. destruct j; done. }
  pose proof (prints_array js texts Hp) as Hpa. destruct (prints_untagged _ _ Hpa) as [Hl Hne].
  apply (nested_stored f (VList vs) (VList ns) (JArr js) ("[" +:+ join "," texts +:+ "]")); try done.
  - unfold nested_column. by rewrite bool_decide_true.
  - rewrite normalize_unfold, bool_decide_true by done. simpl. by rewrite Hscan.
  - simpl. by rewrite Hmar.
  - by constructor.
  - unfold buildInsertValueExpr. rewrite Hl, bool_decide_true, bool_decide_false, (prints_decode (JArr js)) by done.
    destruct (parts_render _ _ _ Hrend) as (es & Hparts & Hden). exists (EArray es). split; [|by rewrite <-Hden].
    destruct js as [|j js]; [inversion Hrend; subst; by destruct es|]. by rewrite Hparts.
Qed.

Lemma plain_stored f v :
  Mode f ≠ "REPEATED" → isRecordType (Type_ f) = false → plain_value (Type_ f) v → stored_value f v.
Proof.
  intros Hm Hr Hv.
  assert (∃ s, scanned_scalar v = storeStringCell s ∧ convertScalarForInsert (Type_ f) (storeStringCell s) = Ok v ∧
    (untagged v → loadStoredCell s = (s, false))) as (s & Hs & Hconv & Htag).
  { unfold plain_value in Hv. unfold convertScalarForInsert. setoid_rewrite load_store_cell.
    destruct v as [|b|z|x|s|items|ms]; try done; simpl in *; (eexists; split; [done|]).
    - rewrite Hv. by destruct b.
    - destruct Hv as [-> Hz]. pose proof (parse_format_int z Hz) as Hp.
      destruct (prints_untagged _ _ (prints_number _ (format_int_literal z))) as [Hl Hne].
      rewrite bool_decide_true, bool_decide_false, Hp by done. done.
    - destruct Hv as (-> & Hne & Hl & Hp). rewrite (bool_decide_false (_ = "INT64")), bool_decide_true, bool_decide_false, Hp by done. done.
    - rewrite !not_elem_of_cons in Hv. destruct Hv as (Ha1 & Ha2 & Ha3 & _). by rewrite !bool_decide_false. }
  exists (storeStringCell s). split_and!; [| | |done].
  - unfold cellFromScannedValue. rewrite bool_decide_false, Hr by done. simpl. by rewrite Hs.
  - unfold cell_conforms. rewrite load_store_cell. left. done.
  - intros Hu. exists (ECast (Type_ f) v). split; [|done]. unfold buildInsertValueExpr.
    rewrite load_store_cell, bool_decide_false, Hr by done. unfold convertScalarForInsert in *. rewrite load_store_cell in Hconv.
    rewrite (Htag Hu). cbv beta iota in *. by rewrite Hconv.
Qed.

Lemma value_stored f v : storable f v → stored_value f v.
Proof.
  unfold storable. destruct (is_nil v) eqn:Hnil; [destruct v; try done; apply null_stored|].
  intros Hv. assert (if bool_decide (Mode f = "REPEATED") then match v with VList vs => Forall (single_value f) vs | _ => False end
    else if isRecordType (Type_ f) then single_value f v else plain_value (Type_ f) v) as Hs by (by destruct v). clear Hv.
  case_bool_decide; [destruct v; try done; by apply repeated_stored|].
  destruct (isRecordType (Type_ f)) eqn:Hr; [by apply record_stored|by apply plain_stored].
Qed.

Lemma row_stored fields vs : Forall2 storable fields vs →
  ∃ r, scanned_row fields vs = Ok r ∧
    ∀ i f, fields !! i = Some f → ∃ v, vs !! i = Some v ∧ cell_conforms f (cell_at r i) ∧
      (untagged v → renders (buildInsertValueExpr f (cell_at r i)) v) ∧
      (nested_column f = false → convertScalarForInsert (Type_ f) (cell_at r i) = Ok v).
Proof.
  induction 1 as [|f v fields vs Hf _ (r & Hr & Hcells)]; [exists []; by split|].
  destruct (value_stored f v Hf) as (cell & Hc & Hconf & Hrend & Hconv). exists (cell :: r). split; [simpl; by rewrite Hc, Hr|].
  intros [|i] f' Hi; [|by apply Hcells]. simplify_eq/=. by exists v.
Qed.

Lemma scalar_row_values fields r vs :
  length fields = length vs →
  (∀ i f v, fields !! i = Some f → vs !! i = Some v → convertScalarForInsert (Type_ f) (cell_at r i) = Ok v) →
  scalarRowValues fields r = Ok vs.
Proof.
  intros Hl Hv. unfold scalarRowValues.
  assert (∀ n fields vs, length fields = length vs →
    (∀ i f v, fields !! i = Some f → vs !! i = Some v → convertScalarForInsert (Type_ f) (cell_at r (n + i)) = Ok v) →
    scalar_values r n fields = Ok vs) as Hgo; [|by apply (Hgo O)]. clear.
  intros n fields. revert n. induction fields as [|f fields IH]; intros n [|v vs] Hl Hv; simplify_eq/=; [done|].
  pose proof (Hv O f v eq_refl eq_refl) as H0'. rewrite Nat.add_0_r in H0'. rewrite H0'. simpl. rewrite (IH (S n) vs); [done|done|].
  intros i f' v' Hi Hi'. replace (S n + i)%nat with (n + S i)%nat by lia. by apply Hv.
Qed.

End Roundtrip.

(** ** Concrete rows *)

Section Concrete.
#[local] Existing Instance exact_floats.
#[local] Existing Instance integer_text.
#[local] Instance exact_ints : DriverText := {| float_to_int := λ f, default 0 (float_integer f); sprint_go := λ _, "" |}.

Lemma exact_number_laws : number_laws.
Proof.
  split; [exact (proj1 integer_text_laws)|]. intros z Hz. destruct (float_of_format z Hz) as (f & Hf & Hi). exists f.
  split; [|simpl; by rewrite Hi]. pose proof (parse_number_literal (format_int z) "" (format_int_literal z) I) as Hp.
  rewrite str_app_nil_r in Hp. simpl. by rewrite Hp.
Qed.

Definition demo_columns : schema :=
  [TableField "n" "INT64" "" []; TableField "s" "STRING" "" []; TableField "tags" "STRING" "REPEATED" [];
   TableField "home" "RECORD" "" [TableField "city" "STRING" "" []; TableField "zip" "INT64" "" []]].
Definition demo_values : list goValue :=
  [VInt 5; VText "x"; VList [VText "a"; VText "b"]; VList [VText "rome"; VNull]].


(** The type names of the REST API are not the engine's: an INTEGER, FLOAT or
    BOOLEAN column is created as a STRING. *)
Example legacy_type_becomes_string :
  sqliteColumnType (TableField "n" "INTEGER" "" []) = "STRING" ∧ sqliteColumnType (TableField "n" "FLOAT" "" []) = "STRING" ∧
  convertScalarForInsert "INTEGER" "5" = Ok (VText "5").
Proof. split; [|split]; reflexivity. Qed.

(** The mode of a field inside a record is ignored: the array becomes one text. *)
Example array_in_record_becomes_text :
  buildInsertValueExpr (TableField "r" "RECORD" "" [TableField "tags" "STRING" "REPEATED" []])
    ("{" +:+ json_quote "tags" +:+ ":[" +:+ json_quote "a" +:+ "," +:+ json_quote "b" +:+ "]}") =
  Ok ("STRUCT(CAST(? AS STRING) AS `tags`)", [VText "[a b]"]).
Proof. reflexivity. Qed.

(** In a table with nested columns an escaped text is unescaped twice. *)
Example tagged_text_becomes_null :
  buildInsertValueExpr (TableField "s" "STRING" "" []) (storeStringCell storedNullCell) = Ok ("CAST(? AS STRING)", [VNull]).
Proof. reflexivity. Qed.
End Concrete.
