(* ===== verification/SqlResolve.v ===== *)
(** * From a query to the tables it reads (sql_engine.go, bigquery.go)

    Running a query resolves every table it refers to - native tables, external
    files, views (whose own query runs first), temporary tables of the session,
    wildcards - and then hands the text to an engine that holds exactly those
    tables.  The lookups go through the table catalog, which they may change
    (an unseen dataset is seeded, expired tables go), so resolution is a
    state-passing program over [tableService].  One clock reading serves a whole
    resolution.  What the engine answers and what external files hold are
    parameters; that a leased engine holds the resolved tables is proved in
    [EnginePoolRun]. *)

From S2P Require Import Prelude GoStrings Regexp SqlPatterns GoTime GoJson Cells TableModel SqlStatements Partitioning Pruning TableStore Sessions EnginePool SqlText StorageWrite Jobs QueryParams.
From Stdlib Require Import Ascii.

Inductive queryErr :=
| PartitionFilterRequired (datasetID tableID : string)
| CircularView (datasetID tableID : string)
| ResolveView (datasetID tableID : string) (e : queryErr)
| ExternalUnreadable (datasetID tableID : string)
| InvalidParameters (e : paramErr)
| EngineUnavailable
| EngineRefused
| OutOfFuel.

(** ** Programs over the catalog *)

Definition M (A : Type) : Type := tableService → tableService * (queryErr + A).
#[export] Instance M_ret : MRet M := λ A a s, (s, inr a).
#[export] Instance M_bind : MBind M := λ A B f m s,
  match m s with
  | (s, inr a) => f a s
  | (s, inl e) => (s, inl e)
  end.
Definition fail {A} (e : queryErr) : M A := λ s, (s, inl e).
(** A catalog method: it has no error of its own. *)
Definition call {A} (f : tableService → tableService * A) : M A := λ s, let '(s, a) := f s in (s, inr a).
Definition lift {A} (r : queryErr + A) : M A := λ s, (s, r).
(** A failure seen from the outside. *)
Definition wrap {A} (f : queryErr → queryErr) (m : M A) : M A := λ s,
  match m s with
  | (s, inl e) => (s, inl (f e))
  | r => r
  end.

Class QueryEngine `{GoFloats} := {
  (** A lease with the tables materialized. *)
  engine_open : list resolvedTable → bool;
  (** [db.Query] and the scan of its rows. *)
  engine_query : list resolvedTable → string → list queryArg → option (schema * list row);
}.

Class ExternalFiles := readRowsFromURIs : externalTableConfig → schema → option (list row).

Record materializationPlan := MaterializationPlan {
  mp_projectID : string; mp_queryText : string; mp_sess : option sessionRecord;
  mp_visiting : gset string; mp_allowPartitionPruning : bool; mp_singleRef : bool }.

Definition sessionDatasetName : string := "_SESSION".

Definition estimateRowsByteSize (rows : list row) : Z :=
  foldl (λ total r, foldl (λ total cell, i64_add total (Z.of_nat (String.length cell))) total r) 0 rows.

(** [strings.CutSuffix] *)
Definition cut_suffix (s suf : string) : option string :=
  if has_prefix (String.rev s) (String.rev suf) then Some (trim_suffix s suf) else None.

Section Resolve.
Context `{TimestampParser} `{GoogleSqlParser} `{GoFloats} `{!QueryEngine} `{ExternalFiles}.
Variable now : Z.

(** ** References *)

Definition is_native (t : tableRecord) : bool :=
  bool_decide (tr_View t = None) && bool_decide (tr_External t = None).

Fixpoint expandWildcardTableRefs (projectID : string) (refs : list datasetTableRef) : M (list datasetTableRef) :=
  match refs with
  | [] => mret []
  | ref :: refs =>
      match cut_suffix (dr_tableID ref) "*" with
      | Some prefix =>
        all ← call (λ s, tables_listAll s projectID (dr_datasetID ref) now);
        out ← expandWildcardTableRefs projectID refs;
        mret (((λ t, DatasetTableRef (dr_datasetID ref) (tr_TableID t)) <$>
               filter (λ t, is_native t && has_prefix (tr_TableID t) prefix = true) all) ++ out)
      | None =>
        out ← expandWildcardTableRefs projectID refs;
        mret (ref :: out)
      end
  end.

(** The references, each once; those whose filter is checked; whether the query
    itself names one table. *)
Definition filter_target (projectID queryText : string) : list datasetTableRef :=
  match parsePersistentSQLStatement projectID queryText with
  | Mine st =>
      if bool_decide (ps_statementType st ∈ ["UPDATE"; "DELETE"; "MERGE"])
      then [DatasetTableRef (ref_DatasetID (ps_target st)) (ref_TableID (ps_target st))] else []
  | _ => []
  end.

Definition dedup_refs (refs : list datasetTableRef) : list datasetTableRef :=
  foldl (λ acc r, if bool_decide (r ∈ acc) then acc else acc ++ [r]) [] refs.

Definition combinedTableRefs (projectID queryText : string) (extraRefs : list datasetTableRef)
    : M (list datasetTableRef * list datasetTableRef * bool) :=
  refs ← expandWildcardTableRefs projectID (referencedTables queryText projectID);
  mret (dedup_refs (refs ++ extraRefs), refs ++ filter_target projectID queryText, (length refs =? 1)%nat).

(** ** One table *)

Definition catalogTableForRef (plan : materializationPlan) (ref : datasetTableRef) (requireFilterCheck : bool)
    : M (option tableRecord) :=
  if equal_fold (dr_datasetID ref) sessionDatasetName then mret None
  else
    t ← call (λ s, tables_get s (mp_projectID plan) (dr_datasetID ref) (dr_tableID ref) now);
    match t with
    | Some t =>
        if requireFilterCheck && tr_RequirePartitionFilter t && negb (queryHasPartitionFilter (mp_queryText plan) t)
        then fail (PartitionFilterRequired (dr_datasetID ref) (dr_tableID ref))
        else mret (Some t)
    | None => mret None
    end.

Definition pruneIfEligible (plan : materializationPlan) (ref : datasetTableRef) (catalogTable : option tableRecord)
    (rows : list row) : list row * option tableRecord * bool :=
  if negb (mp_allowPartitionPruning plan) || negb (mp_singleRef plan) then (rows, catalogTable, false)
  else match prunePartitionedRows (mp_queryText plan) (mp_projectID plan) ref catalogTable rows with
       | None => (rows, catalogTable, false)
       | Some (kept, partitions) =>
           (kept, (λ t, if ingestion_time t then t <| tr_IngestionPartitions := partitions |> else t) <$> catalogTable,
            true)
       end.

(** What is made of the rows that were found; the logical bytes read. *)
Definition resolved_rows (plan : materializationPlan) (ref : datasetTableRef) (catalogTable : option tableRecord)
    (fields : schema) (rows : list row) : resolvedTable * Z :=
  let versioned := match catalogTable with Some t => is_native t | None => false end in
  let '(rows, materialized, pruned) := pruneIfEligible plan ref catalogTable rows in
  let '(fields', rows') := materializeIngestionPseudocolumns materialized fields rows in
  (ResolvedTable (dr_datasetID ref) (dr_tableID ref) fields' rows' true
     (match catalogTable with Some t => if versioned then tr_Version t else 0 | None => 0 end)
     (versioned && negb pruned),
   estimateRowsByteSize rows).

Definition not_found (ref : datasetTableRef) : resolvedTable :=
  ResolvedTable (dr_datasetID ref) (dr_tableID ref) [] [] false 0 false.

(** [rows_of] is [resolveTableRowsVisiting]. *)
Definition rowsReader : Type := string → string → string → gset string → M (option (schema * list row)).

Section Reader.
Variable rows_of : rowsReader.

Definition resolveTableForMaterialization (plan : materializationPlan) (ref : datasetTableRef)
    (requireFilterCheck : bool) : M (resolvedTable * Z) :=
  catalogTable ← catalogTableForRef plan ref requireFilterCheck;
  match (if equal_fold (dr_datasetID ref) sessionDatasetName then mp_sess plan else None) with
  | Some sess =>
      mret (match getTempTable sess (dr_tableID ref) with
            | Some t => ResolvedTable (dr_datasetID ref) (dr_tableID ref) (tt_Fields t) (tt_Rows t) true 0 false
            | None => not_found ref
            end, 0)
  | None =>
      found ← rows_of (mp_projectID plan) (dr_datasetID ref) (dr_tableID ref) (mp_visiting plan);
      mret (match found with
            | Some (fields, rows) => resolved_rows plan ref catalogTable fields rows
            | None => (not_found ref, 0)
            end)
  end.

Fixpoint resolveAllRefs (plan : materializationPlan) (checked combined : list datasetTableRef)
    : M (list (resolvedTable * Z)) :=
  match combined with
  | [] => mret []
  | ref :: combined =>
      r ← resolveTableForMaterialization plan ref (bool_decide (ref ∈ checked));
      rest ← resolveAllRefs plan checked combined;
      mret (r :: rest)
  end.

(** The tables the engine must hold, and the bytes they were read from. *)
Definition resolve_query (projectID queryText : string) (visiting : gset string) (sess : option sessionRecord)
    (extraRefs : list datasetTableRef) (allowPartitionPruning : bool) : M (list resolvedTable * Z) :=
  '(combined, checked, singleRef) ← combinedTableRefs projectID queryText extraRefs;
  resolved ← resolveAllRefs
    (MaterializationPlan projectID queryText sess visiting allowPartitionPruning singleRef) checked combined;
  mret (resolved.*1, foldl i64_add 0 resolved.*2).

Definition openMaterializedSQLDatabase (projectID queryText : string) (visiting : gset string)
    (sess : option sessionRecord) (extraRefs : list datasetTableRef) (allowPartitionPruning : bool)
    : M (list resolvedTable * Z) :=
  '(resolved, processedBytes) ← resolve_query projectID queryText visiting sess extraRefs allowPartitionPruning;
  if engine_open resolved then mret (resolved, processedBytes) else fail EngineUnavailable.

Definition executeRealSQLQueryVisitingWithParamsAndStats (projectID queryText : string) (visiting : gset string)
    (sess : option sessionRecord) (paramMode : string) (params : list storedQueryParameter)
    : M (schema * list row * Z) :=
  '(resolved, processedBytes) ← openMaterializedSQLDatabase projectID queryText visiting sess [] true;
  args ← lift (match buildQueryArgs paramMode params with inl e => inl (InvalidParameters e) | inr a => inr a end);
  let engineQuery := rewriteIngestionPseudocolumns (stripProjectPrefix queryText projectID) in
  match engine_query resolved engineQuery args with
  | None => fail EngineRefused
  | Some (sch, rows) =>
      let '(sch, rows) := hideWildcardIngestionPseudocolumns queryText sch rows in
      mret (sch, rows, processedBytes)
  end.
End Reader.

(** ** Rows *)

Definition view_key (projectID datasetID tableID : string) : string :=
  projectID +:+ ":" +:+ datasetID +:+ "." +:+ tableID.

(** [fuel] bounds the depth of views in views ([resolution_terminates]). *)
Fixpoint resolveTableRowsVisiting (fuel : nat) : rowsReader := λ projectID datasetID tableID visiting,
  record ← call (λ s, tables_get s projectID datasetID tableID now);
  match record with
  | None => mret None
  | Some t =>
      match tr_View t, tr_External t with
      | Some view, _ =>
          let key := view_key projectID datasetID tableID in
          if bool_decide (key ∈ visiting) then fail (CircularView datasetID tableID)
          else match fuel with
               | O => fail OutOfFuel
               | S fuel =>
                   '(sch, rows, _) ← wrap (ResolveView datasetID tableID)
                     (executeRealSQLQueryVisitingWithParamsAndStats (resolveTableRowsVisiting fuel)
                        projectID (view_Query view) ({[key]} ∪ visiting) None "" []);
                   mret (Some (sch, rows))
               end
      | None, None => call (λ s, tables_getData s projectID datasetID tableID now)
      | None, Some ext =>
          match readRowsFromURIs ext (tr_Schema t) with
          | None => fail (ExternalUnreadable datasetID tableID)
          | Some rows => mret (Some (tr_Schema t, rows))
          end
      end
  end.

(** The views of a project, by key. *)
Definition views (s : tableService) (projectID : string) : gset string :=
  list_to_set (datasets ← map_to_list (default ∅ (ts_projects s !! projectID));
               entry ← map_to_list datasets.2;
               if bool_decide (is_Some (tr_View entry.2)) then [view_key projectID datasets.1 entry.1] else []).

Definition resolveTableRows (projectID datasetID tableID : string) : M (option (schema * list row)) := λ s,
  resolveTableRowsVisiting (S (size (views s projectID))) projectID datasetID tableID ∅ s.

Definition executeRealSQLQueryWithParams (projectID queryText : string) (sess : option sessionRecord)
    (paramMode : string) (params : list storedQueryParameter) : M (schema * list row * Z) := λ s,
  executeRealSQLQueryVisitingWithParamsAndStats (resolveTableRowsVisiting (S (size (views s projectID))))
    projectID queryText ∅ sess paramMode params s.
End Resolve.
