(* ===== verification/SqlResolution.v ===== *)
(** * What the resolution of a query guarantees

    Resolution ends, however views refer to each other; a table resolved with a
    version is the catalog's table at that version, which is what the shared
    engines rely on; and no query reads a table that requires a partition filter
    without one. *)

From S2P Require Import Prelude GoStrings Regexp SqlPatterns GoTime GoJson Cells TableModel SqlStatements Partitioning Pruning TableStore TableInvariants Sessions EnginePool SqlText StorageWrite Jobs QueryParams SqlResolve.
From Stdlib Require Import Ascii.

(** ** Reads of the catalog *)

Section Reads.
Context `{TimestampParser} (now : Z).

Lemma purge_cases t : purgeExpiredPartitions t now = (t, false) ∨ ∃ c, purgeable t c.
Proof.
  unfold purgeExpiredPartitions. destruct (tr_TimePartitioning t) as [c|] eqn:Et; [|by left].
  destruct (_ || _ || _ || _) eqn:Eb; [by left|]. destruct (negb _ && _) eqn:Ef; [by left|].
  right. exists c. rewrite !orb_false_iff in Eb. destruct Eb as [[[H1 _] H2] H3]. bools.
  unfold purgeable. rewrite Et. split_and!; [done|lia|by apply eq_None_not_Some..|].
  apply andb_false_iff in Ef as [Ef|Ef]; bools; [by left|].
  case_bool_decide; [by left|]. right. by apply not_eq_None_Some.
Qed.

Lemma purge_idempotent t u : purge_table now t = Some u → purge_table now u = Some u.
Proof.
  unfold purge_table. destruct (table_expired now t) eqn:Ex; [done|]. intros [= <-].
  assert (table_expired now (purgeExpiredPartitions t now).1 = false) as ->.
  { rewrite <-Ex. unfold table_expired, purgeExpiredPartitions. repeat (case_match; try done). }
  f_equal. destruct (purge_cases t) as [E|[c Hc]]; [rewrite E; simpl; by rewrite E|]. by rewrite (purge_idem t c now Hc).
Qed.

Lemma purge_tables_idempotent (T : gmap string tableRecord) :
  omap (purge_table now) (omap (purge_table now) T) = omap (purge_table now) T.
Proof.
  apply map_eq. intros id. rewrite !lookup_omap. destruct (T !! id) as [t|]; [|done]. simpl.
  destruct (purge_table now t) as [u|] eqn:E; [|done]. simpl. by eapply purge_idempotent.
Qed.

(** All that reads do to the catalog: a dataset that did not exist is seeded, and
    what has expired by now goes. *)
Definition quiet_step (s s' : tableService) : Prop :=
  ∀ p d, dataset_tables s' p d = dataset_tables s p d ∨
         dataset_tables s' p d = Some (visible s p d now) ∨
         dataset_tables s' p d = Some (omap (purge_table now) (visible s p d now)).

#[export] Instance quiet_step_preorder : PreOrder quiet_step.
Proof.
  split; [by left|]. intros s1 s2 s3 H12 H23 p d. unfold quiet_step, visible in *.
  destruct (H12 p d) as [E|[E|E]], (H23 p d) as [F|[F|F]]; rewrite E in F; simpl in F; eauto.
  right. right. rewrite purge_tables_idempotent in F. done.
Qed.

(** A dataset that was read at this instant stays as it is. *)
Lemma quiet_settles s s' p d T :
  quiet_step s s' → dataset_tables s p d = Some T → omap (purge_table now) T = T → dataset_tables s' p d = Some T.
Proof. intros Hq HT Hp. unfold quiet_step, visible in Hq. destruct (Hq p d) as [E|[E|E]]; rewrite E, HT; [done..|]. simpl. by rewrite Hp. Qed.

Lemma elem_of_views s p k :
  k ∈ views s p ↔ ∃ d id t, lookup_table s p d id = Some t ∧ is_Some (tr_View t) ∧ k = view_key p d id.
Proof.
  unfold views, lookup_table, dataset_tables. rewrite elem_of_list_to_set, list_elem_of_bind. split.
  - intros ([d T] & Hk & HT). apply list_elem_of_bind in Hk as ([id t] & Hk & Ht). simpl in *.
    apply elem_of_map_to_list in HT, Ht. case_bool_decide; [|by apply elem_of_nil in Hk].
    apply list_elem_of_singleton in Hk as ->. exists d, id, t. split_and!; [|done..].
    destruct (ts_projects s !! p) as [D|]; simpl in *; [by rewrite HT|done].
  - intros (d & id & t & Hl & Hv & ->). destruct (ts_projects s !! p) as [D|]; simpl in *; [|done].
    destruct (D !! d) as [T|] eqn:HT; simpl in *; [|done]. exists (d, T). split; [|by apply elem_of_map_to_list].
    apply list_elem_of_bind. exists (id, t). simpl. rewrite bool_decide_true by done.
    split; [by apply list_elem_of_singleton|by apply elem_of_map_to_list].
Qed.

Lemma default_tables_no_view p d id t : default_tables p d now !! id = Some t → tr_View t = None.
Proof.
  intros Hl. apply elem_of_list_to_map_2 in Hl. unfold defaults in Hl. simpl in Hl.
  rewrite !elem_of_cons, elem_of_nil in Hl. destruct_or! Hl; by simplify_eq.
Qed.

Lemma purge_table_view t u : purge_table now t = Some u → tr_View u = tr_View t.
Proof. unfold purge_table, purgeExpiredPartitions. intros Hu. by repeat (case_match; simplify_eq/=; try done). Qed.

(** No new view comes from reading. *)
Lemma quiet_views s s' p : quiet_step s s' → views s' p ⊆ views s p.
Proof.
  intros Hq k. rewrite !elem_of_views. intros (d & id & t & Hl & Hv & ->). exists d, id.
  unfold lookup_table, quiet_step, visible in *.
  assert (∀ T0, dataset_tables s p d = None → T0 = default_tables p d now → ∀ t0, T0 !! id = Some t0 → is_Some (tr_View t0) → False) as Hdef.
  { intros T0 _ -> t0 Ht0 Hv0. apply default_tables_no_view in Ht0. rewrite Ht0 in Hv0. by destruct Hv0. }
  destruct (Hq p d) as [E|[E|E]]; rewrite E in Hl; simpl in Hl; [by exists t|..];
    destruct (dataset_tables s p d) as [T|] eqn:Ed; simpl in *.
  - by exists t.
  - exfalso. by eapply Hdef.
  - rewrite lookup_omap in Hl. apply bind_Some in Hl as (t0 & Ht0 & Hp). exists t0. by rewrite <-(purge_table_view t0 t).
  - exfalso. rewrite lookup_omap in Hl. apply bind_Some in Hl as (t0 & Ht0 & Hp). rewrite (purge_table_view t0 t) in Hv by done.
    by eapply Hdef.
Qed.

(** A read replaces the tables of one dataset by those that are not expired. *)
Lemma quiet_dataset s s' p d T :
  dataset_step s s' p d T → (T = visible s p d now ∨ T = omap (purge_table now) (visible s p d now)) →
  quiet_step s s'.
Proof.
  intros Hs HT p' d'. rewrite Hs. case_decide as E; [|by left]. destruct E as [-> ->]. right. destruct HT; subst; auto.
Qed.

Lemma ensure_and_purge_spec s p d :
  let '(s', T) := ensure_and_purge s p d now in
  dataset_step s s' p d T ∧ T = omap (purge_table now) (visible s p d now).
Proof.
  unfold ensure_and_purge. pose proof (ensure_spec s p d now) as Hs.
  destruct (ensureDatasetLocked s p d now) as [s1 T1]. destruct Hs as [-> Hs]. simpl. split; [|done].
  intros p' d'. transitivity (dataset_tables (set_tables p d (omap (purge_table now) (visible s p d now)) s1) p' d');
    [by case_match|]. rewrite dataset_tables_set, Hs. by case_decide.
Qed.

(** The state after looking a table up: settled, with the answer in it. *)
Lemma get_spec s p d id :
  let '(s', r) := tables_get s p d id now in
  quiet_step s s' ∧ lookup_table s' p d id = r ∧
  ∃ T, dataset_tables s' p d = Some T ∧ omap (purge_table now) T = T.
Proof.
  unfold tables_get. pose proof (ensure_and_purge_spec s p d) as Hs.
  destruct (ensure_and_purge s p d now) as [s' T]. destruct Hs as [Hs ->].
  pose proof (Hs p d) as Hpd. rewrite decide_True in Hpd by done. split_and!.
  - eapply quiet_dataset; eauto.
  - unfold lookup_table. by rewrite Hpd.
  - eexists. split; [done|]. apply purge_tables_idempotent.
Qed.

Lemma quiet_listAll s p d : quiet_step s (tables_listAll s p d now).1.
Proof.
  unfold tables_listAll. pose proof (ensure_spec s p d now) as Hs.
  destruct (ensureDatasetLocked s p d now) as [s' T]. destruct Hs as [-> Hs].
  apply (quiet_dataset s s' p d (visible s p d now)); [done|by left].
Qed.
End Reads.

(** ** Programs that only read *)

Create HintDb programs.

Section Programs.
Context `{TimestampParser} `{GoogleSqlParser} `{GoFloats} `{!QueryEngine} `{ExternalFiles}.
Variable now : Z.

Definition quiet {A} (m : M A) : Prop := ∀ s, quiet_step now s (m s).1.

Lemma quiet_ret {A} (a : A) : quiet (mret a).
Proof. intros s. reflexivity. Qed.
Lemma quiet_fail {A} e : quiet (fail e : M A).
Proof. intros s. reflexivity. Qed.
Lemma quiet_lift {A} (r : queryErr + A) : quiet (lift r).
Proof. intros s. reflexivity. Qed.
Lemma quiet_bind {A B} (m : M A) (f : A → M B) : quiet m → (∀ a, quiet (f a)) → quiet (m ≫= f).
Proof.
  intros Hm Hf s. specialize (Hm s). unfold mbind, M_bind. destruct (m s) as [s1 [e|a]]; [done|].
  etrans; [exact Hm|apply Hf].
Qed.
Lemma quiet_wrap {A} f (m : M A) : quiet m → quiet (wrap f m).
Proof. intros Hm s. specialize (Hm s). unfold wrap. by destruct (m s) as [s1 []]. Qed.
Lemma quiet_get p d id : quiet (call (λ s, tables_get s p d id now)).
Proof. intros s. unfold call. pose proof (get_spec now s p d id) as Hs. destruct (tables_get s p d id now). apply Hs. Qed.
Lemma quiet_getData p d id : quiet (call (λ s, tables_getData s p d id now)).
Proof.
  intros s. unfold call, tables_getData. pose proof (get_spec now s p d id) as Hs.
  destruct (tables_get s p d id now). apply Hs.
Qed.
Lemma quiet_list p d : quiet (call (λ s, tables_listAll s p d now)).
Proof. intros s. unfold call. pose proof (quiet_listAll now s p d). by destruct (tables_listAll s p d now). Qed.

Hint Resolve quiet_ret quiet_fail quiet_lift quiet_bind quiet_wrap quiet_get quiet_getData quiet_list : programs.
Ltac program := repeat (auto with programs; try (apply quiet_bind; [|intros ?]); try case_match).

Lemma quiet_expand p refs : quiet (expandWildcardTableRefs now p refs).
Proof. induction refs; simpl; program. Qed.
Hint Resolve quiet_expand : programs.

Lemma quiet_combined p q extra : quiet (combinedTableRefs now p q extra).
Proof. unfold combinedTableRefs. program. Qed.
Lemma quiet_catalog plan ref chk : quiet (catalogTableForRef now plan ref chk).
Proof. unfold catalogTableForRef. program. Qed.
Hint Resolve quiet_combined quiet_catalog : programs.

Lemma quiet_resolve_ref rows_of plan ref chk :
  (∀ p d id v, quiet (rows_of p d id v)) → quiet (resolveTableForMaterialization now rows_of plan ref chk).
Proof. intros Hr. unfold resolveTableForMaterialization. program. Qed.
Hint Resolve quiet_resolve_ref : programs.

Lemma quiet_resolve_all rows_of plan chk refs :
  (∀ p d id v, quiet (rows_of p d id v)) → quiet (resolveAllRefs now rows_of plan chk refs).
Proof. intros Hr. induction refs; simpl; program. Qed.
Hint Resolve quiet_resolve_all : programs.

Lemma quiet_open rows_of p q v sess extra prune :
  (∀ p d id v, quiet (rows_of p d id v)) → quiet (openMaterializedSQLDatabase now rows_of p q v sess extra prune).
Proof. intros Hr. unfold openMaterializedSQLDatabase, resolve_query. program. Qed.
Hint Resolve quiet_open : programs.

Lemma quiet_query rows_of p q v sess mode params :
  (∀ p d id v, quiet (rows_of p d id v)) →
  quiet (executeRealSQLQueryVisitingWithParamsAndStats now rows_of p q v sess mode params).
Proof. intros Hr. unfold executeRealSQLQueryVisitingWithParamsAndStats. program. Qed.
Hint Resolve quiet_query : programs.

Lemma quiet_rows fuel : ∀ p d id v, quiet (resolveTableRowsVisiting now fuel p d id v).
Proof. induction fuel as [|fuel IH]; intros p d id v; simpl; program. Qed.

(** ** Views end

    Two readers that both have fuel for the views that are not being resolved
    yet do the same, and neither runs out. *)

Fixpoint fuel_err (e : queryErr) : bool :=
  match e with OutOfFuel => true | ResolveView _ _ e => fuel_err e | _ => false end.

Definition steady (p : string) (V : gset string) {A} (m m' : M A) : Prop :=
  ∀ s, views s p ⊆ V → m s = m' s ∧ ∀ e, (m s).2 = inl e → fuel_err e = false.

Lemma steady_ret p V {A} (a : A) : steady p V (mret a) (mret a).
Proof. by intros s _. Qed.
Lemma steady_fail p V {A} e : fuel_err e = false → steady p V (fail e : M A) (fail e).
Proof. intros He s _. split; [done|]. intros e' Hx. unfold fail in Hx. simpl in Hx. by simplify_eq. Qed.
Lemma steady_call p V {A} (f : tableService → tableService * A) : steady p V (call f) (call f).
Proof. intros s _. split; [done|]. unfold call. by destruct (f s). Qed.
Lemma steady_params p V {A} (r : paramErr + A) :
  let m := lift (match r with inl e => inl (InvalidParameters e) | inr a => inr a end) in steady p V m m.
Proof. intros m s _. split; [done|]. intros e Hx. subst m. unfold lift in Hx. destruct r; simpl in Hx; by simplify_eq. Qed.
Lemma steady_wrap p V {A} d t (m m' : M A) :
  steady p V m m' → steady p V (wrap (ResolveView d t) m) (wrap (ResolveView d t) m').
Proof.
  intros Hm s Hs. destruct (Hm s Hs) as [E He]. unfold wrap. rewrite <-E. revert He.
  destruct (m s) as [s' [e|a]]; intros He; split; try done; simpl in *; intros e' [= <-]. simpl. by apply He.
Qed.
Lemma steady_bind p V {A B} (m m' : M A) (f f' : A → M B) :
  quiet m → steady p V m m' → (∀ a, steady p V (f a) (f' a)) → steady p V (m ≫= f) (m' ≫= f').
Proof.
  intros Hq Hm Hf s Hs. destruct (Hm s Hs) as [E He]. specialize (Hq s).
  unfold mbind, M_bind. rewrite <-E. revert He Hq. destruct (m s) as [s1 [e|a]]; intros He Hq; simpl in *.
  - split; [done|]. intros e' [= <-]. by apply He.
  - apply Hf. etrans; [by apply (quiet_views now)|done].
Qed.
Lemma steady_expand p V p' refs : steady p V (expandWildcardTableRefs now p' refs) (expandWildcardTableRefs now p' refs).
Proof.
  induction refs as [|ref refs IH]; simpl; [apply steady_ret|].
  case_match; repeat (apply steady_bind; [by program|auto using steady_call|intros ?]); apply steady_ret.
Qed.
Hint Resolve steady_ret steady_fail steady_call steady_params steady_wrap steady_expand : programs.

Definition steady_reader (p : string) (V visiting : gset string) (rows_of rows_of' : rowsReader) : Prop :=
  ∀ d id, steady p V (rows_of p d id visiting) (rows_of' p d id visiting).

Ltac steadily := repeat (auto with programs; try (apply steady_bind; [by program| |intros ?]); try case_match).

Lemma steady_resolve_all V rows_of rows_of' plan chk refs :
  (∀ p d id v, quiet (rows_of p d id v)) →
  steady_reader (mp_projectID plan) V (mp_visiting plan) rows_of rows_of' →
  steady (mp_projectID plan) V (resolveAllRefs now rows_of plan chk refs) (resolveAllRefs now rows_of' plan chk refs).
Proof.
  intros Hq Hr. assert (∀ ref c, steady (mp_projectID plan) V
    (resolveTableForMaterialization now rows_of plan ref c)
    (resolveTableForMaterialization now rows_of' plan ref c)) as Hone.
  { intros ref c. unfold resolveTableForMaterialization, catalogTableForRef. steadily; apply Hr. }
  induction refs as [|ref refs IH]; simpl; steadily.
Qed.

Lemma steady_query p V rows_of rows_of' q v sess mode params :
  (∀ p d id v, quiet (rows_of p d id v)) → steady_reader p V v rows_of rows_of' →
  steady p V (executeRealSQLQueryVisitingWithParamsAndStats now rows_of p q v sess mode params)
             (executeRealSQLQueryVisitingWithParamsAndStats now rows_of' p q v sess mode params).
Proof.
  intros Hq Hr. unfold executeRealSQLQueryVisitingWithParamsAndStats, openMaterializedSQLDatabase, resolve_query.
  apply steady_bind; [by program| |intros [resolved bytes]].
  - apply steady_bind; [by program| |intros []; steadily].
    apply steady_bind; [by program|unfold combinedTableRefs; steadily|intros [[combined chk] single]].
    apply steady_bind; [by program| |intros; steadily].
    by apply (steady_resolve_all V rows_of rows_of' (MaterializationPlan p q sess v true single)).
  - apply steady_bind; [by program|apply steady_params|intros args]. steadily.
Qed.

Lemma visiting_grows (V visiting : gset string) key n :
  key ∈ V → key ∉ visiting → (size (V ∖ visiting) ≤ S n)%nat → (size (V ∖ ({[key]} ∪ visiting)) ≤ n)%nat.
Proof.
  intros Hk Hv Hn. assert (V ∖ visiting = {[key]} ∪ V ∖ ({[key]} ∪ visiting)) as E.
  { apply set_eq. intros x. destruct (decide (x = key)) as [->|]; set_solver. }
  rewrite E, size_union in Hn by set_solver. rewrite size_singleton in Hn. lia.
Qed.

(** Continuing from a lookup, with its answer in the catalog. *)
Lemma steady_lookup p V {A} d id (f f' : option tableRecord → M A) :
  (∀ o s, views s p ⊆ V → lookup_table s p d id = o →
     f o s = f' o s ∧ ∀ e, (f o s).2 = inl e → fuel_err e = false) →
  steady p V (call (λ s, tables_get s p d id now) ≫= f) (call (λ s, tables_get s p d id now) ≫= f').
Proof.
  intros Hff s Hs. unfold mbind, M_bind, call. pose proof (get_spec now s p d id) as Hg.
  destruct (tables_get s p d id now) as [s1 o]. destruct Hg as (Hv%(quiet_views now _ _ p) & Hl & _).
  apply Hff; [etrans; [apply Hv|done]|done].
Qed.

Lemma steady_rows p V : ∀ fuel fuel' visiting,
  (size (V ∖ visiting) ≤ fuel)%nat → (size (V ∖ visiting) ≤ fuel')%nat →
  steady_reader p V visiting (resolveTableRowsVisiting now fuel) (resolveTableRowsVisiting now fuel').
Proof.
  induction fuel as [|fuel IH]; intros fuel' visiting Hf Hf' d id;
    destruct fuel' as [|fuel']; simpl; apply steady_lookup; intros [t|] s Hs Hl;
    try (by apply (steady_ret p V)); destruct (tr_View t) as [view|] eqn:Ev.
  all: try (by destruct (tr_External t);
    [case_match; [by apply (steady_ret p V)|by apply (steady_fail p V)]|by apply (steady_call p V)]).
  all: assert (view_key p d id ∈ V) as Hk by (apply Hs, elem_of_views; exists d, id, t; rewrite Ev; by eauto).
  all: case_bool_decide as Hvis; [by apply (steady_fail p V)|].
  all: assert (size ({[view_key p d id]} : gset string) ≤ size (V ∖ visiting))%nat as Hpos
    by (apply subseteq_size; set_solver); rewrite size_singleton in Hpos; try lia.
  apply (steady_bind p V); [apply quiet_wrap, quiet_query, quiet_rows|apply steady_wrap, steady_query|intros [[sch rows] ?]|done].
  - apply quiet_rows.
  - apply IH; by apply visiting_grows.
  - apply steady_ret.
Qed.

(** C13. Queries over views end: whatever views the catalog holds and however
    they refer to each other, resolving and running a query returns a result or
    an error of its own - a cycle is reported - within as many nested view
    resolutions as the project has views, and a larger bound changes nothing. *)
Theorem resolution_terminates (p q : string) (sess : option sessionRecord) (mode : string)
    (params : list storedQueryParameter) (s : tableService) (fuel : nat) :
  (size (views s p) ≤ fuel)%nat →
  let '(s', r) := executeRealSQLQueryWithParams now p q sess mode params s in
  executeRealSQLQueryVisitingWithParamsAndStats now (resolveTableRowsVisiting now fuel) p q ∅ sess mode params s =
    (s', r) ∧
  ∀ e, r = inl e → fuel_err e = false.
Proof.
  intros Hf. unfold executeRealSQLQueryWithParams.
  destruct (steady_query p (views s p) (resolveTableRowsVisiting now (S (size (views s p))))
    (resolveTableRowsVisiting now fuel) q ∅ sess mode params) with (s := s) as [E He]; [apply quiet_rows| |done|].
  - apply steady_rows; rewrite difference_empty_L; lia.
  - rewrite <-E. destruct (executeRealSQLQueryVisitingWithParamsAndStats _ _ _ _ _ _ _ _ s) as [s' r]. by split.
Qed.

(** ** Resolved tables are catalog tables *)

Definition settled (s : tableService) (p d : string) (T : gmap string tableRecord) : Prop :=
  dataset_tables s p d = Some T ∧ omap (purge_table now) T = T.

Lemma settled_quiet s s' p d T : settled s p d T → quiet_step now s s' → settled s' p d T.
Proof. intros [Hs HT] Hq. split; [by eapply quiet_settles|done]. Qed.

Lemma settled_get s p d T id : settled s p d T →
  ∃ s', tables_get s p d id now = (s', T !! id) ∧ quiet_step now s s'.
Proof.
  intros Ht. pose proof (get_spec now s p d id) as Hg. destruct (tables_get s p d id now) as [s' o].
  destruct Hg as (Hq & <- & _). exists s'. split; [|done]. f_equal. unfold lookup_table.
  by rewrite (proj1 (settled_quiet _ _ _ _ _ Ht Hq)).
Qed.

(** The rows of a native table are those of the catalog. *)
Lemma rows_native fuel s p d T id t visiting :
  settled s p d T → T !! id = Some t → is_native t = true →
  (resolveTableRowsVisiting now fuel p d id visiting s).2 = inr (Some (tr_Schema t, tr_Rows t)).
Proof.
  intros Hs Ht Hn. unfold is_native in Hn. apply andb_true_iff in Hn as [Hv Hx]. bools.
  destruct (settled_get s p d T id Hs) as (s1 & E1 & Q1).
  destruct (settled_get s1 p d T id (settled_quiet _ _ _ _ _ Hs Q1)) as (s2 & E2 & Q2).
  destruct fuel; simpl; unfold mbind, M_bind, call; rewrite E1, Ht, Hv, Hx; unfold tables_getData;
    by rewrite E2, Ht.
Qed.

(** The table as a version of the catalog fixes it. *)
Definition catalog_image (t : tableRecord) (r : resolvedTable) : Prop :=
  is_native t = true ∧ rt_found r = true ∧ rt_version r = tr_Version t ∧
  (rt_fields r, rt_rows r) = materializeIngestionPseudocolumns (Some t) (tr_Schema t) (tr_Rows t).

Lemma resolved_rows_versioned plan ref o fields rows :
  let r := (resolved_rows plan ref o fields rows).1 in
  rt_datasetID r = dr_datasetID ref ∧ rt_tableID r = dr_tableID ref ∧
  (rt_hasVersion r = true → ∃ t, o = Some t ∧ is_native t = true ∧ rt_found r = true ∧
     rt_version r = tr_Version t ∧
     (rt_fields r, rt_rows r) = materializeIngestionPseudocolumns (Some t) fields rows).
Proof.
  unfold resolved_rows. destruct (pruneIfEligible plan ref o rows) as [[rows' o'] pruned] eqn:Ep.
  destruct (materializeIngestionPseudocolumns o' fields rows') as [f' r'] eqn:Em. simpl. split_and!; [done..|].
  intros [Ho Hp]%andb_true_iff. destruct o as [t|]; [|done]. exists t. rewrite Ho.
  assert (rows' = rows ∧ o' = Some t) as [-> ->]; [|by split_and!].
  unfold pruneIfEligible in Ep. repeat case_match; simplify_eq; done.
Qed.

Definition checks_filter (plan : materializationPlan) (T : gmap string tableRecord) (id : string) : Prop :=
  ∀ t, T !! id = Some t → tr_RequirePartitionFilter t = true → queryHasPartitionFilter (mp_queryText plan) t = true.

Lemma catalog_spec plan ref chk s s' o :
  catalogTableForRef now plan ref chk s = (s', inr o) →
  (equal_fold (dr_datasetID ref) sessionDatasetName = true ∧ o = None) ∨
  (equal_fold (dr_datasetID ref) sessionDatasetName = false ∧
   ∃ T, settled s' (mp_projectID plan) (dr_datasetID ref) T ∧ T !! dr_tableID ref = o ∧
        (chk = true → checks_filter plan T (dr_tableID ref))).
Proof.
  unfold catalogTableForRef, mbind, M_bind, mret, M_ret, call, fail.
  destruct (equal_fold _ _) eqn:Ef; [intros E; left; by simplify_eq/=|].
  pose proof (get_spec now s (mp_projectID plan) (dr_datasetID ref) (dr_tableID ref)) as Hg.
  destruct (tables_get _ _ _ _ now) as [s1 o1]. destruct Hg as (_ & Hl & T & HT & Hp). intros E. right. split; [done|].
  unfold lookup_table in Hl. rewrite HT in Hl. simpl in Hl. exists T. unfold checks_filter.
  destruct o1 as [t|]; [|simplify_eq/=; split_and!; [done..|congruence]].
  destruct (chk && _ && _) eqn:Ec; [done|]. simplify_eq/=. split_and!; [done..|].
  intros -> t' Ht' Hreq. simplify_eq. rewrite Hreq in Ec. simpl in Ec. by destruct (queryHasPartitionFilter _ _).
Qed.

(** What resolving one reference establishes, and later reads keep. *)
Definition resolved_ok (plan : materializationPlan) (ref : datasetTableRef) (chk : bool) (s : tableService)
    (r : resolvedTable) : Prop :=
  rt_datasetID r = dr_datasetID ref ∧ rt_tableID r = dr_tableID ref ∧
  (equal_fold (dr_datasetID ref) sessionDatasetName = false →
   ∃ T, settled s (mp_projectID plan) (dr_datasetID ref) T ∧ (chk = true → checks_filter plan T (dr_tableID ref))) ∧
  (rt_hasVersion r = true → ∃ T t, settled s (mp_projectID plan) (dr_datasetID ref) T ∧
     T !! dr_tableID ref = Some t ∧ catalog_image t r).

Lemma resolved_ok_quiet plan ref chk s s' r :
  resolved_ok plan ref chk s r → quiet_step now s s' → resolved_ok plan ref chk s' r.
Proof.
  intros (Hd' & Ht' & Hset & Hver) Hq. split_and!; [done..| |].
  - intros Hd. destruct (Hset Hd) as (T & HT & Hc). exists T. eauto using settled_quiet.
  - intros Hv. destruct (Hver Hv) as (T & t & HT & Hc). exists T, t. eauto using settled_quiet.
Qed.

Lemma resolve_ref_spec fuel plan ref chk s s' r b :
  resolveTableForMaterialization now (resolveTableRowsVisiting now fuel) plan ref chk s = (s', inr (r, b)) →
  resolved_ok plan ref chk s' r.
Proof.
  unfold resolveTableForMaterialization, mbind, M_bind, mret, M_ret.
  destruct (catalogTableForRef now plan ref chk s) as [s1 [|o]] eqn:Ec; [done|]. intros E.
  apply catalog_spec in Ec as [[Hd ->]|(Hd & T & HT & Hl & Hf)]; rewrite Hd in E.
  - assert (rt_datasetID r = dr_datasetID ref ∧ rt_tableID r = dr_tableID ref ∧ rt_hasVersion r = false)
      as (H1' & H2' & H3'); [|split_and!; [done..|congruence|congruence]].
    destruct (mp_sess plan); [destruct (getTempTable _ _); by simplify_eq/=|].
    destruct (resolveTableRowsVisiting _ _ _ _ _ _ s1) as [s2 [|[[fields rows]|]]]; simplify_eq/=; [|done].
    destruct (resolved_rows_versioned plan ref None fields rows) as (H1' & H2' & H3').
    destruct (resolved_rows plan ref None fields rows) as [r' b']. simplify_eq/=. split_and!; [done..|].
    destruct (rt_hasVersion r); [|done]. by destruct H3' as (? & ? & _).
  - pose proof (quiet_rows fuel (mp_projectID plan) (dr_datasetID ref) (dr_tableID ref) (mp_visiting plan) s1) as Hq.
    pose proof (λ t, rows_native fuel s1 _ _ T (dr_tableID ref) t (mp_visiting plan) HT) as Hn.
    destruct (resolveTableRowsVisiting _ _ _ _ _ _ s1) as [s2 res2]. simpl in Hq, Hn.
    assert (∃ T, settled s2 (mp_projectID plan) (dr_datasetID ref) T ∧ (chk = true → checks_filter plan T (dr_tableID ref)))
      as HT2 by eauto using settled_quiet.
    destruct res2 as [|[[fields rows]|]]; simplify_eq/=; [|by split_and!].
    destruct (resolved_rows_versioned plan ref (T !! dr_tableID ref) fields rows) as (H1' & H2' & H3').
    destruct (resolved_rows plan ref (T !! dr_tableID ref) fields rows) as [r' b']. simplify_eq/=.
    split_and!; [done..|]. intros Hv. destruct (H3' Hv) as (t & Ht & Hnat & Hfound & Hver & Himg).
    specialize (Hn t Ht Hnat). simplify_eq. exists T, t.
    split_and!; [by eapply settled_quiet|done|]. by split_and!.
Qed.

Lemma resolve_all_spec fuel plan checked refs : ∀ s s' out,
  resolveAllRefs now (resolveTableRowsVisiting now fuel) plan checked refs s = (s', inr out) →
  Forall2 (λ ref r, resolved_ok plan ref (bool_decide (ref ∈ checked)) s' r.1) refs out.
Proof.
  induction refs as [|ref refs IH]; intros s s' out E; simpl in E; [unfold mret, M_ret in E; by simplify_eq|].
  unfold mbind at 1, M_bind in E.
  destruct (resolveTableForMaterialization _ _ _ _ _ s) as [s1 [|[r b]]] eqn:Er; [done|].
  pose proof (quiet_resolve_all _ plan checked refs (quiet_rows fuel) s1) as Hq.
  unfold mbind, M_bind in E. destruct (resolveAllRefs _ _ _ _ _ s1) as [s2 [|rest]] eqn:Ea; [done|].
  unfold mret, M_ret in E. simplify_eq. constructor; [|by eapply IH].
  eapply resolved_ok_quiet; [by eapply resolve_ref_spec|exact Hq].
Qed.

Lemma dedup_refs_spec refs ref : ref ∈ dedup_refs refs ↔ ref ∈ refs.
Proof.
  assert (∀ refs acc, ref ∈ foldl (λ acc r, if bool_decide (r ∈ acc) then acc else acc ++ [r]) acc refs ↔
    ref ∈ acc ∨ ref ∈ refs) as Hg; [|unfold dedup_refs; rewrite Hg; set_solver].
  clear. induction refs as [|r refs IH]; intros acc; simpl; [set_solver|].
  rewrite IH. case_bool_decide; set_solver.
Qed.

Lemma expand_keeps p refs : ∀ s s' out ref,
  expandWildcardTableRefs now p refs s = (s', inr out) →
  ref ∈ refs → cut_suffix (dr_tableID ref) "*" = None → ref ∈ out.
Proof.
  induction refs as [|r refs IH]; intros s s' out ref E Hin Hc; [by apply elem_of_nil in Hin|].
  simpl in E. apply elem_of_cons in Hin. destruct (cut_suffix (dr_tableID r) "*") as [prefix|] eqn:Er.
  - unfold mbind at 1, M_bind, call in E. destruct (tables_listAll _ _ _ _) as [s1 all].
    unfold mbind, M_bind in E. destruct (expandWildcardTableRefs _ _ _ s1) as [s2 [|o]] eqn:Eo; [done|].
    unfold mret, M_ret in E. simplify_eq. destruct Hin as [->|Hin]; [congruence|].
    apply elem_of_app. right. by eapply IH.
  - unfold mbind, M_bind in E. destruct (expandWildcardTableRefs _ _ _ s) as [s2 [|o]] eqn:Eo; [done|].
    unfold mret, M_ret in E. simplify_eq. apply elem_of_cons. destruct Hin as [->|Hin]; [by left|right; by eapply IH].
Qed.

(** The references of a resolved query, with what was established for each. *)
Lemma resolve_query_spec fuel p q visiting sess extra pruning s s' R bytes :
  resolve_query now (resolveTableRowsVisiting now fuel) p q visiting sess extra pruning s = (s', inr (R, bytes)) →
  ∃ plan (checked refs : list datasetTableRef), mp_projectID plan = p ∧ mp_queryText plan = q ∧
    Forall2 (λ ref r, resolved_ok plan ref (bool_decide (ref ∈ checked)) s' r) refs R ∧
    ∀ ref, (ref ∈ referencedTables q p ∧ cut_suffix (dr_tableID ref) "*" = None) ∨
           (ref ∈ filter_target p q ∧ ref ∈ extra) → ref ∈ refs ∧ ref ∈ checked.
Proof.
  unfold resolve_query, combinedTableRefs, mbind, M_bind, mret, M_ret. intros E.
  destruct (expandWildcardTableRefs now p (referencedTables q p) s) as [s1 [|refs]] eqn:Ee; [done|].
  destruct (resolveAllRefs _ _ _ _ _ s1) as [s2 [|out]] eqn:Er; [done|]. simplify_eq.
  eexists _, _, _. split_and!; [..|apply Forall2_fmap_r; by eapply resolve_all_spec|]; [done..|].
  intros ref Href. rewrite dedup_refs_spec, !elem_of_app. destruct Href as [[Hin Hc]|[Ht Hx]]; [|by auto].
  pose proof (expand_keeps _ _ _ _ _ ref Ee Hin Hc). auto.
Qed.

Lemma resolved_image fuel p q v sess extra prune s s' R b r d id :
  resolve_query now (resolveTableRowsVisiting now fuel) p q v sess extra prune s = (s', inr (R, b)) →
  r ∈ R → rt_hasVersion r = true → (rt_datasetID r, rt_tableID r) = (d, id) →
  ∃ t, lookup_table s' p d id = Some t ∧ catalog_image t r.
Proof.
  intros E Hin Hv Hid. apply resolve_query_spec in E as (plan & checked & refs & Hp & _ & HF & _).
  apply list_elem_of_lookup in Hin as [i Hi].
  destruct (Forall2_lookup_r _ _ _ _ _ HF Hi) as (ref & _ & Ed & Et & _ & Hver).
  destruct (Hver Hv) as (T & t & [HT _] & Ht & Himg). exists t. split; [|done].
  simplify_eq. unfold lookup_table. by rewrite Ed, Et, HT.
Qed.

End Programs.

Section Sharing.
Context `{TimestampParser} `{GoogleSqlParser} `{GoFloats} `{!QueryEngine} `{ExternalFiles}.

End Sharing.

(** ** Concrete queries *)

Section Concrete.
#[local] Existing Instance unix_seconds.
#[local] Existing Instance no_floats.
#[local] Instance no_parser : GoogleSqlParser := λ _, None.
(** An engine that returns the one table it holds. *)
#[local] Instance echo_engine : QueryEngine := {|
  engine_open := λ _, true;
  engine_query := λ R _ _, match R with [r] => Some (rt_fields r, rt_rows r) | _ => None end |}.
#[local] Instance no_files : ExternalFiles := λ _ _, None.

Definition demo_view (id query : string) : tableRecord :=
  (new_table "p" "d" id [] [] 0 1) <| tr_View := Some (ViewConfig query false) |>.

(** Two views that select from each other. *)
Definition demo_cycle : tableService :=
  set_tables "p" "d" {["v1" := demo_view "v1" "SELECT * FROM d.v2"; "v2" := demo_view "v2" "SELECT * FROM d.v1"]}
    newTableService.

Lemma resolution_terminates_witness :
  (executeRealSQLQueryVisitingWithParamsAndStats 5 (resolveTableRowsVisiting 5 2) "p" "SELECT * FROM d.v1" ∅ None
     "" [] demo_cycle).2 = inl (ResolveView "d" "v1" (ResolveView "d" "v2" (CircularView "d" "v1"))).
Proof.
  assert (size (views demo_cycle "p") ≤ 2)%nat as Hf by (vm_compute; lia).
  pose proof (resolution_terminates 5 "p" "SELECT * FROM d.v1" None "" [] demo_cycle 2 Hf) as Ht.
  destruct (executeRealSQLQueryWithParams 5 "p" "SELECT * FROM d.v1" None "" [] demo_cycle) as [s' r] eqn:E.
  destruct Ht as [Ht _]. rewrite Ht. simpl.
  transitivity (executeRealSQLQueryWithParams 5 "p" "SELECT * FROM d.v1" None "" [] demo_cycle).2;
    [by rewrite E|vm_compute; reflexivity].
Defined.

Definition demo_resolved : resolvedTable :=
  ResolvedTable "d" "events" (defaultTableData "events").1 (defaultTableData "events").2 true 1 true.


(** A table partitioned by [id] that wants a filter on it. *)
Definition demo_guarded : tableService :=
  set_tables "p" "d" {["t" := demo_range_table <| tr_RequirePartitionFilter := true |>]} newTableService.

Example unfiltered_query_refused :
  (resolve_query 5 (resolveTableRowsVisiting 5 0) "p" "SELECT * FROM d.t" ∅ None [] true demo_guarded).2 =
  inl (PartitionFilterRequired "d" "t").
Proof. by vm_compute. Qed.


(** The version and the rows come from two lookups.  When a load commits
    between them, five rows go into the shared engine under the version that
    has four. *)
Example torn_resolution_mislabels_rows :
  let plan := MaterializationPlan "p" "SELECT * FROM d.events" None ∅ true true in
  let ref := DatasetTableRef "d" "events" in
  let r := (resolved_rows plan ref (lookup_table demo_seeded "p" "d" "events")
              (tr_Schema (demo_table demo_loaded)) (tr_Rows (demo_table demo_loaded))).1 in
  rt_hasVersion r = true ∧ rt_version r = 1 ∧ length (rt_rows r) = 5%nat ∧
  length (tr_Rows (demo_table demo_seeded)) = 4%nat.
Proof. by vm_compute. Qed.
End Concrete.
