(* ===== verification/StorageRead.v ===== *)
(** * The Storage Read API (storage_read_service.go)

    A read session runs its query once, through the same engine as every other
    query, and keeps the rows in its one stream; ReadRows answers with the rows
    from an offset on, as one Avro or Arrow response.  The Avro codec is the class
    [AvroBinary]; [StorageArrow] has the Arrow side.  The counter of names is an
    unbounded integer. *)

From S2P Require Import Prelude GoStrings GoTime GoJson Cells TableModel SqlStatements Partitioning Pruning TableStore Sessions EnginePool StorageWrite Jobs QueryParams FileFormats SqlResolve StorageArrow.
From Stdlib Require Import Ascii.

(** [goavro.NewCodec] accepts a schema; [BinaryFromNative] appends a record to a
    buffer. *)
Class AvroBinary `{GoFloats} := {
  avro_codec : string → bool;
  avro_append : string → string → fileRecord → option string;
}.

(** ** Data *)

Definition storageReadLocation : string := "local".

Inductive dataFormat := FormatUnspecified | FormatAvro | FormatArrow | FormatOther (n : Z).

Inductive streamCodec := AvroStream (schemaJSON : string) | ArrowStream (sch : list arrowField).

Record storageReadStream := ReadStream {
  rd_fields : schema; rd_rows : list row; rd_dataFormat : dataFormat; rd_codec : streamCodec }.

Record storageReadService := ReadService { rs_counter : Z; rs_streams : gmap string storageReadStream }.
Definition newStorageReadService : storageReadService := ReadService 0 ∅.

(** The options of a session; [ro_compression] is whether buffer compression is
    asked for. *)
Record readOptions := ReadOptions {
  ro_selectedFields : list string; ro_rowRestriction : string; ro_compression : bool }.
Record sessionRequest := SessionRequest {
  rq_Table : string; rq_DataFormat : dataFormat; rq_Options : option readOptions }.
Record readSession := ReadSession {
  rsn_Name : string; rsn_DataFormat : dataFormat; rsn_Table : string; rsn_Stream : string;
  rsn_Rows : Z; rsn_Schema : string }.

Inductive readErr :=
| SessionRequired | BadTableName (name : string) | ReadTableNotFound (datasetID tableID : string)
| CompressionUnsupported | QueryRefused (e : queryErr) | AvroNested (column : string) | AvroCodecRefused
| ArrowSchemaRefused (e : arrowErr) | FormatUnsupported | StreamNotFound (name : string)
| OffsetOutOfRange (offset : Z) (rows : Z) | EncodeFailed | ReadPanic.

(** A response: its rows, how many, and the schema sent along, none with no rows. *)
Inductive responseRows := AvroRows (binary : string) | ArrowRecordBatch (serialized : string).
Record readResponse := ReadResponse { rr_Rows : responseRows; rr_RowCount : Z; rr_Schema : option string }.

(** ** Sessions *)

Definition buildStorageReadQuery (datasetID tableID : string) (selectedFields : list string) (rowRestriction : string) : string :=
  let columnsExpr := match selectedFields with [] => "*" | _ => join ", " (quoteIdent <$> selectedFields) end in
  let query := "SELECT " +:+ columnsExpr +:+ " FROM " +:+ datasetID +:+ "." +:+ tableID in
  let rr := trim_space rowRestriction in
  if String.eqb rr "" then query else query +:+ " WHERE " +:+ rr.

Definition parseStorageReadOptions (rs : sessionRequest) : readErr + (list string * string) :=
  match rq_Options rs with
  | None => inr ([], "")
  | Some o => if ro_compression o then inl CompressionUnsupported else inr (ro_selectedFields o, ro_rowRestriction o)
  end.

Section Read.
Context `{TimestampParser} `{GoogleSqlParser} `{GoFloats} `{!QueryEngine} `{ExternalFiles}.
Context `{!FloatText} `{!AvroBinary} `{!ArrowLib}.

(** The codec of a stream and the schema a client is told. *)
Definition configureAvroReadStream (fields : schema) : readErr + (streamCodec * string) :=
  match rejectNestedFields fields with
  | Some column => inl (AvroNested column)
  | None =>
      let schemaJSON := buildAvroSchemaJSON fields in
      if avro_codec schemaJSON then inr (AvroStream schemaJSON, schemaJSON) else inl AvroCodecRefused
  end.

Definition configureArrowReadStream (fields : schema) : readErr + (streamCodec * string) :=
  match buildArrowSchema fields with
  | Ok sch => inr (ArrowStream sch, serializeArrowSchemaMessage sch)
  | Err e => inl (ArrowSchemaRefused e)
  | Panic => inl ReadPanic
  end.

Definition CreateReadSession (now : Z) (ts : tableService) (s : storageReadService) (req : option sessionRequest)
    : tableService * storageReadService * (readErr + readSession) :=
  match req with
  | None => (ts, s, inl SessionRequired)
  | Some rs =>
      match parseStorageTableName (rq_Table rs) with
      | None => (ts, s, inl (BadTableName (rq_Table rs)))
      | Some (projectID, datasetID, tableID) =>
          let '(ts, table) := tables_get ts projectID datasetID tableID now in
          match table with
          | None => (ts, s, inl (ReadTableNotFound datasetID tableID))
          | Some _ =>
              match parseStorageReadOptions rs with
              | inl e => (ts, s, inl e)
              | inr (selectedFields, rowRestriction) =>
                  let queryText := buildStorageReadQuery datasetID tableID selectedFields rowRestriction in
                  let '(ts, result) := executeRealSQLQueryWithParams now projectID queryText None "" [] ts in
                  match result with
                  | inl e => (ts, s, inl (QueryRefused e))
                  | inr (fields, rows, _) =>
                      let dataFormat := match rq_DataFormat rs with FormatUnspecified => FormatAvro | d => d end in
                      match match dataFormat with
                            | FormatAvro => configureAvroReadStream fields
                            | FormatArrow => configureArrowReadStream fields
                            | _ => inl FormatUnsupported
                            end with
                      | inl e => (ts, s, inl e)
                      | inr (codec, schemaText) =>
                          let sessionID := "session_" +:+ format_int (rs_counter s + 1) in
                          let streamID := "stream_" +:+ format_int (rs_counter s + 2) in
                          let sessionName := "projects/" +:+ projectID +:+ "/locations/" +:+ storageReadLocation +:+
                                             "/sessions/" +:+ sessionID in
                          let streamName := sessionName +:+ "/streams/" +:+ streamID in
                          (ts, ReadService (rs_counter s + 2)
                                 (<[streamName := ReadStream fields rows dataFormat codec]> (rs_streams s)),
                           inr (ReadSession sessionName dataFormat (rq_Table rs) streamName
                                  (Z.of_nat (length rows)) schemaText))
                      end
                  end
              end
          end
      end
  end.

(** ** Rows *)

Fixpoint append_avro (schemaJSON : string) (fields : schema) (binary : string) (rows : list row) : option string :=
  match rows with
  | [] => Some binary
  | r :: rows =>
      binary ← avro_append schemaJSON binary (typed_record stringToAvroValue fields r);
      append_avro schemaJSON fields binary rows
  end.

Definition sendAvroReadRowsResponse (schemaJSON : string) (fields : schema) (rows : list row) : readErr + readResponse :=
  match rows with
  | [] => inr (ReadResponse (AvroRows "") 0 None)
  | _ =>
      match append_avro schemaJSON fields "" rows with
      | None => inl EncodeFailed
      | Some binary => inr (ReadResponse (AvroRows binary) (Z.of_nat (length rows)) (Some schemaJSON))
      end
  end.

Definition sendArrowReadRowsResponse (sch : list arrowField) (fields : schema) (rows : list row) : readErr + readResponse :=
  match rows with
  | [] => inr (ReadResponse (ArrowRecordBatch "") 0 None)
  | _ =>
      match buildArrowRecord sch fields rows with
      | Panic => inl ReadPanic
      | Err _ => inl EncodeFailed
      | Ok rec =>
          match serializeArrowRecordBatchMessage rec with
          | None => inl EncodeFailed
          | Some batchMsg =>
              inr (ReadResponse (ArrowRecordBatch batchMsg) (Z.of_nat (length rows)) (Some (serializeArrowSchemaMessage sch)))
          end
      end
  end.

Definition send_rows (st : storageReadStream) (rows : list row) : readErr + readResponse :=
  match rd_codec st with
  | ArrowStream sch => sendArrowReadRowsResponse sch (rd_fields st) rows
  | AvroStream schemaJSON => sendAvroReadRowsResponse schemaJSON (rd_fields st) rows
  end.

Definition ReadRows (s : storageReadService) (name : string) (offset : Z) : readErr + readResponse :=
  match rs_streams s !! name with
  | None => inl (StreamNotFound name)
  | Some st =>
      if (offset <? 0) || (Z.of_nat (length (rd_rows st)) <? offset)
      then inl (OffsetOutOfRange offset (Z.of_nat (length (rd_rows st))))
      else send_rows st (drop (Z.to_nat offset) (rd_rows st))
  end.

End Read.

(** ** Names of streams *)

Lemma str_mem_rev c s : str_mem c (String.rev s) = str_mem c s.
Proof.
  induction s as [|d s IH]; [done|]. rewrite rev_cons, str_mem_app, IH. simpl. by rewrite orb_false_r, orb_comm.
Qed.

(** The text after the last separator. *)
Lemma str_last_sep_inj c a a' b b' :
  str_mem c b = false → str_mem c b' = false → a +:+ String c b = a' +:+ String c b' → b = b'.
Proof.
  intros Hb Hb' E. apply (f_equal String.rev) in E. rewrite !rev_append, !rev_cons, !str_app_assoc in E.
  change (String c "" +:+ String.rev a) with (String c (String.rev a)) in E.
  change (String c "" +:+ String.rev a') with (String c (String.rev a')) in E.
  apply str_sep_inj in E as [E _]; [|by rewrite str_mem_rev..]. by rewrite <-(rev_rev b), E, rev_rev.
Qed.

Lemma uint_no_underscore u : str_mem "_" (DecimalString.NilEmpty.string_of_uint u) = false.
Proof. by induction u. Qed.
Lemma format_int_no_underscore z : str_mem "_" (format_int z) = false.
Proof.
  unfold format_int, DecimalString.NilZero.string_of_int.
  assert (∀ u, str_mem "_" (DecimalString.NilZero.string_of_uint u) = false) as Hu.
  { intros []; try done; apply uint_no_underscore. }
  destruct (Z.to_int z); simpl; apply Hu.
Qed.

Definition stream_name (projectID : string) (n : Z) : string :=
  ("projects/" +:+ projectID +:+ "/locations/" +:+ storageReadLocation +:+ "/sessions/" +:+ "session_" +:+ format_int (n - 1)) +:+
  "/streams/" +:+ "stream_" +:+ format_int n.

Lemma stream_name_inj p p' n n' : stream_name p n = stream_name p' n' → n = n'.
Proof.
  unfold stream_name. intros E.
  assert (∀ a z, a +:+ "/streams/" +:+ "stream_" +:+ format_int z = (a +:+ "/streams/stream") +:+ String "_" (format_int z)) as Hs.
  { intros a z. rewrite !str_app_assoc. f_equal. }
  rewrite !Hs in E. apply str_last_sep_inj in E; [by apply format_int_injective|apply format_int_no_underscore..].
Qed.

(** ** Sessions keep what they were created with *)

Section Sessions.
Context `{TimestampParser} `{GoogleSqlParser} `{GoFloats} `{!QueryEngine} `{ExternalFiles}.
Context `{!FloatText} `{!AvroBinary} `{!ArrowLib}.

(** Another request of any client, whatever the catalog holds by then; ReadRows
    changes nothing. *)
Definition read_step (s s' : storageReadService) : Prop :=
  ∃ now ts req, (CreateReadSession now ts s req).1.2 = s'.

Definition names_ok (s : storageReadService) : Prop :=
  ∀ name st, rs_streams s !! name = Some st → ∃ p n, n ≤ rs_counter s ∧ name = stream_name p n.

(** The stream of a format. *)
Definition stream_for (d : dataFormat) (fields : schema) (codec : streamCodec) (schemaText : string) : Prop :=
  match d with
  | FormatAvro => codec = AvroStream schemaText
  | FormatArrow => ∃ sch, codec = ArrowStream sch ∧ buildArrowSchema fields = Ok sch ∧ schemaText = serializeArrowSchemaMessage sch
  | _ => False
  end.

Lemma create_session_inv now ts s req ts' s' r :
  CreateReadSession now ts s req = (ts', s', r) →
  match r with
  | inl _ => s' = s
  | inr session => ∃ rq p d t sel restr fields rows bytes codec,
      req = Some rq ∧ parseStorageTableName (rq_Table rq) = Some (p, d, t) ∧
      parseStorageReadOptions rq = inr (sel, restr) ∧
      (executeRealSQLQueryWithParams now p (buildStorageReadQuery d t sel restr) None "" [] (tables_get ts p d t now).1).2 =
        inr (fields, rows, bytes) ∧
      rsn_Rows session = Z.of_nat (length rows) ∧ rsn_Stream session = stream_name p (rs_counter s + 2) ∧
      stream_for (rsn_DataFormat session) fields codec (rsn_Schema session) ∧
      s' = ReadService (rs_counter s + 2)
             (<[rsn_Stream session := ReadStream fields rows (rsn_DataFormat session) codec]> (rs_streams s))
  end.
Proof.
  unfold CreateReadSession. destruct req as [rq|]; [|by intros [= <- <- <-]].
  destruct (parseStorageTableName (rq_Table rq)) as [[[p d] t]|] eqn:Ep; [|by intros [= <- <- <-]].
  destruct (tables_get ts p d t now) as [ts1 [tbl|]] eqn:Et; [|by intros [= <- <- <-]].
  destruct (parseStorageReadOptions rq) as [e|[sel restr]] eqn:Eo; [by intros [= <- <- <-]|].
  destruct (executeRealSQLQueryWithParams _ _ _ _ _ _ ts1) as [ts2 [e|[[fields rows] bytes]]] eqn:Eq; [by intros [= <- <- <-]|].
  set (df := match rq_DataFormat rq with FormatUnspecified => FormatAvro | d => d end).
  destruct (match df with FormatAvro => configureAvroReadStream fields | FormatArrow => configureArrowReadStream fields
            | _ => inl FormatUnsupported end) as [e|[codec text]] eqn:Ec; [by intros [= <- <- <-]|].
  intros [= <- <- <-]. exists rq, p, d, t, sel, restr, fields, rows, bytes, codec. rewrite Et. simpl.
  assert (Hname : "projects/" +:+ p +:+ "/locations/" +:+ storageReadLocation +:+ "/sessions/" +:+ "session_" +:+
    format_int (rs_counter s + 1) = "projects/" +:+ p +:+ "/locations/" +:+ storageReadLocation +:+ "/sessions/" +:+ "session_" +:+
    format_int (rs_counter s + 2 - 1)) by (do 7 f_equal; lia).
  split_and!; [done..|by rewrite Eq|done| | |done].
  - unfold stream_name. rewrite <-Hname. by rewrite !str_app_assoc.
  - unfold stream_for. destruct df; try done.
    + unfold configureAvroReadStream in Ec. destruct (rejectNestedFields fields); [done|].
      destruct (avro_codec _); [|done]. by injection Ec as <- <-.
    + unfold configureArrowReadStream in Ec. destruct (buildArrowSchema fields) as [sch| |]; [|done|done].
      injection Ec as <- <-. by exists sch.
Qed.

Lemma read_step_keeps s s' name st :
  names_ok s → read_step s s' → names_ok s' ∧ (rs_streams s !! name = Some st → rs_streams s' !! name = Some st).
Proof.
  intros Hok (now & ts & req & E). destruct (CreateReadSession now ts s req) as [[ts' s1] r] eqn:Ec. simpl in E. subst s1.
  apply create_session_inv in Ec. destruct r as [e|session]; [by subst s'|].
  destruct Ec as (rq & p & d & t & sel & restr & fields & rows & bytes & codec & _ & _ & _ & _ & _ & Hn & _ & ->).
  split.
  - intros name' st'. simpl. intros [[<- <-]|[_ Hl]]%lookup_insert_Some; [exists p, (rs_counter s + 2); split; [lia|done]|].
    destruct (Hok name' st' Hl) as (p' & n & Hle & ->). exists p', n. split; [lia|done].
  - intros Hl. simpl. rewrite lookup_insert_ne; [done|]. intros <-. destruct (Hok _ st Hl) as (p' & n & Hle & E).
    rewrite Hn in E. apply stream_name_inj in E. lia.
Qed.

Lemma reads_keep s s' name st :
  rtc read_step s s' → names_ok s → names_ok s' ∧ (rs_streams s !! name = Some st → rs_streams s' !! name = Some st).
Proof.
  induction 1 as [s|s s1 s2 Hstep _ IH]; [done|]. intros Hok.
  destruct (read_step_keeps s s1 name st Hok Hstep) as [Hok1 Ha1]. destruct (IH Hok1) as [Hok2 Ha2]. auto.
Qed.

(** Rows as this emulator writes them in the types of their columns. *)
Definition written_rows (fields : schema) (sch : list arrowField) (rows : list row) : Prop :=
  Forall (λ r, ∃ vs, row_written fields sch vs r ∧ Forall (λ ov, from_option in_years True ov) vs) rows.

Lemma written_drop fields sch rows n : written_rows fields sch rows → written_rows fields sch (drop n rows).
Proof. apply Forall_drop. Qed.

(** The batch of written rows holds their values. *)
Lemma written_batch fields sch rows rec :
  buildArrowSchema fields = Ok sch → written_rows fields sch rows → buildArrowRecord sch fields rows = Ok rec →
  Forall (Forall (λ ov, from_option in_years True ov)) (ar_Columns rec) ∧ Forall (canonical_row fields sch) rows.
Proof.
  intros Hsch Hw Hb. split; [|eapply Forall_impl; [exact Hw|]; intros r (vs & Hr & _); by exists vs].
  unfold buildArrowRecord in Hb. destruct (each_arrow (arrow_row sch fields) rows) as [values| |] eqn:Ev; [|done|done].
  simpl in Hb. injection Hb as <-. simpl. unfold arrow_columns. apply Forall_fmap, Forall_true. intros i. simpl.
  apply Forall_forall. intros ov (vs & Hvs & Hi)%list_elem_of_omap. apply list_elem_of_lookup in Hvs as [j Hj].
  destruct (lookup_lt_is_Some_2 rows j) as [r Hr]; [rewrite <-(each_arrow_length _ _ _ Ev); by eapply lookup_lt_Some|].
  pose proof (each_arrow_lookup _ _ _ _ _ _ Ev Hr Hj) as Ea.
  unfold written_rows in Hw. rewrite Forall_lookup in Hw. destruct (Hw j r Hr) as (vs' & Hrw & Hy).
  pose proof (proj2 (arrow_row_values fields sch Hsch r vs') (row_written_values _ _ _ _ Hrw)) as Ea'.
  assert (vs' = vs) as -> by congruence. rewrite Forall_lookup in Hy. by apply (Hy i).
Qed.
End Sessions.


(** ** A session *)

Section Demo.
#[local] Existing Instance one_float.
#[local] Existing Instance demo_lib.
#[local] Existing Instance demo_timestamps.
#[local] Instance no_statements : GoogleSqlParser := λ _, None.
#[local] Instance fixed_engine : QueryEngine := {|
  engine_open := λ _, true;
  engine_query := λ _ _ _, Some (demo_fields, demo_rows) |}.
#[local] Instance no_external : ExternalFiles := λ _ _, None.
#[local] Instance no_float_text : FloatText := {| float_plain := λ _, "0"; float_json := λ _, None; float_zero := () |}.
#[local] Instance no_avro : AvroBinary := {| avro_codec := λ _, false; avro_append := λ _ _ _, None |}.

Definition demo_request : sessionRequest :=
  SessionRequest "projects/p/datasets/d/tables/events" FormatArrow (Some (ReadOptions ["d"; "n"] "n > 0" false)).
Definition demo_session : readSession :=
  ReadSession "projects/p/locations/local/sessions/session_1" FormatArrow (rq_Table demo_request)
    "projects/p/locations/local/sessions/session_1/streams/stream_2" 2 (demo_message "schema").

Lemma demo_written : written_rows demo_fields demo_arrow demo_rows.
Proof.
  constructor; [|constructor; [|constructor]].
  - exists [Some (AvDate32 19782); None; Some (AvTimestamp 1709208000500000); Some (AvTime64 86399000001)]. split.
    + split_and!; [done|done|]. intros [|[|[|[|i]]]] f af ov cell E1 E2 E3 E4; simpl in *; simplify_eq/=.
      all: try (split; [reflexivity|eexists; split; reflexivity]). reflexivity.
    + repeat (constructor; [simpl; try exact I; try (vm_compute; split; discriminate)|]). constructor.
  - exists [Some (AvDate32 (-1)); Some (AvInt64 (-5)); Some (AvTimestamp 0); Some (AvTime64 0)]. split.
    + split_and!; [done|done|]. intros [|[|[|[|i]]]] f af ov cell E1 E2 E3 E4; simpl in *; simplify_eq/=.
      all: split; [reflexivity|eexists; split; reflexivity].
    + repeat (constructor; [simpl; try exact I; try (vm_compute; split; discriminate)|]). constructor.
Qed.

End Demo.
