(* ===== verification/SqlExec.v ===== *)
(** * Executing statements on the catalog (sql_statements.go, bigquery.go)

    DDL and DML: a statement reads its target, lets an engine compute the new
    image of the table, and commits it with a compare-and-swap on the version it
    read.  Other requests run between the sections under the catalog's lock:
    [meanwhile] is what they do to the tables between the snapshot and the
    commit.  The engine is a parameter: what it does to a database with the
    resolved tables, and what the target holds afterwards. *)

From S2P Require Import Prelude GoStrings Regexp SqlPatterns GoTime GoJson Pagination Cells TableModel SqlStatements Partitioning Pruning TableStore Datasets Sessions EnginePool SqlText StorageWrite Jobs QueryParams SqlResolve.
From Stdlib Require Import Ascii.

(** ** Programs over the server's state *)

Record server := Server { srv_datasets : datasetService; srv_tables : tableService }.
#[export] Instance server_eta : Eta server := λ s, Server (srv_datasets s) (srv_tables s).

Inductive execErr :=
| Unparsable (e : parseErr)
| CrossProject (target : tableReference)
| TargetsSession
| InsideTransaction
| DatasetMissing (d : string)
| DatasetExists (d : string)
| TableMissing (target : tableReference)
| TableExists (target : tableReference)
| IsAView (target : tableReference)
| NotAView (target : tableReference)
| IsExternal (target : tableReference)
| ColumnExists (name : string)
| ColumnMissing (name : string)
| QueryFailed (e : queryErr)
| InvalidViewQuery (e : queryErr)
| ReadOnlyPseudocolumns
| EngineFailed
| RowsRejected (e : rowErr)
| SchemaChanged
| CommitRefused (e : tableErr)
| CreatedConcurrently.

Definition X (A : Type) : Type := server → server * res execErr A.
#[export] Instance X_ret : MRet X := λ A a s, (s, Ok a).
#[export] Instance X_bind : MBind X := λ A B f m s,
  match m s with
  | (s, Ok a) => f a s
  | (s, Err e) => (s, Err e)
  | (s, Panic) => (s, Panic)
  end.
Definition throw {A} (e : execErr) : X A := λ s, (s, Err e).
Definition guard_ (b : bool) (e : execErr) : X unit := λ s, (s, if b then Err e else Ok tt).
Definition on_tables {A} (f : tableService → tableService * A) : X A := λ s,
  let '(ts, a) := f (srv_tables s) in (s <| srv_tables := ts |>, Ok a).
Definition on_datasets {A} (f : datasetService → datasetService * A) : X A := λ s,
  let '(ds, a) := f (srv_datasets s) in (s <| srv_datasets := ds |>, Ok a).
(** A commit: its error is the statement's. *)
Definition commit {A} (f : tableService → tableService * res tableErr A) : X A := λ s,
  let '(ts, r) := f (srv_tables s) in
  (s <| srv_tables := ts |>, match r with Ok a => Ok a | Err e => Err (CommitRefused e) | Panic => Panic end).
Definition run_query {A} (wrap_err : queryErr → execErr) (m : M A) : X A := λ s,
  let '(ts, r) := m (srv_tables s) in
  (s <| srv_tables := ts |>, match r with inr a => Ok a | inl e => Err (wrap_err e) end).
Definition interfere (f : tableService → tableService) : X unit := λ s, (s <| srv_tables ::= f |>, Ok tt).

Record persistentSQLResult := PersistentSQLResult {
  pr_schema : schema; pr_rows : list row; pr_statementType : string;
  pr_dmlAffectedRows : Z; pr_processedBytes : Z }.
Definition executed (statementType : string) : persistentSQLResult := PersistentSQLResult [] [] statementType 0 0.

(** ** ALTER TABLE clauses against the schema *)

Definition has_column (sch : schema) (name : string) : bool := existsb (λ f, equal_fold (Name f) name) sch.

Fixpoint resolveAlterTableNewFields (existing : schema) (clauses : list alterTableAddColumnClause)
    : execErr + schema :=
  match clauses with
  | [] => inr []
  | c :: clauses =>
      if has_column existing (Name (ac_field c)) then
        if ac_ifNotExists c then resolveAlterTableNewFields existing clauses
        else inl (ColumnExists (Name (ac_field c)))
      else match resolveAlterTableNewFields existing clauses with
           | inl e => inl e
           | inr fields => inr (ac_field c :: fields)
           end
  end.

Fixpoint resolveAlterTableDropNames (existing : schema) (clauses : list alterTableDropColumnClause)
    : execErr + list string :=
  match clauses with
  | [] => inr []
  | c :: clauses =>
      if has_column existing (dc_name c) then
        match resolveAlterTableDropNames existing clauses with
        | inl e => inl e
        | inr names => inr (dc_name c :: names)
        end
      else if dc_ifExists c then resolveAlterTableDropNames existing clauses
      else inl (ColumnMissing (dc_name c))
  end.

(** [renames] is the map, in the order its entries are visited. *)
Definition set_rename (old new : string) (renames : list (string * string)) : list (string * string) :=
  filter (λ p, p.1 ≠ old) renames ++ [(old, new)].

Fixpoint resolve_renames (existing : schema) (clauses : list alterTableRenameColumnClause)
    (renames : list (string * string)) : execErr + list (string * string) :=
  match clauses with
  | [] => inr renames
  | c :: clauses =>
      if has_column existing (rc_newName c) then inl (ColumnExists (rc_newName c))
      else if has_column existing (rc_oldName c) then
        resolve_renames existing clauses (set_rename (rc_oldName c) (rc_newName c) renames)
      else if rc_ifExists c then resolve_renames existing clauses renames
      else inl (ColumnMissing (rc_oldName c))
  end.
Definition resolveAlterTableRenames (existing : schema) (clauses : list alterTableRenameColumnClause) :=
  resolve_renames existing clauses [].

Definition check_clauses {A} (r : execErr + A) : X A := λ s, (s, match r with inl e => Err e | inr a => Ok a end).

(** ** Counting the rows a statement touched *)

(** [counts[key]] of the rows before, less the rows after. *)
Definition row_counts (before after : list row) : gmap string Z :=
  foldl (λ m r, <[json_marshal_strings r := default 0 (m !! json_marshal_strings r) - 1]> m)
    (foldl (λ m r, <[json_marshal_strings r := default 0 (m !! json_marshal_strings r) + 1]> m) ∅ before) after.

Definition storedRowMultisetDelta (before after : list row) : Z * Z :=
  foldl (λ '(removed, added) count,
           if 0 <? count then (removed + count, added)
           else if count <? 0 then (removed, added - count) else (removed, added)) (0, 0)
    (map_to_list (row_counts before after)).*2.

Definition effectiveDMLAffectedRows (statementType : string) (driverRows : Z) (before after : list row) : Z :=
  if 0 <? driverRows then driverRows
  else if bool_decide (statementType = "INSERT") then
    if (length before <? length after)%nat then Z.of_nat (length after - length before) else driverRows
  else if bool_decide (statementType ∈ ["DELETE"; "TRUNCATE_TABLE"]) then
    if (length after <? length before)%nat then Z.of_nat (length before - length after) else driverRows
  else if bool_decide (statementType = "MERGE") then
    let '(removed, added) := storedRowMultisetDelta before after in
    if added <? removed then removed else added
  else driverRows.

(** [rowsAffected] of what the driver reports, [None] for its error. *)
Definition rowsAffected (n : option Z) : Z :=
  match n with Some n => if n <? 0 then 0 else n | None => 0 end.

Class StatementEngine `{GoFloats} `{!QueryEngine} := {
  engine_db : Type;
  (** The leased database with these tables in it. *)
  engine_with : list resolvedTable → engine_db;
  (** [db.Exec]: the database afterwards and what [RowsAffected] reports. *)
  engine_exec : engine_db → string → list queryArg → option (engine_db * option Z);
  (** [SELECT *] of a table, scanned. *)
  engine_scan : engine_db → string → string → option (schema * list row);
}.

Section Execute.
Context `{TimestampParser} `{GoogleSqlParser} `{GoFloats} `{!QueryEngine} `{ExternalFiles} `{!StatementEngine}.
Variable now : Z.
Variable meanwhile : tableService → tableService.

Definition same_project (projectID : string) (target : tableReference) : X unit :=
  guard_ (negb (equal_fold (ref_ProjectID target) projectID)) (CrossProject target).

(** [s.tables.get] of the target; then other requests go on. *)
Definition snapshot (projectID : string) (target : tableReference) : X (option tableRecord) :=
  t ← on_tables (λ ts, tables_get ts projectID (ref_DatasetID target) (ref_TableID target) now);
  _ ← interfere meanwhile;
  mret t.

(** A parser's result as an executor's: [None] is not handled. *)
Definition execute {A} (r : recognised parseErr A) (k : A → X persistentSQLResult)
    : option (X persistentSQLResult) :=
  match r with
  | NotMine => None
  | Refused e => Some (throw (Unparsable e))
  | Mine st => Some (k st)
  end.

(** ** ALTER TABLE *)

Definition alter_table (projectID : string) (target : tableReference) (ifExists : bool)
    (action : tableRecord → X unit) : X persistentSQLResult :=
  _ ← same_project projectID target;
  t ← snapshot projectID target;
  match t with
  | None => if ifExists then mret (executed "ALTER_TABLE") else throw (TableMissing target)
  | Some t => _ ← action t; mret (executed "ALTER_TABLE")
  end.

Definition not_a_view (target : tableReference) (t : tableRecord) : X unit :=
  guard_ (bool_decide (is_Some (tr_View t))) (IsAView target).

Definition executePersistentAlterTableAddColumnsStatement (projectID queryText : string) :=
  execute (parsePersistentAlterTableAddColumns projectID queryText) (λ st,
    let target := aa_target st in
    alter_table projectID target (aa_ifExists st) (λ t,
      _ ← not_a_view target t;
      fields ← check_clauses (resolveAlterTableNewFields (tr_Schema t) (aa_clauses st));
      if (length fields =? 0)%nat then mret tt
      else commit (λ ts, addColumnsIfVersion ts projectID (ref_DatasetID target) (ref_TableID target)
                           (tr_Version t) fields now))).

Definition executePersistentAlterTableDropColumnsStatement (projectID queryText : string) :=
  execute (parsePersistentAlterTableDropColumns projectID queryText) (λ st,
    let target := ad_target st in
    alter_table projectID target (ad_ifExists st) (λ t,
      _ ← not_a_view target t;
      names ← check_clauses (resolveAlterTableDropNames (tr_Schema t) (ad_clauses st));
      if (length names =? 0)%nat then mret tt
      else commit (λ ts, dropColumnsIfVersion ts projectID (ref_DatasetID target) (ref_TableID target)
                           (tr_Version t) names now))).

Definition executePersistentAlterTableRenameColumnsStatement (projectID queryText : string) :=
  execute (parsePersistentAlterTableRenameColumns projectID queryText) (λ st,
    let target := ar_target st in
    alter_table projectID target (ar_ifExists st) (λ t,
      _ ← not_a_view target t;
      renames ← check_clauses (resolveAlterTableRenames (tr_Schema t) (ar_clauses st));
      if (length renames =? 0)%nat then mret tt
      else commit (λ ts, renameColumnsIfVersion ts projectID (ref_DatasetID target) (ref_TableID target)
                           (tr_Version t) renames now))).

Definition executePersistentAlterTableRenameToStatement (projectID queryText : string) :=
  execute (parsePersistentAlterTableRenameTo projectID queryText) (λ st,
    let target := at_target st in
    alter_table projectID target (at_ifExists st) (λ t,
      commit (λ ts, renameTableIfVersion ts projectID (ref_DatasetID target) (ref_TableID target)
                      (at_newTableID st) (tr_Version t) now))).

(** The options are accepted and ignored. *)
Definition executePersistentAlterTableSetOptionsStatement (projectID queryText : string) :=
  execute (parsePersistentAlterTableSetOptions projectID queryText) (λ st,
    alter_table projectID (as_target st) (as_ifExists st) (λ _, mret tt)).

Definition or_else {A} (a b : option A) : option A := match a with Some _ => a | None => b end.

Definition executePersistentAlterTableStatement (projectID queryText : string) : option (X persistentSQLResult) :=
  or_else (executePersistentAlterTableAddColumnsStatement projectID queryText)
  (or_else (executePersistentAlterTableDropColumnsStatement projectID queryText)
  (or_else (executePersistentAlterTableRenameColumnsStatement projectID queryText)
  (or_else (executePersistentAlterTableRenameToStatement projectID queryText)
    (executePersistentAlterTableSetOptionsStatement projectID queryText)))).

(** ** Views *)

Definition view_statement_type (st : persistentViewStatement) : string :=
  (if pv_drop st then "DROP_" else "CREATE_") +:+ (if pv_materialized st then "MATERIALIZED_VIEW" else "VIEW").

Definition in_transaction (sess : option sessionRecord) : bool :=
  match sess with Some rec => inTransaction rec | None => false end.

Definition bare_insert (p d id : string) (sch : schema) (rows : list row) (view : option viewConfig) : tableInsert :=
  TableInsert p d id "" "" ∅ sch rows None view None None [] false zero_time.

(** [s.tables.insert]: [false] is reported as a concurrent creation. *)
Definition create_table (input : tableInsert) : X unit := λ s,
  let '(ts, r) := tables_insert (srv_tables s) input now in
  (s <| srv_tables := ts |>, match r with Ok _ => Ok tt | Err _ => Err CreatedConcurrently | Panic => Panic end).

Definition executePersistentViewStatement (projectID queryText : string) (sess : option sessionRecord) :=
  execute (parsePersistentViewStatement projectID queryText) (λ st,
    let target := pv_target st in
    let '(d, id) := (ref_DatasetID target, ref_TableID target) in
    let ok := mret (executed (view_statement_type st)) in
    _ ← same_project projectID target;
    _ ← guard_ (in_transaction sess) InsideTransaction;
    existing ← snapshot projectID target;
    if pv_drop st then
      match existing with
      | None => if pv_ifExists st then ok else throw (TableMissing target)
      | Some t =>
          _ ← guard_ (bool_decide (tr_View t = None)) (NotAView target);
          _ ← commit (λ ts, deleteIfVersion ts projectID d id (tr_Version t) now);
          ok
      end
    else if bool_decide (is_Some existing) && pv_ifNotExists st then ok
    else
      _ ← guard_ (bool_decide (is_Some existing) && negb (pv_orReplace st)) (TableExists target);
      exists_ ← on_datasets (λ ds, datasets_exists ds projectID d);
      _ ← guard_ (negb exists_) (DatasetMissing d);
      '(derived, _, _) ← run_query InvalidViewQuery
        (executeRealSQLQueryWithParams now projectID (pv_selectBody st) None "" []);
      _ ← interfere meanwhile;
      _ ← match existing with
          | Some t => commit (λ ts, replaceViewIfVersion ts projectID d id (tr_Version t) derived
                                      (pv_selectBody st) (pv_materialized st) now)
          | None => create_table (bare_insert projectID d id derived []
                                    (Some (ViewConfig (pv_selectBody st) (pv_materialized st))))
          end;
      ok).

(** ** CREATE SCHEMA *)

Definition executePersistentCreateSchemaStatement (projectID queryText : string) : option (X persistentSQLResult) :=
  '(d, ifNotExists) ← parseCreateSchemaStatement queryText;
  Some (exists_ ← on_datasets (λ ds, datasets_exists ds projectID d);
        if exists_ : bool then
          if ifNotExists : bool then mret (executed "CREATE_SCHEMA") else throw (DatasetExists d)
        else
          created ← on_datasets (λ ds, datasets_insert ds (DatasetRecord projectID d "" "" ∅ 0));
          match created with
          | None => throw CreatedConcurrently
          | Some _ => mret (executed "CREATE_SCHEMA")
          end).

(** ** DML, CREATE TABLE and DROP TABLE *)

(** Whether the pseudocolumns of an engine row hold an instant. *)
Definition carries_partition (timeIndex dateIndex : option nat) (r : row) : bool :=
  let read (index : option nat) : option string :=
    i ← index; cell ← r !! i;
    let '(decoded, isNull) := loadStoredCell cell in
    if isNull then None else Some (trim_char quote_char decoded) in
  bool_decide (is_Some (v ← read timeIndex; parsePartitionTimestamp v)) ||
  bool_decide (is_Some (v ← read dateIndex; parse_date v)).

(** Without a configuration the partition of such a row is taken from a nil
    pointer. *)
Definition partitions_from_engine (config : option timePartitioningConfig) (sch : schema) (rows : list row)
    : res Empty_set (schema * list row * list string) :=
  match config with
  | Some c => partitionIDsFromEngineRows sch rows c now
  | None =>
      let timeIndex := last_index_from 0 ingestionPartitionTimeColumn sch in
      let dateIndex := last_index_from 0 ingestionPartitionDateColumn sch in
      match timeIndex, dateIndex with
      | None, None => Ok (sch, rows, [])
      | _, _ =>
          if (length sch <? 2)%nat || existsb (carries_partition timeIndex dateIndex) rows then Panic
          else Ok (drop_columns 0 timeIndex dateIndex sch, drop_columns 0 timeIndex dateIndex <$> rows,
                   (λ _, "") <$> rows)
      end
  end.

Definition readEngineTable (db : engine_db) (d id : string) (config : option timePartitioningConfig)
    : X (schema * list row * list string) := λ s,
  (s, match engine_scan db d id with
      | None => Err EngineFailed
      | Some (sch, rows) =>
          match partitions_from_engine config sch rows with Ok a => Ok a | Err _ => Err EngineFailed | Panic => Panic end
      end).

Definition engine_step {A} (r : option A) : X A := λ s, (s, match r with Some a => Ok a | None => Err EngineFailed end).

(** The engine's run of the statement; [counter] is the merge counter's next value. *)
Definition run_statement (projectID queryText : string) (st : persistentSQLStatement) (existing : option tableRecord)
    (args : list queryArg) (counter : Z) (db : engine_db) : X (engine_db * Z) :=
  let statement := stripProjectPrefix (strip_semicolon queryText) projectID in
  let by_ingestion := match existing with Some t => ps_dml st && ingestion_time t | None => false end in
  _ ← guard_ (by_ingestion && writes_pseudocolumns statement) ReadOnlyPseudocolumns;
  let statement := match existing with
                   | Some t => if by_ingestion then addImplicitInsertColumns statement (tr_Schema t) else statement
                   | None => statement
                   end in
  let statement := rewriteIngestionPseudocolumns statement in
  '(statement, db) ←
    (if bool_decide (ps_statementType st = "MERGE") then
       match rewriteMergeUsingSubquery (ref_DatasetID (ps_target st)) statement counter with
       | (rewritten, Some (create, _)) =>
           '(db, _) ← engine_step (engine_exec db create []); mret (rewritten, db)
       | (_, None) => mret (statement, db)
       end
     else mret (statement, db));
  '(db, affected) ← engine_step (engine_exec db statement args);
  mret (db, rowsAffected affected).

Definition validate_rows (sch : schema) (rows : list row) : X unit := λ s,
  (s, match validateStoredRows sch rows with Some e => Err (RowsRejected e) | None => Ok tt end).

(** The new image goes into the catalog. *)
Definition commit_image (projectID : string) (st : persistentSQLStatement) (existing : option tableRecord)
    (sch : schema) (rows : list row) (partitions : list string) : X unit :=
  let '(d, id) := (ref_DatasetID (ps_target st), ref_TableID (ps_target st)) in
  match existing with
  | Some t =>
      if ps_dml st then
        _ ← validate_rows (tr_Schema t) rows;
        _ ← guard_ (negb (length sch =? length (tr_Schema t))%nat) SchemaChanged;
        commit (λ ts, replaceRowsIfVersion ts projectID d id (tr_Version t) rows partitions now)
      else commit (λ ts, replaceTableIfVersion ts projectID d id (tr_Version t) sch rows now)
  | None =>
      _ ← validate_rows sch rows;
      create_table (bare_insert projectID d id sch rows None)
  end.

Definition executePersistentSQLStatement (projectID queryText : string) (sess : option sessionRecord)
    (paramMode : string) (params : list storedQueryParameter) (counter : Z) :=
  execute (parsePersistentSQLStatement projectID queryText) (λ st,
    let target := ps_target st in
    let '(d, id) := (ref_DatasetID target, ref_TableID target) in
    let ok := mret (executed (ps_statementType st)) in
    _ ← same_project projectID target;
    _ ← guard_ (equal_fold d sessionDatasetName) TargetsSession;
    _ ← guard_ (in_transaction sess) InsideTransaction;
    exists_ ← on_datasets (λ ds, datasets_exists ds projectID d);
    _ ← guard_ (negb exists_) (DatasetMissing d);
    existing ← snapshot projectID target;
    if ps_drop st then
      match existing with
      | None => if ps_ifExists st then ok else throw (TableMissing target)
      | Some t =>
          _ ← not_a_view target t;
          _ ← commit (λ ts, deleteIfVersion ts projectID d id (tr_Version t) now);
          ok
      end
    else if ps_create st && bool_decide (is_Some existing) && ps_ifNotExists st then ok
    else
      _ ← guard_ (ps_create st && bool_decide (is_Some existing) && negb (ps_orReplace st)) (TableExists target);
      _ ← (if ps_dml st then
             match existing with
             | None => throw (TableMissing target)
             | Some t =>
                 _ ← not_a_view target t;
                 guard_ (bool_decide (is_Some (tr_External t))) (IsExternal target)
             end
           else mret tt);
      '(resolved, processedBytes) ← run_query QueryFailed (λ ts,
        openMaterializedSQLDatabase now (resolveTableRowsVisiting now (S (size (views ts projectID))))
          projectID queryText ∅ sess [DatasetTableRef d id] false ts);
      args ← check_clauses (match buildQueryArgs paramMode params with
                            | inl e => inl (QueryFailed (InvalidParameters e)) | inr a => inr a end);
      '(db, driverRows) ← run_statement projectID queryText st existing args counter (engine_with resolved);
      '(sch, rows, partitions) ← readEngineTable db d id (t ← existing; tr_TimePartitioning t);
      let affectedRows := match existing with
                          | Some t => if ps_dml st then effectiveDMLAffectedRows (ps_statementType st) driverRows (tr_Rows t) rows
                                      else driverRows
                          | None => driverRows
                          end in
      _ ← interfere meanwhile;
      _ ← commit_image projectID st existing sch rows partitions;
      mret (PersistentSQLResult [] [] (ps_statementType st) affectedRows processedBytes)).
End Execute.
