(* ===== verification/TableRest.v ===== *)
(** * The REST resource of a table (bigquery.go, table_partitioning.go)

    [tables.insert], [get], [patch], [update] and [delete]: the request body is
    decoded field by field, checked against the table as it is, and applied.
    [patch] and [update] read the table and write it in two sections under the
    catalog's lock; [meanwhile] is what other requests do to the tables in
    between.  A body is the decoded JSON object, [None] when decoding failed.
    Schema detection from external files is a parameter ([SchemaDetector]). *)

From S2P Require Import Prelude GoStrings Regexp SqlPatterns GoTime GoJson GoFloat Pagination Cells TableModel SqlStatements Partitioning Pruning TableStore Datasets Sessions EnginePool SqlText StorageWrite Jobs QueryParams SqlResolve SqlExec.
From Stdlib Require Import Ascii.

Abbreviation object := (list (string * json)).

Inductive restErr :=
| InvalidBody | TableIDRequired | TableReferenceNotObject | TableIDMismatch
| NotAString (field : string) | LabelsNotObject | LabelNotString
| SourceURIsRequired | SourceFormatRequired | SchemaRequired | AutodetectFailed
| BothViews | ExternalView | ViewQueryRequired | BadViewQuery (e : queryErr)
| TimeNotObject | TimeTypeInvalid | TimeExpirationInvalid | TimeFieldInvalid | TimeFieldMissing
| TimeFieldType | TimeFieldRepeated | HourNeedsTimestamp | ReservedField (name : string)
| RangeNotObject | RangeFieldRequired | RangeFieldMissing | RangeFieldType | RangeRequired
| RangeNotIntegers | RangeEmpty | RangeIntervalInvalid
| ClusteringNotObject | ClusteringNotArray | ClusteringTooMany | ClusteringNotString | ClusteringMissing
| ClusteringType | ClusteringDuplicate
| RequireFilterNotBool | OnlyManagedTables | BadCombination (e : combinationErr) | BadRows (e : partitionErr)
| ExpirationNotNumber | TimeImmutable | RangeImmutable | NothingToPatch
| ColumnRemoved | ColumnRenamed (i : nat) | ColumnRetyped (i : nat) | ModeTightened (i : nat) | NewColumnMode (i : nat)
| AlreadyExists | TableNotFound_.

Abbreviation D := (res restErr).

Definition require {A} (o : option A) (e : restErr) : D A := match o with Some a => Ok a | None => Err e end.
Definition refuse_if (b : bool) (e : restErr) : D unit := if b then Err e else Ok tt.

(** ** Decoding *)

Definition string_field (raw : object) (key : string) : D (option string) :=
  match obj_lookup raw key with
  | None => Ok None
  | Some (JStr s) => Ok (Some s)
  | Some _ => Err (NotAString key)
  end.

(** The map an object decodes to. *)
Definition object_map (ms : object) : gmap string json := list_to_map (reverse ms).
Definition is_string (v : json) : bool := match v with JStr _ => true | _ => false end.

Definition parseLabelsPatchValue (v : json) : D (gmap string string) :=
  match v with
  | JNull => Ok ∅
  | JObj ms =>
      let m := object_map ms in
      _ ← refuse_if (negb (forallb (λ kv, is_string kv.2) (map_to_list m))) LabelNotString;
      Ok (as_string <$> m)
  | _ => Err LabelsNotObject
  end.
Definition labels_field (raw : object) : D (option (gmap string string)) :=
  match obj_lookup raw "labels" with None => Ok None | Some v => labels ← parseLabelsPatchValue v; Ok (Some labels) end.

Definition parseFlexibleInt64FromAny (v : json) : option Z :=
  match v with
  | JNull => Some 0
  | JStr s => parse_int (trim_space s)
  | JNum lit => float_to_int64 <$> float_of_literal lit
  | _ => None
  end.

(** [time.UnixMilli]; a value that is not positive clears the expiration. *)
Definition parseExpirationTimeField (v : json) : option Z :=
  ms ← parseFlexibleInt64FromAny v;
  Some (if ms <=? 0 then zero_time else ms * millisecond).
Definition expiration_field (raw : object) : D (option Z) :=
  match obj_lookup raw "expirationTime" with
  | None => Ok None
  | Some v => t ← require (parseExpirationTimeField v) ExpirationNotNumber; Ok (Some t)
  end.

Definition bool_field (raw : object) (key : string) (e : restErr) : D (option bool) :=
  match obj_lookup raw key with
  | None => Ok None
  | Some (JBool b) => Ok (Some b)
  | Some _ => Err e
  end.

Definition extractStringList (v : json) : list string :=
  match v with
  | JArr l => filter (.≠ "") (omap (λ raw, match raw with JStr s => Some (trim_space s) | _ => None end) l)
  | _ => []
  end.

(** One field of a schema; [nested] are the fields its own [fields] member holds. *)
Definition parse_field (ms : object) (nested : option (list tableField)) : option tableField :=
  let name := trim_space (as_string (obj_get ms "name")) in
  if bool_decide (name = "") then None
  else
    let typ := to_upper (trim_space (as_string (obj_get ms "type"))) in
    let typ := if bool_decide (typ = "") then "STRING" else typ in
    let mode := to_upper (trim_space (as_string (obj_get ms "mode"))) in
    Some (TableField name typ mode (if isRecordType typ then default [] nested else [])).

Definition last_member {A} (l : list (string * A)) (key : string) : option A :=
  snd <$> List.find (λ p, String.eqb p.1 key) (reverse l).

Fixpoint parseTableSchemaFieldList (v : json) : option (list tableField) :=
  match v with
  | JArr rawFields =>
      Some (omap (λ raw,
        match raw with
        | JObj ms =>
            parse_field ms (last_member (map (λ m, (m.1, parseTableSchemaFieldList m.2)) ms) "fields" ≫= id)
        | _ => None
        end) rawFields)
  | _ => None
  end.

Definition parseTableSchemaFields (v : json) : schema :=
  match v with
  | JObj obj => default [] (parseTableSchemaFieldList (obj_get obj "fields"))
  | _ => []
  end.

Definition parseExternalDataConfig (raw : object) : externalTableConfig :=
  let skip := match parseFlexibleInt64FromAny (obj_get raw "skipLeadingRows") with
              | Some z => if 0 <=? z then z else 0 | None => 0 end in
  ExternalConfig (extractStringList (obj_get raw "sourceUris"))
    (trim_space (as_string (obj_get raw "sourceFormat"))) (as_string (obj_get raw "fieldDelimiter"))
    skip (match obj_get raw "autodetect" with JBool b => b | _ => false end).

(** ** Partitioning and clustering *)

Definition parseExactInt64 (v : json) : option Z :=
  match v with
  | JStr s => parse_int (trim_space s)
  | JNum lit => f ← float_of_literal lit; z ← float_integer f; if in_i64b z then Some z else None
  | _ => None
  end.

Definition partition_types : list string := ["DAY"; "HOUR"; "MONTH"; "YEAR"].
Definition reserved_names : list string :=
  ["_PARTITIONTIME"; "_PARTITIONDATE"; ingestionPartitionTimeColumn; ingestionPartitionDateColumn].
Definition max_expiration : Z := 9223372036854.

Definition time_field (sch : schema) (partitionType : string) (rawField : option json) : D string :=
  match rawField with
  | Some v =>
      match v with
      | JStr fieldName =>
          _ ← refuse_if (bool_decide (trim_space fieldName = "")) TimeFieldInvalid;
          '(field, _) ← require (findTopLevelField sch fieldName) TimeFieldMissing;
          let fieldType := to_upper (trim_space (Type_ field)) in
          _ ← refuse_if (negb (bool_decide (fieldType ∈ ["DATE"; "TIMESTAMP"]))) TimeFieldType;
          _ ← refuse_if (bool_decide (normalizeMode (Mode field) = "REPEATED")) TimeFieldRepeated;
          _ ← refuse_if (bool_decide (fieldType = "DATE") && bool_decide (partitionType = "HOUR")) HourNeedsTimestamp;
          Ok (Name field)
      | _ => Err TimeFieldInvalid
      end
  | None =>
      match List.find (λ r, bool_decide (is_Some (findTopLevelField sch r))) reserved_names with
      | Some r => Err (ReservedField r)
      | None => Ok ""
      end
  end.

Definition parseTimePartitioning (v : json) (sch : schema) : D timePartitioningConfig :=
  match v with
  | JObj obj =>
      partitionType ← match obj_lookup obj "type" with
                      | None => Ok "DAY"
                      | Some (JStr s) => Ok (to_upper (trim_space s))
                      | Some _ => Err TimeTypeInvalid
                      end;
      _ ← refuse_if (negb (bool_decide (partitionType ∈ partition_types))) TimeTypeInvalid;
      expiration ← match obj_lookup obj "expirationMs" with
                   | None | Some JNull => Ok 0
                   | Some v =>
                       e ← require (parseExactInt64 v) TimeExpirationInvalid;
                       _ ← refuse_if ((e <=? 0) || (max_expiration <? e)) TimeExpirationInvalid;
                       Ok e
                   end;
      field ← time_field sch partitionType (obj_lookup obj "field");
      Ok (TimePartitioning partitionType field expiration)
  | _ => Err TimeNotObject
  end.

Definition parseRangePartitioning (v : json) (sch : schema) : D rangePartitioningConfig :=
  match v with
  | JObj obj =>
      rawField ← match obj_get obj "field" with
                 | JStr s => if bool_decide (trim_space s = "") then Err RangeFieldRequired else Ok s
                 | _ => Err RangeFieldRequired
                 end;
      '(field, _) ← require (findTopLevelField sch rawField) RangeFieldMissing;
      _ ← refuse_if (negb (equal_fold (Type_ field) "INT64") || bool_decide (normalizeMode (Mode field) = "REPEATED"))
            RangeFieldType;
      range ← match obj_get obj "range" with JObj r => Ok r | _ => Err RangeRequired end;
      start ← require (parseExactInt64 (obj_get range "start")) RangeNotIntegers;
      end_ ← require (parseExactInt64 (obj_get range "end")) RangeNotIntegers;
      interval ← require (parseExactInt64 (obj_get range "interval")) RangeNotIntegers;
      _ ← refuse_if (end_ <=? start) RangeEmpty;
      _ ← refuse_if (interval <=? 0) RangeIntervalInvalid;
      Ok (RangePartitioning (Name field) start end_ interval)
  | _ => Err RangeNotObject
  end.

Fixpoint clustering_fields (sch : schema) (seen : list string) (rawFields : list json) : D (list string) :=
  match rawFields with
  | [] => Ok []
  | raw :: rawFields =>
      name ← match raw with
             | JStr s => if bool_decide (trim_space s = "") then Err ClusteringNotString else Ok s
             | _ => Err ClusteringNotString
             end;
      '(field, _) ← require (findTopLevelField sch name) ClusteringMissing;
      _ ← refuse_if (bool_decide (normalizeMode (Mode field) = "REPEATED") || isRecordType (Type_ field)) ClusteringType;
      let key := to_lower (Name field) in
      _ ← refuse_if (bool_decide (key ∈ seen)) ClusteringDuplicate;
      rest ← clustering_fields sch (key :: seen) rawFields;
      Ok (Name field :: rest)
  end.

Definition parseClustering (v : json) (sch : schema) : D (list string) :=
  match v with
  | JNull => Ok []
  | JObj obj =>
      match obj_get obj "fields" with
      | JArr rawFields =>
          _ ← refuse_if (4 <? length rawFields)%nat ClusteringTooMany;
          clustering_fields sch [] rawFields
      | _ => Err ClusteringNotArray
      end
  | _ => Err ClusteringNotObject
  end.

(** ** Schema evolution *)

Fixpoint evolve_fields (i : nat) (oldSchema newSchema : schema) : D unit :=
  match oldSchema, newSchema with
  | oldField :: oldSchema, newField :: newSchema =>
      _ ← refuse_if (negb (equal_fold (Name oldField) (Name newField))) (ColumnRenamed i);
      _ ← refuse_if (negb (equal_fold (Type_ oldField) (Type_ newField))) (ColumnRetyped i);
      let oldMode := normalizeMode (Mode oldField) in
      let newMode := normalizeMode (Mode newField) in
      _ ← refuse_if (negb (bool_decide (oldMode = newMode)) &&
                     negb (bool_decide (oldMode = "REQUIRED") && bool_decide (newMode = "NULLABLE"))) (ModeTightened i);
      evolve_fields (S i) oldSchema newSchema
  | [], newField :: newSchema =>
      _ ← refuse_if (negb (bool_decide (normalizeMode (Mode newField) = "NULLABLE"))) (NewColumnMode i);
      evolve_fields (S i) [] newSchema
  | _, [] => Ok tt
  end.
Definition validateSchemaEvolution (oldSchema newSchema : schema) : D unit :=
  _ ← refuse_if (length newSchema <? length oldSchema)%nat ColumnRemoved;
  evolve_fields 0 oldSchema newSchema.

(** ** Rendering *)

Definition restFieldTypeName (t : string) : string :=
  let u := to_upper (trim_space t) in
  if bool_decide (u = "INT64") then "INTEGER"
  else if bool_decide (u = "FLOAT64") then "FLOAT"
  else if bool_decide (u = "BOOL") then "BOOLEAN"
  else if bool_decide (u = "STRUCT") then "RECORD"
  else t.

Fixpoint render_field (field : tableField) : json :=
  JObj ([("name", JStr (Name field)); ("type", JStr (restFieldTypeName (Type_ field)));
         ("mode", JStr (normalizeMode (Mode field)))] ++
        if isRecordType (Type_ field) && (0 <? length (Fields field))%nat
        then [("fields", JArr (map render_field (Fields field)))] else []).
Definition renderTableSchemaFields (fields : schema) : json := JArr (map render_field fields).

Definition when {A} (b : bool) (l : list A) : list A := if b then l else [].

Definition render_time_partitioning (c : timePartitioningConfig) : json :=
  JObj ([("type", JStr (tpc_Type c))] ++
        when (negb (bool_decide (tpc_Field c = ""))) [("field", JStr (tpc_Field c))] ++
        when (0 <? tpc_ExpirationMs c) [("expirationMs", JStr (format_int (tpc_ExpirationMs c)))]).
Definition render_range_partitioning (c : rangePartitioningConfig) : json :=
  JObj [("field", JStr (rpc_Field c));
        ("range", JObj [("start", JStr (format_int (rpc_Start c))); ("end", JStr (format_int (rpc_End c)));
                        ("interval", JStr (format_int (rpc_Interval c)))])].
Definition render_clustering (fields : list string) : json := JObj [("fields", JArr (JStr <$> fields))].
Definition render_external (e : externalTableConfig) : json :=
  JObj ([("sourceUris", JArr (JStr <$> ext_SourceURIs e)); ("sourceFormat", JStr (ext_SourceFormat e))] ++
        when (negb (bool_decide (ext_FieldDelimiter e = ""))) [("fieldDelimiter", JStr (ext_FieldDelimiter e))] ++
        when (0 <? ext_SkipLeadingRows e) [("skipLeadingRows", JNum (format_int (ext_SkipLeadingRows e)))] ++
        when (ext_Autodetect e) [("autodetect", JBool true)]).

Definition renderTableResource (t : tableRecord) : object :=
  [("kind", JStr "bigquery#table");
   ("id", JStr (tr_ProjectID t +:+ ":" +:+ tr_DatasetID t +:+ "." +:+ tr_TableID t));
   ("tableReference", JObj [("projectId", JStr (tr_ProjectID t)); ("datasetId", JStr (tr_DatasetID t));
                            ("tableId", JStr (tr_TableID t))]);
   ("etag", JStr (String "034" ("v" +:+ format_int (tr_Version t) +:+ String "034" "")));
   ("creationTime", JStr (format_int (unix_milli (tr_CreatedAt t))));
   ("lastModifiedTime", JStr (format_int (unix_milli (tr_UpdatedAt t))));
   ("schema", JObj [("fields", renderTableSchemaFields (tr_Schema t))])] ++
  when (is_native t)
    [("numRows", JStr (format_int (Z.of_nat (length (tr_Rows t)))));
     ("numBytes", JStr (format_int (estimateRowsByteSize (tr_Rows t))))] ++
  when (negb (bool_decide (tr_FriendlyName t = ""))) [("friendlyName", JStr (tr_FriendlyName t))] ++
  when (negb (bool_decide (tr_Description t = ""))) [("description", JStr (tr_Description t))] ++
  when (negb (bool_decide (tr_Labels t = ∅))) [("labels", JObj (prod_map id JStr <$> map_to_list (tr_Labels t)))] ++
  when (negb (is_zero_time (tr_ExpirationTime t)))
    [("expirationTime", JStr (format_int (unix_milli (tr_ExpirationTime t))))] ++
  match tr_TimePartitioning t with Some c => [("timePartitioning", render_time_partitioning c)] | None => [] end ++
  match tr_RangePartitioning t with Some c => [("rangePartitioning", render_range_partitioning c)] | None => [] end ++
  when (0 <? length (tr_Clustering t))%nat [("clustering", render_clustering (tr_Clustering t))] ++
  when (tr_RequirePartitionFilter t) [("requirePartitionFilter", JBool true)] ++
  match tr_External t, tr_View t with
  | Some e, _ => [("type", JStr "EXTERNAL"); ("externalDataConfiguration", render_external e)]
  | None, Some v =>
      if view_Materialized v
      then [("type", JStr "MATERIALIZED_VIEW"); ("materializedView", JObj [("query", JStr (view_Query v))])]
      else [("type", JStr "VIEW"); ("view", JObj [("query", JStr (view_Query v))])]
  | None, None => [("type", JStr "TABLE")]
  end.

(** ** Handlers *)

(** A handler over the server's state; its error becomes the HTTP status. *)
Definition H (A : Type) : Type := server → server * D A.
#[export] Instance H_ret : MRet H := λ A a s, (s, Ok a).
#[export] Instance H_bind : MBind H := λ A B f m s,
  match m s with
  | (s, Ok a) => f a s
  | (s, Err e) => (s, Err e)
  | (s, Panic) => (s, Panic)
  end.
Definition decode {A} (d : D A) : H A := λ s, (s, d).
Definition with_tables {A} (f : tableService → tableService * A) : H A := λ s,
  let '(ts, a) := f (srv_tables s) in (s <| srv_tables := ts |>, Ok a).
Definition with_datasets {A} (f : datasetService → datasetService * A) : H A := λ s,
  let '(ds, a) := f (srv_datasets s) in (s <| srv_datasets := ds |>, Ok a).
Definition others (f : tableService → tableService) : H unit := λ s, (s <| srv_tables ::= f |>, Ok tt).

Definition http_status (e : restErr) : Z :=
  match e with AlreadyExists => 409 | TableNotFound_ => 404 | _ => 400 end.

Class SchemaDetector := detectExternalTableSchema : externalTableConfig → option (schema * Z).

Section Handlers.
Context `{TimestampParser} `{GoogleSqlParser} `{GoFloats} `{!QueryEngine} `{ExternalFiles} `{SchemaDetector}.
Variable now : Z.
Variable meanwhile : tableService → tableService.

Definition object_field (raw : object) (key : string) : option object :=
  match obj_get raw key with JObj ms => Some ms | _ => None end.

Definition external_table (raw : object) : D (option (externalTableConfig * schema)) :=
  match object_field raw "externalDataConfiguration" with
  | None => Ok None
  | Some rawExternal =>
      let parsed := parseExternalDataConfig rawExternal in
      _ ← refuse_if (bool_decide (ext_SourceURIs parsed = [])) SourceURIsRequired;
      _ ← refuse_if (bool_decide (ext_SourceFormat parsed = "")) SourceFormatRequired;
      let sch := parseTableSchemaFields (obj_get raw "schema") in
      if (0 <? length sch)%nat then Ok (Some (parsed, sch))
      else
        _ ← refuse_if (negb (ext_Autodetect parsed)) SchemaRequired;
        '(detected, skip) ← require (detectExternalTableSchema parsed) AutodetectFailed;
        Ok (Some (ExternalConfig (ext_SourceURIs parsed) (ext_SourceFormat parsed) (ext_FieldDelimiter parsed) skip
                    (ext_Autodetect parsed), detected))
  end.

(** The view a body defines, with the query that gives it its schema. *)
Definition view_config (raw : object) (is_external : bool) : D (option viewConfig) :=
  let define target materialized :=
    _ ← refuse_if is_external ExternalView;
    let query := trim_space (as_string (obj_get target "query")) in
    _ ← refuse_if (bool_decide (query = "")) ViewQueryRequired;
    Ok (Some (ViewConfig query materialized)) in
  match object_field raw "view", object_field raw "materializedView" with
  | Some _, Some _ => Err BothViews
  | Some target, None => define target false
  | None, Some target => define target true
  | None, None => Ok None
  end.

Definition executeRealSQLQuery (projectID query : string) : H schema := λ s,
  let '(ts, r) := executeRealSQLQueryWithParams now projectID query None "" [] (srv_tables s) in
  (s <| srv_tables := ts |>, match r with inr (sch, _, _) => Ok sch | inl e => Err (BadViewQuery e) end).

Definition optional {A} (raw : object) (key : string) (parse : json → D A) : D (option A) :=
  match obj_lookup raw key with None => Ok None | Some v => a ← parse v; Ok (Some a) end.

Definition check_combination (tc : option timePartitioningConfig) (rc : option rangePartitioningConfig)
    (requireFilter : bool) : D unit :=
  match validatePartitioningCombination tc rc requireFilter with Some e => Err (BadCombination e) | None => Ok tt end.

(** The partitioning and clustering of a new table. *)
Definition storage_options (raw : object) (sch : schema) (managed : bool)
    : D (option timePartitioningConfig * option rangePartitioningConfig * list string * bool) :=
  tc ← optional raw "timePartitioning" (λ v, parseTimePartitioning v sch);
  rc ← optional raw "rangePartitioning" (λ v, parseRangePartitioning v sch);
  clustering ← optional raw "clustering" (λ v, parseClustering v sch);
  let clustering := default [] clustering in
  requireFilter ← bool_field raw "requirePartitionFilter" RequireFilterNotBool;
  let requireFilter := default false requireFilter in
  _ ← refuse_if (negb managed && (bool_decide (is_Some tc) || bool_decide (is_Some rc) ||
                                   (0 <? length clustering)%nat || requireFilter)) OnlyManagedTables;
  _ ← check_combination tc rc requireFilter;
  Ok (tc, rc, clustering, requireFilter).

(** A view's schema is that of its query, which is run once. *)
Definition table_schema (projectID : string) (raw : object) (view : option viewConfig)
    (external : option (externalTableConfig * schema)) : H schema :=
  match view, external with
  | Some v, _ => executeRealSQLQuery projectID (view_Query v)
  | None, Some (_, sch) => mret sch
  | None, None => mret (parseTableSchemaFields (obj_get raw "schema"))
  end.

(** An explicit expiration, or the dataset's default from now on. *)
Definition table_expiration (projectID datasetID : string) (raw : object) : H Z :=
  match obj_lookup raw "expirationTime" with
  | Some v => decode (require (parseExpirationTimeField v) ExpirationNotNumber)
  | None =>
      ds ← with_datasets (λ ds, datasets_get ds projectID datasetID);
      mret (match ds with
            | Some rec => if 0 <? ds_DefaultTableExpirationMs rec
                          then now + i64_mul (ds_DefaultTableExpirationMs rec) millisecond else zero_time
            | None => zero_time
            end)
  end.

Definition insertTable (projectID datasetID : string) (body : option object) : H tableRecord :=
  raw ← decode (require body InvalidBody);
  ref ← decode (require (object_field raw "tableReference") TableIDRequired);
  let tableID := trim_space (as_string (obj_get ref "tableId")) in
  _ ← decode (refuse_if (bool_decide (tableID = "")) TableIDRequired);
  friendlyName ← decode (string_field raw "friendlyName");
  description ← decode (string_field raw "description");
  labels ← decode (labels_field raw);
  external ← decode (external_table raw);
  view ← decode (view_config raw (bool_decide (is_Some external)));
  sch ← table_schema projectID raw view external;
  '(tc, rc, clustering, requireFilter) ←
    decode (storage_options raw sch (bool_decide (external = None) && bool_decide (view = None)));
  expirationTime ← table_expiration projectID datasetID raw;
  created ← with_tables (λ ts, tables_insert ts (TableInsert projectID datasetID tableID (default "" friendlyName)
              (default "" description) (default ∅ labels) sch [] (fst <$> external) view tc rc clustering
              requireFilter expirationTime) now);
  decode (match created with Ok t => Ok t | Err _ => Err AlreadyExists | Panic => Panic end).

(** A table of the catalog; the virtual tables of query results are not part of it. *)
Definition getTable (projectID datasetID tableID : string) : H tableRecord :=
  t ← with_tables (λ ts, tables_get ts projectID datasetID tableID now);
  decode (require t TableNotFound_).

(** ** Patch *)

Definition patched_time (raw : object) (current : tableRecord) (sch : schema) : D (option timePartitioningConfig) :=
  parsed ← optional raw "timePartitioning" (λ v, parseTimePartitioning v sch);
  match parsed with
  | None => Ok None
  | Some c =>
      _ ← refuse_if (bool_decide (tr_TimePartitioning current = None) ||
                     negb (sameTimePartitioningDefinition (tr_TimePartitioning current) (Some c))) TimeImmutable;
      Ok (Some c)
  end.
Definition patched_range (raw : object) (current : tableRecord) (sch : schema) : D (option rangePartitioningConfig) :=
  parsed ← optional raw "rangePartitioning" (λ v, parseRangePartitioning v sch);
  match parsed with
  | None => Ok None
  | Some c =>
      _ ← refuse_if (bool_decide (tr_RangePartitioning current = None) ||
                     negb (sameRangePartitioning (tr_RangePartitioning current) (Some c))) RangeImmutable;
      Ok (Some c)
  end.

Definition check_rows (sch : schema) (rows : list row) (tc : option timePartitioningConfig)
    (rc : option rangePartitioningConfig) : D unit :=
  match validateRowsForPartitioning sch rows tc rc with Ok _ => Ok tt | Err e => Err (BadRows e) | Panic => Panic end.

Definition given {A} (o : option A) : bool := bool_decide (is_Some o).
Definition or_current {A} (o : option A) (current : option A) : option A :=
  match o with Some _ => o | None => current end.

(** The patch a body asks for, checked against the table it was written for. *)
Definition table_patch (projectID datasetID tableID : string) (raw : object) (current : tableRecord) : D tablePatch :=
  friendlyName ← string_field raw "friendlyName";
  description ← string_field raw "description";
  labels ← labels_field raw;
  expirationTime ← expiration_field raw;
  newSchema ← optional raw "schema" (λ v,
    let sch := parseTableSchemaFields v in _ ← validateSchemaEvolution (tr_Schema current) sch; Ok sch);
  let sch := default (tr_Schema current) newSchema in
  tc ← patched_time raw current sch;
  rc ← patched_range raw current sch;
  clustering ← optional raw "clustering" (λ v, parseClustering v sch);
  requireFilter ← bool_field raw "requirePartitionFilter" RequireFilterNotBool;
  let tc' := or_current tc (tr_TimePartitioning current) in
  let rc' := or_current rc (tr_RangePartitioning current) in
  _ ← refuse_if (negb (is_native current) && (given tc || given rc || given clustering || given requireFilter))
        OnlyManagedTables;
  _ ← check_combination tc' rc' (default (tr_RequirePartitionFilter current) requireFilter);
  _ ← check_rows sch (tr_Rows current) tc' rc';
  _ ← refuse_if (negb (given friendlyName || given description || given labels || given expirationTime ||
                       given newSchema || given tc || given rc || given clustering || given requireFilter)) NothingToPatch;
  Ok (TablePatch projectID datasetID tableID friendlyName description labels expirationTime newSchema
        (Some <$> tc) (Some <$> rc) clustering requireFilter).

Definition patchTable (projectID datasetID tableID : string) (body : option object) : H tableRecord :=
  raw ← decode (require body InvalidBody);
  current ← getTable projectID datasetID tableID;
  patch ← decode (table_patch projectID datasetID tableID raw current);
  _ ← others meanwhile;
  t ← with_tables (λ ts, tables_patch ts patch now);
  decode (require t TableNotFound_).

(** ** Update *)

Definition present (raw : object) (key : string) : bool :=
  match obj_get raw key with JNull => false | _ => true end.

Definition check_reference (raw : object) (tableID : string) : D unit :=
  match obj_lookup raw "tableReference" with
  | None => Ok tt
  | Some (JObj ref) =>
      let id := trim_space (as_string (obj_get ref "tableId")) in
      refuse_if (negb (bool_decide (id = "")) && negb (bool_decide (id = tableID))) TableIDMismatch
  | Some _ => Err TableReferenceNotObject
  end.

Definition table_update (projectID datasetID tableID : string) (raw : object) (current : tableRecord) : D tableUpdate :=
  _ ← check_reference raw tableID;
  friendlyName ← string_field raw "friendlyName";
  description ← string_field raw "description";
  labels ← labels_field raw;
  expirationTime ← expiration_field raw;
  tc ← patched_time raw current (tr_Schema current);
  rc ← patched_range raw current (tr_Schema current);
  clustering ← optional raw "clustering" (λ v, parseClustering v (tr_Schema current));
  requireFilter ← bool_field raw "requirePartitionFilter" RequireFilterNotBool;
  let requireFilter := default false requireFilter in
  let tc := or_current tc (tr_TimePartitioning current) in
  let rc := or_current rc (tr_RangePartitioning current) in
  _ ← refuse_if (negb (is_native current) && (present raw "timePartitioning" || present raw "rangePartitioning" ||
                                                present raw "clustering" || requireFilter)) OnlyManagedTables;
  _ ← check_combination tc rc requireFilter;
  Ok (TableUpdate projectID datasetID tableID (default "" friendlyName) (default "" description) (default ∅ labels)
        (default zero_time expirationTime) tc rc (default [] clustering) requireFilter).

Definition updateTable (projectID datasetID tableID : string) (body : option object) : H tableRecord :=
  raw ← decode (require body InvalidBody);
  current ← getTable projectID datasetID tableID;
  update ← decode (table_update projectID datasetID tableID raw current);
  _ ← others meanwhile;
  t ← with_tables (λ ts, tables_update ts update now);
  decode (require t TableNotFound_).

Definition deleteTable (projectID datasetID tableID : string) : H unit :=
  found ← with_tables (λ ts, tables_delete ts projectID datasetID tableID now);
  decode (refuse_if (negb found) TableNotFound_).
End Handlers.
