(* ===== verification/TableConfig.v ===== *)
(** * Table configurations stay sound

    What the REST handlers of a table guarantee about the configurations they
    store: a partitioning or clustering column exists in the schema and has the
    right type, ranges are not empty, and this survives schema changes. *)

From S2P Require Import Prelude GoStrings Regexp SqlPatterns GoTime GoJson GoFloat Pagination Cells TableModel SqlStatements SqlRecognition Partitioning Pruning TableStore TableInvariants Datasets Sessions EnginePool SqlText StorageWrite Jobs QueryParams SqlResolve SqlResolution SqlExec TableRest.
From Stdlib Require Import Ascii DecimalString.

(** ** Case and spaces *)

Lemma upper_of_lower c : upper_ascii (lower_ascii c) = upper_ascii c.
Proof. destruct c as [[] [] [] [] [] [] [] []]; vm_compute; reflexivity. Qed.

Lemma to_upper_lower a b : to_lower a = to_lower b → to_upper a = to_upper b.
Proof.
  revert b. induction a as [|c a IH]; intros [|d b]; simpl; try done. intros [= Hc Hr].
  unfold to_upper in *. simpl. rewrite (IH b) by done. f_equal. by rewrite <-upper_of_lower, Hc, upper_of_lower.
Qed.

(** White space has no letters, so trimming and lower-casing commute. *)
Definition is_caseless (c : ascii) : bool :=
  let n := nat_of_ascii c in negb ((65 <=? n) && (n <=? 90) || (97 <=? n) && (n <=? 122))%nat.

Lemma lower_cases d : lower_ascii d = d ∨ (is_caseless d = false ∧ is_caseless (lower_ascii d) = false).
Proof. destruct d as [[] [] [] [] [] [] [] []]; first [by left|by right]. Qed.

Lemma has_prefix_lower e : ∀ s, all_chars is_caseless e = true → has_prefix (to_lower s) e = has_prefix s e.
Proof.
  unfold has_prefix, to_lower. induction e as [|c e IH]; intros [|d s]; try done. simpl. rewrite andb_true_iff.
  intros [Hc He]. destruct (lower_cases d) as [->|[H1 H2]].
  - destruct (ascii_dec c d); [by apply IH|done].
  - destruct (ascii_dec c d) as [E|], (ascii_dec c (lower_ascii d)) as [E'|]; congruence || done.
Qed.

Lemma trim_go_lower encs : Forall (λ e, all_chars is_caseless e = true) encs →
  ∀ s skip, trim_go encs skip (to_lower s) = to_lower (trim_go encs skip s).
Proof.
  intros He. assert (∀ s, head_enc encs (to_lower s) = head_enc encs s) as Hh.
  { intros s. induction He as [|e encs Hc _ IH]; [done|]. simpl. by rewrite has_prefix_lower, IH. }
  induction s as [|c s IH]; intros skip; [done|]. specialize (Hh (String c s)). unfold to_lower in *. simpl str_map in *.
  cbn [trim_go]. destruct skip as [|skip]; [|apply IH]. rewrite Hh. destruct (head_enc encs (String c s)); [done|apply IH].
Qed.

Lemma rev_lower s : String.rev (to_lower s) = to_lower (String.rev s).
Proof.
  assert (∀ a b, to_lower (a +:+ b) = to_lower a +:+ to_lower b) as Happ.
  { intros a b. induction a as [|c a IH]; [done|]. rewrite str_app_cons. unfold to_lower in *. simpl str_map. by rewrite IH, str_app_cons. }
  induction s as [|c s IH]; [done|]. unfold to_lower at 1. simpl str_map. rewrite !rev_cons. fold (to_lower s). by rewrite IH, Happ.
Qed.

Lemma trim_space_lower s : trim_space (to_lower s) = to_lower (trim_space s).
Proof.
  unfold trim_space, trim_right, trim_left.
  rewrite trim_go_lower by (by apply (bool_decide_unpack _); vm_compute).
  rewrite rev_lower, trim_go_lower by (by apply (bool_decide_unpack _); vm_compute). by rewrite rev_lower.
Qed.

Lemma trimmed_upper a b : equal_fold a b = true → to_upper (trim_space a) = to_upper (trim_space b).
Proof. intros E%equal_fold_spec. apply to_upper_lower. by rewrite <-!trim_space_lower, E. Qed.

Lemma record_type_fold a b : equal_fold a b = true → isRecordType a = isRecordType b.
Proof. intros E. unfold isRecordType. by rewrite (trimmed_upper a b). Qed.

(** Trimming is done once. *)
Lemma head_enc_shorter encs a b : head_enc encs (a +:+ b) = O → Forall (.≠ "") encs → head_enc encs a = O.
Proof.
  intros H He. induction He as [|e encs Hne _ IH]; [done|]. cbn [head_enc] in *.
  destruct (has_prefix a e) eqn:Ea; [|destruct (has_prefix (a +:+ b) e); [by destruct e|by apply IH]].
  exfalso. apply has_prefix_spec in Ea as [r ->]. rewrite str_app_assoc, has_prefix_app in H. by destruct e.
Qed.

Lemma head_enc_nil encs : Forall (.≠ "") encs → head_enc encs "" = O.
Proof. induction 1 as [|e encs He _ IH]; [done|]. by destruct e. Qed.

Lemma trim_go_suffix encs s : ∀ k, ∃ p, s = p +:+ trim_go encs k s.
Proof.
  induction s as [|c s IH]; intros k; [by exists ""|]. cbn [trim_go].
  assert (∀ k, ∃ p, String c s = p +:+ trim_go encs k s) as Hs.
  { intros k'. destruct (IH k') as [p Hp]. exists (String c p). rewrite str_app_cons. by f_equal. }
  destruct k; [|done]. case_match; [by exists ""|done].
Qed.

Lemma trim_go_head encs s : Forall (.≠ "") encs → ∀ k, head_enc encs (trim_go encs k s) = O.
Proof.
  intros He. induction s as [|c s IH]; intros k; [by apply head_enc_nil|]. cbn [trim_go]. destruct k; [|done].
  destruct (head_enc encs (String c s)) eqn:E; done.
Qed.

Lemma trim_go_fixed encs s : head_enc encs s = O → trim_go encs 0 s = s.
Proof. destruct s; [done|]. cbn [trim_go]. by intros ->. Qed.

Lemma trim_space_idem s : trim_space (trim_space s) = trim_space s.
Proof.
  assert (Forall (.≠ "") space_encodings) as H1 by (apply (bool_decide_unpack _); by vm_compute).
  assert (Forall (.≠ "") (String.rev <$> space_encodings)) as H2 by (apply (bool_decide_unpack _); by vm_compute).
  set (x := trim_left s).
  assert (head_enc space_encodings x = O) as Hx by (by apply trim_go_head).
  destruct (trim_go_suffix (String.rev <$> space_encodings) (String.rev x) 0) as [q Hq].
  assert (x = trim_space s +:+ String.rev q) as Hy.
  { rewrite <-(rev_rev x) at 1. rewrite Hq, rev_append. done. }
  rewrite Hy in Hx. apply head_enc_shorter in Hx; [|done].
  unfold trim_space at 1. unfold trim_left. rewrite (trim_go_fixed _ _ Hx). unfold trim_right.
  rewrite (trim_go_fixed (String.rev <$> space_encodings)); [apply rev_rev|].
  change (trim_space s) with (String.rev (trim_go (String.rev <$> space_encodings) 0 (String.rev x))). rewrite rev_rev.
  by apply trim_go_head.
Qed.

(** ** Sound configurations *)

(** A column of the schema, found by a name up to case. *)
Definition column_at (sch : schema) (name : string) (f : tableField) : Prop :=
  trim_space name = name ∧ name ≠ "" ∧ ∃ i, findTopLevelField sch name = Some (f, i).

Definition time_config_ok (sch : schema) (c : timePartitioningConfig) : Prop :=
  tpc_Type c ∈ partition_types ∧ 0 ≤ tpc_ExpirationMs c ≤ max_expiration ∧
  (tpc_Field c ≠ "" → ∃ f, column_at sch (tpc_Field c) f ∧
     to_upper (trim_space (Type_ f)) ∈ ["DATE"; "TIMESTAMP"] ∧ normalizeMode (Mode f) ≠ "REPEATED" ∧
     (tpc_Type c = "HOUR" → to_upper (trim_space (Type_ f)) = "TIMESTAMP")).

Definition range_config_ok (sch : schema) (c : rangePartitioningConfig) : Prop :=
  (∃ f, column_at sch (rpc_Field c) f ∧ equal_fold (Type_ f) "INT64" = true ∧ normalizeMode (Mode f) ≠ "REPEATED") ∧
  in_i64 (rpc_Start c) ∧ in_i64 (rpc_End c) ∧ in_i64 (rpc_Interval c) ∧
  rpc_Start c < rpc_End c ∧ 0 < rpc_Interval c.

Definition clustering_ok (sch : schema) (fields : list string) : Prop :=
  (length fields ≤ 4)%nat ∧ NoDup (to_lower <$> fields) ∧
  Forall (λ name, ∃ f, column_at sch name f ∧ normalizeMode (Mode f) ≠ "REPEATED" ∧ isRecordType (Type_ f) = false) fields.

Definition names_ok (sch : schema) : Prop := Forall (λ f, trim_space (Name f) = Name f ∧ Name f ≠ "") sch.

(** A table's configuration is sound: only a managed table has one, every column
    it names exists with a type it can have, and a partition filter is required
    only of a partitioned table. *)
Definition config_ok (t : tableRecord) : Prop :=
  (is_native t = true → names_ok (tr_Schema t)) ∧
  (∀ c, tr_TimePartitioning t = Some c → time_config_ok (tr_Schema t) c) ∧
  (∀ c, tr_RangePartitioning t = Some c → range_config_ok (tr_Schema t) c) ∧
  clustering_ok (tr_Schema t) (tr_Clustering t) ∧
  validatePartitioningCombination (tr_TimePartitioning t) (tr_RangePartitioning t) (tr_RequirePartitionFilter t) = None ∧
  (is_native t = false → tr_TimePartitioning t = None ∧ tr_RangePartitioning t = None ∧ tr_Clustering t = []).

(** ** What the parsers accept *)

Ltac inv_bind :=
  repeat match goal with
  | H : (_ ≫= _) = Ok _ |- _ => apply res_bind_ok in H as (? & ? & H); cbv beta in H
  | H : refuse_if ?b _ = Ok _ |- _ => unfold refuse_if in H; destruct b eqn:?; [discriminate H|]; clear H
  | H : require ?o _ = Ok _ |- _ => unfold require in H; destruct o eqn:?; [|discriminate H]
  | H : Ok _ = Ok _ |- _ => injection H as ?; subst
  | x : (tableField * nat)%type |- _ => destruct x
  | x : unit |- _ => clear x
  end.

Lemma find_field_spec sch name : ∀ i f k,
  find_field_from i sch name = Some (f, k) →
  (i ≤ k)%nat ∧ sch !! (k - i)%nat = Some f ∧ equal_fold (Name f) name = true ∧
  ∀ j g, (j < k - i)%nat → sch !! j = Some g → equal_fold (Name g) name = false.
Proof.
  induction sch as [|g sch IH]; intros i f k; simpl; [done|]. destruct (equal_fold (Name g) name) eqn:E.
  - intros [= -> ->]. split_and!; [lia|by rewrite Nat.sub_diag|done|lia].
  - intros (Hle & Hl & Hf & Hb)%IH. replace (k - i)%nat with (S (k - S i)) by lia. split_and!; [lia|done|done|].
    intros [|j] h Hj Hh; simpl in Hh; simplify_eq; [done|]. apply (Hb j); [lia|done].
Qed.

Lemma find_field_complete sch name : ∀ i k f,
  sch !! k = Some f → equal_fold (Name f) name = true →
  (∀ j g, (j < k)%nat → sch !! j = Some g → equal_fold (Name g) name = false) →
  find_field_from i sch name = Some (f, i + k)%nat.
Proof.
  induction sch as [|g sch IH]; intros i k f Hk Hf Hb; [done|]. simpl. destruct k as [|k]; simpl in Hk.
  - simplify_eq. rewrite Hf. by rewrite Nat.add_0_r.
  - rewrite (Hb O g); [|lia|done]. rewrite (IH (S i) k f Hk Hf); [f_equal; f_equal; lia|].
    intros j h Hj. apply (Hb (S j)). lia.
Qed.

(** A column found under some spelling is found under its own name. *)
Lemma found_column sch name f i :
  names_ok sch → findTopLevelField sch name = Some (f, i) → column_at sch (Name f) f.
Proof.
  intros Hn Hf. unfold findTopLevelField in Hf. apply find_field_spec in Hf as (_ & Hl & He & Hb).
  rewrite Nat.sub_0_r in *. destruct (proj1 (Forall_lookup _ _) Hn i f Hl) as [Ht Hne].
  split_and!; [done|done|]. exists i. unfold findTopLevelField. rewrite Ht.
  apply (find_field_complete sch (Name f) 0 i f Hl); [apply equal_fold_refl|].
  intros j g Hj Hg. specialize (Hb j g Hj Hg). destruct (equal_fold (Name g) (Name f)) eqn:E; [|done].
  pose proof (equal_fold_trans _ _ _ E He). congruence.
Qed.

Lemma time_field_ok sch ty raw name :
  names_ok sch → time_field sch ty raw = Ok name → name ≠ "" →
  ∃ f, column_at sch name f ∧ to_upper (trim_space (Type_ f)) ∈ ["DATE"; "TIMESTAMP"] ∧
    normalizeMode (Mode f) ≠ "REPEATED" ∧ (ty = "HOUR" → to_upper (trim_space (Type_ f)) = "TIMESTAMP").
Proof.
  intros Hn. unfold time_field. destruct raw as [v|]; [|by case_match; intros [= <-]].
  destruct v; try done. intros Hp Hne. inv_bind. bools. exists t. split_and!; [by eapply found_column|done|done|].
  intros ->. match goal with Hb : _ && _ = false |- _ => apply andb_false_iff in Hb as [Hb|Hb] end; bools; [set_solver|done].
Qed.

Lemma parseTimePartitioning_ok v sch c :
  names_ok sch → parseTimePartitioning v sch = Ok c → time_config_ok sch c.
Proof.
  intros Hn. unfold parseTimePartitioning. destruct v as [| | | | |obj]; try done. intros Hp. inv_bind. bools.
  split; simpl; [done|]. split; [|by eapply time_field_ok].
  assert (x1 = 0 ∨ 0 < x1 ≤ max_expiration) as Hx; [|unfold max_expiration in *; lia].
  destruct (obj_lookup obj "expirationMs") as [[]|]; inv_bind; bools; auto; right; lia.
Qed.

Lemma parseExactInt64_range v z : parseExactInt64 v = Some z → in_i64 z.
Proof.
  destruct v as [| |lit|s| |]; simpl; try done; [|apply parse_int_range].
  destruct (float_of_literal lit) as [f|]; [|done]. simpl. destruct (float_integer f) as [k|]; [|done]. simpl.
  destruct (in_i64b k) eqn:E; [|done]. intros [= <-]. by apply in_i64b_spec.
Qed.

Lemma parseRangePartitioning_ok v sch c :
  names_ok sch → parseRangePartitioning v sch = Ok c → range_config_ok sch c.
Proof.
  intros Hn. unfold parseRangePartitioning. destruct v as [| | | | |obj]; try done. intros Hp. inv_bind. bools.
  unfold range_config_ok. simpl. split_and!; eauto using parseExactInt64_range; [|lia..].
  eexists. split_and!; [by eapply found_column|done|done].
Qed.

Lemma clustering_fields_ok sch raws : ∀ seen fields,
  names_ok sch → clustering_fields sch seen raws = Ok fields →
  length fields = length raws ∧ NoDup (to_lower <$> fields) ∧ (∀ k, k ∈ to_lower <$> fields → k ∉ seen) ∧
  Forall (λ name, ∃ f, column_at sch name f ∧ normalizeMode (Mode f) ≠ "REPEATED" ∧ isRecordType (Type_ f) = false) fields.
Proof.
  induction raws as [|raw raws IH]; intros seen fields Hn Hp; simpl in Hp.
  - injection Hp as <-. split_and!; [done|constructor|set_solver|done].
  - inv_bind. bools. destruct (IH _ _ Hn H2) as (Hl & Hd & Hs & Hf). split_and!; csimpl.
    + by rewrite Hl.
    + constructor; [|done]. intros Hin. apply Hs in Hin. set_solver.
    + intros k [->|Hk]%elem_of_cons; [done|]. apply Hs in Hk. set_solver.
    + constructor; [|done]. exists t. split_and!; [by eapply found_column|done|done].
Qed.

Lemma parseClustering_ok v sch fields :
  names_ok sch → parseClustering v sch = Ok fields → clustering_ok sch fields.
Proof.
  intros Hn. unfold parseClustering. destruct v as [| | | | |obj]; try done.
  - intros [= <-]. split_and!; [simpl; lia|constructor|done].
  - destruct (obj_get obj "fields"); try done. intros Hp. inv_bind. apply Nat.ltb_ge in Heqb.
    apply (clustering_fields_ok _ _ _ _ Hn) in Hp as (Hl & Hd & _ & Hf). split_and!; [lia|done|done].
Qed.

(** The columns of a parsed schema have names. *)
Lemma parse_schema_names v : names_ok (parseTableSchemaFields v).
Proof.
  unfold parseTableSchemaFields. destruct v; try constructor. destruct (obj_get members "fields"); simpl; try constructor.
  unfold names_ok. rewrite Forall_forall. intros f Hf. apply list_elem_of_omap in Hf as (raw & _ & Hf).
  destruct raw; try done. unfold parse_field in Hf. case_bool_decide; simplify_eq/=. split; [apply trim_space_idem|done].
Qed.

(** ** Schema evolution *)

(** What a patch may do to a column. *)
Definition field_evolves (f f' : tableField) : Prop :=
  equal_fold (Name f) (Name f') = true ∧ equal_fold (Type_ f) (Type_ f') = true ∧
  (normalizeMode (Mode f') = normalizeMode (Mode f) ∨
   normalizeMode (Mode f) = "REQUIRED" ∧ normalizeMode (Mode f') = "NULLABLE").

Lemma evolve_fields_spec old new : ∀ i, evolve_fields i old new = Ok tt → (length old ≤ length new)%nat →
  (∀ k f, old !! k = Some f → ∃ f', new !! k = Some f' ∧ field_evolves f f') ∧
  (∀ k f', (length old ≤ k)%nat → new !! k = Some f' → normalizeMode (Mode f') = "NULLABLE").
Proof.
  revert new. induction old as [|f old IHold]; intros new.
  - induction new as [|g new IH]; intros i Hp Hl; simpl in *; [done|]. inv_bind. bools.
    destruct (IH _ Hp) as [_ IH2]; [simpl; lia|]. split; [done|]. intros [|k] f' _ Hk; simpl in Hk; simplify_eq; [done|].
    apply (IH2 k f'); [simpl; lia|done].
  - intros i Hp Hl. destruct new as [|g new]; simpl in *; [lia|]. inv_bind. bools.
    destruct (IHold new _ Hp) as [IH1 IH2]; [lia|]. split.
    + intros [|k] f0 Hk; simpl in *; simplify_eq; [|by apply IH1]. exists g. split; [done|]. split_and!; [done|done|].
      match goal with Hb : _ && _ = false |- _ => apply andb_false_iff in Hb as [Hb|Hb] end; bools; [left; congruence|by right].
    + intros [|k] f' Hk Hf; simpl in *; [lia|]. apply (IH2 k f'); [lia|done].
Qed.

Lemma evolution_spec old new : validateSchemaEvolution old new = Ok tt →
  (∀ k f, old !! k = Some f → ∃ f', new !! k = Some f' ∧ field_evolves f f') ∧
  (∀ k f', (length old ≤ k)%nat → new !! k = Some f' → normalizeMode (Mode f') = "NULLABLE").
Proof.
  unfold validateSchemaEvolution. intros Hp. inv_bind. apply Nat.ltb_ge in Heqb. by apply (evolve_fields_spec old new 0).
Qed.

Lemma column_evolves old new name f :
  validateSchemaEvolution old new = Ok tt → column_at old name f →
  ∃ f', column_at new name f' ∧ field_evolves f f'.
Proof.
  intros He (Ht & Hne & i & Hf). destruct (evolution_spec _ _ He) as [Hev _].
  unfold findTopLevelField in Hf. apply find_field_spec in Hf as (_ & Hl & Hn & Hb). rewrite Nat.sub_0_r in *.
  destruct (Hev i f Hl) as (f' & Hl' & Hfe). exists f'. split; [|done]. split_and!; [done|done|]. exists i.
  unfold findTopLevelField. apply (find_field_complete new (trim_space name) 0 i f' Hl').
  - destruct Hfe as [Hnm _]. rewrite equal_fold_sym in Hnm. by apply (equal_fold_trans _ (Name f)).
  - intros j g Hj Hg. assert (is_Some (old !! j)) as [g0 Hg0].
    { apply lookup_lt_is_Some. apply lookup_lt_Some in Hl. lia. }
    destruct (Hev j g0 Hg0) as (g' & Hg' & Hnm & _). simplify_eq. specialize (Hb j g0 Hj Hg0).
    destruct (equal_fold (Name g) (trim_space name)) eqn:E; [|done].
    pose proof (equal_fold_trans _ _ _ Hnm E). congruence.
Qed.

Lemma mode_evolves f f' : field_evolves f f' → normalizeMode (Mode f) ≠ "REPEATED" → normalizeMode (Mode f') ≠ "REPEATED".
Proof. intros (_ & _ & [-> | [_ ->]]); done. Qed.

Lemma time_config_evolves old new c :
  validateSchemaEvolution old new = Ok tt → time_config_ok old c → time_config_ok new c.
Proof.
  intros He (Ht & Hx & Hf). split; [done|]. split; [done|]. intros Hne. destruct (Hf Hne) as (f & Hc & Hty & Hm & Hh).
  destruct (column_evolves _ _ _ _ He Hc) as (f' & Hc' & Hfe). pose proof Hfe as (_ & Hty' & _). apply trimmed_upper in Hty'.
  exists f'. rewrite <-Hty'. split_and!; [done|done|by eapply mode_evolves|done].
Qed.

Lemma range_config_evolves old new c :
  validateSchemaEvolution old new = Ok tt → range_config_ok old c → range_config_ok new c.
Proof.
  intros He [(f & Hc & Hty & Hm) Hr]. split; [|done]. destruct (column_evolves _ _ _ _ He Hc) as (f' & Hc' & Hfe).
  exists f'. split_and!; [done| |by eapply mode_evolves]. destruct Hfe as (_ & Hty' & _). rewrite equal_fold_sym in Hty'.
  by eapply equal_fold_trans.
Qed.

Lemma clustering_evolves old new fields :
  validateSchemaEvolution old new = Ok tt → clustering_ok old fields → clustering_ok new fields.
Proof.
  intros He (Hl & Hd & Hf). split_and!; [done|done|]. eapply Forall_impl; [exact Hf|]. intros name (f & Hc & Hm & Hr).
  destruct (column_evolves _ _ _ _ He Hc) as (f' & Hc' & Hfe). exists f'. split_and!; [done|by eapply mode_evolves|].
  destruct Hfe as (_ & Hty' & _). by rewrite <-(record_type_fold _ _ Hty').
Qed.

(** ** Requests *)

Definition same_config (t t' : tableRecord) : Prop :=
  tr_Schema t' = tr_Schema t ∧ tr_External t' = tr_External t ∧ tr_View t' = tr_View t ∧
  tr_TimePartitioning t' = tr_TimePartitioning t ∧ tr_RangePartitioning t' = tr_RangePartitioning t ∧
  tr_Clustering t' = tr_Clustering t ∧ tr_RequirePartitionFilter t' = tr_RequirePartitionFilter t.

Lemma config_ok_same t t' : same_config t t' → config_ok t → config_ok t'.
Proof.
  intros (E1 & E2 & E3 & E4 & E5 & E6 & E7). unfold config_ok, is_native. by rewrite E1, E2, E3, E4, E5, E6, E7.
Qed.

Lemma optional_ok {A} raw key (parse : json → D A) o :
  optional raw key parse = Ok o → match o with Some a => ∃ v, parse v = Ok a ∧ obj_lookup raw key = Some v | None => True end.
Proof. unfold optional. case_match; intros Hp; inv_bind; [by eexists; split|done]. Qed.

Lemma patched_time_ok raw cur sch o :
  patched_time raw cur sch = Ok o → match o with Some c => ∃ v, parseTimePartitioning v sch = Ok c ∧ obj_lookup raw "timePartitioning" = Some v | None => True end.
Proof.
  unfold patched_time. intros Hp. apply res_bind_ok in Hp as (o' & Ho & Hp). apply optional_ok in Ho.
  destruct o' as [c|]; inv_bind; done.
Qed.
Lemma patched_range_ok raw cur sch o :
  patched_range raw cur sch = Ok o → match o with Some c => ∃ v, parseRangePartitioning v sch = Ok c ∧ obj_lookup raw "rangePartitioning" = Some v | None => True end.
Proof.
  unfold patched_range. intros Hp. apply res_bind_ok in Hp as (o' & Ho & Hp). apply optional_ok in Ho.
  destruct o' as [c|]; inv_bind; done.
Qed.

Lemma check_combination_ok tc rc b : check_combination tc rc b = Ok tt → validatePartitioningCombination tc rc b = None.
Proof. unfold check_combination. by case_match. Qed.

Lemma patch_field_set {A} (proj : tableRecord → A) (o : option A) assign t :
  (∀ v t, proj (assign v t) = v) → proj (patch_field o assign t) = default (proj t) o.
Proof. intros Ha. by destruct o; simpl. Qed.

Ltac proj_patch := rewrite ?patch_field_proj by done; rewrite ?patch_field_set by done; rewrite ?patch_field_proj by done; reflexivity.

Lemma apply_patch_config patch t :
  tr_Schema (apply_patch patch t) = default (tr_Schema t) (tp_Schema patch) ∧
  tr_External (apply_patch patch t) = tr_External t ∧ tr_View (apply_patch patch t) = tr_View t ∧
  tr_TimePartitioning (apply_patch patch t) = default (tr_TimePartitioning t) (tp_TimePartitioning patch) ∧
  tr_RangePartitioning (apply_patch patch t) = default (tr_RangePartitioning t) (tp_RangePartitioning patch) ∧
  tr_Clustering (apply_patch patch t) = default (tr_Clustering t) (tp_Clustering patch) ∧
  tr_RequirePartitionFilter (apply_patch patch t) = default (tr_RequirePartitionFilter t) (tp_RequirePartitionFilter patch).
Proof. unfold apply_patch. cbv zeta. split_and!; proj_patch. Qed.

Lemma apply_update_config u t :
  tr_Schema (apply_update u t) = tr_Schema t ∧
  tr_External (apply_update u t) = tr_External t ∧ tr_View (apply_update u t) = tr_View t ∧
  tr_TimePartitioning (apply_update u t) = tu_TimePartitioning u ∧
  tr_RangePartitioning (apply_update u t) = tu_RangePartitioning u ∧
  tr_Clustering (apply_update u t) = tu_Clustering u ∧
  tr_RequirePartitionFilter (apply_update u t) = tu_RequirePartitionFilter u.
Proof. done. Qed.

Lemma table_patch_ok `{TimestampParser} p d id raw cur patch :
  config_ok cur → table_patch p d id raw cur = Ok patch →
  tp_ProjectID patch = p ∧ tp_DatasetID patch = d ∧ tp_TableID patch = id ∧ config_ok (apply_patch patch cur).
Proof.
  intros (Hn & Ht & Hr & Hc & Hv & Hm) Hp. unfold table_patch in Hp.
  apply res_bind_ok in Hp as (fn & _ & Hp). apply res_bind_ok in Hp as (de & _ & Hp).
  apply res_bind_ok in Hp as (la & _ & Hp). apply res_bind_ok in Hp as (ex & _ & Hp).
  apply res_bind_ok in Hp as (ns & Hns & Hp). apply optional_ok in Hns.
  apply res_bind_ok in Hp as (tc & Htc & Hp). apply patched_time_ok in Htc.
  apply res_bind_ok in Hp as (rc & Hrc & Hp). apply patched_range_ok in Hrc.
  apply res_bind_ok in Hp as (cl & Hcl & Hp). apply optional_ok in Hcl.
  apply res_bind_ok in Hp as (rf & _ & Hp). cbv zeta in Hp.
  apply res_bind_ok in Hp as ([] & Hman & Hp). apply res_bind_ok in Hp as ([] & Hcomb & Hp).
  apply res_bind_ok in Hp as ([] & _ & Hp). apply res_bind_ok in Hp as ([] & _ & Hp).
  apply check_combination_ok in Hcomb. injection Hp as <-. split_and!; [done..|].
  match goal with |- config_ok (apply_patch ?q _) => destruct (apply_patch_config q cur) as (E1 & E2 & E3 & E4 & E5 & E6 & E7) end.
  cbn [tp_Schema tp_TimePartitioning tp_RangePartitioning tp_Clustering tp_RequirePartitionFilter] in *.
  set (sch := default (tr_Schema cur) ns) in *.
  assert (is_native cur = true → names_ok sch) as Hsch.
  { intros Hnat. subst sch. destruct ns as [sch|]; simpl; [|by apply Hn]. destruct Hns as (v & Hs & _).
    apply res_bind_ok in Hs as ([] & _ & Hs). injection Hs as <-. apply parse_schema_names. }
  assert (sch = tr_Schema cur ∨ validateSchemaEvolution (tr_Schema cur) sch = Ok tt) as Hev.
  { subst sch. destruct ns as [sch|]; [right|by left]. destruct Hns as (v & Hs & _).
    apply res_bind_ok in Hs as ([] & Hs' & Hs). injection Hs as <-. done. }
  unfold config_ok, is_native. rewrite E1, E2, E3, E4, E5, E6, E7. fold (is_native cur).
  destruct (is_native cur) eqn:Enat.
  - specialize (Hsch eq_refl). split_and!; [done| | | | |done].
    + destruct tc as [c|]; simpl.
      * intros c' [= <-]. destruct Htc as (v & Hv' & _). by eapply parseTimePartitioning_ok.
      * intros c Ec. destruct Hev as [->|Hev]; [by apply Ht|]. by eapply time_config_evolves, Ht.
    + destruct rc as [c|]; simpl.
      * intros c' [= <-]. destruct Hrc as (v & Hv' & _). by eapply parseRangePartitioning_ok.
      * intros c Ec. destruct Hev as [->|Hev]; [by apply Hr|]. by eapply range_config_evolves, Hr.
    + destruct cl as [fields|]; simpl.
      * destruct Hcl as (v & Hv' & _). by eapply parseClustering_ok.
      * destruct Hev as [->|Hev]; [done|]. by eapply clustering_evolves.
    + destruct tc, rc; done.
  - destruct (Hm eq_refl) as (M1 & M2 & M3). unfold refuse_if in Hman.
    destruct tc; [discriminate Hman|]. destruct rc; [discriminate Hman|]. destruct cl; [discriminate Hman|].
    simpl. rewrite M1, M2, M3 in *. split_and!; try done. split_and!; [simpl; lia|constructor|done].
Qed.

Lemma not_present raw key v : present raw key = false → obj_lookup raw key = Some v → v = JNull.
Proof. unfold present, obj_get. intros Hp Hl. rewrite Hl in Hp. by destruct v. Qed.

Lemma table_update_ok p d id raw cur u :
  config_ok cur → table_update p d id raw cur = Ok u →
  tu_ProjectID u = p ∧ tu_DatasetID u = d ∧ tu_TableID u = id ∧ config_ok (apply_update u cur).
Proof.
  intros (Hn & Ht & Hr & Hc & Hv & Hm) Hp. unfold table_update in Hp.
  apply res_bind_ok in Hp as ([] & _ & Hp).
  apply res_bind_ok in Hp as (fn & _ & Hp). apply res_bind_ok in Hp as (de & _ & Hp).
  apply res_bind_ok in Hp as (la & _ & Hp). apply res_bind_ok in Hp as (ex & _ & Hp).
  apply res_bind_ok in Hp as (tc & Htc & Hp). apply res_bind_ok in Hp as (rc & Hrc & Hp).
  apply res_bind_ok in Hp as (cl & Hcl & Hp). apply res_bind_ok in Hp as (rf & _ & Hp). cbv zeta in Hp.
  apply res_bind_ok in Hp as ([] & Hman & Hp). apply res_bind_ok in Hp as ([] & Hcomb & Hp).
  apply check_combination_ok in Hcomb. injection Hp as <-. split_and!; [done..|].
  apply patched_time_ok in Htc. apply patched_range_ok in Hrc. apply optional_ok in Hcl.
  match goal with |- config_ok (apply_update ?q _) => destruct (apply_update_config q cur) as (E1 & E2 & E3 & E4 & E5 & E6 & E7) end.
  cbn [tu_TimePartitioning tu_RangePartitioning tu_Clustering tu_RequirePartitionFilter] in *.
  unfold config_ok, is_native. rewrite E1, E2, E3, E4, E5, E6, E7. fold (is_native cur).
  destruct (is_native cur) eqn:Enat.
  - specialize (Hn eq_refl). split_and!; [done| | | |done|done].
    + destruct tc as [c|]; simpl; [|done]. intros c' [= <-]. destruct Htc as (v & Hv' & _). by eapply parseTimePartitioning_ok.
    + destruct rc as [c|]; simpl; [|done]. intros c' [= <-]. destruct Hrc as (v & Hv' & _). by eapply parseRangePartitioning_ok.
    + destruct cl as [fields|]; simpl; [|by split_and!; [simpl; lia|constructor|constructor]].
      destruct Hcl as (v & Hv' & _). by eapply parseClustering_ok.
  - destruct (Hm eq_refl) as (M1 & M2 & M3). rewrite M1, M2 in *.
    simpl in Hman. unfold refuse_if in Hman.
    destruct (present raw "timePartitioning") eqn:P1; [discriminate Hman|].
    destruct (present raw "rangePartitioning") eqn:P2; [discriminate Hman|].
    destruct (present raw "clustering") eqn:P3; [discriminate Hman|].
    assert (tc = None) as ->.
    { destruct tc; [|done]. destruct Htc as (v & Hv' & Hl). apply (not_present _ _ _ P1) in Hl as ->. done. }
    assert (rc = None) as ->.
    { destruct rc; [|done]. destruct Hrc as (v & Hv' & Hl). apply (not_present _ _ _ P2) in Hl as ->. done. }
    assert (default [] cl = []) as ->.
    { destruct cl; [|done]. destruct Hcl as (v & Hv' & Hl). apply (not_present _ _ _ P3) in Hl as ->. by injection Hv' as <-. }
    split_and!; try done. by split_and!; [simpl; lia|constructor|constructor].
Qed.

Lemma storage_options_ok raw sch managed tc rc cl rf :
  (managed = true → names_ok sch) → storage_options raw sch managed = Ok (tc, rc, cl, rf) →
  (∀ c, tc = Some c → time_config_ok sch c) ∧ (∀ c, rc = Some c → range_config_ok sch c) ∧ clustering_ok sch cl ∧
  validatePartitioningCombination tc rc rf = None ∧ (managed = false → tc = None ∧ rc = None ∧ cl = []).
Proof.
  intros Hn Hp. unfold storage_options in Hp.
  apply res_bind_ok in Hp as (tc' & Htc & Hp). apply optional_ok in Htc.
  apply res_bind_ok in Hp as (rc' & Hrc & Hp). apply optional_ok in Hrc.
  apply res_bind_ok in Hp as (cl' & Hcl & Hp). apply optional_ok in Hcl.
  apply res_bind_ok in Hp as (rf' & _ & Hp). cbv zeta in Hp.
  apply res_bind_ok in Hp as ([] & Hman & Hp). apply res_bind_ok in Hp as ([] & Hcomb & Hp).
  apply check_combination_ok in Hcomb. injection Hp as -> -> <- <-. destruct managed.
  - specialize (Hn eq_refl). split_and!; [| | |done|done].
    + intros c ->. destruct Htc as (v & Hv & _). by eapply parseTimePartitioning_ok.
    + intros c ->. destruct Hrc as (v & Hv & _). by eapply parseRangePartitioning_ok.
    + destruct cl'; simpl; [destruct Hcl as (v & Hv & _); by eapply parseClustering_ok|].
      split_and!; [simpl; lia|constructor|constructor].
  - unfold refuse_if in Hman. destruct tc; [discriminate Hman|]. destruct rc; [discriminate Hman|].
    simpl in Hman. destruct cl' as [[|]|]; simpl in *; try discriminate Hman;
      (split_and!; try done; split_and!; [simpl; lia|constructor|constructor]).
Qed.

(** ** The catalog *)

Definition configs_ok (s : tableService) : Prop := ∀ p d id t, lookup_table s p d id = Some t → config_ok t.

Lemma default_tables_ok p d now id t : default_tables p d now !! id = Some t → config_ok t.
Proof.
  intros Hl. apply elem_of_list_to_map_2 in Hl. unfold defaults in Hl. simpl in Hl.
  rewrite !elem_of_cons, elem_of_nil in Hl.
  assert (∀ sch rows, names_ok sch → config_ok (new_table p d id sch rows now 1)) as Hnew.
  { intros sch rows Hn. unfold config_ok. simpl. split_and!; try done. by split_and!; [simpl; lia|constructor|constructor]. }
  destruct_or! Hl; try done; injection Hl as <- ->; apply Hnew; apply (bool_decide_unpack _); vm_compute; exact I.
Qed.

Section Catalog.
Context `{TimestampParser} (now : Z).

Lemma purge_same_config t u : purge_table now t = Some u → same_config t u.
Proof. unfold purge_table, purgeExpiredPartitions. intros Hu. repeat (case_match; simplify_eq/=; try done). Qed.

Lemma visible_ok s p d id t : configs_ok s → visible s p d now !! id = Some t → config_ok t.
Proof.
  intros Hs. unfold visible. destruct (dataset_tables s p d) as [T|] eqn:E; simpl; [|apply default_tables_ok].
  intros Hl. apply (Hs p d id). unfold lookup_table. by rewrite E.
Qed.

Lemma dataset_step_ok s s' p d T :
  configs_ok s → dataset_step s s' p d T → (∀ id t, T !! id = Some t → config_ok t) → configs_ok s'.
Proof.
  intros Hs Hd HT p' d' id t. unfold lookup_table. rewrite Hd. case_decide; simpl; [apply HT|apply Hs].
Qed.

Lemma quiet_ok s s' : quiet_step now s s' → configs_ok s → configs_ok s'.
Proof.
  intros Hq Hs p d id t Hl. unfold lookup_table in Hl. destruct (Hq p d) as [E|[E|E]]; rewrite E in Hl; simpl in Hl.
  - by apply (Hs p d id).
  - by eapply (visible_ok s).
  - rewrite lookup_omap in Hl. apply bind_Some in Hl as (t0 & Ht0 & Hp).
    eapply config_ok_same; [by apply purge_same_config|]. by eapply (visible_ok s).
Qed.

Lemma insert_configs s input :
  configs_ok s →
  (∀ t, tr_Schema t = ti_Schema input → tr_External t = ti_External input → tr_View t = ti_View input →
    tr_TimePartitioning t = ti_TimePartitioning input → tr_RangePartitioning t = ti_RangePartitioning input →
    tr_Clustering t = ti_Clustering input → tr_RequirePartitionFilter t = ti_RequirePartitionFilter input → config_ok t) →
  ti_Rows input = [] → configs_ok (tables_insert s input now).1.
Proof.
  intros Hs Hin Hrows. unfold tables_insert. destruct (_ || _ || _); [done|].
  pose proof (ensure_spec s (trim_space (ti_ProjectID input)) (trim_space (ti_DatasetID input)) now) as He.
  destruct (ensureDatasetLocked s _ _ now) as [s1 T]. destruct He as [-> He].
  assert (configs_ok s1) as Hs1 by (eapply dataset_step_ok; [done|exact He|]; intros; by eapply (visible_ok s)).
  destruct (visible s _ _ now !! _) eqn:E; [done|]. destruct (validate_partitioning _ _ _ _); [|done..].
  cbn [fst]. intros p d id t. rewrite lookup_table_bump, lookup_table_set. case_decide; [|apply Hs1].
  intros Hl. apply lookup_insert_Some in Hl as [[_ <-]|[_ Hl]]; [|by eapply (visible_ok s)].
  apply Hin; try done. cbn [tr_Schema]. unfold infer_if_empty. rewrite Hrows. simpl. by rewrite andb_false_r.
Qed.

Lemma modify_configs s p d id f t :
  trim_space p = p → trim_space d = d → trim_space id = id →
  lookup_table s p d id = Some t → configs_ok s → config_ok (f t) → configs_ok (modify s p d id now f).1.
Proof.
  intros Hp Hd Hid Hl Hs Hf. unfold modify. rewrite Hp, Hd, Hid. destruct (_ || _ || _); [done|].
  pose proof (ensure_spec s p d now) as He. destruct (ensureDatasetLocked s p d now) as [s1 T]. destruct He as [-> He].
  assert (configs_ok s1) as Hs1 by (eapply dataset_step_ok; [done|exact He|]; intros; by eapply (visible_ok s)).
  assert (visible s p d now !! id = Some t) as ->.
  { unfold visible, lookup_table in *. by destruct (dataset_tables s p d). }
  cbn [fst]. intros p' d' id' t'. rewrite lookup_table_bump, lookup_table_set. case_decide; [|apply Hs1].
  intros Hl'. apply lookup_insert_Some in Hl' as [[_ <-]|[_ Hl']]; [|by eapply (visible_ok s)].
  by eapply config_ok_same; [|exact Hf].
Qed.

Lemma delete_configs s p d id : configs_ok s → configs_ok (tables_delete s p d id now).1.
Proof.
  intros Hs. unfold tables_delete. pose proof (ensure_spec s p d now) as He.
  destruct (ensureDatasetLocked s p d now) as [s1 T]. destruct He as [-> He].
  assert (configs_ok s1) as Hs1 by (eapply dataset_step_ok; [done|exact He|]; intros; by eapply (visible_ok s)).
  destruct (visible s p d now !! id); [|done]. cbn [fst]. intros p' d' id' t'.
  rewrite lookup_table_bump, lookup_table_set. case_decide; [|apply Hs1].
  intros [_ Hl]%lookup_delete_Some. by eapply (visible_ok s).
Qed.
End Catalog.

(** ** The handlers *)

Inductive tableRequest :=
| RInsert (datasetID : string) (body : option object)
| RGet (datasetID tableID : string)
| RPatch (datasetID tableID : string) (body : option object)
| RUpdate (datasetID tableID : string) (body : option object)
| RDelete (datasetID tableID : string).

(** Ids as the router hands them on. *)
Definition trimmed (s : string) : Prop := trim_space s = s.
Definition request_ok (r : tableRequest) : Prop :=
  match r with
  | RInsert _ _ | RDelete _ _ | RGet _ _ => True
  | RPatch d id _ | RUpdate d id _ => trimmed d ∧ trimmed id
  end.

Section Requests.
Context `{TimestampParser} `{GoogleSqlParser} `{GoFloats} `{!QueryEngine} `{ExternalFiles} `{SchemaDetector}.

(** One request, with no other request in between its two sections. *)
Definition serve (projectID : string) (s : server) (nr : Z * tableRequest) : server :=
  match nr.2 with
  | RInsert d body => (insertTable nr.1 projectID d body s).1
  | RGet d id => (getTable nr.1 projectID d id s).1
  | RPatch d id body => (patchTable nr.1 (λ ts, ts) projectID d id body s).1
  | RUpdate d id body => (updateTable nr.1 (λ ts, ts) projectID d id body s).1
  | RDelete d id => (deleteTable nr.1 projectID d id s).1
  end.

(** [m] keeps the configurations sound, whatever it returns. *)
Definition keeps {A} (m : H A) : Prop := ∀ s, configs_ok (srv_tables s) → configs_ok (srv_tables (m s).1).

Lemma keeps_bind {A B} (m : H A) (f : A → H B) : keeps m → (∀ a, keeps (f a)) → keeps (m ≫= f).
Proof.
  intros Hm Hf s Hs. specialize (Hm s Hs). unfold mbind, H_bind. destruct (m s) as [s1 [a|e|]]; [|done..]. by apply Hf.
Qed.
(** A step that only decodes hands its success on. *)
Lemma keeps_decode {A B} (r : D A) (f : A → H B) : (∀ a, r = Ok a → keeps (f a)) → keeps (decode r ≫= f).
Proof. intros Hf s Hs. unfold mbind, H_bind, decode. destruct r as [a|e|]; [|done..]. by apply Hf. Qed.
Lemma keeps_pure {A} (r : D A) : keeps (decode r).
Proof. by intros s. Qed.
Lemma keeps_ret {A} (a : A) : keeps (mret a).
Proof. by intros s. Qed.
Lemma keeps_datasets {A} (f : datasetService → datasetService * A) : keeps (with_datasets f).
Proof. intros s Hs. unfold with_datasets. by destruct (f (srv_datasets s)). Qed.
Lemma keeps_tables {A} (f : tableService → tableService * A) :
  (∀ ts, configs_ok ts → configs_ok (f ts).1) → keeps (with_tables f).
Proof. intros Hf s Hs. unfold with_tables. specialize (Hf _ Hs). by destruct (f (srv_tables s)). Qed.

Lemma keeps_get now p d id : keeps (getTable now p d id).
Proof.
  unfold getTable. apply keeps_bind; [|intros; apply keeps_pure]. apply keeps_tables. intros ts.
  pose proof (get_spec now ts p d id) as Hg. destruct (tables_get ts p d id now). destruct Hg as [Hq _]. by apply (quiet_ok now).
Qed.

Lemma keeps_view now p q : keeps (executeRealSQLQuery now p q).
Proof.
  intros s Hs. unfold executeRealSQLQuery.
  assert (quiet_step now (srv_tables s) (executeRealSQLQueryWithParams now p q None "" [] (srv_tables s)).1) as Hq
    by (apply quiet_query, quiet_rows).
  destruct (executeRealSQLQueryWithParams now p q None "" [] (srv_tables s)) as [ts r]. by apply (quiet_ok now) in Hq.
Qed.

Lemma keeps_bind_post {A B} (m : H A) (f : A → H B) (Q : A → Prop) :
  keeps m → (∀ s a, (m s).2 = Ok a → Q a) → (∀ a, Q a → keeps (f a)) → keeps (m ≫= f).
Proof.
  intros Hm HQ Hf s Hs. specialize (Hm s Hs). specialize (HQ s). unfold mbind, H_bind.
  destruct (m s) as [s1 [a|e|]]; [|done..]. apply Hf; [by apply HQ|done].
Qed.

Lemma keeps_insert now p d body : keeps (insertTable now p d body).
Proof.
  unfold insertTable. do 6 (apply keeps_decode; intros ? _).
  apply keeps_decode; intros external _. apply keeps_decode; intros view _.
  apply (keeps_bind_post _ _ (λ sch, bool_decide (external = None) && bool_decide (view = None) = true → names_ok sch)).
  - unfold table_schema. destruct view as [v|]; [apply keeps_view|]. destruct external as [[]|]; apply keeps_ret.
  - intros s sch Hs [He Hv]%andb_true_iff. bools. subst. injection Hs as <-. apply parse_schema_names.
  - intros sch Hn. apply keeps_decode. intros [[[tc rc] cl] rf] Hst.
    apply (storage_options_ok _ _ _ _ _ _ _ Hn) in Hst as (Ht & Hr & Hc & Hv & Hm).
    apply keeps_bind; [|intros ex; apply keeps_bind; [|intros; apply keeps_pure]].
    + unfold table_expiration. case_match; [apply keeps_pure|]. apply keeps_bind; [apply keeps_datasets|intros; apply keeps_ret].
    + apply keeps_tables. intros ts Hts. apply insert_configs; [done| |done]. simpl.
      intros t E1 E2 E3 E4 E5 E6 E7. unfold config_ok, is_native. rewrite E1, E2, E3, E4, E5, E6, E7.
      assert (bool_decide (view = None) && bool_decide (fst <$> external = None) =
              bool_decide (external = None) && bool_decide (view = None)) as ->
        by (destruct external, view; done).
      split_and!; done.
Qed.

(** Reading a table settles it; writing it back then changes that table only. *)
Lemma keeps_write now p d id {A} (check : tableRecord → D A) (write : A → tableService → tableService * option tableRecord) :
  trimmed p → trimmed d → trimmed id →
  (∀ cur a ts, config_ok cur → check cur = Ok a → lookup_table ts p d id = Some cur → configs_ok ts →
     configs_ok (write a ts).1) →
  keeps (current ← getTable now p d id; a ← decode (check current); _ ← others (λ ts, ts);
         t ← with_tables (write a); decode (require t TableNotFound_)).
Proof.
  intros Hp Hd Hid Hw s Hs. unfold getTable, with_tables, decode, others, mbind, H_bind, require.
  pose proof (get_spec now (srv_tables s) p d id) as Hg. destruct (tables_get (srv_tables s) p d id now) as [ts o].
  destruct Hg as (Hq & Hl & _). apply (quiet_ok now) in Hq; [|done].
  destruct o as [cur|]; [|done]. destruct (check cur) as [a|e|] eqn:Ec; [|done..]. simpl.
  specialize (Hw cur a ts (Hq _ _ _ _ Hl) Ec Hl Hq). destruct (write a ts) as [ts' [t|]]; done.
Qed.

Lemma keeps_patch now p d id body : trimmed p → trimmed d → trimmed id → keeps (patchTable now (λ ts, ts) p d id body).
Proof.
  intros Hp Hd Hid. unfold patchTable. apply keeps_decode. intros raw _.
  apply (keeps_write now p d id (table_patch p d id raw) (λ patch ts, tables_patch ts patch now)); try done.
  intros cur patch ts Hc Hpa Hl Hts. apply table_patch_ok in Hpa as (E1 & E2 & E3 & Hok); [|done].
  unfold tables_patch. rewrite E1, E2, E3. by eapply modify_configs.
Qed.

Lemma keeps_update now p d id body : trimmed p → trimmed d → trimmed id → keeps (updateTable now (λ ts, ts) p d id body).
Proof.
  intros Hp Hd Hid. unfold updateTable. apply keeps_decode. intros raw _.
  apply (keeps_write now p d id (table_update p d id raw) (λ u ts, tables_update ts u now)); try done.
  intros cur u ts Hc Hpa Hl Hts. apply table_update_ok in Hpa as (E1 & E2 & E3 & Hok); [|done].
  unfold tables_update. rewrite E1, E2, E3. by eapply modify_configs.
Qed.

Lemma keeps_delete now p d id : keeps (deleteTable now p d id).
Proof.
  unfold deleteTable. apply keeps_bind; [|intros; apply keeps_pure]. apply keeps_tables. intros ts. apply delete_configs.
Qed.

(** C7. Table configurations stay sound: after any sequence of table requests
    (insert, get, patch, update, delete, valid or not) every table of the catalog
    has a sound configuration.  A partitioning column exists, is not repeated and
    has a type its partitioning admits, ranges are not empty, clustering columns
    are at most four distinct scalars, time and range partitioning exclude each
    other, a partition filter is required only of a partitioned table, views and
    external tables have none of these; schema changes included. *)
Theorem table_configs_sound (projectID : string) (requests : list (Z * tableRequest)) (ds : datasetService) :
  trimmed projectID → Forall (λ nr, request_ok nr.2) requests →
  configs_ok (srv_tables (foldl (serve projectID) (Server ds newTableService) requests)).
Proof.
  intros Hp Hr. assert (configs_ok (srv_tables (Server ds newTableService))) as Hnew by (by intros p d id t).
  revert Hnew. generalize (Server ds newTableService). induction Hr as [|[now r] l Hr _ IH]; intros s Hs; [done|].
  simpl. apply IH. destruct r as [d body|d id|d id body|d id body|d id]; simpl in *.
  - by apply keeps_insert.
  - by apply keeps_get.
  - destruct Hr. by apply keeps_patch.
  - destruct Hr. by apply keeps_update.
  - by apply keeps_delete.
Qed.
End Requests.

(** ** Rows across schema changes *)

Lemma mode_repeated f f' : field_evolves f f' → Mode f' = "REPEATED" ↔ Mode f = "REPEATED".
Proof.
  intros (_ & _ & Hm). unfold normalizeMode in Hm. repeat case_bool_decide; naive_solver congruence.
Qed.
Lemma mode_required f f' : field_evolves f f' → normalizeMode (Mode f) ≠ "REQUIRED" → normalizeMode (Mode f') ≠ "REQUIRED".
Proof. intros (_ & _ & [-> | [? ->]]); done. Qed.

(** A record column keeps its nested fields. *)
Definition nested_kept (f f' : tableField) : Prop := isRecordType (Type_ f) = true → Fields f' = Fields f.

Lemma shaped_evolves f f' v : field_evolves f f' → nested_kept f f' → shaped f v → shaped f' v.
Proof.
  intros (_ & Ht & _) Hk Hs. apply record_type_fold in Ht. destruct Hs as [f v Hr|f obj Hr Hf].
  - apply shaped_scalar. congruence.
  - apply shaped_record; [congruence|]. by rewrite Hk.
Qed.

Lemma conforms_evolves f f' v : field_evolves f f' → nested_kept f f' → conforms f v → conforms f' v.
Proof.
  intros He Hk Hc. pose proof (mode_repeated _ _ He) as Hm. destruct Hc as [f Hr|f items Hr Hn Hs|f v Hv Hr Hs].
  - apply conforms_null. by eapply mode_required.
  - apply conforms_repeated; [by apply Hm|done|]. eapply Forall_impl; [exact Hs|]. intros x. by apply shaped_evolves.
  - apply conforms_single; [done|by rewrite Hm|by eapply shaped_evolves].
Qed.

Lemma cell_evolves f f' c : field_evolves f f' → nested_kept f f' → cell_conforms f c → cell_conforms f' c.
Proof.
  intros He Hk. unfold cell_conforms. destruct (loadStoredCell c) as [raw [|]]; [by apply mode_required|].
  intros [[Hm Hr]|(v & Hv & Hc)].
  - left. rewrite (mode_repeated _ _ He). split; [done|]. destruct He as (_ & Ht & _). by rewrite <-(record_type_fold _ _ Ht).
  - right. exists v. split; [done|]. by eapply conforms_evolves.
Qed.

(** C20. A schema change that is accepted keeps the data valid: rows that satisfied
    the old schema satisfy the new one, new columns reading as NULL - provided
    record columns keep their nested fields, which the check does not look at. *)
Theorem schema_evolution_keeps_rows (oldSchema newSchema : schema) (rows : list row) :
  validateSchemaEvolution oldSchema newSchema = Ok tt →
  (∀ i f f', oldSchema !! i = Some f → newSchema !! i = Some f' → nested_kept f f') →
  Forall (λ r, (length r ≤ length oldSchema)%nat) rows →
  validateStoredRows oldSchema rows = None → validateStoredRows newSchema rows = None.
Proof.
  intros He Hk Hlen. rewrite !validateStoredRows_none, !Forall_forall. intros Hold r Hr i f' Hi.
  destruct (evolution_spec _ _ He) as [Hev Hnew]. destruct (oldSchema !! i) as [f|] eqn:Ei.
  - destruct (Hev i f Ei) as (g & Hg & Hfe). simplify_eq. eapply cell_evolves; [exact Hfe|by eapply Hk|by apply Hold].
  - apply lookup_ge_None in Ei. unfold cell_at. rewrite Forall_forall in Hlen. specialize (Hlen r Hr).
    rewrite lookup_ge_None_2 by lia. simpl. unfold cell_conforms. vm_compute (loadStoredCell storedNullCell).
    by rewrite (Hnew i f' Ei Hi).
Qed.

(** ** Reading a configuration back *)

Lemma format_int_plain z : all_chars target_byte (format_int z) = true.
Proof.
  assert (∀ u, all_chars target_byte (NilZero.string_of_uint u) = true) as Hu.
  { intros u. assert (all_chars target_byte (NilEmpty.string_of_uint u) = true) as He by (by induction u).
    by destruct u. }
  unfold format_int, NilZero.string_of_int. destruct (Z.to_int z); simpl; apply Hu.
Qed.

Lemma parse_rendered z : in_i64 z → parseExactInt64 (JStr (format_int z)) = Some z.
Proof. intros Hz. simpl. rewrite (trim_target _ (format_int_plain z)). by apply parse_format_int. Qed.

Lemma time_type_fixed ty : ty ∈ partition_types → to_upper (trim_space ty) = ty.
Proof.
  unfold partition_types. rewrite !elem_of_cons, elem_of_nil. intros [->|[->|[->|[->|[]]]]]; vm_compute; reflexivity.
Qed.

Lemma column_name sch name f : column_at sch name f → equal_fold name (Name f) = true.
Proof.
  intros (Ht & _ & i & Hf). apply find_field_spec in Hf as (_ & _ & He & _). rewrite Ht in He. by rewrite equal_fold_sym.
Qed.

Lemma time_field_ingestion sch ty :
  Forall (λ r, findTopLevelField sch r = None) reserved_names → time_field sch ty None = Ok "".
Proof.
  intros Hres. unfold time_field.
  destruct (List.find (λ r, bool_decide (is_Some (findTopLevelField sch r))) reserved_names) as [r|] eqn:E; [|done]. exfalso.
  apply List.find_some in E as [Hin Hr]. bools. rewrite Forall_forall in Hres.
  rewrite (Hres r) in Hr by (by apply list_elem_of_In). by destruct Hr.
Qed.

Lemma rendered_time sch c :
  time_config_ok sch c → (tpc_Field c = "" → Forall (λ r, findTopLevelField sch r = None) reserved_names) →
  ∃ c', parseTimePartitioning (render_time_partitioning c) sch = Ok c' ∧
    sameTimePartitioningDefinition (Some c) (Some c') = true ∧ tpc_ExpirationMs c' = tpc_ExpirationMs c.
Proof.
  destruct c as [ty field ex]. intros (Hty & Hx & Hf) Hres. cbn [tpc_Type tpc_Field tpc_ExpirationMs] in *.
  assert (∃ name, time_field sch ty (if bool_decide (field = "") then None else Some (JStr field)) = Ok name ∧
    equal_fold field name = true) as (name & Hname & Hfold).
  { case_bool_decide as Ef; [subst; exists ""; split; [by apply time_field_ingestion, Hres|done]|].
    destruct (Hf Ef) as (g & Hg & Ht & Hmode & Hh). exists (Name g). split; [|by eapply column_name].
    pose proof Hg as (Htr & _ & i & Hfind). unfold time_field. rewrite Htr, Hfind.
    rewrite (bool_decide_eq_false_2 (field = "")) by done. cbn -[trim_space].
    rewrite (bool_decide_eq_true_2 (to_upper _ ∈ _)), (bool_decide_eq_false_2 (normalizeMode (Mode g) = "REPEATED")) by done.
    cbn -[trim_space]. destruct (_ && _) eqn:E; [|done]. bools. subst. specialize (Hh eq_refl). congruence. }
  exists (TimePartitioning ty name ex). split; [|split; [simpl; by rewrite equal_fold_refl|done]].
  set (obj := [("type", JStr ty)] ++ when (negb (bool_decide (field = ""))) [("field", JStr field)] ++
    when (0 <? ex) [("expirationMs", JStr (format_int ex))]).
  assert (obj_lookup obj "type" = Some (JStr ty) ∧
    obj_lookup obj "field" = (if bool_decide (field = "") then None else Some (JStr field)) ∧
    obj_lookup obj "expirationMs" = (if 0 <? ex then Some (JStr (format_int ex)) else None)) as (L1 & L2 & L3)
    by (subst obj; case_bool_decide; destruct (0 <? ex); done).
  change (parseTimePartitioning (JObj obj) sch = Ok (TimePartitioning ty name ex)).
  unfold parseTimePartitioning. rewrite L1, L2, L3. cbn -[time_field parseExactInt64 trim_space]. rewrite (time_type_fixed ty Hty).
  rewrite (bool_decide_eq_true_2 (ty ∈ partition_types)) by done. cbn -[time_field parseExactInt64].
  destruct (0 <? ex) eqn:E; bools.
  - rewrite parse_rendered by (unfold in_i64, min_i64, max_i64, max_expiration in *; lia). cbn -[time_field].
    rewrite (proj2 (Z.leb_gt ex 0)), (proj2 (Z.ltb_ge max_expiration ex)) by lia. cbn -[time_field]. by rewrite Hname.
  - cbn -[time_field]. rewrite Hname. simpl. by replace ex with 0 by lia.
Qed.

Lemma rendered_range sch c :
  range_config_ok sch c →
  ∃ c', parseRangePartitioning (render_range_partitioning c) sch = Ok c' ∧ sameRangePartitioning (Some c) (Some c') = true.
Proof.
  destruct c as [field start end_ interval]. intros ((f & Hc & Hi & Hm) & Hs & He & Hv & Hlt & Hpos).
  cbn [rpc_Field rpc_Start rpc_End rpc_Interval] in *. exists (RangePartitioning (Name f) start end_ interval).
  split; [|simpl; rewrite (column_name _ _ _ Hc), !Z.eqb_refl; done].
  destruct Hc as (Htr & Hne & i & Hfind).
  set (range := [("start", JStr (format_int start)); ("end", JStr (format_int end_)); ("interval", JStr (format_int interval))]).
  set (obj := [("field", JStr field); ("range", JObj range)]).
  change (parseRangePartitioning (JObj obj) sch = Ok (RangePartitioning (Name f) start end_ interval)).
  assert (obj_get obj "field" = JStr field ∧ obj_get obj "range" = JObj range) as [L1 L2] by done.
  assert (obj_get range "start" = JStr (format_int start) ∧ obj_get range "end" = JStr (format_int end_) ∧
    obj_get range "interval" = JStr (format_int interval)) as (L3 & L4 & L5) by done.
  clearbody obj range. unfold parseRangePartitioning. rewrite L1, L2. rewrite (bool_decide_eq_false_2 (trim_space field = "")) by congruence.
  cbn -[parseExactInt64 findTopLevelField]. rewrite Hfind. cbn -[parseExactInt64].
  rewrite Hi, (bool_decide_eq_false_2 (normalizeMode (Mode f) = "REPEATED")) by done. cbn -[parseExactInt64 obj_get].
  rewrite L3, L4, L5, !parse_rendered by done. cbn.
  rewrite (proj2 (Z.leb_gt end_ start)), (proj2 (Z.leb_gt interval 0)) by lia. done.
Qed.

(** A client can send back what it was given: the partitioning that a sound
    table renders is accepted for its schema, and read as the same definition, so
    a read-modify-write of the table is not refused as a change of partitioning. *)
Theorem rendered_partitioning_accepted (sch : schema) (tc : timePartitioningConfig) (rc : rangePartitioningConfig) :
  time_config_ok sch tc → (tpc_Field tc = "" → Forall (λ r, findTopLevelField sch r = None) reserved_names) →
  range_config_ok sch rc →
  (∃ tc', parseTimePartitioning (render_time_partitioning tc) sch = Ok tc' ∧
     sameTimePartitioningDefinition (Some tc) (Some tc') = true ∧ tpc_ExpirationMs tc' = tpc_ExpirationMs tc) ∧
  (∃ rc', parseRangePartitioning (render_range_partitioning rc) sch = Ok rc' ∧
     sameRangePartitioning (Some rc) (Some rc') = true).
Proof. intros Ht Hres Hr. split; [by apply rendered_time|by apply rendered_range]. Qed.

(** ** Concrete requests *)

Section Concrete.
#[local] Existing Instance unix_seconds.
#[local] Existing Instance no_floats.
#[local] Instance no_parser : GoogleSqlParser := λ _, None.
#[local] Instance no_engine : QueryEngine := {| engine_open := λ _, false; engine_query := λ _ _ _, None |}.
#[local] Instance no_files : ExternalFiles := λ _ _, None.
#[local] Instance no_detector : SchemaDetector := λ _, None.

Definition column (name typ mode : string) : json := JObj [("name", JStr name); ("type", JStr typ); ("mode", JStr mode)].
Definition schema_body (columns : list json) : json := JObj [("fields", JArr columns)].

Definition create_body (columns : list json) (options : object) : option object :=
  Some ([("tableReference", JObj [("tableId", JStr "logs")]); ("schema", schema_body columns)] ++ options).

Definition by_day : object := [("timePartitioning", JObj [("type", JStr "DAY"); ("field", JStr "day")])].
Definition ingestion_time : object := [("timePartitioning", JObj [("type", JStr "DAY")])].

Definition empty_server : server := Server newDatasetService newTableService.
Definition demo_serve (requests : list (Z * tableRequest)) : server := foldl (serve "p") empty_server requests.

Definition stored (s : server) : option tableRecord := lookup_table (srv_tables s) "p" "d" "logs".

(** A partitioned table, a patch that renames its column (refused) and one that
    adds a column and clusters by it (accepted). *)
Definition demo_requests : list (Z * tableRequest) :=
  [(1, RInsert "d" (create_body [column "day" "DATE" "REQUIRED"] by_day));
   (2, RPatch "d" "logs" (Some [("schema", schema_body [column "when" "DATE" ""])]));
   (3, RPatch "d" "logs" (Some [("schema", schema_body [column "day" "DATE" ""; column "level" "STRING" ""]);
                                ("clustering", JObj [("fields", JArr [JStr "LEVEL"])])]))].

Lemma table_configs_sound_witness :
  configs_ok (srv_tables (demo_serve demo_requests)) ∧
  (λ t, (map Name (tr_Schema t), tr_TimePartitioning t, tr_Clustering t)) <$> stored (demo_serve demo_requests) =
    Some (["day"; "level"], Some (TimePartitioning "DAY" "day" 0), ["level"]).
Proof.
  split; [|vm_compute; reflexivity]. apply (table_configs_sound "p" demo_requests newDatasetService); [by vm_compute|].
  repeat constructor.
Defined.

(** Adding a column with the name reserved for the ingestion time: refused when
    the table is created, accepted by a later patch. *)
Example reserved_column_by_patch :
  (insertTable 1 "p" "d" (create_body [column "_PARTITIONTIME" "STRING" ""] ingestion_time) empty_server).2 =
    Err (ReservedField "_PARTITIONTIME") ∧
  (λ t, (map Name (tr_Schema t), tr_TimePartitioning t)) <$>
    stored (demo_serve [(1, RInsert "d" (create_body [column "x" "STRING" ""] ingestion_time));
                        (2, RPatch "d" "logs" (Some [("schema",
                              schema_body [column "x" "STRING" ""; column "_PARTITIONTIME" "STRING" ""])]))]) =
    Some (["x"; "_PARTITIONTIME"], Some (TimePartitioning "DAY" "" 0)).
Proof. split; vm_compute; reflexivity. Qed.

(** The schema a table shows is not one that it accepts: an INT64 column is
    rendered as INTEGER, which a patch refuses as a change of type, and which
    cannot be a range partitioning column. *)
Example shown_schema_is_refused :
  let created := demo_serve [(1, RInsert "d" (create_body [column "n" "INT64" ""] []))] in
  let shown := t ← stored created; Some (JObj [("fields", renderTableSchemaFields (tr_Schema t))]) in
  is_Some shown ∧
  (patchTable 2 (λ ts, ts) "p" "d" "logs" (s ← shown; Some [("schema", s)]) created).2 = Err (ColumnRetyped 0) ∧
  (λ v, (insertTable 2 "p" "d" (Some [("tableReference", JObj [("tableId", JStr "copy")]); ("schema", v);
       ("rangePartitioning", JObj [("field", JStr "n");
          ("range", JObj [("start", JStr "0"); ("end", JStr "9"); ("interval", JStr "1")])])]) created).2) <$> shown =
    Some (Err RangeFieldType).
Proof. vm_compute. split; [by eexists|]. split; reflexivity. Qed.

(** Two patches that interleave: each is checked against the table without the
    other's column, and the second write drops the column of the first. *)
Example concurrent_patch_drops_column :
  let add name := [("schema", schema_body [column "x" "STRING" ""; column name "STRING" ""])] in
  let created := demo_serve [(1, RInsert "d" (create_body [column "x" "STRING" ""] []))] in
  let between ts := srv_tables (patchTable 2 (λ ts, ts) "p" "d" "logs" (Some (add "a")) (Server newDatasetService ts)).1 in
  (λ t, map Name (tr_Schema t)) <$> stored (Server newDatasetService (between (srv_tables created))) = Some ["x"; "a"] ∧
  (λ t, map Name (tr_Schema t)) <$> stored (patchTable 2 between "p" "d" "logs" (Some (add "b")) created).1 = Some ["x"; "b"].
Proof. split; vm_compute; reflexivity. Qed.
End Concrete.

Definition level_field : tableField := TableField "level" "STRING" "REQUIRED" [].

Lemma schema_evolution_keeps_rows_witness :
  let new := [TableField "level" "STRING" "" []; TableField "extra" "INT64" "NULLABLE" []] in
  validateSchemaEvolution [level_field] new = Ok tt ∧ validateStoredRows new [["info"]] = None.
Proof.
  intros new. split; [vm_compute; reflexivity|].
  apply (schema_evolution_keeps_rows [level_field] new [["info"]]); try (vm_compute; reflexivity).
  - intros [|[|i]] f f' Hf Hf'; simpl in *; simplify_eq; by intros _.
  - constructor; [simpl; lia|constructor].
Defined.

(** Nested fields are not compared: a patch that makes a nested field required is
    accepted, and the rows no longer fit. *)
Example nested_change_breaks_rows :
  let point mode := [TableField "pt" "STRUCT" "NULLABLE" [TableField "x" "INT64" mode []]] in
  let rows := [["{}"]] in
  validateSchemaEvolution (point "NULLABLE") (point "REQUIRED") = Ok tt ∧
  validateStoredRows (point "NULLABLE") rows = None ∧ validateStoredRows (point "REQUIRED") rows ≠ None.
Proof. split_and!; vm_compute; done. Qed.

Lemma rendered_partitioning_accepted_witness :
  let sch := [TableField "day" "DATE" "" []; TableField "n" "INT64" "" []] in
  let tc := TimePartitioning "MONTH" "day" 86400000 in
  let rc := RangePartitioning "n" (-10) 10 5 in
  (∃ tc', parseTimePartitioning (render_time_partitioning tc) sch = Ok tc' ∧
     sameTimePartitioningDefinition (Some tc) (Some tc') = true ∧ tpc_ExpirationMs tc' = tpc_ExpirationMs tc) ∧
  (∃ rc', parseRangePartitioning (render_range_partitioning rc) sch = Ok rc' ∧
     sameRangePartitioning (Some rc) (Some rc') = true).
Proof.
  intros sch tc rc. apply (rendered_partitioning_accepted sch tc rc).
  - split; [apply (bool_decide_unpack _); by vm_compute|]. split; [unfold max_expiration; simpl; lia|].
    intros _. exists (TableField "day" "DATE" "" []). split_and!; [|apply (bool_decide_unpack _); by vm_compute|by vm_compute|done].
    split_and!; [vm_compute; reflexivity|done|]. exists 0%nat. vm_compute. reflexivity.
  - done.
  - split; [|unfold in_i64, min_i64, max_i64; simpl; lia]. exists (TableField "n" "INT64" "" []). split_and!; [|vm_compute; reflexivity|by vm_compute].
    split_and!; [vm_compute; reflexivity|done|]. exists 1%nat. vm_compute. reflexivity.
Defined.
