(* ===== verification/InformationSchema.v ===== *)
(** * INFORMATION_SCHEMA views (bigquery.go)

    A query whose text mentions a view of INFORMATION_SCHEMA is answered from
    the services' own listings, whatever else the query says.  [emulator] is the
    state of all the services a view may read; the listings seed and purge as
    the services do.  The text of a fractional number of days is the parameter
    [format_days] (Go's float64 division and formatting). *)

From S2P Require Import Prelude GoStrings Regexp SqlPatterns GoTime GoJson Pagination Cells TableModel SqlStatements Partitioning TableStore Datasets Sessions Jobs MetadataStore EnginePool QueryParams SqlResolve SqlExec TableInvariants.
From Stdlib Require Import Ascii.

Record emulator := Emulator {
  em_server : server; em_sessions : sessionService; em_jobs : jobService;
  em_routines : routineService; em_models : modelService }.
#[export] Instance emulator_eta : Eta emulator := λ e,
  Emulator (em_server e) (em_sessions e) (em_jobs e) (em_routines e) (em_models e).

(** ** Which view a text mentions *)

#[local] Open Scope re_scope.

Definition qualifier (n : nat) : re := ropt (tick ⋅ RGroup n (rplus name_class) ⋅ tick ⋅ lit ".").
Definition view_names : list string :=
  ["schemata_options"; "schemata"; "table_options"; "tables"; "columns"; "jobs_by_project"; "jobs_by_user"; "jobs";
   "partitions"; "routines"; "parameters"; "models"; "materialized_views"; "views"; "sessions_by_user"].
Definition alternatives (l : list string) : re :=
  match l with
  | [] => REps
  | x :: l => foldl (λ r y, r ∥ ilit y) (ilit x) l
  end.
Definition informationSchemaPattern : re :=
  qualifier 1 ⋅ qualifier 2 ⋅ ilit "information_schema" ⋅ lit "." ⋅ RGroup 3 (alternatives view_names).

(** The project and dataset the qualifiers stand for. *)
Definition resolveInformationSchemaTarget (ds : datasetService) (projectID rawProject rawDataset : string)
    : datasetService * (string * string) :=
  let '(first, second) := (trim_space rawProject, trim_space rawDataset) in
  if bool_decide (second ≠ "") then
    (ds, (if bool_decide (first ≠ "") then first else projectID, second))
  else if bool_decide (first ≠ "") then
    if bool_decide (first = projectID) then (ds, (first, ""))
    else let '(ds, found) := datasets_exists ds projectID first in
         (ds, if found : bool then (projectID, first) else (first, ""))
  else (ds, (projectID, "")).

Record informationSchemaScope := Scope {
  sc_targetProjectID : string; sc_datasets : list datasetRecord;
  sc_targetDatasetID : string; sc_callingUserEmail : string }.

(** [filterDataset] *)
Definition in_scope (sc : informationSchemaScope) (d : datasetRecord) : bool :=
  bool_decide (sc_targetDatasetID sc = "") || bool_decide (ds_DatasetID d = sc_targetDatasetID sc).

(** The items of the first page of a listing. *)
Definition first_page {A} (r : res Empty_set (list A * Z * Z)) : list A :=
  match r with Ok (items, _, _) => items | _ => [] end.

Section Views.
Context `{TimestampParser}.
Variable now : Z.
Variable format_days : Z → string.

(** A view's rows, with the state the listings leave. *)
Definition builder : Type := informationSchemaScope → emulator → emulator * list row.

Fixpoint collect {A S} (f : A → S → S * list row) (l : list A) (s : S) : S * list row :=
  match l with
  | [] => (s, [])
  | a :: l => let '(s, rows) := f a s in
              let '(s, rest) := collect f l s in (s, rows ++ rest)
  end.

Definition scoped_datasets (sc : informationSchemaScope) : list datasetRecord :=
  filter (λ d, in_scope sc d = true) (sc_datasets sc).

Definition with_tables {A} (f : tableService → tableService * A) (e : emulator) : emulator * A :=
  let '(ts, a) := f (srv_tables (em_server e)) in
  (e <| em_server ::= λ s, s <| srv_tables := ts |> |>, a).

Definition forEachTable (sc : informationSchemaScope) (f : string → tableRecord → emulator → emulator * list row)
    (e : emulator) : emulator * list row :=
  collect (λ d e,
    let '(e, r) := with_tables (λ ts, tables_list ts (sc_targetProjectID sc) (ds_DatasetID d) 0 1000 now) e in
    collect (f (ds_DatasetID d)) (first_page r) e) (scoped_datasets sc) e.

(** A view that needs no more than the listed table. *)
Definition per_table (f : string → tableRecord → list row) : string → tableRecord → emulator → emulator * list row :=
  λ d t e, (e, f d t).

Definition buildInformationSchemaSchemata : builder := λ sc e,
  (e, (λ d, [sc_targetProjectID sc; ds_DatasetID d]) <$> scoped_datasets sc).

Definition row_if (b : bool) (r : row) : list row := if b then [r] else [].
Definition nonblank (s : string) : bool := bool_decide (trim_space s ≠ "").

Definition buildInformationSchemaSchemataOptions : builder := λ sc e,
  (e, flat_map (λ d,
     let option_row name type value := [sc_targetProjectID sc; ds_DatasetID d; name; type; value] in
     row_if (nonblank (ds_Location d)) (option_row "location" "STRING" (ds_Location d)) ++
     row_if (nonblank (ds_FriendlyName d)) (option_row "friendly_name" "STRING" (ds_FriendlyName d)) ++
     row_if (0 <? ds_DefaultTableExpirationMs d)
       (option_row "default_table_expiration_ms" "INT64" (format_int (ds_DefaultTableExpirationMs d))))
     (scoped_datasets sc)).

Definition table_type (t : tableRecord) : string :=
  match tr_External t, tr_View t with
  | Some _, _ => "EXTERNAL"
  | None, Some v => if view_Materialized v then "MATERIALIZED VIEW" else "VIEW"
  | None, None => "BASE TABLE"
  end.

Definition buildInformationSchemaTables : builder := λ sc,
  forEachTable sc (per_table (λ d t, [[sc_targetProjectID sc; d; tr_TableID t; table_type t]])).

Definition is_partitioning (t : tableRecord) (name : string) : bool :=
  match tr_TimePartitioning t with Some c => equal_fold (tpc_Field c) name | None => false end ||
  match tr_RangePartitioning t with Some c => equal_fold (rpc_Field c) name | None => false end.

Definition clustering_ordinal (t : tableRecord) (name : string) : string :=
  match list_find (λ f, equal_fold f name = true) (tr_Clustering t) with
  | Some (i, _) => format_int (Z.of_nat i + 1)
  | None => storedNullCell
  end.

Definition buildInformationSchemaColumns : builder := λ sc,
  forEachTable sc (λ d t e,
    let '(e, data) := with_tables (λ ts, tables_getData ts (sc_targetProjectID sc) d (tr_TableID t) now) e in
    (e, match data with
        | None => []
        | Some (fields, _) =>
            imap (λ i f, [sc_targetProjectID sc; d; tr_TableID t; Name f; format_int (Z.of_nat i + 1); Type_ f;
                          if is_partitioning t (Name f) then "YES" else "NO"; clustering_ordinal t (Name f)]) fields
        end)).

Definition jobRecordsToInformationSchemaRows (items : list jobRecord) : list row :=
  (λ j, [jr_ProjectID j; jr_JobID j; jr_JobType j; jobState_text (jr_State j); jr_UserEmail j;
         format_int (unix_milli (jr_CreatedAt j)); format_int (unix_milli (jr_EndedAt j))]) <$> items.

Definition buildInformationSchemaJobs : builder := λ sc e,
  (e, jobRecordsToInformationSchemaRows
        (first_page (jobs_list (em_jobs e) (sc_targetProjectID sc)
           (JobListFilters "" "" true "" zero_time zero_time) 0 1000))).

Definition buildInformationSchemaJobsByUser : builder := λ sc e,
  (e, if nonblank (sc_callingUserEmail sc) then
        jobRecordsToInformationSchemaRows
          (first_page (jobs_list (em_jobs e) (sc_targetProjectID sc)
             (JobListFilters "" (sc_callingUserEmail sc) false "" zero_time zero_time) 0 1000))
      else []).

Definition buildInformationSchemaSessionsByUser : builder := λ sc e,
  if nonblank (sc_callingUserEmail sc) then
    let '(ss, recs) := sessions_list (em_sessions e) (sc_targetProjectID sc) now in
    (e <| em_sessions := ss |>,
     (λ r, [format_int (unix_milli (se_CreatedAt r)); se_SessionID r; format_int (unix_milli (se_LastUsedAt r)); "true"])
       <$> filter (λ r, se_UserEmail r = sc_callingUserEmail sc) recs)
  else (e, []).

Definition buildInformationSchemaPartitions : builder := λ sc,
  forEachTable sc (per_table (λ d t,
    if is_native t then
      let counts := partitionCounts t in
      (λ id, [sc_targetProjectID sc; d; tr_TableID t; id; format_int (default 0 (counts !! id))])
        <$> sortedPartitionIDs counts
    else [])).

(** The listing of a metadata store in every dataset of the scope. *)
Definition each_routine (sc : informationSchemaScope) (f : string → routineRecord → list row) (e : emulator)
    : emulator * list row :=
  collect (λ d e,
    let '(rs, r) := routines_list (em_routines e) (sc_targetProjectID sc) (ds_DatasetID d) 0 1000 in
    (e <| em_routines := rs |>, flat_map (f (ds_DatasetID d)) (first_page r))) (scoped_datasets sc) e.

Definition buildInformationSchemaRoutines : builder := λ sc,
  each_routine sc (λ d r, [[sc_targetProjectID sc; d; rr_RoutineID r; rr_RoutineType r]]).

Definition buildInformationSchemaParameters : builder := λ sc,
  each_routine sc (λ d r,
    imap (λ i a, [sc_targetProjectID sc; d; rr_RoutineID r; format_int (Z.of_nat i + 1); "IN"; ra_Name a; ra_DataType a])
      (rr_Arguments r)).

Definition buildInformationSchemaModels : builder := λ sc e,
  collect (λ d e,
    let '(ms, r) := models_list (em_models e) (sc_targetProjectID sc) (ds_DatasetID d) 0 1000 in
    (e <| em_models := ms |>,
     (λ m, [sc_targetProjectID sc; ds_DatasetID d; mr_ModelID m; mr_ModelType m]) <$> first_page r))
    (scoped_datasets sc) e.

Definition buildInformationSchemaTableOptions : builder := λ sc,
  forEachTable sc (per_table (λ d t,
    let option_row name type value := [sc_targetProjectID sc; d; tr_TableID t; name; type; value] in
    row_if (nonblank (tr_FriendlyName t)) (option_row "friendly_name" "STRING" (tr_FriendlyName t)) ++
    row_if (nonblank (tr_Description t)) (option_row "description" "STRING" (tr_Description t)) ++
    row_if (tr_RequirePartitionFilter t) (option_row "require_partition_filter" "BOOL" "true") ++
    match tr_TimePartitioning t with
    | Some c => row_if (0 <? tpc_ExpirationMs c)
                  (option_row "partition_expiration_days" "FLOAT64" (format_days (tpc_ExpirationMs c)))
    | None => []
    end)).

Definition buildInformationSchemaViews : builder := λ sc,
  forEachTable sc (per_table (λ d t,
    match tr_View t with
    | Some v => row_if (negb (view_Materialized v)) [sc_targetProjectID sc; d; tr_TableID t; view_Query v; "true"]
    | None => []
    end)).

Definition buildInformationSchemaMaterializedViews : builder := λ sc,
  forEachTable sc (per_table (λ d t,
    match tr_View t with
    | Some v => row_if (view_Materialized v) [sc_targetProjectID sc; d; tr_TableID t; view_Query v]
    | None => []
    end)).

(** ** The views by name *)

Definition strings (names : list string) : schema := (λ n, col n "STRING") <$> names.

Definition jobsInformationSchemaColumns : schema :=
  strings ["project_id"; "job_id"; "job_type"; "state"; "user_email"] ++
  [col "creation_time" "INT64"; col "end_time" "INT64"].

Definition informationSchemaBuilders : list (string * (schema * builder)) :=
  [("schemata", (strings ["catalog_name"; "schema_name"], buildInformationSchemaSchemata));
   ("schemata_options", (strings ["catalog_name"; "schema_name"; "option_name"; "option_type"; "option_value"],
                         buildInformationSchemaSchemataOptions));
   ("tables", (strings ["table_catalog"; "table_schema"; "table_name"; "table_type"], buildInformationSchemaTables));
   ("columns", (strings ["table_catalog"; "table_schema"; "table_name"; "column_name"] ++
                [col "ordinal_position" "INT64"; col "data_type" "STRING"; col "is_partitioning_column" "STRING";
                 col "clustering_ordinal_position" "INT64"], buildInformationSchemaColumns));
   ("jobs", (jobsInformationSchemaColumns, buildInformationSchemaJobs));
   ("jobs_by_project", (jobsInformationSchemaColumns, buildInformationSchemaJobs));
   ("jobs_by_user", (jobsInformationSchemaColumns, buildInformationSchemaJobsByUser));
   ("partitions", (strings ["table_catalog"; "table_schema"; "table_name"; "partition_id"] ++ [col "total_rows" "INT64"],
                   buildInformationSchemaPartitions));
   ("routines", (strings ["routine_catalog"; "routine_schema"; "routine_name"; "routine_type"],
                 buildInformationSchemaRoutines));
   ("parameters", (strings ["specific_catalog"; "specific_schema"; "specific_name"] ++
                   [col "ordinal_position" "INT64"] ++ strings ["parameter_mode"; "parameter_name"; "data_type"],
                   buildInformationSchemaParameters));
   ("models", (strings ["model_catalog"; "model_schema"; "model_name"; "model_type"], buildInformationSchemaModels));
   ("table_options", (strings ["table_catalog"; "table_schema"; "table_name"; "option_name"; "option_type"; "option_value"],
                      buildInformationSchemaTableOptions));
   ("views", (strings ["table_catalog"; "table_schema"; "table_name"; "view_definition"; "use_standard_sql"],
              buildInformationSchemaViews));
   ("materialized_views", (strings ["table_catalog"; "table_schema"; "table_name"; "view_definition"],
                           buildInformationSchemaMaterializedViews));
   ("sessions_by_user", ([col "creation_time" "INT64"; col "session_id" "STRING"; col "last_modified_time" "INT64";
                          col "is_active" "BOOL"], buildInformationSchemaSessionsByUser))].

(** [None]: not a query of INFORMATION_SCHEMA. *)
Definition simulateInformationSchemaQuery (projectID queryText callingUserEmail : string) (e : emulator)
    : option (emulator * (schema * list row)) :=
  if contains (to_lower queryText) "information_schema." then
    m ← Regexp.find informationSchemaPattern queryText;
    let '(ds, (targetProjectID, targetDatasetID)) :=
      resolveInformationSchemaTarget (srv_datasets (em_server e)) projectID (sub m 1) (sub m 2) in
    let objectType := to_lower (trim_space (sub m 3)) in
    let '(ds, r) := datasets_list ds targetProjectID 0 1000 in
    let e := e <| em_server ::= λ s, s <| srv_datasets := ds |> |> in
    let sc := Scope targetProjectID (first_page r) targetDatasetID callingUserEmail in
    '(_, (columns, build)) ← List.find (λ p, String.eqb p.1 objectType) informationSchemaBuilders;
    let '(e, rows) := build sc e in
    Some (e, (columns, rows))
  else None.

(** ** Rows have the view's columns *)

Create HintDb wide.

Definition wide (n : nat) (rows : list row) : Prop := Forall (λ r, length r = n) rows.

Lemma wide_collect {A S} n (f : A → S → S * list row) l : ∀ s,
  (∀ a s, wide n (f a s).2) → wide n (collect f l s).2.
Proof.
  induction l as [|a l IH]; intros s Hf; simpl; [constructor|]. specialize (Hf a s) as Hfa.
  destruct (f a s) as [s1 rows]. specialize (IH s1 Hf). destruct (collect f l s1). by apply Forall_app.
Qed.
Lemma wide_tables n sc f e : (∀ d t e, wide n (f d t e).2) → wide n (forEachTable sc f e).2.
Proof.
  intros Hf. apply wide_collect. intros d e'. destruct (with_tables _ e') as [e1 r]. apply wide_collect. intros. apply Hf.
Qed.
Lemma wide_per_table n sc f e : (∀ d t, wide n (f d t)) → wide n (forEachTable sc (per_table f) e).2.
Proof. intros Hf. apply wide_tables. intros. apply Hf. Qed.
Lemma wide_routines n sc f e : (∀ d r, wide n (f d r)) → wide n (each_routine sc f e).2.
Proof.
  intros Hf. apply wide_collect. intros d e'. destruct (routines_list _ _ _ _ _) as [rs r]. simpl.
  induction (first_page r) as [|x l IH]; simpl; [constructor|]. apply Forall_app. split; [apply Hf|exact IH].
Qed.
Lemma wide_if n b r : length r = n → wide n (row_if b r).
Proof. intros Hr. destruct b; [by constructor|constructor]. Qed.
Lemma wide_fmap {A} n (f : A → row) l : (∀ a, length (f a) = n) → wide n (f <$> l).
Proof. intros Hf. apply Forall_fmap, Forall_true. done. Qed.
Lemma wide_imap {A} n (f : nat → A → row) l : (∀ i a, length (f i a) = n) → wide n (imap f l).
Proof.
  intros Hf. apply Forall_lookup_2. intros i r Hi. rewrite list_lookup_imap in Hi.
  apply fmap_Some in Hi as (x & _ & ->). apply Hf.
Qed.
Lemma wide_app n a b : wide n a → wide n b → wide n (a ++ b).
Proof. intros. by apply Forall_app. Qed.
Lemma wide_one n r : length r = n → wide n [r].
Proof. by repeat constructor. Qed.

#[local] Hint Resolve wide_if wide_fmap wide_imap wide_app wide_one Forall_nil_2 : wide.

Lemma wide_builders : Forall (λ p, ∀ sc e, wide (length p.2.1) (p.2.2 sc e).2) informationSchemaBuilders.
Proof.
  unfold informationSchemaBuilders.
  repeat (apply Forall_cons; split); [intros sc e; cbn [fst snd]..|apply Forall_nil; exact I].
  - by apply wide_fmap.
  - cbn [buildInformationSchemaSchemataOptions snd]. induction (scoped_datasets sc); simpl; [constructor|].
    repeat apply wide_app; by auto with wide.
  - apply wide_per_table. intros. by apply wide_one.
  - apply wide_tables. intros d t e'. destruct (with_tables _ e') as [e1 [[fields rows]|]]; [|constructor].
    by apply wide_imap.
  - by apply wide_fmap.
  - by apply wide_fmap.
  - unfold buildInformationSchemaJobsByUser. simpl. case_match; [by apply wide_fmap|constructor].
  - apply wide_per_table. intros. case_match; [by apply wide_fmap|constructor].
  - apply wide_routines. intros. by apply wide_one.
  - apply wide_routines. intros. by apply wide_imap.
  - apply wide_collect. intros d e'. destruct (models_list _ _ _ _ _). by apply wide_fmap.
  - apply wide_per_table. intros. repeat apply wide_app; try (by apply wide_if). case_match; [by apply wide_if|constructor].
  - apply wide_per_table. intros. case_match; [by apply wide_if|constructor].
  - apply wide_per_table. intros. case_match; [by apply wide_if|constructor].
  - unfold buildInformationSchemaSessionsByUser. case_match; [|constructor]. destruct (sessions_list _ _ _).
    by apply wide_fmap.
Qed.

(** INFORMATION_SCHEMA answers are well typed: every row of every view, in
    any state of the services, has exactly one cell for each column of the
    schema it is returned with. *)
Theorem information_schema_typed (p q user : string) (e e' : emulator) (columns : schema) (rows : list row) :
  simulateInformationSchemaQuery p q user e = Some (e', (columns, rows)) →
  columns ≠ [] ∧ Forall (λ r, length r = length columns) rows.
Proof.
  unfold simulateInformationSchemaQuery. destruct (contains _ _); [|done]. intros Hm.
  apply bind_Some in Hm as (m & _ & Hm). destruct (resolveInformationSchemaTarget _ _ _ _) as [ds [tp td]].
  destruct (datasets_list ds tp 0 1000) as [ds1 page].
  apply bind_Some in Hm as ([name [cols build]] & Hf & Hm). apply List.find_some in Hf as [Hin _].
  pose proof wide_builders as Hw. rewrite List.Forall_forall in Hw. specialize (Hw _ Hin). simpl in Hw.
  match type of Hm with context [build ?sc ?e1] => specialize (Hw sc e1); destruct (build sc e1) as [e2 rows2] end.
  simplify_eq. split; [|exact Hw]. clear -Hin. unfold informationSchemaBuilders in Hin. simpl in Hin.
  by destruct_or! Hin; injection Hin as <- <- <-.
Qed.

(** ** INFORMATION_SCHEMA.TABLES lists the tables *)

(** The live tables of a dataset, by id. *)
Definition live_table_list (ts : tableService) (p d : string) : list tableRecord :=
  let T := omap (purge_table now) (visible ts p d now) in omap (T !!.) (sorted_keys T).

Lemma page_slice_all {A} (l : list A) : (length l ≤ 1000)%nat → ∃ next, page_slice l 0 1000 = Ok (l, next).
Proof.
  intros Hl. unfold page_slice.
  assert ((Z.of_nat (length l) <? 0) = false) as -> by lia. change (i64_add 0 1000) with 1000.
  set (e := if Z.of_nat (length l) <? 1000 then _ else _).
  assert (e = Z.of_nat (length l)) as -> by (subst e; destruct (Z.of_nat (length l) <? 1000) eqn:E; lia).
  assert ((0 <? 0) || (Z.of_nat (length l) <? 0) = false) as -> by lia.
  rewrite Z.sub_0_r, Nat2Z.id, Z2Nat.inj_0, drop_0, firstn_all. by eexists.
Qed.

Lemma list_tables_spec ts p d :
  (length (live_table_list ts p d) ≤ 1000)%nat →
  let '(ts', r) := tables_list ts p d 0 1000 now in
  first_page r = live_table_list ts p d ∧
  ∀ d', d' ≠ d → dataset_tables ts' p d' = dataset_tables ts p d'.
Proof.
  unfold live_table_list, tables_list, ensure_and_purge. pose proof (ensure_spec ts p d now) as He.
  destruct (ensureDatasetLocked ts p d now) as [ts1 T]. destruct He as [-> He]. simpl.
  set (T := omap (purge_table now) (visible ts p d now)). intros Hl.
  destruct (page_slice_all (sorted_keys T)) as [next ->]; [|split; [done|]].
  - assert (length (omap (T !!.) (sorted_keys T)) = length (sorted_keys T)) as <-; [|done].
    assert (∀ ks, (∀ k, k ∈ ks → is_Some (T !! k)) → length (omap (T !!.) ks) = length ks) as Hk.
    { induction ks as [|k ks IH]; intros Hks; simpl; [done|]. destruct (Hks k) as [t Ht]; [by left|].
      rewrite Ht. simpl. f_equal. apply IH. intros k' Hk'. apply Hks. by right. }
    apply Hk. intros k. apply elem_of_sorted_keys.
  - intros d' Hd. transitivity (dataset_tables (set_tables p d T ts1) p d'); [by case_match|].
    rewrite dataset_tables_set, decide_False, He, decide_False by naive_solver. done.
Qed.

Definition table_rows (p d : string) (tables : list tableRecord) : list row :=
  (λ t, [p; d; tr_TableID t; table_type t]) <$> tables.

Lemma collect_per_table d (f : string → tableRecord → row) l e :
  collect (per_table (λ d t, [f d t]) d) l e = (e, f d <$> l).
Proof. induction l as [|t l IH]; simpl; [done|]. by rewrite IH. Qed.

(** INFORMATION_SCHEMA.TABLES is exact: for a scope of distinct datasets of up
    to a thousand tables each, it lists every live table of every dataset in
    scope - and no other - once, dataset by dataset in the order of the listing
    and by table id inside, with the type of table the catalog has. *)
Theorem information_schema_tables_exact (sc : informationSchemaScope) (e : emulator) :
  NoDup (ds_DatasetID <$> sc_datasets sc) →
  (∀ d, d ∈ scoped_datasets sc →
    (length (live_table_list (srv_tables (em_server e)) (sc_targetProjectID sc) (ds_DatasetID d)) ≤ 1000)%nat) →
  (buildInformationSchemaTables sc e).2 =
  flat_map (λ d, table_rows (sc_targetProjectID sc) (ds_DatasetID d)
                   (live_table_list (srv_tables (em_server e)) (sc_targetProjectID sc) (ds_DatasetID d)))
    (scoped_datasets sc).
Proof.
  intros Hnd Hsize. unfold buildInformationSchemaTables, forEachTable.
  assert (NoDup (ds_DatasetID <$> scoped_datasets sc)) as Hnd'.
  { eapply sublist_NoDup; [exact Hnd|]. apply fmap_sublist, sublist_filter. }
  clear Hnd. revert e Hsize Hnd'. induction (scoped_datasets sc) as [|d l IH]; intros e Hsize Hnd; [done|].
  apply NoDup_cons in Hnd as [Hd Hnd]. cbn [collect flat_map]. unfold with_tables at 1.
  pose proof (list_tables_spec (srv_tables (em_server e)) (sc_targetProjectID sc) (ds_DatasetID d) (Hsize d ltac:(by left))) as Hs.
  destruct (tables_list _ _ _ _ _ _) as [ts1 r]. destruct Hs as [-> Hframe].
  rewrite (collect_per_table (ds_DatasetID d) (λ d t, [sc_targetProjectID sc; d; tr_TableID t; table_type t])).
  set (e1 := e <| em_server ::= _ |>).
  assert (∀ d', d' ≠ ds_DatasetID d → live_table_list (srv_tables (em_server e1)) (sc_targetProjectID sc) d' =
    live_table_list (srv_tables (em_server e)) (sc_targetProjectID sc) d') as Hsame.
  { intros d' Hne. unfold live_table_list, visible. subst e1. simpl. by rewrite Hframe. }
  specialize (IH e1). destruct (collect _ l e1) as [e2 rest]. cbn [snd] in IH |- *. rewrite IH; clear IH.
  - unfold table_rows. f_equal. clear -Hsame Hd. induction l as [|d' l IH]; [done|]. cbn [flat_map].
    apply not_elem_of_cons in Hd as [Hd1 Hd2]. rewrite Hsame by done. f_equal. by apply IH.
  - intros d' Hd'. rewrite Hsame; [apply Hsize; by right|]. intros E. apply Hd. rewrite <-E. by apply list_elem_of_fmap_2.
  - done.
Qed.
End Views.

(** ** Concrete queries *)

Section Concrete.
#[local] Existing Instance unix_seconds.

Definition fresh_emulator : emulator :=
  Emulator (Server newDatasetService newTableService) (newSessionService "") newJobService newRoutineService newModelService.

Lemma information_schema_typed_witness :
  ∃ e' columns rows,
    simulateInformationSchemaQuery 5 (λ _, "1") "p" "SELECT * FROM `p`.ops.INFORMATION_SCHEMA.COLUMNS" "u" fresh_emulator =
      Some (e', (columns, rows)) ∧ length rows = 9%nat ∧ Forall (λ r, length r = length columns) rows.
Proof.
  destruct (simulateInformationSchemaQuery 5 (λ _, "1") "p" "SELECT * FROM `p`.ops.INFORMATION_SCHEMA.COLUMNS" "u"
    fresh_emulator) as [[e' [columns rows]]|] eqn:E; [|vm_compute in E; discriminate E].
  exists e', columns, rows. split; [done|].
  pose proof (proj2 (information_schema_typed 5 (λ _, "1") "p" "SELECT * FROM `p`.ops.INFORMATION_SCHEMA.COLUMNS" "u"
    fresh_emulator e' columns rows E)) as Hw.
  split; [|exact Hw]. clear Hw. vm_compute in E. injection E as <- <- <-. reflexivity.
Defined.

Lemma information_schema_tables_exact_witness :
  let sc := Scope "p" (first_page (datasets_list newDatasetService "p" 0 1000).2) "ops" "" in
  (buildInformationSchemaTables 5 sc fresh_emulator).2 =
  [["p"; "ops"; "daily_metrics"; "BASE TABLE"]; ["p"; "ops"; "events"; "BASE TABLE"];
   ["p"; "ops"; "raw_import"; "BASE TABLE"]; ["p"; "ops"; "users"; "BASE TABLE"]].
Proof.
  intros sc. rewrite information_schema_tables_exact.
  - vm_compute. reflexivity.
  - apply (bool_decide_unpack _). vm_compute. exact I.
  - intros d Hd. assert (scoped_datasets sc = [DatasetRecord "p" "ops" "" "" ∅ 0]) as E by (vm_compute; reflexivity).
    rewrite E in Hd. apply list_elem_of_singleton in Hd as ->. vm_compute. lia.
Defined.
End Concrete.
