(* ===== verification/QueryDispatch.v ===== *)
(** * One dispatcher for every statement (bigquery.go)

    [executeQueryStatement] tries, in order, session control, INFORMATION_SCHEMA,
    views, CREATE SCHEMA, ALTER TABLE, DDL and DML, and the query engine.  Two
    theorems about it: a statement that fails leaves the catalog as it was, and
    a statement that is not classified as mutating only reads - which is why a
    client may poll the results of a pending query. *)

From S2P Require Import Prelude GoStrings Regexp SqlPatterns GoTime GoJson Pagination Cells TableModel SqlStatements Partitioning Pruning TableStore TableInvariants Datasets Sessions EnginePool SqlText StorageWrite Jobs MetadataStore QueryParams SqlResolve SqlResolution SqlExec InformationSchema.
From Stdlib Require Import Ascii.

Section Dispatch.
Context `{TimestampParser} `{GoogleSqlParser} `{GoFloats} `{!QueryEngine} `{ExternalFiles} `{!StatementEngine}.
Variable now : Z.
Variable meanwhile : tableService → tableService.
Variable format_days : Z → string.

Inductive dispatchErr := SessionControlFailed (e : sessionErr) | StatementFailed (e : execErr).

Definition outcome : Type := emulator * res dispatchErr persistentSQLResult.

(** An executor on the server's part of the state. *)
Definition run_exec (m : X persistentSQLResult) (e : emulator) : outcome :=
  let '(s, r) := m (em_server e) in
  (e <| em_server := s |>, match r with Ok a => Ok a | Err x => Err (StatementFailed x) | Panic => Panic end).

Definition sessionControlResultSchema : schema := [col "result" "STRING"].

(** CREATE TEMP TABLE runs its query in the session, with the reads that takes. *)
Definition temp_table_query (projectID : string) (rec : sessionRecord) (query : string) : M (schema * list row * Z) :=
  executeRealSQLQueryWithParams now projectID query (Some rec) "" [].

Definition runs_query (stmt : string) : option string :=
  if match_string sessionBeginPattern stmt || match_string sessionCommitPattern stmt ||
     match_string sessionRollbackPattern stmt then None
  else (λ m, sub m 2) <$> Regexp.find sessionCreateTempTablePattern stmt.

(** Session control on the whole state: its result, or the session to go on with. *)
Definition control_session (projectID sessionID stmt : string) (e : emulator)
    : emulator * (controlResult * option sessionRecord) :=
  let exec rec query := match (temp_table_query projectID rec query (srv_tables (em_server e))).2 with
                        | inr (sch, rows, _) => Some (sch, rows)
                        | inl _ => None
                        end in
  let found := (sessions_get (em_sessions e) projectID sessionID now).2 in
  let ts := match found, runs_query stmt with
            | Some rec, Some query => (temp_table_query projectID rec query (srv_tables (em_server e))).1
            | _, _ => srv_tables (em_server e)
            end in
  let '(ss, r) := executeSessionControlStatement exec (em_sessions e) projectID sessionID stmt now in
  (e <| em_sessions := ss |> <| em_server ::= λ s, s <| srv_tables := ts |> |>, (r, found)).

Definition run_in (projectID : string) (sess : option sessionRecord) (trimmed callingUserEmail paramMode : string)
    (params : list storedQueryParameter) (counter : Z) (e : emulator) : outcome :=
  match simulateInformationSchemaQuery now format_days projectID trimmed callingUserEmail e with
  | Some (e, (sch, rows)) => (e, Ok (PersistentSQLResult sch rows "SELECT" 0 0))
  | None =>
      run_exec
        (default (λ s,
           let '(ts, r) := executeRealSQLQueryWithParams now projectID trimmed sess paramMode params (srv_tables s) in
           (s <| srv_tables := ts |>,
            match r with
            | inr (sch, rows, bytes) => Ok (PersistentSQLResult sch rows "SELECT" 0 bytes)
            | inl x => Err (QueryFailed x)
            end))
         (or_else (executePersistentViewStatement now meanwhile projectID trimmed sess)
         (or_else (executePersistentCreateSchemaStatement projectID trimmed)
         (or_else (executePersistentAlterTableStatement now meanwhile projectID trimmed)
           (executePersistentSQLStatement now meanwhile projectID trimmed sess paramMode params counter))))) e
  end.

Definition executeQueryStatement (projectID sessionID queryText callingUserEmail paramMode : string)
    (params : list storedQueryParameter) (counter : Z) (e : emulator) : outcome :=
  if bool_decide (trim_space queryText = "") then
    (e, Ok (PersistentSQLResult [col "result" "STRING"] [["query job executed"]] "SELECT" 0 0))
  else
    let trimmed := strip_semicolon queryText in
    if bool_decide (sessionID = "") then run_in projectID None trimmed callingUserEmail paramMode params counter e
    else
      let '(e, (control, sess)) := control_session projectID sessionID trimmed e in
      match control with
      | Handled message => (e, Ok (PersistentSQLResult sessionControlResultSchema [[message]] "SCRIPT" 0 0))
      | ControlFailed x => (e, Err (SessionControlFailed x))
      | NotHandled => run_in projectID sess trimmed callingUserEmail paramMode params counter e
      end.

(** ** Jobs *)

(** [FORCE_ERROR] anywhere in the text fails the job. *)
Definition executeQueryJob (job : jobRecord) (counter : Z) (e : emulator)
    : emulator * res (option dispatchErr) jobStatistics :=
  if contains (to_upper (jr_QueryText job)) "FORCE_ERROR" then (e, Err None)
  else
    let '(e, r) := executeQueryStatement (jr_ProjectID job) (jr_SessionID job) (jr_QueryText job) (jr_UserEmail job)
                     (jp_ParameterMode (jr_Payload job)) (jp_QueryParameters (jr_Payload job)) counter e in
    (e, match r with
        | Ok x => Ok (JobStatistics "query" false 60 (pr_processedBytes x) (Z.of_nat (length (pr_rows x)))
                        (pr_statementType x) (pr_dmlAffectedRows x) (Some (pr_schema x)) (pr_rows x))
        | Err x => Err (Some x)
        | Panic => Panic
        end).

(** The rows a client sees when it asks for a job's results. *)
Definition computeQueryJobResultRows (projectID : string) (j : jobRecord) (counter : Z) (e : emulator)
    : emulator * res dispatchErr (schema * list row) :=
  match jr_State j, st_ResultSchema (jr_Statistics j) with
  | jobStateDone, Some sch => (e, Ok (sch, st_ResultRows (jr_Statistics j)))
  | _, _ =>
      if isMutatingOrSessionControlStatement projectID (jr_QueryText j) then (e, Ok ([], []))
      else
        let '(e, r) := executeQueryStatement projectID (jr_SessionID j) (jr_QueryText j) (jr_UserEmail j)
                         (jp_ParameterMode (jr_Payload j)) (jp_QueryParameters (jr_Payload j)) counter e in
        (e, match r with Ok x => Ok (pr_schema x, pr_rows x) | Err x => Err x | Panic => Panic end)
  end.
End Dispatch.

(** ** Statements that fail

    [gentle] programs only read, however they end; [atomic] ones may write, but
    not and then fail. *)

(** Datasets that a lookup creates with a new project, and nothing else. *)
Definition seeds (ds ds' : datasetService) : Prop :=
  ∀ p proj, dss_projects ds !! p = Some proj → dss_projects ds' !! p = Some proj.

Definition gentle_step `{TimestampParser} (now : Z) (s s' : server) : Prop :=
  quiet_step now (srv_tables s) (srv_tables s') ∧ seeds (srv_datasets s) (srv_datasets s').

#[export] Instance seeds_preorder : PreOrder seeds.
Proof. split; [by intros ds p proj|]. intros a b c Hab Hbc p proj Hp. eauto. Qed.
#[export] Instance gentle_preorder `{TimestampParser} now : PreOrder (gentle_step now).
Proof.
  split; [split; reflexivity|]. intros a b c [Hab Hab'] [Hbc Hbc']. split; etrans; eauto.
Qed.

Lemma seeds_exists ds p d : seeds ds (datasets_exists ds p d).1.
Proof.
  unfold datasets_exists, ensureProjectLocked. intros p' proj Hp. destruct (dss_projects ds !! p) eqn:E; simpl; [done|].
  destruct (decide (p' = p)) as [->|]; [congruence|]. by rewrite lookup_insert_ne.
Qed.

Lemma seeds_insert_failed ds input : (datasets_insert ds input).2 = None → seeds ds (datasets_insert ds input).1.
Proof.
  unfold datasets_insert. case_match; [done|]. pose proof (seeds_exists ds (trim_space (ds_ProjectID input)) "") as Hs.
  unfold datasets_exists in Hs. destruct (ensureProjectLocked ds _) as [ds1 proj]. simpl in Hs. by case_match.
Qed.

Section Atomicity.
Context `{TimestampParser} (now : Z).

Definition gentle {A} (m : X A) : Prop := ∀ s, gentle_step now s (m s).1.
Definition atomic {A} (m : X A) : Prop := ∀ s e, (m s).2 = Err e → gentle_step now s (m s).1.
Definition succeeds {A} (m : X A) : Prop := ∀ s e, (m s).2 ≠ Err e.

Lemma gentle_atomic {A} (m : X A) : gentle m → atomic m.
Proof. intros Hm s e _. apply Hm. Qed.
Lemma gentle_ret {A} (a : A) : gentle (mret a).
Proof. intros s. reflexivity. Qed.
Lemma gentle_throw {A} e : gentle (throw e : X A).
Proof. intros s. reflexivity. Qed.
Lemma gentle_guard b e : gentle (guard_ b e).
Proof. intros s. reflexivity. Qed.
Lemma gentle_check {A} (r : execErr + A) : gentle (check_clauses r).
Proof. intros s. reflexivity. Qed.
Lemma gentle_validate sch rows : gentle (validate_rows sch rows).
Proof. intros s. reflexivity. Qed.
Lemma gentle_engine {A} (r : option A) : gentle (engine_step r).
Proof. intros s. reflexivity. Qed.
Lemma gentle_bind {A B} (m : X A) (f : A → X B) : gentle m → (∀ a, gentle (f a)) → gentle (m ≫= f).
Proof.
  intros Hm Hf s. specialize (Hm s). unfold mbind, X_bind. destruct (m s) as [s1 [a|e|]]; [|done..].
  etrans; [exact Hm|apply Hf].
Qed.
Lemma atomic_bind {A B} (m : X A) (f : A → X B) : gentle m → (∀ a, atomic (f a)) → atomic (m ≫= f).
Proof.
  intros Hm Hf s e. specialize (Hm s). unfold mbind, X_bind. destruct (m s) as [s1 [a|e'|]]; [|done..].
  intros He. etrans; [exact Hm|]. by apply (Hf a s1 e).
Qed.
Lemma atomic_then {A B} (m : X A) (f : A → X B) : atomic m → (∀ a, succeeds (f a)) → atomic (m ≫= f).
Proof.
  intros Hm Hf s e. specialize (Hm s). unfold mbind, X_bind. destruct (m s) as [s1 [a|e'|]]; simpl in *; [|by eauto|done].
  intros He. by destruct (Hf a s1 e).
Qed.
Lemma succeeds_ret {A} (a : A) : succeeds (mret a).
Proof. by intros s e. Qed.
Lemma gentle_exists p d : gentle (on_datasets (λ ds, datasets_exists ds p d)).
Proof.
  intros s. unfold on_datasets. pose proof (seeds_exists (srv_datasets s) p d) as Hs.
  destruct (datasets_exists (srv_datasets s) p d). split; [reflexivity|exact Hs].
Qed.
Lemma gentle_get p d id : gentle (on_tables (λ ts, tables_get ts p d id now)).
Proof.
  intros s. unfold on_tables. pose proof (get_spec now (srv_tables s) p d id) as Hs.
  destruct (tables_get (srv_tables s) p d id now). split; [apply Hs|reflexivity].
Qed.
Lemma gentle_interfere f : (∀ ts, quiet_step now ts (f ts)) → gentle (interfere f).
Proof. intros Hf s. split; [apply Hf|reflexivity]. Qed.
Lemma gentle_query {A} w (m : M A) : quiet now m → gentle (run_query w m).
Proof.
  intros Hm s. specialize (Hm (srv_tables s)). unfold run_query. destruct (m (srv_tables s)). split; [exact Hm|reflexivity].
Qed.

(** Seeding a dataset, the one trace a refused commit leaves. *)
Lemma quiet_ensure s p d : quiet_step now s (ensureDatasetLocked s p d now).1.
Proof.
  pose proof (ensure_spec s p d now) as Hs. destruct (ensureDatasetLocked s p d now) as [s' T]. destruct Hs as [-> Hs].
  apply (quiet_dataset now s s' p d (visible s p d now)); [done|by left].
Qed.

(** A commit that is refused writes back what it read. *)
Lemma quiet_update s p d id v body e :
  clean_body body → (updateIfVersion s p d id v now body).2 = Err e →
  quiet_step now s (updateIfVersion s p d id v now body).1.
Proof.
  intros Hb. unfold updateIfVersion. pose proof (ensure_spec s p d now) as Hs. pose proof (quiet_ensure s p d) as Hq.
  destruct (ensureDatasetLocked s p d now) as [s' T]. destruct Hs as [-> Hs]. simpl in Hq.
  destruct (visible s p d now !! id) as [t|] eqn:Et; [|done]. case_match; [done|].
  pose proof (Hb t) as Ht. destruct (body t) as [t' r]. destruct Ht as (_ & _ & _ & _ & Hfail).
  destruct r as [[]|e'|]; [done| |done]. intros _. rewrite Hfail, insert_id by done. simpl.
  apply (quiet_dataset now s _ p d (visible s p d now)); [|by left].
  intros p' d'. rewrite dataset_tables_set, Hs. by case_decide.
Qed.

Lemma atomic_commit f :
  (∀ ts e, (f ts).2 = Err e → quiet_step now ts (f ts).1) → atomic (commit (A := unit) f).
Proof.
  intros Hf s e. unfold commit. specialize (Hf (srv_tables s)). destruct (f (srv_tables s)) as [ts r]. simpl in *.
  intros He. split; [|reflexivity]. simpl. destruct r; [done| |done]. by eapply Hf.
Qed.

Lemma atomic_update p d id v body :
  clean_body body → atomic (commit (λ ts, updateIfVersion ts p d id v now body)).
Proof. intros Hb. apply atomic_commit. intros ts e. by apply quiet_update. Qed.

Lemma atomic_delete p d id v : atomic (commit (λ ts, deleteIfVersion ts p d id v now)).
Proof.
  apply atomic_commit. intros ts e. unfold deleteIfVersion. pose proof (quiet_ensure ts p d) as Hq.
  destruct (ensureDatasetLocked ts p d now). by repeat case_match.
Qed.

Lemma atomic_rename p d id new v : atomic (commit (λ ts, renameTableIfVersion ts p d id new v now)).
Proof.
  apply atomic_commit. intros ts e. unfold renameTableIfVersion. pose proof (quiet_ensure ts p d) as Hq.
  destruct (ensureDatasetLocked ts p d now). by repeat case_match.
Qed.

Lemma atomic_create input : atomic (create_table now input).
Proof.
  intros s e. unfold create_table, tables_insert.
  destruct (_ || _ || _); [split; reflexivity|].
  pose proof (quiet_ensure (srv_tables s) (trim_space (ti_ProjectID input)) (trim_space (ti_DatasetID input))) as Hq.
  destruct (ensureDatasetLocked _ _ _ _) as [ts T]. simpl in Hq.
  destruct (T !! _); [intros _; split; [exact Hq|reflexivity]|].
  destruct (validate_partitioning _ _ _ _); [done| |done]. intros _. split; [exact Hq|reflexivity].
Qed.
End Atomicity.

Create HintDb gentle.
#[export] Hint Resolve gentle_ret gentle_throw gentle_guard gentle_check gentle_validate gentle_engine gentle_exists
  gentle_get gentle_interfere : gentle.

Ltac gently := repeat (auto with gentle; try (apply gentle_bind; [|intros ?]); try case_match).
(** The reads of a statement first, its commit last. *)
Ltac atomically := repeat first
  [ apply atomic_bind; [solve [gently]|intros ?]
  | apply atomic_then; [|intros ?; apply succeeds_ret]
  | progress auto with atomic
  | case_match
  | apply gentle_atomic; solve [auto with gentle] ].

Create HintDb atomic.
#[export] Hint Resolve atomic_delete atomic_rename atomic_create : atomic.
#[export] Hint Extern 1 (atomic _ (commit (λ _, replaceRowsIfVersion _ _ _ _ _ _ _ _))) =>
  apply atomic_update, replaceRows_clean : atomic.
#[export] Hint Extern 1 (atomic _ (commit (λ _, replaceTableIfVersion _ _ _ _ _ _ _ _))) =>
  apply atomic_update, replaceTable_clean : atomic.
#[export] Hint Extern 1 (atomic _ (commit (λ _, replaceViewIfVersion _ _ _ _ _ _ _ _ _))) =>
  apply atomic_update, replaceView_clean : atomic.
#[export] Hint Extern 1 (atomic _ (commit (λ _, addColumnsIfVersion _ _ _ _ _ _ _))) =>
  apply atomic_update, addColumns_clean : atomic.
#[export] Hint Extern 1 (atomic _ (commit (λ _, dropColumnsIfVersion _ _ _ _ _ _ _))) =>
  apply atomic_update, dropColumns_clean : atomic.
#[export] Hint Extern 1 (atomic _ (commit (λ _, renameColumnsIfVersion _ _ _ _ _ _ _))) =>
  apply atomic_update, renameColumns_clean : atomic.

Section Executors.
Context `{TimestampParser} `{GoogleSqlParser} `{GoFloats} `{!QueryEngine} `{ExternalFiles} `{!StatementEngine}.
Variable now : Z.
Variable meanwhile : tableService → tableService.
Hypothesis meanwhile_quiet : ∀ ts, quiet_step now ts (meanwhile ts).

Lemma gentle_snapshot p target : gentle now (snapshot now meanwhile p target).
Proof. unfold snapshot. gently. Qed.
Lemma gentle_not_a_view target t : gentle now (not_a_view target t).
Proof. unfold not_a_view. gently. Qed.
Lemma gentle_same_project p target : gentle now (same_project p target).
Proof. unfold same_project. gently. Qed.
Lemma gentle_real_query w p q sess mode params :
  gentle now (run_query w (executeRealSQLQueryWithParams now p q sess mode params)).
Proof. apply gentle_query. intros ts. apply quiet_query, quiet_rows. Qed.
Hint Resolve gentle_snapshot gentle_not_a_view gentle_same_project gentle_real_query : gentle.

Definition atomic_option {A} (o : option (X A)) : Prop := ∀ m, o = Some m → atomic now m.

Lemma atomic_execute {A} (r : recognised parseErr A) k : (∀ a, atomic now (k a)) → atomic_option (execute r k).
Proof. intros Hk m. destruct r; simpl; intros E; simplify_eq; [|by apply Hk]. apply gentle_atomic, gentle_throw. Qed.
Lemma atomic_or_else {A} (a b : option (X A)) : atomic_option a → atomic_option b → atomic_option (or_else a b).
Proof. intros Ha Hb m. destruct a; simpl; eauto. Qed.

Lemma atomic_alter p target ifExists action :
  (∀ t, atomic now (action t)) → atomic now (alter_table now meanwhile p target ifExists action).
Proof. intros Ha. unfold alter_table. atomically. Qed.

Lemma atomic_alter_table p q : atomic_option (executePersistentAlterTableStatement now meanwhile p q).
Proof.
  unfold executePersistentAlterTableStatement.
  repeat apply atomic_or_else; apply atomic_execute; intros st; apply atomic_alter; intros t; atomically.
Qed.

Lemma atomic_view p q sess : atomic_option (executePersistentViewStatement now meanwhile p q sess).
Proof.
  apply atomic_execute. intros st. cbv zeta. atomically.
Qed.

Lemma atomic_create_schema p q : atomic_option (executePersistentCreateSchemaStatement p q).
Proof.
  intros m Hm. unfold executePersistentCreateSchemaStatement in Hm.
  apply bind_Some in Hm as ([d ifNotExists] & _ & [= <-]). apply atomic_bind; [gently|intros exists_].
  destruct exists_; [apply gentle_atomic; gently|]. intros s e. unfold mbind, X_bind, on_datasets.
  pose proof (seeds_insert_failed (srv_datasets s) (DatasetRecord p d "" "" ∅ 0)) as Hs.
  destruct (datasets_insert _ _) as [ds [rec|]]; [done|]. intros _. split; [reflexivity|by apply Hs].
Qed.

Lemma gentle_open p q sess ref :
  gentle now (run_query QueryFailed (λ ts,
    openMaterializedSQLDatabase now (resolveTableRowsVisiting now (S (size (views ts p)))) p q ∅ sess [ref] false ts)).
Proof.
  apply gentle_query. intros ts. apply quiet_open, quiet_rows.
Qed.

Lemma gentle_run_statement p q st existing args counter db :
  gentle now (run_statement p q st existing args counter db).
Proof. unfold run_statement. gently. Qed.
Lemma gentle_read db d id config : gentle now (readEngineTable now db d id config).
Proof. intros s. reflexivity. Qed.
Hint Resolve gentle_open gentle_run_statement gentle_read : gentle.

Lemma atomic_image p st existing sch rows parts : atomic now (commit_image now p st existing sch rows parts).
Proof. unfold commit_image. atomically. Qed.
Hint Resolve atomic_image : atomic.

Lemma atomic_statement p q sess mode params counter :
  atomic_option (executePersistentSQLStatement now meanwhile p q sess mode params counter).
Proof. apply atomic_execute. intros st. cbv zeta. atomically. Qed.
End Executors.

(** ** The dispatcher *)

Section Statements.
Context `{TimestampParser} `{GoogleSqlParser} `{GoFloats} `{!QueryEngine} `{ExternalFiles} `{!StatementEngine}.
Variable now : Z.
Variable format_days : Z → string.

Definition calm (e e' : emulator) : Prop := gentle_step now (em_server e) (em_server e').
#[local] Instance calm_preorder : PreOrder calm.
Proof. split; [intros e; unfold calm; reflexivity|]. intros a b c Hab Hbc. unfold calm in *. by etrans. Qed.

Lemma collect_calm {A} (f : A → emulator → emulator * list row) l : ∀ e,
  (∀ a e, calm e (f a e).1) → calm e (collect f l e).1.
Proof.
  induction l as [|a l IH]; intros e Hf; simpl; [reflexivity|].
  specialize (Hf a e) as Hfa. destruct (f a e) as [e1 rows]. specialize (IH e1 Hf).
  destruct (collect f l e1). simpl in *. by etrans.
Qed.

Lemma with_tables_calm {A} (f : tableService → tableService * A) e :
  (∀ ts, quiet_step now ts (f ts).1) → calm e (with_tables f e).1.
Proof.
  intros Hf. unfold with_tables. specialize (Hf (srv_tables (em_server e))).
  destruct (f (srv_tables (em_server e))). split; [exact Hf|reflexivity].
Qed.

Lemma quiet_purge ts p d : quiet_step now ts (ensure_and_purge ts p d now).1.
Proof.
  pose proof (ensure_and_purge_spec now ts p d) as Hs. destruct (ensure_and_purge ts p d now). destruct Hs as [Hs ->].
  eapply quiet_dataset; eauto.
Qed.
Lemma quiet_tables_list ts p d start size : quiet_step now ts (tables_list ts p d start size now).1.
Proof. unfold tables_list. pose proof (quiet_purge ts p d). by destruct (ensure_and_purge ts p d now). Qed.
Lemma quiet_tables_getData ts p d id : quiet_step now ts (tables_getData ts p d id now).1.
Proof.
  unfold tables_getData, tables_get. pose proof (quiet_purge ts p d). by destruct (ensure_and_purge ts p d now).
Qed.

Lemma forEachTable_calm sc f e : (∀ d t e, calm e (f d t e).1) → calm e (forEachTable now sc f e).1.
Proof.
  intros Hf. apply collect_calm. intros d e'.
  pose proof (with_tables_calm (λ ts, tables_list ts (sc_targetProjectID sc) (ds_DatasetID d) 0 1000 now) e') as Hw.
  destruct (with_tables _ e') as [e1 r]. etrans; [apply Hw; intros; apply quiet_tables_list|].
  apply collect_calm. intros. apply Hf.
Qed.

Lemma calm_refl e : calm e e.
Proof. reflexivity. Qed.
Lemma calm_same e e' : em_server e' = em_server e → calm e e'.
Proof. unfold calm. intros ->. reflexivity. Qed.

Lemma per_table_calm sc f e : calm e (forEachTable now sc (per_table f) e).1.
Proof. apply forEachTable_calm. intros. apply calm_refl. Qed.

Lemma each_routine_calm sc f e : calm e (each_routine sc f e).1.
Proof. apply collect_calm. intros d e1. destruct (routines_list _ _ _ _ _). by apply calm_same. Qed.

Lemma columns_calm sc e : calm e (buildInformationSchemaColumns now sc e).1.
Proof.
  apply forEachTable_calm. intros d t e'.
  pose proof (with_tables_calm (λ ts, tables_getData ts (sc_targetProjectID sc) d (tr_TableID t) now) e') as Hw.
  destruct (with_tables _ e') as [e1 r]. apply Hw. intros. apply quiet_tables_getData.
Qed.

Lemma models_calm sc e : calm e (buildInformationSchemaModels sc e).1.
Proof. apply collect_calm. intros d e1. destruct (models_list _ _ _ _ _). by apply calm_same. Qed.

Lemma sessions_calm sc e : calm e (buildInformationSchemaSessionsByUser now sc e).1.
Proof.
  unfold buildInformationSchemaSessionsByUser. case_match; [|apply calm_refl]. destruct (sessions_list _ _ _). by apply calm_same.
Qed.

Lemma builders_calm : Forall (λ p, ∀ sc e, calm e (p.2.2 sc e).1) (informationSchemaBuilders now format_days).
Proof.
  unfold informationSchemaBuilders.
  repeat (apply Forall_cons; split); [intros sc e; cbn [fst snd]..|apply Forall_nil; exact I].
  - apply calm_refl.
  - apply calm_refl.
  - apply per_table_calm.
  - apply columns_calm.
  - apply calm_refl.
  - apply calm_refl.
  - apply calm_refl.
  - apply per_table_calm.
  - apply each_routine_calm.
  - apply each_routine_calm.
  - apply models_calm.
  - apply per_table_calm.
  - apply per_table_calm.
  - apply per_table_calm.
  - apply sessions_calm.
Qed.

Lemma seeds_list ds p start size : seeds ds (datasets_list ds p start size).1.
Proof.
  unfold datasets_list. pose proof (seeds_exists ds p "") as Hs. unfold datasets_exists in Hs.
  by destruct (ensureProjectLocked ds p).
Qed.

Lemma information_schema_calm p q user e e' r :
  simulateInformationSchemaQuery now format_days p q user e = Some (e', r) → calm e e'.
Proof.
  unfold simulateInformationSchemaQuery. destruct (contains _ _); [|done].
  intros Hm. apply bind_Some in Hm as (m & _ & Hm).
  assert (∀ a b, seeds (srv_datasets (em_server e)) (resolveInformationSchemaTarget (srv_datasets (em_server e)) p a b).1) as Hr.
  { intros a b. unfold resolveInformationSchemaTarget. repeat case_bool_decide; try reflexivity.
    pose proof (seeds_exists (srv_datasets (em_server e)) p (trim_space a)) as Hs. by destruct (datasets_exists _ _ _). }
  specialize (Hr (sub m 1) (sub m 2)).
  destruct (resolveInformationSchemaTarget _ _ _ _) as [ds [tp td]]. simpl in Hr.
  pose proof (seeds_list ds tp 0 1000) as Hl. destruct (datasets_list ds tp 0 1000) as [ds1 page]. simpl in Hl.
  apply bind_Some in Hm as ([name [columns build]] & Hf & Hm). apply List.find_some in Hf as [Hin _].
  pose proof builders_calm as Hb. rewrite List.Forall_forall in Hb. specialize (Hb _ Hin). simpl in Hb.
  match type of Hm with context [build ?sc ?e1] => specialize (Hb sc e1); destruct (build sc e1) as [e2 rows] end.
  simplify_eq. simpl in Hb. etrans; [|exact Hb]. split; [reflexivity|]. simpl. by etrans.
Qed.

Lemma run_exec_calm m e : gentle now m → calm e (run_exec m e).1.
Proof. intros Hm. unfold run_exec. specialize (Hm (em_server e)). by destruct (m (em_server e)). Qed.

Definition select_exec (p q : string) (sess : option sessionRecord) (mode : string)
    (params : list storedQueryParameter) : X persistentSQLResult := λ s,
  let '(ts, r) := executeRealSQLQueryWithParams now p q sess mode params (srv_tables s) in
  (s <| srv_tables := ts |>,
   match r with
   | inr (sch, rows, bytes) => Ok (PersistentSQLResult sch rows "SELECT" 0 bytes)
   | inl x => Err (QueryFailed x)
   end).

Lemma gentle_select p q sess mode params : gentle now (select_exec p q sess mode params).
Proof.
  intros s. unfold select_exec. pose proof (gentle_real_query now QueryFailed p q sess mode params s) as Hg.
  unfold run_query in Hg. by destruct (executeRealSQLQueryWithParams _ _ _ _ _ _ _).
Qed.

Lemma control_calm p id stmt e : calm e (control_session now p id stmt e).1.
Proof.
  unfold control_session. destruct (executeSessionControlStatement _ _ _ _ _ _) as [ss r].
  split; [|reflexivity]. simpl. destruct (sessions_get _ _ _ _).2 as [rec|]; [|reflexivity].
  destruct (runs_query stmt) as [query|]; [|reflexivity]. apply quiet_query, quiet_rows.
Qed.

Section Writes.
Variable meanwhile : tableService → tableService.
Hypothesis meanwhile_quiet : ∀ ts, quiet_step now ts (meanwhile ts).

Lemma run_in_atomic p sess q user mode params counter e e' x :
  run_in now meanwhile format_days p sess q user mode params counter e = (e', Err x) → calm e e'.
Proof.
  unfold run_in. destruct (simulateInformationSchemaQuery _ _ _ _ _ _) as [[e1 [sch rows]]|]; [done|].
  fold (select_exec p q sess mode params).
  assert (atomic_option now (or_else (executePersistentViewStatement now meanwhile p q sess)
         (or_else (executePersistentCreateSchemaStatement p q)
         (or_else (executePersistentAlterTableStatement now meanwhile p q)
           (executePersistentSQLStatement now meanwhile p q sess mode params counter))))) as Ha.
  { apply atomic_or_else; [by apply atomic_view|]. apply atomic_or_else; [apply atomic_create_schema|].
    apply atomic_or_else; [by apply atomic_alter_table|by apply atomic_statement]. }
  destruct (or_else _ _) as [m|]; simpl; intros Hr.
  - specialize (Ha m eq_refl (em_server e)). unfold run_exec in Hr. destruct (m (em_server e)) as [s1 r1]. simpl in Ha.
    destruct r1; simplify_eq. by eapply Ha.
  - pose proof (run_exec_calm _ e (gentle_select p q sess mode params)) as Hc. by rewrite Hr in Hc.
Qed.

End Writes.

(** ** Statements the guard lets through *)

Lemma not_handled {E A} (r : recognised E A) : is_handled r = false → r = NotMine.
Proof. by destruct r. Qed.

Lemma unguarded_not_executed meanwhile p q sess mode params counter :
  isMutatingOrSessionControlStatement p q = false →
  or_else (executePersistentViewStatement now meanwhile p q sess)
    (or_else (executePersistentCreateSchemaStatement p q)
    (or_else (executePersistentAlterTableStatement now meanwhile p q)
      (executePersistentSQLStatement now meanwhile p q sess mode params counter))) = None.
Proof.
  unfold isMutatingOrSessionControlStatement, isPersistentAlterTableStatement.
  rewrite !orb_false_iff. intros [[[[Hsql Hview] Hschema] [[[[Hadd Hdrop] Hren] Hto] Hset]] _].
  apply not_handled in Hsql, Hview, Hadd, Hdrop, Hren, Hto, Hset. apply bool_decide_eq_false in Hschema.
  apply eq_None_not_Some in Hschema.
  unfold executePersistentViewStatement, executePersistentCreateSchemaStatement, executePersistentAlterTableStatement,
    executePersistentSQLStatement, executePersistentAlterTableAddColumnsStatement,
    executePersistentAlterTableDropColumnsStatement, executePersistentAlterTableRenameColumnsStatement,
    executePersistentAlterTableRenameToStatement, executePersistentAlterTableSetOptionsStatement.
  by rewrite Hsql, Hview, Hschema, Hadd, Hdrop, Hren, Hto, Hset.
Qed.

Lemma run_in_reads meanwhile p sess q user mode params counter e :
  isMutatingOrSessionControlStatement p q = false →
  let e' := (run_in now meanwhile format_days p sess q user mode params counter e).1 in calm e e'.
Proof.
  intros Hg. unfold run_in.
  destruct (simulateInformationSchemaQuery _ _ _ _ _ _) as [[e1 [sch rows]]|] eqn:Ei.
  - by eapply information_schema_calm.
  - rewrite unguarded_not_executed by done. fold (select_exec p q sess mode params).
    apply run_exec_calm, gentle_select.
Qed.

(** What a session owns: its temporary tables and the transaction's snapshot. *)
Definition sessions_kept (ss ss' : sessionService) : Prop :=
  ∀ key rec', sv_sessions ss' !! key = Some rec' →
  ∃ rec, sv_sessions ss !! key = Some rec ∧ se_TempTables rec' = se_TempTables rec ∧ se_txSnapshot rec' = se_txSnapshot rec.

Lemma sessions_kept_refl ss : sessions_kept ss ss.
Proof. intros key rec Hk. by exists rec. Qed.
Lemma sessions_kept_trans a b c : sessions_kept a b → sessions_kept b c → sessions_kept a c.
Proof.
  intros Hab Hbc key rec Hk. destruct (Hbc key rec Hk) as (r1 & H1' & E1 & E2).
  destruct (Hab key r1 H1') as (r2 & H2' & E3 & E4). exists r2. split_and!; [done|congruence..].
Qed.

Lemma unguarded_control p id q e exec :
  isMutatingOrSessionControlStatement p q = false → strip_semicolon q = q →
  let '(ss, r) := executeSessionControlStatement exec (em_sessions e) p id q now in
  sessions_kept (em_sessions e) ss ∧ (r = NotHandled ∨ ∃ x, r = ControlFailed x).
Proof.
  intros Hg Hq. unfold isMutatingOrSessionControlStatement in Hg. rewrite Hq, !orb_false_iff in Hg.
  destruct Hg as [_ [[[Hb Hc] Hr] Ht]]. unfold executeSessionControlStatement, sessions_get.
  destruct (sv_sessions (em_sessions e) !! sessionKey p id) as [rec|] eqn:Es; [|split; [apply sessions_kept_refl|eauto]].
  destruct (session_idle _ _ rec).
  { split; [|eauto]. intros key rec' Hk. simpl in Hk. apply lookup_delete_Some in Hk as [_ Hk]. by exists rec'. }
  unfold session_statement. rewrite Hb, Hc, Hr. unfold match_string in Ht. apply bool_decide_eq_false in Ht.
  apply eq_None_not_Some in Ht. rewrite Ht. split; [|by left]. intros key rec' Hk. simpl in Hk.
  destruct (decide (key = sessionKey p id)) as [->|Hne].
  - rewrite lookup_insert_eq in Hk. simplify_eq. by exists rec.
  - rewrite !lookup_insert_ne in Hk by done. by exists rec'.
Qed.

Lemma builders_sessions : Forall (λ p, ∀ sc e, sessions_kept (em_sessions e) (em_sessions (p.2.2 sc e).1))
  (informationSchemaBuilders now format_days).
Proof.
  assert (∀ {A} (f : A → emulator → emulator * list row) l e,
    (∀ a e, em_sessions (f a e).1 = em_sessions e) → em_sessions (collect f l e).1 = em_sessions e) as Hcollect.
  { intros A f l. induction l as [|a l IH]; intros e Hf; simpl; [done|]. specialize (Hf a e) as Hfa.
    destruct (f a e) as [e1 rows]. specialize (IH e1 Hf). destruct (collect f l e1). simpl in *. congruence. }
  assert (∀ sc f e, (∀ d t e, em_sessions (f d t e).1 = em_sessions e) →
    em_sessions (forEachTable now sc f e).1 = em_sessions e) as Htables.
  { intros sc f e Hf. apply Hcollect. intros d e'. unfold with_tables. destruct (tables_list _ _ _ _ _ _).
    rewrite Hcollect; [done|]. intros. apply Hf. }
  assert (∀ e e', em_sessions e' = em_sessions e → sessions_kept (em_sessions e) (em_sessions e')) as Hsame
    by (intros ? ? ->; apply sessions_kept_refl).
  unfold informationSchemaBuilders.
  repeat (apply Forall_cons; split); [intros sc e; cbn [fst snd]..|apply Forall_nil; exact I].
  - apply sessions_kept_refl.
  - apply sessions_kept_refl.
  - apply Hsame, Htables. done.
  - apply Hsame, Htables. intros d t e'. unfold with_tables. by destruct (tables_getData _ _ _ _ _).
  - apply sessions_kept_refl.
  - apply sessions_kept_refl.
  - apply sessions_kept_refl.
  - apply Hsame, Htables. done.
  - apply Hsame, Hcollect. intros d e'. by destruct (routines_list _ _ _ _ _).
  - apply Hsame, Hcollect. intros d e'. by destruct (routines_list _ _ _ _ _).
  - apply Hsame, Hcollect. intros d e'. by destruct (models_list _ _ _ _ _).
  - apply Hsame, Htables. done.
  - apply Hsame, Htables. done.
  - apply Hsame, Htables. done.
  - unfold buildInformationSchemaSessionsByUser. case_match; [|apply sessions_kept_refl]. unfold sessions_list. simpl.
    intros key rec' Hk. apply map_lookup_filter_Some in Hk as [Hk _]. by exists rec'.
Qed.

Lemma run_in_sessions meanwhile p sess q user mode params counter e :
  sessions_kept (em_sessions e) (em_sessions (run_in now meanwhile format_days p sess q user mode params counter e).1).
Proof.
  unfold run_in. destruct (simulateInformationSchemaQuery _ _ _ _ _ _) as [[e1 [sch rows]]|] eqn:Ei; cbn [fst].
  - unfold simulateInformationSchemaQuery in Ei. destruct (contains _ _); [|done].
    apply bind_Some in Ei as (m & _ & Ei). destruct (resolveInformationSchemaTarget _ _ _ _) as [ds [tp td]].
    destruct (datasets_list ds tp 0 1000) as [ds1 page].
    apply bind_Some in Ei as ([name [columns build]] & Hf & Ei). apply List.find_some in Hf as [Hin _].
    pose proof builders_sessions as Hb. rewrite List.Forall_forall in Hb. specialize (Hb _ Hin). simpl in Hb.
    match type of Ei with context [build ?sc ?e1] => specialize (Hb sc e1); destruct (build sc e1) as [e2 rows2] end.
    by simplify_eq.
  - unfold run_exec. destruct (default _ _ _). apply sessions_kept_refl.
Qed.

End Statements.

(** ** Concrete statements *)

Section Concrete.
#[local] Existing Instance unix_seconds.
#[local] Existing Instance no_floats.
#[local] Instance no_parser : GoogleSqlParser := λ _, None.
#[local] Instance echo_engine : QueryEngine := {|
  engine_open := λ _, true;
  engine_query := λ R _ _, match R with [r] => Some (rt_fields r, rt_rows r) | _ => None end |}.
(** Statements that touch nothing; a table is read back as it went in. *)
#[local] Instance inert_engine : StatementEngine := {|
  engine_db := list resolvedTable;
  engine_with := λ R, R;
  engine_exec := λ db _ _, Some (db, Some 0);
  engine_scan := λ db d id, (λ r, (rt_fields r, rt_rows r)) <$>
    List.find (λ r, String.eqb (rt_datasetID r) d && String.eqb (rt_tableID r) id) db |}.
#[local] Instance no_files : ExternalFiles := λ _ _, None.

Definition demo_emulator : emulator :=
  Emulator (Server newDatasetService newTableService) (newSessionService "") newJobService newRoutineService newModelService.

Definition demo_run (sessionID q : string) (e : emulator) : outcome :=
  executeQueryStatement 5 (λ ts, ts) (λ _, "1") "p" sessionID q "u" "" [] 1 e.



(** A statement that reads INFORMATION_SCHEMA is answered with the view itself
    and not executed: this INSERT succeeds and inserts nothing. *)
Definition insert_from_information_schema : string :=
  "INSERT INTO analytics.events SELECT 9, table_name FROM analytics.INFORMATION_SCHEMA.TABLES".

Example information_schema_shadows_statement :
  let '(e', r) := demo_run "" insert_from_information_schema demo_emulator in
  isMutatingOrSessionControlStatement "p" insert_from_information_schema = true ∧
  (∃ rows, r = Ok (PersistentSQLResult (strings ["table_catalog"; "table_schema"; "table_name"; "table_type"]) rows
                     "SELECT" 0 0)) ∧
  (λ t, length (tr_Rows t)) <$> lookup_table (srv_tables (em_server e')) "p" "analytics" "events" = Some 4%nat.
Proof.
  vm_compute. split; [reflexivity|]. split; [by eexists|reflexivity].
Qed.

(** ALTER TABLE takes effect inside a transaction, which CREATE VIEW and DML
    refuse, and the rollback does not undo it. *)
Definition demo_in_transaction : emulator :=
  (demo_run "s1" "BEGIN" (demo_emulator <| em_sessions ::= λ ss, (sessions_create ss "p" "u" (Some "s1") 5).1 |>)).1.

Example alter_table_ignores_transaction :
  let '(e1, r1) := demo_run "s1" "ALTER TABLE analytics.events ADD COLUMN extra INT64" demo_in_transaction in
  let '(e2, r2) := demo_run "s1" "CREATE VIEW analytics.v AS SELECT * FROM analytics.events" e1 in
  let '(e3, r3) := demo_run "s1" "ROLLBACK" e2 in
  r1 = Ok (executed "ALTER_TABLE") ∧ r2 = Err (StatementFailed InsideTransaction) ∧ is_ok r3 = true ∧
  (λ t, length (tr_Schema t)) <$> lookup_table (srv_tables (em_server e3)) "p" "analytics" "events" = Some 3%nat.
Proof. vm_compute. split_and!; reflexivity. Qed.

(** One ALTER TABLE can add the same column twice. *)
Example added_column_twice :
  let c := AddColumnClause (col "a" "INT64") false in
  resolveAlterTableNewFields [col "id" "INT64"] [c; c] = inr [col "a" "INT64"; col "a" "INT64"].
Proof. reflexivity. Qed.

(** CREATE TABLE AS SELECT _PARTITIONTIME, ... panics: the new table has no
    partitioning to read the partition's period from. *)
Example selecting_partitiontime_into_table_panics :
  partitions_from_engine 5 None [col ingestionPartitionTimeColumn "TIMESTAMP"; col "id" "INT64"]
    [[storeStringCell "0"; "1"]] = Panic.
Proof. vm_compute. reflexivity. Qed.
End Concrete.
