(* ===== verification/QueryResults.v ===== *)
(** * Query results and table data (bigquery.go)

    The REST form of stored rows, and the three requests that page through them:
    jobs.getQueryResults, tabledata.list on a table and tabledata.list on the
    anonymous table of a query job.  A response is the JSON value that is
    written, before its text.  [read_rows] is a client: it follows the page
    tokens and decodes the cells by position, as the official clients do. *)

From S2P Require Import Prelude GoStrings GoTime GoJson Pagination Cells TableModel Partitioning Pruning TableStore Datasets Sessions Jobs MetadataStore StreamingInserts QueryParams JsonText FileFormats SqlResolve SqlExec TableRest InformationSchema QueryDispatch.
From Stdlib Require Import Ascii.

#[local] Existing Instance json_numbers.

(** ** Rows *)

Section Rendering.
Context `{TimestampParser} `{GoFloats} `{!FloatText}.

Definition rest_v (v : json) : json := JObj [("v", v)].
Definition rest_f (cells : list json) : json := JObj [("f", JArr cells)].

(** [UnixMicro] of the parsed time. *)
Definition renderScalarCellForREST (field : tableField) (raw : string) : string :=
  if equal_fold (Type_ field) "TIMESTAMP" then
    match parsePartitionTimestamp (trim_char quote_char raw) with
    | Some t => format_int (t `div` 1000)
    | None => raw
    end
  else raw.

(** A value that is not an object where a record is expected has no members. *)
Fixpoint renderDecodedCellForREST (field : tableField) (decoded : json) : json :=
  match decoded with
  | JNull => JNull
  | _ =>
      if isRecordType (Type_ field) then
        let obj := match decoded with JObj ms => ms | _ => [] end in
        rest_f (map (λ sub, rest_v (renderDecodedCellForREST sub (obj_get obj (Name sub)))) (Fields field))
      else JStr (renderScalarCellForREST field (scalarValueToPlainString decoded))
  end.

Definition renderCellForREST (field : tableField) (cell : string) : json :=
  let '(raw, isNull) := loadStoredCell cell in
  if isNull then JNull
  else if bool_decide (raw = "") then JStr raw
  else if bool_decide (Mode field = "REPEATED") then
    let base := TableField (Name field) (Type_ field) "" (Fields field) in
    match json_decode raw with
    | Some (JArr items) => JArr ((λ elem, rest_v (renderDecodedCellForREST base elem)) <$> items)
    | Some JNull => JArr []
    | _ => JStr raw
    end
  else if isRecordType (Type_ field) then
    match decode_record raw with
    | Some ms => renderDecodedCellForREST field (JObj ms)
    | None => JStr raw
    end
  else JStr (renderScalarCellForREST field raw).

Definition render_row (sch : schema) (r : row) : json :=
  rest_f (imap (λ i field, rest_v (renderCellForREST field (cell_at r i))) sch).
Definition renderRESTRows (sch : schema) (rows : list row) : list json := render_row sch <$> rows.
End Rendering.

(** ** Responses *)

(** The query values of a request, empty when absent. *)
Record pageRequest := PageRequest { pq_maxResults : string; pq_pageToken : string; pq_startIndex : string }.
#[export] Instance pageRequest_eta : Eta pageRequest := λ q,
  PageRequest (pq_maxResults q) (pq_pageToken q) (pq_startIndex q).

Inductive resultErr :=
| JobNotFound (projectID jobID : string)
| ResultTableNotFound (projectID datasetID tableID : string)
| NotQueryJob
| QueryJobFailed (message reason : string)
| ResultQueryFailed (e : dispatchErr)
| TableUnreadable (e : queryErr).

Abbreviation T := (res resultErr).

(** [l[start:end]] with [end] from [clampEnd], and the index of the next page;
    a slice whose end is before its start panics. *)
Definition slice_page {A} (l : list A) (start size : Z) : T (list A * option Z) :=
  let total := Z.of_nat (length l) in
  let e := clampEnd start size total in
  if (start <? 0) || (e <? start) then Panic
  else Ok (take (Z.to_nat (e - start)) (drop (Z.to_nat start) l), if e <? total then Some e else None).

Section Results.
Context `{TimestampParser} `{GoogleSqlParser} `{GoFloats} `{!FloatText} `{!QueryEngine} `{ExternalFiles} `{!StatementEngine}.
Variable now : Z.
Variable meanwhile : tableService → tableService.
Variable format_days : Z → string.

Definition anonymousQueryResultsDatasetID : string := "_anon".
Definition anonymousQueryResultsTableID (jobID : string) : string := "anon" +:+ jobID.

Definition job_reference (projectID jobID : string) : json :=
  JObj [("projectId", JStr projectID); ("jobId", JStr jobID)].

Definition writeQueryResults (projectID jobID kind : string) (q : pageRequest) (counter : Z) (e : emulator)
    : emulator * T object :=
  match jobs_get (em_jobs e) projectID jobID with
  | None => (e, Err (JobNotFound projectID jobID))
  | Some j =>
      if negb (bool_decide (jr_JobType j = "query")) && negb (bool_decide (jr_JobType j = "script"))
      then (e, Err NotQueryJob)
      else if bool_decide (jr_State j = jobStateDone) && negb (bool_decide (jr_ErrorReason j = ""))
      then (e, Err (QueryJobFailed (jr_ErrorMessage j) (jr_ErrorReason j)))
      else
        let '(start, size) := parsePagination (pq_maxResults q) (pq_pageToken q) 20 1000 in
        let '(e, r) := computeQueryJobResultRows now meanwhile format_days projectID j counter e in
        (e,
         match r with
         | Err x => Err (ResultQueryFailed x)
         | Panic => Panic
         | Ok (sch, values) =>
             '(page, next) ← slice_page values start size;
             Ok ([("kind", JStr kind);
                  ("jobReference", job_reference projectID jobID);
                  ("schema", JObj [("fields", renderTableSchemaFields sch)]);
                  ("rows", JArr (renderRESTRows sch page));
                  ("totalRows", JStr (format_int (Z.of_nat (length values))));
                  ("jobComplete", JBool (bool_decide (jr_State j = jobStateDone)));
                  ("maxResults", JNum (format_int size));
                  ("startIndexUsed", JNum (format_int start))] ++
                 match next with Some i => [("pageToken", JStr (encodePageToken i))] | None => [] end ++
                 when (negb (bool_decide (jr_SessionID j = "")))
                   [("sessionInfo", JObj [("sessionId", JStr (jr_SessionID j))])] ++
                 when (isDMLStatementType (st_StatementType (jr_Statistics j)))
                   [("numDmlAffectedRows", JStr (format_int (st_DMLAffectedRows (jr_Statistics j))))])
         end)
  end.

Definition getQueryResults (projectID jobID : string) (q : pageRequest) (counter : Z) (e : emulator)
    : emulator * T object :=
  writeQueryResults projectID jobID "bigquery#getQueryResultsResponse" q counter e.

(** [startIndex], when it is a number, replaces the start of the page token. *)
Definition writeTableDataListResponse (projectID datasetID tableID : string) (sch : schema) (rows : list row)
    (defaultSize maxSize : Z) (q : pageRequest) : T object :=
  let '(start, size) := parsePagination (pq_maxResults q) (pq_pageToken q) defaultSize maxSize in
  let start := match parse_int (pq_startIndex q) with
               | Some n => if 0 <=? n then n else start
               | None => start
               end in
  '(page, next) ← slice_page rows start size;
  Ok ([("kind", JStr "bigquery#tableDataList");
       ("etag", JStr "locaql");
       ("totalRows", JStr (format_int (Z.of_nat (length rows))));
       ("rows", JArr (renderRESTRows sch page));
       ("datasetId", JStr datasetID); ("tableId", JStr tableID); ("projectId", JStr projectID);
       ("maxResults", JNum (format_int size));
       ("startIndexUsed", JNum (format_int start))] ++
      match next with
      | Some i => [("pageToken", JStr (encodePageToken i)); ("nextPageToken", JStr (encodePageToken i))]
      | None => []
      end).

Definition listAnonymousQueryResultsTableData (projectID tableID : string) (q : pageRequest) (counter : Z) (e : emulator)
    : emulator * T object :=
  let missing := ResultTableNotFound projectID anonymousQueryResultsDatasetID tableID in
  match jobs_get (em_jobs e) projectID (trim_prefix tableID "anon") with
  | None => (e, Err missing)
  | Some j =>
      if negb (bool_decide (jr_JobType j = "query")) && negb (bool_decide (jr_JobType j = "script"))
      then (e, Err missing)
      else
        let '(e, r) := computeQueryJobResultRows now meanwhile format_days projectID j counter e in
        (e, match r with
            | Err x => Err (ResultQueryFailed x)
            | Panic => Panic
            | Ok (sch, rows) =>
                writeTableDataListResponse projectID anonymousQueryResultsDatasetID tableID sch rows 20 1000 q
            end)
  end.

Definition listTableData (projectID datasetID tableID : string) (q : pageRequest) (counter : Z) (e : emulator)
    : emulator * T object :=
  if bool_decide (datasetID = anonymousQueryResultsDatasetID)
  then listAnonymousQueryResultsTableData projectID tableID q counter e
  else
    let '(ts, r) := resolveTableRows now projectID datasetID tableID (srv_tables (em_server e)) in
    (e <| em_server ::= λ s, s <| srv_tables := ts |> |>,
     match r with
     | inl x => Err (TableUnreadable x)
     | inr None => Err (ResultTableNotFound projectID datasetID tableID)
     | inr (Some (sch, rows)) => writeTableDataListResponse projectID datasetID tableID sch rows 2 100000 q
     end).
End Results.

(** ** A client *)

(** The rows of all pages; the [n]th request is answered by [respond n]. *)
Fixpoint collect (fuel : nat) (respond : nat → pageRequest → T object) (n : nat) (maxResults token : string)
    : option (list json) :=
  match fuel with
  | O => None
  | S fuel =>
      match respond n (PageRequest maxResults token "") with
      | Ok o =>
          match obj_get o "rows", obj_get o "pageToken" with
          | JArr rows, JStr next => (rows ++.) <$> collect fuel respond (S n) maxResults next
          | JArr rows, _ => Some rows
          | _, _ => None
          end
      | _ => None
      end
  end.

(** A field's value by its mode, from the value of one item. *)
Definition by_mode (single : tableField → json → json) (item : json → json) (f : tableField) (v : json) : json :=
  match v with
  | JArr items => if bool_decide (Mode f = "REPEATED") then JArr (map (λ i, single f (item i)) items) else single f v
  | _ => single f v
  end.

(** Cells are decoded by the position and the mode of their fields. *)
Definition rest_value (c : json) : json := match c with JObj o => obj_get o "v" | _ => JNull end.
Definition rest_cells (v : json) : list json :=
  match v with JObj o => match obj_get o "f" with JArr cells => cells | _ => [] end | _ => [] end.

Definition read_subs (read : tableField → json → json) : list tableField → list json → list (string * json) :=
  fix go (subs : list tableField) (cells : list json) : list (string * json) :=
    match subs, cells with
    | sub :: subs, c :: cells => (Name sub, by_mode read rest_value sub (rest_value c)) :: go subs cells
    | _, _ => []
    end.
Fixpoint read_value (f : tableField) (v : json) : json :=
  match v with
  | JNull => JNull
  | _ => if isRecordType (Type_ f) then JObj (read_subs read_value (Fields f) (rest_cells v)) else v
  end.
Definition read_row (sch : schema) (r : json) : list json :=
  zip_with (λ f c, by_mode read_value rest_value f (rest_value c)) sch (rest_cells r).

Definition read_rows (sch : schema) (respond : nat → pageRequest → T object) (fuel : nat) (maxResults : string)
    : option (list (list json)) :=
  map (read_row sch) <$> collect fuel respond 0 maxResults "".

(** ** What the client should see *)

Section Values.
Context `{TimestampParser} `{GoFloats} `{!FloatText}.

(** A decoded value: null, the text of a scalar, or the values of a record's
    fields by name. *)
Definition members_of (v : json) : object := match v with JObj ms => ms | _ => [] end.
Fixpoint shown_value (f : tableField) (v : json) : json :=
  match v with
  | JNull => JNull
  | _ =>
      if isRecordType (Type_ f)
      then JObj (map (λ sub, (Name sub, by_mode shown_value id sub (obj_get (members_of v) (Name sub)))) (Fields f))
      else JStr (renderScalarCellForREST f (scalarValueToPlainString v))
  end.

Definition nested (f : tableField) : bool := bool_decide (Mode f = "REPEATED") || isRecordType (Type_ f).

(** NULL, the text of a scalar column, or the decoded value of a nested one. *)
Definition shown_cell (f : tableField) (cell : string) : json :=
  let '(raw, isNull) := loadStoredCell cell in
  if isNull then JNull
  else if nested f then match json_decode raw with Some v => by_mode shown_value id f v | None => JNull end
  else JStr (if bool_decide (raw = "") then "" else renderScalarCellForREST f raw).
Definition shown_row (sch : schema) (r : row) : list json := imap (λ i f, shown_cell f (cell_at r i)) sch.

(** Arrays inside records are not rendered as arrays. *)
Fixpoint arrays_on_top (f : tableField) : bool :=
  forallb (λ sub, negb (bool_decide (Mode sub = "REPEATED")) && arrays_on_top sub) (Fields f).

Lemma arrays_on_top_spec f : arrays_on_top f = true ↔
  Forall (λ sub, Mode sub ≠ "REPEATED" ∧ arrays_on_top sub = true) (Fields f).
Proof.
  destruct f as [name t mode subs]. cbn [arrays_on_top Fields]. rewrite forallb_forall, Forall_forall.
  setoid_rewrite <-list_elem_of_In. split; intros Ha sub Hin; specialize (Ha sub Hin); [bools; by split|].
  destruct Ha as [Hm ->]. by rewrite bool_decide_false.
Qed.

(** A cell that is null, the text of a scalar, or JSON of its column's shape. *)
Definition readable_cell (f : tableField) (cell : string) : Prop :=
  let '(raw, isNull) := loadStoredCell cell in
  isNull = false → nested f = true → ∃ v, json_decode raw = Some v ∧ v ≠ JNull ∧ conforms f v.
Definition readable_row (sch : schema) (r : row) : Prop := ∀ i f, sch !! i = Some f → readable_cell f (cell_at r i).

Definition readable_cellb (f : tableField) (cell : string) : bool :=
  let '(raw, isNull) := loadStoredCell cell in
  isNull || negb (nested f) ||
  match json_decode raw with
  | Some v => negb (bool_decide (v = JNull)) && bool_decide (validateDecodedField f v = None)
  | None => false
  end.

Lemma readable_rowb sch r :
  forallb id (imap (λ i f, readable_cellb f (cell_at r i)) sch) = true → readable_row sch r.
Proof.
  rewrite forallb_forall. intros Ha i f Hf.
  assert (readable_cellb f (cell_at r i) = true) as Hc.
  { apply (Ha (readable_cellb f (cell_at r i))), list_elem_of_In, list_elem_of_lookup. exists i. by rewrite list_lookup_imap, Hf. }
  unfold readable_cellb, readable_cell in *. destruct (loadStoredCell _) as [raw isNull]. intros -> Hn. rewrite Hn in Hc.
  cbn [orb negb] in Hc. destruct (json_decode raw) as [v|]; [|done]. apply andb_true_iff in Hc as [Hv Hc].
  exists v. apply bool_decide_eq_true, validateDecodedField_spec in Hc. split_and!; [done| |done].
  apply negb_true_iff in Hv. by apply bool_decide_eq_false in Hv.
Qed.

Lemma by_mode_single single item f v : Mode f ≠ "REPEATED" → by_mode single item f v = single f v.
Proof. intros Hm. unfold by_mode. by rewrite bool_decide_false by done; destruct v. Qed.

Lemma read_subs_rendered obj subs :
  Forall (λ sub, Mode sub ≠ "REPEATED" ∧ ∀ v, read_value sub (renderDecodedCellForREST sub v) = shown_value sub v) subs →
  read_subs read_value subs (map (λ sub, rest_v (renderDecodedCellForREST sub (obj_get obj (Name sub)))) subs) =
  map (λ sub, (Name sub, by_mode shown_value id sub (obj_get obj (Name sub)))) subs.
Proof.
  induction 1 as [|sub subs [Hm Hs] _ IH]; [done|]. cbn [map read_subs]. rewrite IH, !by_mode_single by done.
  do 2 f_equal. apply Hs.
Qed.

Lemma read_single f : arrays_on_top f = true → ∀ v, read_value f (renderDecodedCellForREST f v) = shown_value f v.
Proof.
  induction f as [f IH] using tableField_nested_ind. intros Ha v. apply arrays_on_top_spec in Ha.
  assert (Hsubs : Forall (λ sub, Mode sub ≠ "REPEATED" ∧
    ∀ v, read_value sub (renderDecodedCellForREST sub v) = shown_value sub v) (Fields f)).
  { apply Forall_lookup. intros i sub Hi. rewrite Forall_lookup in IH, Ha. destruct (Ha i sub Hi). split; [done|by eapply IH]. }
  clear IH Ha. destruct f as [name t mode subs]. cbn [Fields] in Hsubs.
  cbn [renderDecodedCellForREST shown_value Type_ Fields]. destruct (isRecordType t) eqn:Et.
  - destruct v; try done; cbn [read_value Type_ Fields rest_f]; rewrite Et; f_equal; by apply read_subs_rendered.
  - destruct v; cbn [read_value Type_]; rewrite ?Et; done.
Qed.

Lemma json_decode_ne raw v : json_decode raw = Some v → raw ≠ "".
Proof. intros Hd ->. by vm_compute in Hd. Qed.

Lemma read_items f items : arrays_on_top f = true →
  let base := TableField (Name f) (Type_ f) "" (Fields f) in
  map (λ i, read_value f (rest_value i)) ((λ elem, rest_v (renderDecodedCellForREST base elem)) <$> items) =
  map (shown_value f) items.
Proof.
  intros Ha base. induction items as [|elem items IH]; [done|]. cbn [map fmap list_fmap]. f_equal; [|exact IH].
  change (rest_value (rest_v ?v)) with v. rewrite <-read_single by done. f_equal. by destruct f, elem.
Qed.

Lemma read_cell f cell : arrays_on_top f = true → readable_cell f cell →
  by_mode read_value rest_value f (renderCellForREST f cell) = shown_cell f cell.
Proof.
  intros Ha. unfold readable_cell, shown_cell, renderCellForREST. destruct (loadStoredCell cell) as [raw [|]]; [by destruct f|].
  intros Hr. specialize (Hr eq_refl). unfold nested in *. destruct (decide (Mode f = "REPEATED")) as [Hm|Hm].
  - rewrite bool_decide_true in * by done. destruct (Hr eq_refl) as (v & Hv & Hn & Hc).
    rewrite (bool_decide_false (raw = "")) by by eapply json_decode_ne.
    rewrite Hv. inversion Hc as [|? items|]; subst; try done. unfold by_mode. rewrite bool_decide_true by done.
    cbn [orb]. f_equal. by apply read_items.
  - rewrite (bool_decide_false (Mode f = _)) in * by done. cbn [orb] in *. destruct (isRecordType (Type_ f)) eqn:Et.
    + destruct (Hr eq_refl) as (v & Hv & Hn & Hc). rewrite (bool_decide_false (raw = "")) by by eapply json_decode_ne.
      inversion Hc as [| |? ? _ _ Hs]; subst; try done. inversion Hs as [|? ms]; subst; [congruence|].
      unfold decode_record. rewrite Hv, !by_mode_single by done. by apply read_single.
    + rewrite by_mode_single by done. destruct f as [name t mode subs]. cbn [Type_] in Et.
      destruct (bool_decide (raw = "")) eqn:Er; cbn [read_value Type_]; rewrite Et; [bools; by subst|done].
Qed.

Lemma read_rendered_row sch r : Forall (λ f, arrays_on_top f = true) sch → readable_row sch r →
  read_row sch (render_row sch r) = shown_row sch r.
Proof.
  intros Ha Hr. unfold read_row, render_row, shown_row. change (rest_cells (rest_f ?l)) with l.
  apply list_eq. intros i. rewrite lookup_zip_with, !list_lookup_imap. destruct (sch !! i) as [f|] eqn:Hf; [|done].
  simpl. f_equal. rewrite Forall_lookup in Ha. apply read_cell; eauto.
Qed.
End Values.

(** ** Paging *)

Lemma slice_page_ok {A} (l : list A) start size :
  0 ≤ start ≤ Z.of_nat (length l) → 0 ≤ size → Z.of_nat (length l) + size ≤ max_i64 →
  slice_page l start size =
    Ok (take (Z.to_nat size) (drop (Z.to_nat start) l),
        if start + size <? Z.of_nat (length l) then Some (start + size) else None).
Proof.
  intros Hs Hz Hl. unfold slice_page, clampEnd. set (len := Z.of_nat (length l)) in *.
  rewrite (proj2 (Z.ltb_ge len start)) by lia. unfold i64_add. rewrite wrap64_id by (unfold in_i64, min_i64; lia).
  cbv zeta. rewrite (proj2 (Z.ltb_ge start 0)) by lia. cbn [orb].
  destruct (Z.ltb_spec len (start + size)).
  - rewrite (proj2 (Z.ltb_ge len start)), (proj2 (Z.ltb_ge len len)), (proj2 (Z.ltb_ge (start + size) len)) by lia.
    rewrite !take_ge by (rewrite length_drop; lia). done.
  - rewrite (proj2 (Z.ltb_ge (start + size) start)) by lia. do 3 f_equal. lia.
Qed.

(** [items] is what the responses page through. *)
Definition serves (respond : nat → pageRequest → T object) (dflt maxSize : Z) (items : list json) : Prop :=
  ∀ n maxResults token start size, parsePagination maxResults token dflt maxSize = (start, size) →
    0 ≤ start ≤ Z.of_nat (length items) →
    ∃ o, respond n (PageRequest maxResults token "") = Ok o ∧
      obj_get o "rows" = JArr (take (Z.to_nat size) (drop (Z.to_nat start) items)) ∧
      obj_get o "pageToken" = if start + size <? Z.of_nat (length items)
                              then JStr (encodePageToken (start + size)) else JNull.

Lemma collect_serves respond dflt maxSize items maxResults :
  1 ≤ dflt → 1 ≤ maxSize → Z.of_nat (length items) + maxSize ≤ max_i64 → serves respond dflt maxSize items →
  ∀ fuel n token start size, parsePagination maxResults token dflt maxSize = (start, size) →
    0 ≤ start ≤ Z.of_nat (length items) → (length items - Z.to_nat start < fuel)%nat →
    collect fuel respond n maxResults token = Some (drop (Z.to_nat start) items).
Proof.
  intros Hd Hm Hl Hs. induction fuel as [|fuel IH]; intros n token start size Hp Hst Hf; [lia|].
  pose proof (parsePagination_bounds maxResults token dflt maxSize Hd Hm) as Hb. rewrite Hp in Hb. destruct Hb as [_ Hz].
  cbn [collect]. destruct (Hs n maxResults token start size Hp Hst) as (o & -> & -> & ->).
  destruct (Z.ltb_spec (start + size) (Z.of_nat (length items))).
  - destruct (parse_own_token maxResults (start + size) dflt maxSize) as [sz Hp']; [lia|].
    rewrite (IH (S n) _ (start + size) sz Hp') by lia. cbn [fmap option_fmap option_map]. f_equal.
    rewrite Z2Nat.inj_add by lia. rewrite <-drop_drop. apply take_drop.
  - f_equal. rewrite take_ge; [done|]. rewrite length_drop. lia.
Qed.

Section Reading.
Context `{TimestampParser} `{GoogleSqlParser} `{GoFloats} `{!FloatText} `{!QueryEngine} `{ExternalFiles} `{!StatementEngine}.

Lemma table_data_serves (respond : nat → pageRequest → T object) projectID datasetID tableID sch rows dflt maxSize :
  1 ≤ dflt → 1 ≤ maxSize → Z.of_nat (length rows) + maxSize ≤ max_i64 →
  (∀ n q, respond n q = writeTableDataListResponse projectID datasetID tableID sch rows dflt maxSize q) →
  serves respond dflt maxSize (renderRESTRows sch rows).
Proof.
  intros Hd Hm Hl Hr n maxResults token start size Hp Hst. rewrite Hr. unfold writeTableDataListResponse.
  unfold renderRESTRows in *. rewrite length_fmap in *.
  pose proof (parsePagination_bounds maxResults token dflt maxSize Hd Hm) as Hb.
  cbn [pq_maxResults pq_pageToken pq_startIndex]. rewrite Hp in *. destruct Hb as [_ Hz].
  change (parse_int "") with (@None Z). cbv iota zeta. rewrite slice_page_ok by lia. cbn [mbind res_bind].
  eexists. split; [done|]. rewrite <-fmap_drop, <-fmap_take. by destruct (_ <? _).
Qed.

(** A query job that is done, without an error. *)
Definition finished_with (j : jobRecord) (sch : schema) (rows : list row) : Prop :=
  (jr_JobType j = "query" ∨ jr_JobType j = "script") ∧ jr_State j = jobStateDone ∧ jr_ErrorReason j = "" ∧
  st_ResultSchema (jr_Statistics j) = Some sch ∧ st_ResultRows (jr_Statistics j) = rows.

Lemma finished_rows now meanwhile format_days projectID j sch rows counter e : finished_with j sch rows →
  computeQueryJobResultRows now meanwhile format_days projectID j counter e = (e, Ok (sch, rows)).
Proof. intros (_ & Hst & _ & Hs & Hr). unfold computeQueryJobResultRows. by rewrite Hst, Hs, Hr. Qed.

Lemma finished_is_query j sch rows : finished_with j sch rows →
  negb (bool_decide (jr_JobType j = "query")) && negb (bool_decide (jr_JobType j = "script")) = false.
Proof. intros [[-> | ->] _]; done. Qed.

Lemma query_results_serve (es : nat → emulator) (nows cs : nat → Z) meanwhile format_days projectID jobID sch rows :
  Z.of_nat (length rows) + 1000 ≤ max_i64 →
  (∀ n, ∃ j, jobs_get (em_jobs (es n)) projectID jobID = Some j ∧ finished_with j sch rows) →
  serves (λ n q, (getQueryResults (nows n) meanwhile format_days projectID jobID q (cs n) (es n)).2) 20 1000
    (renderRESTRows sch rows).
Proof.
  intros Hl Hj n maxResults token start size Hp Hst. destruct (Hj n) as (j & Hget & Hfin).
  unfold getQueryResults, writeQueryResults. rewrite Hget, (finished_is_query _ _ _ Hfin), (finished_rows _ _ _ _ _ _ _ _ _ Hfin).
  pose proof Hfin as (_ & Hdone & Hok & _ & _). rewrite Hdone, Hok. change (bool_decide ("" = "")) with true. rewrite andb_false_r.
  unfold renderRESTRows in *. rewrite length_fmap in *.
  pose proof (parsePagination_bounds maxResults token 20 1000 ltac:(lia) ltac:(lia)) as Hb.
  cbn [pq_maxResults pq_pageToken]. rewrite Hp in *. destruct Hb as [_ Hz].
  rewrite slice_page_ok by lia. cbn [mbind res_bind snd]. eexists. split; [done|]. rewrite <-fmap_drop, <-fmap_take.
  by destruct (_ <? _), (bool_decide (jr_SessionID j = "")), (isDMLStatementType _).
Qed.

Lemma anonymous_table_serves (es : nat → emulator) (nows cs : nat → Z) meanwhile format_days projectID jobID sch rows :
  Z.of_nat (length rows) + 1000 ≤ max_i64 →
  (∀ n, ∃ j, jobs_get (em_jobs (es n)) projectID jobID = Some j ∧ finished_with j sch rows) →
  serves (λ n q, (listTableData (nows n) meanwhile format_days projectID anonymousQueryResultsDatasetID
                    (anonymousQueryResultsTableID jobID) q (cs n) (es n)).2) 20 1000 (renderRESTRows sch rows).
Proof.
  intros Hl Hj. eapply table_data_serves; [lia|lia|done|]. intros n q. destruct (Hj n) as (j & Hget & Hfin).
  unfold listTableData. rewrite bool_decide_true by done. unfold listAnonymousQueryResultsTableData, anonymousQueryResultsTableID.
  by rewrite trim_prefix_app, Hget, (finished_is_query _ _ _ Hfin), (finished_rows _ _ _ _ _ _ _ _ _ Hfin).
Qed.

Lemma table_serves (es : nat → emulator) (nows cs : nat → Z) meanwhile format_days projectID datasetID tableID sch rows :
  Z.of_nat (length rows) + 100000 ≤ max_i64 → datasetID ≠ anonymousQueryResultsDatasetID →
  (∀ n, (resolveTableRows (nows n) projectID datasetID tableID (srv_tables (em_server (es n)))).2 = inr (Some (sch, rows))) →
  serves (λ n q, (listTableData (nows n) meanwhile format_days projectID datasetID tableID q (cs n) (es n)).2) 2 100000
    (renderRESTRows sch rows).
Proof.
  intros Hl Hd Hr. eapply (table_data_serves _ projectID datasetID tableID); [lia|lia|done|]. intros n q. unfold listTableData.
  rewrite bool_decide_false by done. specialize (Hr n). destruct (resolveTableRows _ _ _ _ _) as [ts r]. simpl in Hr. by subst r.
Qed.

(** A client that follows the tokens has the values of all rows. *)
Lemma read_rows_serves respond dflt maxSize sch rows maxResults :
  1 ≤ dflt → 1 ≤ maxSize → Z.of_nat (length rows) + maxSize ≤ max_i64 →
  Forall (λ f, arrays_on_top f = true) sch → Forall (readable_row sch) rows →
  serves respond dflt maxSize (renderRESTRows sch rows) →
  read_rows sch respond (S (length rows)) maxResults = Some (shown_row sch <$> rows).
Proof.
  intros Hd Hm Hl Ha Hr Hs. unfold read_rows.
  destruct (parsePagination maxResults "" dflt maxSize) as [start size] eqn:Hp.
  assert (start = 0) as -> by (unfold parsePagination in Hp; simpl in Hp; congruence).
  rewrite (collect_serves respond dflt maxSize (renderRESTRows sch rows) maxResults) with (start := 0) (size := size);
    unfold renderRESTRows in *; rewrite ?length_fmap; try lia; try done.
  cbn [fmap option_fmap option_map]. f_equal. change (drop (Z.to_nat 0) ?l) with l. clear -Ha Hr.
  induction Hr as [|r rows Hr _ IH]; [done|]. cbn [map fmap list_fmap]. f_equal; [by apply read_rendered_row|exact IH].
Qed.

(** C0. A client reads every row of a result once, in order, and with its values.
    Whatever page size it asks for and whatever happens to the catalog, the
    sessions and the other jobs between two pages, following the page tokens of
    jobs.getQueryResults, or of tabledata.list on the job's anonymous table,
    ends within one request per row plus one and gives the values of all cells
    of a finished job - NULL, the text of a scalar, the decoded value of a
    record or an array.  So does tabledata.list on a table, view or external
    table as long as it resolves to the same rows. *)
Theorem client_reads_every_row (es : nat → emulator) (nows cs : nat → Z) meanwhile format_days projectID maxResults sch rows :
  Z.of_nat (length rows) + 100000 ≤ max_i64 →
  Forall (λ f, arrays_on_top f = true) sch → Forall (readable_row sch) rows →
  let read respond := read_rows sch respond (S (length rows)) maxResults in
  let all := Some (shown_row sch <$> rows) in
  (∀ jobID, (∀ n, ∃ j, jobs_get (em_jobs (es n)) projectID jobID = Some j ∧ finished_with j sch rows) →
     read (λ n q, (getQueryResults (nows n) meanwhile format_days projectID jobID q (cs n) (es n)).2) = all ∧
     read (λ n q, (listTableData (nows n) meanwhile format_days projectID anonymousQueryResultsDatasetID
                     (anonymousQueryResultsTableID jobID) q (cs n) (es n)).2) = all) ∧
  (∀ datasetID tableID, datasetID ≠ anonymousQueryResultsDatasetID →
     (∀ n, (resolveTableRows (nows n) projectID datasetID tableID (srv_tables (em_server (es n)))).2 = inr (Some (sch, rows))) →
     read (λ n q, (listTableData (nows n) meanwhile format_days projectID datasetID tableID q (cs n) (es n)).2) = all).
Proof.
  intros Hl Ha Hr read all. split.
  - intros jobID Hj. split.
    + apply (read_rows_serves _ 20 1000); [lia..|done|done|]. apply query_results_serve; [lia|done].
    + apply (read_rows_serves _ 20 1000); [lia..|done|done|]. apply anonymous_table_serves; [lia|done].
  - intros datasetID tableID Hd Ht. apply (read_rows_serves _ 2 100000); [lia..|done|done|]. by apply table_serves.
Qed.
End Reading.

(** ** A finished job *)

Section Demo.
#[local] Existing Instance unix_seconds.
#[local] Instance no_parser : GoogleSqlParser := λ _, None.
#[local] Instance one_float : GoFloats := {| float64 := unit; parse_float := λ _, None; sprint_float := λ s, s |}.
#[local] Instance no_engine : QueryEngine := {| engine_open := λ _, false; engine_query := λ _ _ _, None |}.
#[local] Instance no_statements : StatementEngine := {|
  engine_db := unit; engine_with := λ _, tt; engine_exec := λ _ _ _, None; engine_scan := λ _ _ _, None |}.
#[local] Instance no_files : ExternalFiles := λ _ _, None.
#[local] Instance no_text : FloatText := {| float_plain := λ _, "0"; float_json := λ _, None; float_zero := tt |}.

Definition demo_result_schema : schema :=
  [col "name" "STRING"; TableField "tags" "STRING" "REPEATED" [];
   TableField "who" "RECORD" "" [col "first" "STRING"; col "active" "BOOL"]].
Definition json_array (texts : list string) : string := "[" +:+ join "," texts +:+ "]".
Definition demo_result_rows : list row :=
  [["ann"; json_array [json_quote "a"; json_quote "b"]; object_text [("first", json_quote "Ann"); ("active", "true")]];
   [storedNullCell; storedNullCell; storedNullCell];
   ["bob"; json_array []; object_text [("active", "false")]]].

Definition demo_finished_job : jobRecord :=
  let o := JobInsertOptions "p" "" "" "u" "SELECT 1" "query" "" no_payload "" "" "" "" false "" "" in
  (new_job o "job_1" 5) <| jr_State := jobStateDone |>
    <| jr_Statistics ::= λ s, s <| st_ResultSchema := Some demo_result_schema |> <| st_ResultRows := demo_result_rows |> |>.
Definition demo_finished : emulator := 
  Emulator (Server newDatasetService newTableService) (newSessionService "") (set_job "p" "job_1" demo_finished_job newJobService)
    newRoutineService newModelService.

Lemma client_reads_every_row_witness :
  read_rows demo_result_schema
    (λ n q, (listTableData (Z.of_nat n) id (λ _, "1") "p" "_anon" "anonjob_1" q 1 demo_finished).2) 4 "2" =
  Some [[JStr "ann"; JArr [JStr "a"; JStr "b"]; JObj [("first", JStr "Ann"); ("active", JStr "true")]];
        [JNull; JNull; JNull];
        [JStr "bob"; JArr []; JObj [("first", JNull); ("active", JStr "false")]]].
Proof.
  pose proof (client_reads_every_row (λ _, demo_finished) Z.of_nat (λ _, 1) id (λ _, "1") "p" "2" demo_result_schema
    demo_result_rows) as H.
  destruct H as [H _].
  - vm_compute. discriminate.
  - repeat constructor.
  - repeat (constructor; [apply readable_rowb; vm_compute; reflexivity|]). constructor.
  - destruct (H "job_1") as [_ E]; [intros _; exists demo_finished_job; split; [reflexivity|repeat split; by left]|].
    etrans; [exact E|]. vm_compute. reflexivity.
Defined.

(** A page that starts after the last row is a slice with its bounds reversed. *)
Example start_past_the_end_panics :
  (getQueryResults 5 id (λ _, "1") "p" "job_1" (PageRequest "" (encodePageToken 4) "") 1 demo_finished).2 = Panic ∧
  (listTableData 5 id (λ _, "1") "p" "_anon" "anonjob_1" (PageRequest "" "" "4") 1 demo_finished).2 = Panic.
Proof. split; vm_compute; reflexivity. Qed.

(** A client that sends its startIndex with every request is given the same page
    for every token. *)
Example start_index_hides_token sch rows token q :
  pq_startIndex q = "0" →
  writeTableDataListResponse "p" "d" "t" sch rows 2 10 (q <| pq_pageToken := token |>) =
  writeTableDataListResponse "p" "d" "t" sch rows 2 10 q.
Proof. intros E. unfold writeTableDataListResponse, parsePagination. simpl. by rewrite E. Qed.

(** The mode of a field inside a record is ignored: an array of texts is shown as
    one text, an array of records as one record without values. *)
Example array_in_record_shown_wrong :
  renderCellForREST (TableField "r" "RECORD" "" [TableField "tags" "STRING" "REPEATED" [];
                                                 TableField "people" "RECORD" "REPEATED" [col "name" "STRING"]])
    (object_text [("tags", json_array [json_quote "a"; json_quote "b"]);
                  ("people", json_array [object_text [("name", json_quote "Ann")]])]) =
  rest_f [rest_v (JStr (json_array [json_quote "a"; json_quote "b"])); rest_v (rest_f [rest_v JNull])].
Proof. vm_compute. reflexivity. Qed.
End Demo.
