(* ===== verification/FileJobs.v ===== *)
(** * Load, extract and copy jobs (bigquery.go)

    The executors of the jobs that move rows between tables and files.  They read
    the catalog, and at the end write one destination; [disk] holds the local
    files.  [iterate] is Go's order over the keys of a sampled record
    ([SchemaDetect]), [root] and [writable] are those of [FileFormats]. *)

From S2P Require Import Prelude GoStrings Regexp SqlPatterns GoTime GoJson GoCsv Cells TableModel SqlStatements Partitioning Pruning TableStore TableInvariants TableWrites Datasets Sessions EnginePool SqlText StorageWrite StreamingInserts Jobs QueryParams FileFormats FileRoundtrip SchemaDetect SqlResolve SqlResolution SqlExec TableRest QueryDispatch.
From Stdlib Require Import Ascii.

Inductive fileJobErr :=
| DestinationTableRequired | DestinationDatasetMissing | SourcesRequired | SourceDatasetMissing | SourceTableMissing
| SourceFailed (e : queryErr) | SchemasDiffer | SchemaFieldsRequired | DetectionFailed (e : detectErr)
| FilesFailed (e : fileErr) | RowsInvalid (e : rowErr) | DestinationRefused (e : tableErr)
| ExtractSourceRequired | DestinationURIsRequired.

(** ** Programs over the server *)

Definition W (A : Type) : Type := server → server * res fileJobErr A.
#[export] Instance W_ret : MRet W := λ A a s, (s, Ok a).
#[export] Instance W_bind : MBind W := λ A B f m s,
  match m s with
  | (s, Ok a) => f a s
  | (s, Err e) => (s, Err e)
  | (s, Panic) => (s, Panic)
  end.
Definition refuse {A} (e : fileJobErr) : W A := λ s, (s, Err e).
Definition ensure_ (b : bool) (e : fileJobErr) : W unit := λ s, (s, if b then Ok tt else Err e).
Definition from_files {E A} (r : res E A) (wrap_ : E → fileJobErr) : W A := λ s,
  (s, match r with Ok a => Ok a | Err e => Err (wrap_ e) | Panic => Panic end).
Definition dataset_exists (p d : string) : W bool := λ s,
  let '(ds, b) := datasets_exists (srv_datasets s) p d in (s <| srv_datasets := ds |>, Ok b).
Definition run_source {A} (m : M A) : W A := λ s,
  let '(ts, r) := m (srv_tables s) in (s <| srv_tables := ts |>, match r with inr a => Ok a | inl e => Err (SourceFailed e) end).
Definition write_destination (dest : tableReference) (sch : schema) (rows : list row) (create write : string) (now : Z)
    `{TimestampParser} : W Z := λ s,
  let '(ts, r) := upsertCopyDestination (srv_tables s) dest sch rows create write now in
  (s <| srv_tables := ts |>, match r with Ok n => Ok n | Err e => Err (DestinationRefused e) | Panic => Panic end).

Definition file_statistics (executor : string) (slotMs bytes rows : Z) : jobStatistics :=
  JobStatistics executor false slotMs bytes rows "" 0 None [].

Definition blank_text (s : string) : bool := bool_decide (trim_space s = "").
Definition job_destination (j : jobRecord) : tableReference := TableRef (jr_ProjectID j) (jr_TargetDataset j) (jr_TargetTable j).

Section Jobs.
Context `{TimestampParser} `{GoogleSqlParser} `{FloatText} `{!QueryEngine} `{!FileCodecs} `{EmbeddedSchemas}.
Variables (now : Z) (root : string) (iterate : nat → gmap string json → list (string * json)).

(** ** Detection and external tables *)

Definition detect_at (files : disk) (uri format delimiter : string) (skip : Z) (compression : string) : A_ (schema * nat) :=
  match resolveLocalFilePath root uri with
  | Err e => Err (DetectFile e)
  | Panic => Panic
  | Ok path =>
      match files !! path with
      | None => Err (DetectFile (ReadFailed uri))
      | Some data => detectSchemaFromBytes iterate format data delimiter skip compression
      end
  end.

Definition detectExternalTableSchema (files : disk) (parsed : externalTableConfig) : A_ (schema * Z) :=
  match ext_SourceURIs parsed with
  | [] => Err NoRows
  | uri :: _ =>
      '(sch, headers) ← detect_at files uri (ext_SourceFormat parsed) (ext_FieldDelimiter parsed) (ext_SkipLeadingRows parsed) "";
      Ok (sch, ext_SkipLeadingRows parsed + Z.of_nat headers)
  end.

(** The interfaces the catalog's readers and handlers are written against. *)
#[local] Instance files_external (files : disk) : ExternalFiles := λ ext sch,
  match FileFormats.readRowsFromURIs root files (ext_SourceFormat ext) (ext_SourceURIs ext) (ext_FieldDelimiter ext)
          (ext_SkipLeadingRows ext) sch "" with
  | Ok (rows, _) => Some rows
  | _ => None
  end.
#[local] Instance files_detector (files : disk) : SchemaDetector := λ parsed,
  match detectExternalTableSchema files parsed with Ok r => Some r | _ => None end.

(** ** Copy *)

(** The rows of all sources, which must share one schema. *)
Fixpoint copy_sources (files : disk) (projectID : string) (sources : list tableReference) (first : option schema)
    : W (schema * list row) :=
  match sources with
  | [] => mret (default [] first, [])
  | source :: sources =>
      let p := if bool_decide (ref_ProjectID source = "") then projectID else ref_ProjectID source in
      known ← dataset_exists p (ref_DatasetID source);
      _ ← ensure_ known SourceDatasetMissing;
      found ← run_source (@resolveTableRows _ _ _ _ (files_external files) now p (ref_DatasetID source) (ref_TableID source));
      match found with
      | None => refuse SourceTableMissing
      | Some (sourceSchema, sourceRows) =>
          let sch := default sourceSchema first in
          _ ← ensure_ (sameSchema sch sourceSchema || bool_decide (first = None)) SchemasDiffer;
          '(sch, rows) ← copy_sources files projectID sources (Some sch);
          mret (sch, sourceRows ++ rows)
      end
  end.

Definition executeCopyJob (files : disk) (j : jobRecord) : W jobStatistics :=
  _ ← ensure_ (negb (blank_text (jr_TargetDataset j) || blank_text (jr_TargetTable j))) DestinationTableRequired;
  _ ← ensure_ (negb (bool_decide (jp_SourceTables (jr_Payload j) = []))) SourcesRequired;
  known ← dataset_exists (jr_ProjectID j) (jr_TargetDataset j);
  _ ← ensure_ known DestinationDatasetMissing;
  '(sch, rows) ← copy_sources files (jr_ProjectID j) (jp_SourceTables (jr_Payload j)) None;
  n ← write_destination (job_destination j) sch rows (jr_CreateDisposition j) (jr_WriteDisposition j) now;
  mret (file_statistics "copy" 30 (i64_mul n 128) n).

(** ** Load *)

Definition detectLoadJobSchema (files : disk) (p : jobPayload) : A_ (schema * Z) :=
  '(sch, headers) ←
    (if jp_LoadInline p then
       detectSchemaFromBytes iterate (jp_LoadSourceFormat p) (default "" (jp_LoadInlineData p)) (jp_LoadFieldDelimiter p)
         (jp_LoadSkipLeadingRows p) (jp_LoadCompression p)
     else match jp_LoadSourceURIs p with
          | [] => Err NoRows
          | uri :: _ => detect_at files uri (jp_LoadSourceFormat p) (jp_LoadFieldDelimiter p) (jp_LoadSkipLeadingRows p)
                          (jp_LoadCompression p)
          end);
  Ok (sch, jp_LoadSkipLeadingRows p + Z.of_nat headers).

(** The schema to load with and the rows to skip; the code keeps the second in
    its own copy of the job record. *)
Definition load_schema (files : disk) (p : jobPayload) : W (schema * Z) :=
  if (0 <? length (jp_LoadSchema p))%nat then mret (jp_LoadSchema p, jp_LoadSkipLeadingRows p)
  else if jp_LoadAutodetect p then from_files (detectLoadJobSchema files p) DetectionFailed
  else refuse SchemaFieldsRequired.

Definition load_rows (files : disk) (p : jobPayload) (sch : schema) (skip : Z) : F (list row * Z) :=
  if jp_LoadInline p
  then readRowsFromData (jp_LoadSourceFormat p) (default "" (jp_LoadInlineData p)) (jp_LoadFieldDelimiter p) skip sch (jp_LoadCompression p)
  else FileFormats.readRowsFromURIs root files (jp_LoadSourceFormat p) (jp_LoadSourceURIs p) (jp_LoadFieldDelimiter p) skip sch
         (jp_LoadCompression p).

Definition executeLoadJob (files : disk) (j : jobRecord) : W jobStatistics :=
  let p := jr_Payload j in
  let finish sch rows bytes :=
    n ← write_destination (job_destination j) sch rows (jr_CreateDisposition j) (jr_WriteDisposition j) now;
    mret (file_statistics "load" 55 bytes n) in
  _ ← ensure_ (negb (blank_text (jr_TargetDataset j) || blank_text (jr_TargetTable j))) DestinationTableRequired;
  known ← dataset_exists (jr_ProjectID j) (jr_TargetDataset j);
  _ ← ensure_ known DestinationDatasetMissing;
  if bool_decide (jp_LoadSourceURIs p = []) && negb (jp_LoadInline p) then
    finish (if (0 <? length (jp_LoadSchema p))%nat then jp_LoadSchema p else [col "col_1" "STRING"]) [] 1024
  else
    '(sch, skip) ← load_schema files p;
    '(rows, totalBytes) ← from_files (load_rows files p sch skip) FilesFailed;
    _ ← from_files (match validateStoredRows sch rows with Some e => Err e | None => Ok tt end) RowsInvalid;
    finish sch rows totalBytes.

(** ** Extract *)

Variables (writable : string → bool) (shardMaxBytes : string).

Definition executeExtractJob (files : disk) (j : jobRecord) (s : server) : server * disk * res fileJobErr jobStatistics :=
  let p := jr_Payload j in
  let source := jp_ExtractSourceTable p in
  let prepare : W (schema * list row * string * string) :=
    _ ← ensure_ (negb (blank_text (ref_DatasetID source) || blank_text (ref_TableID source))) ExtractSourceRequired;
    let projectID := if blank_text (ref_ProjectID source) then jr_ProjectID j else ref_ProjectID source in
    _ ← ensure_ (negb (bool_decide (jp_ExtractDestinationURIs p = []))) DestinationURIsRequired;
    found ← run_source (@resolveTableRows _ _ _ _ (files_external files) now projectID (ref_DatasetID source) (ref_TableID source));
    match found with
    | None => refuse SourceTableMissing
    | Some (sch, rows) =>
        let format := if bool_decide (jp_ExtractDestinationFormat p = "") then "CSV" else jp_ExtractDestinationFormat p in
        compression ← from_files (normalizeExtractCompression format (jp_ExtractCompression p)) FilesFailed;
        mret (sch, rows, format, compression)
    end in
  match prepare s with
  | (s, Ok (sch, rows, format, compression)) =>
      let '(files, r) := writeExtractDestinations root writable files (readExtractShardMaxBytes shardMaxBytes)
                           (jp_ExtractDestinationURIs p) format sch rows (jp_ExtractFieldDelimiter p)
                           (jp_ExtractPrintHeader p) compression in
      (s, files, match r with
                 | Ok totalBytes => Ok (file_statistics "extract" 45 totalBytes (Z.of_nat (length rows)))
                 | Err e => Err (FilesFailed e)
                 | Panic => Panic
                 end)
  | (s, Err e) => (s, files, Err e)
  | (s, Panic) => (s, files, Panic)
  end.
End Jobs.

(** ** What a job does to the catalog

    [reads] programs only read, however they end; [commits] ones may write, but
    only when they succeed. *)

Section Effects.
Context `{TimestampParser} (now : Z).

Definition reads {A} (m : W A) : Prop := ∀ s, gentle_step now s (m s).1.
Definition commits {A} (m : W A) : Prop := ∀ s, is_ok (m s).2 = false → gentle_step now s (m s).1.

Lemma reads_commits {A} (m : W A) : reads m → commits m.
Proof. intros Hm s _. apply Hm. Qed.
Lemma reads_ret {A} (a : A) : reads (mret a).
Proof. intros s. reflexivity. Qed.
Lemma reads_refuse {A} e : reads (refuse e : W A).
Proof. intros s. reflexivity. Qed.
Lemma reads_ensure b e : reads (ensure_ b e).
Proof. intros s. reflexivity. Qed.
Lemma reads_files {E A} (r : res E A) f : reads (from_files r f).
Proof. intros s. reflexivity. Qed.
Lemma reads_exists p d : reads (dataset_exists p d).
Proof.
  intros s. unfold dataset_exists. pose proof (seeds_exists (srv_datasets s) p d) as Hs.
  destruct (datasets_exists (srv_datasets s) p d). split; [reflexivity|exact Hs].
Qed.
Lemma reads_source {A} (m : M A) : quiet now m → reads (run_source m).
Proof.
  intros Hm s. specialize (Hm (srv_tables s)). unfold run_source. destruct (m (srv_tables s)). split; [exact Hm|reflexivity].
Qed.
Lemma reads_bind {A B} (m : W A) (f : A → W B) : reads m → (∀ a, reads (f a)) → reads (m ≫= f).
Proof.
  intros Hm Hf s. specialize (Hm s). unfold mbind, W_bind. destruct (m s) as [s1 [a|e|]]; [|done..].
  etrans; [exact Hm|apply Hf].
Qed.
Lemma commits_bind {A B} (m : W A) (f : A → W B) : reads m → (∀ a, commits (f a)) → commits (m ≫= f).
Proof.
  intros Hm Hf s. specialize (Hm s). unfold mbind, W_bind. destruct (m s) as [s1 [a|e|]]; [|done..].
  intros He. etrans; [exact Hm|]. by apply (Hf a s1).
Qed.
Lemma commits_then {A B} (m : W A) (f : A → B) : commits m → commits (a ← m; mret (f a)).
Proof. intros Hm s. specialize (Hm s). unfold mbind, W_bind. by destruct (m s) as [s1 [a|e|]]. Qed.

Lemma commits_destination dest sch rows create write : commits (write_destination dest sch rows create write now).
Proof.
  intros s. unfold write_destination. destruct (upsertCopyDestination _ _ _ _ _ _ _) as [ts r] eqn:E.
  destruct (upsert_commit _ _ _ _ _ _ _ _ _ E) as [_ Hf]. simpl. intros Hr. split; [|reflexivity]. simpl.
  destruct Hf as [-> | ->]; [by destruct r|reflexivity|]. apply quiet_ensure.
Qed.

(** The commit of a job that succeeds: one table is written, with [rows]. *)
Definition destination_written (s s' : server) (dest : tableReference) (sch : schema) (rows : list row) (create write : string) : Prop :=
  let p := trim_space (ref_ProjectID dest) in
  let d := trim_space (ref_DatasetID dest) in
  let id := trim_space (ref_TableID dest) in
  ∃ s1 t', gentle_step now s s1 ∧ srv_datasets s' = srv_datasets s1 ∧
    dataset_step (srv_tables s1) (srv_tables s') p d (<[id := t']> (visible (srv_tables s1) p d now)) ∧
    upsert_result (visible (srv_tables s1) p d now !! id) t' sch rows
      (normalizeCreateDisposition create) (normalizeWriteDisposition write).

Lemma destination_spec s s1 s' dest sch rows create write n :
  gentle_step now s s1 → write_destination dest sch rows create write now s1 = (s', Ok n) →
  n = Z.of_nat (length rows) ∧ destination_written s s' dest sch rows create write.
Proof.
  intros Hs. unfold write_destination. destruct (upsertCopyDestination _ _ _ _ _ _ _) as [ts r] eqn:E.
  destruct r as [m|e|]; [|done..]. intros [= <- <-].
  destruct (upsert_commit _ _ _ _ _ _ _ _ _ E) as [Hok _]. destruct (Hok m eq_refl) as (Hn & t' & Hstep & Hres).
  split; [done|]. by exists s1, t'.
Qed.

Lemma bind_ok {A B} (m : W A) (f : A → W B) s s' b :
  (m ≫= f) s = (s', Ok b) → ∃ s1 a, m s = (s1, Ok a) ∧ f a s1 = (s', Ok b).
Proof. unfold mbind, W_bind. destruct (m s) as [s1 [a|e|]]; [|done..]. eauto. Qed.

Lemma reads_ok {A} (m : W A) s0 s s' a : reads m → gentle_step now s0 s → m s = (s', Ok a) → gentle_step now s0 s'.
Proof. intros Hm Hs E. specialize (Hm s). rewrite E in Hm. etrans; [exact Hs|exact Hm]. Qed.
End Effects.

Create HintDb files.
#[export] Hint Resolve reads_ret reads_refuse reads_ensure reads_files reads_exists reads_source commits_destination
  commits_then : files.
Ltac reading := repeat (eauto with files; try (apply reads_bind; [|intros ?]); try case_match).
Ltac committing := repeat (eauto using reads_commits with files; try (apply commits_bind; [solve [reading]|intros ?]); try case_match).
(** One step of a program that succeeded, run from a state [gentle_step]s led to. *)
Ltac run H := let s := fresh "s" in let a := fresh "a" in let E := fresh "E" in
  apply bind_ok in H as (s & a & E & H).

Section Results.
Context `{TimestampParser} `{GoogleSqlParser} `{FloatText} `{!QueryEngine} `{!FileCodecs} `{EmbeddedSchemas}.
Context (now : Z) (root : string) (iterate : nat → gmap string json → list (string * json)).
Variables (writable : string → bool) (shardMaxBytes : string) (files : disk).

Lemma quiet_source p d id : quiet now (@resolveTableRows _ _ _ _ (files_external root files) now p d id).
Proof. intros s. unfold resolveTableRows. apply quiet_rows. Qed.
Hint Resolve quiet_source : files.

Lemma reads_sources projectID sources first : reads now (copy_sources now root files projectID sources first).
Proof. revert first. induction sources as [|r sources IH]; intros first; cbn [copy_sources]; reading. Qed.
Hint Resolve reads_sources : files.

Lemma commits_copy j : commits now (executeCopyJob now root files j).
Proof. unfold executeCopyJob. committing. Qed.

Lemma reads_load_schema p : reads now (load_schema root iterate files p).
Proof. unfold load_schema. reading. Qed.
Hint Resolve reads_load_schema : files.

Lemma commits_load j : commits now (executeLoadJob now root iterate files j).
Proof. unfold executeLoadJob. committing. Qed.

Lemma reads_prepare source projectID uris format compression :
  reads now
    (_ ← ensure_ (negb (blank_text (ref_DatasetID source) || blank_text (ref_TableID source))) ExtractSourceRequired;
     _ ← ensure_ (negb (bool_decide (uris = ([] : list string)))) DestinationURIsRequired;
     found ← run_source (@resolveTableRows _ _ _ _ (files_external root files) now projectID (ref_DatasetID source) (ref_TableID source));
     match found with
     | None => refuse SourceTableMissing
     | Some (sch, rows) =>
         c ← from_files (normalizeExtractCompression format compression) FilesFailed;
         mret (sch, rows, format, c)
     end).
Proof. reading. Qed.

(** C8. A job that moves rows and fails has not moved any: when a load or a copy job
    ends with an error, on whatever path, every table of the catalog is as it was
    (expired tables and partitions that a read purges, and the datasets a first
    access creates, aside), and an extract job leaves the catalog like that however
    it ends. *)
Theorem failed_file_job_changes_nothing (j : jobRecord) (s : server) :
  (∀ s' r, executeCopyJob now root files j s = (s', r) → is_ok r = false → gentle_step now s s') ∧
  (∀ s' r, executeLoadJob now root iterate files j s = (s', r) → is_ok r = false → gentle_step now s s') ∧
  (∀ s' files' r, executeExtractJob now root writable shardMaxBytes files j s = (s', files', r) → gentle_step now s s').
Proof.
  split_and!.
  - intros s' r E Hr. pose proof (commits_copy j s) as Hc. rewrite E in Hc. by apply Hc.
  - intros s' r E Hr. pose proof (commits_load j s) as Hc. rewrite E in Hc. by apply Hc.
  - intros s' files' r. unfold executeExtractJob.
    match goal with |- context [match ?prepare s with _ => _ end] => pose proof (reads_prepare (jp_ExtractSourceTable (jr_Payload j))
      (if blank_text (ref_ProjectID (jp_ExtractSourceTable (jr_Payload j))) then jr_ProjectID j else ref_ProjectID (jp_ExtractSourceTable (jr_Payload j)))
      (jp_ExtractDestinationURIs (jr_Payload j))
      (if bool_decide (jp_ExtractDestinationFormat (jr_Payload j) = "") then "CSV" else jp_ExtractDestinationFormat (jr_Payload j))
      (jp_ExtractCompression (jr_Payload j)) s) as Hp; change (gentle_step now s (prepare s).1) in Hp; destruct (prepare s) as [s1 [[[[sch rows] format] c]|e|]] end;
      [|by intros [= <- _ _]..].
    destruct (writeExtractDestinations _ _ _ _ _ _ _ _ _ _ _). by intros [= <- _ _].
Qed.

Lemma from_files_ok {E A} (r : res E A) f s s' a : from_files r f s = (s', Ok a) → s' = s ∧ r = Ok a.
Proof. unfold from_files. by destruct r; intros [= <- <-]. Qed.

Lemma load_schema_ok p s s' x :
  load_schema root iterate files p s = (s', Ok x) → s' = s ∧ ∀ s0, (load_schema root iterate files p s0).2 = Ok x.
Proof.
  unfold load_schema. case_match; [by intros [= <- <-]|]. case_match; [|done].
  intros Hr. apply from_files_ok in Hr as [-> ->]. done.
Qed.

(** C17. A load job that succeeds has loaded what its files say: the rows written are
    those its reader makes of the inline data or of all the source files, with the
    schema given or detected; each of them is valid for the schema; the destination
    takes them as the dispositions say and no other table changes; and the row count
    reported is theirs. *)
Theorem load_job_result (j : jobRecord) (s s' : server) (st : jobStatistics) :
  executeLoadJob now root iterate files j s = (s', Ok st) →
  ∃ sch rows bytes,
    st = file_statistics "load" 55 bytes (Z.of_nat (length rows)) ∧
    destination_written now s s' (job_destination j) sch rows (jr_CreateDisposition j) (jr_WriteDisposition j) ∧
    (let p := jr_Payload j in
     jp_LoadSourceURIs p = [] ∧ jp_LoadInline p = false ∧ rows = [] ∨
     (∃ skip, (load_schema root iterate files p s).2 = Ok (sch, skip) ∧ load_rows root files p sch skip = Ok (rows, bytes)) ∧
     validateStoredRows sch rows = None).
Proof.
  intros Hrun. unfold executeLoadJob in Hrun. run Hrun. run Hrun. run Hrun.
  assert (gentle_step now s s2) as Hs.
  { eapply reads_ok; [apply reads_ensure| |exact E1]. eapply reads_ok; [apply reads_exists| |exact E0].
    eapply reads_ok; [apply reads_ensure| |exact E]. reflexivity. }
  destruct (_ && _) eqn:Eu.
  - run Hrun. injection Hrun as <- <-. destruct (destination_spec _ _ _ _ _ _ _ _ _ _ Hs E2) as [-> Hw].
    eexists _, [], 1024. split; [done|]. split; [exact Hw|]. left. apply andb_true_iff in Eu as [Eu Ei]. bools. by destruct (jp_LoadInline (jr_Payload j)).
  - run Hrun. destruct a2 as [sch skip]. run Hrun. destruct a2 as [rows bytes]. run Hrun. run Hrun. injection Hrun as <- <-.
    apply load_schema_ok in E2 as [-> Hsch]. apply from_files_ok in E3 as [-> Hrows].
    apply from_files_ok in E4 as [-> Hvalid]. destruct (destination_spec _ _ _ _ _ _ _ _ _ _ Hs E5) as [-> Hw].
    exists sch, rows, bytes. split; [done|]. split; [exact Hw|]. right. split; [by exists skip|].
    by destruct (validateStoredRows sch rows).
Qed.

(** The rows a source table has when the job comes to it. *)
Definition source_rows (projectID : string) (s : server) (sch : schema) (source : tableReference) (part : list row) : Prop :=
  let p := if bool_decide (ref_ProjectID source = "") then projectID else ref_ProjectID source in
  ∃ s1 ts sourceSchema, gentle_step now s s1 ∧
    @resolveTableRows _ _ _ _ (files_external root files) now p (ref_DatasetID source) (ref_TableID source) (srv_tables s1) =
      (ts, inr (Some (sourceSchema, part))) ∧
    (sourceSchema = sch ∨ sameSchema sch sourceSchema = true).

Lemma copy_sources_spec projectID sources : ∀ first s0 s s' sch rows,
  gentle_step now s0 s → copy_sources now root files projectID sources first s = (s', Ok (sch, rows)) →
  (∀ sch0, first = Some sch0 → sch = sch0) ∧
  ∃ parts, Forall2 (source_rows projectID s0 sch) sources parts ∧ rows = concat parts.
Proof.
  induction sources as [|source sources IH]; intros first s0 s s' sch rows Hs Hrun; cbn [copy_sources] in Hrun.
  { injection Hrun as <- <- <-. split; [by intros ? ->|]. exists []. by split; [constructor|]. }
  run Hrun. run Hrun. run Hrun.
  assert (gentle_step now s0 s2) as Hs2.
  { eapply reads_ok; [apply reads_ensure| |exact E0]. by eapply reads_ok; [apply reads_exists| |exact E]. }
  assert (gentle_step now s0 s3) as Hs3 by (eapply reads_ok; [apply reads_source, quiet_source|exact Hs2|exact E1]).
  destruct a1 as [[sourceSchema sourceRows]|]; [|done]. run Hrun. run Hrun. destruct a2 as [sch' rows'].
  injection Hrun as <- <- <-.
  assert (s4 = s3 ∧ sameSchema (default sourceSchema first) sourceSchema || bool_decide (first = None) = true) as [-> Hsame].
  { unfold ensure_ in E2. destruct (_ || _); [by injection E2 as <- _|done]. }
  destruct (IH _ s0 _ _ _ _ Hs3 E3) as [Hsch (parts & Hp & ->)].
  specialize (Hsch _ eq_refl) as ->. split; [by intros ? ->|].
  exists (sourceRows :: parts). split; [|done]. constructor; [|done].
  unfold run_source in E1. destruct (@resolveTableRows _ _ _ _ _ _ _ _ _ _) as [ts [e|r]] eqn:Er; [done|].
  injection E1 as <- ->. exists s2, ts, sourceSchema. split_and!; [done|exact Er|].
  destruct first; [|by left]. rewrite (bool_decide_false _) in Hsame by done. rewrite orb_false_r in Hsame. by right.
Qed.

(** C32. A copy job that succeeds has copied its sources: the rows written are those
    of the source tables, one source after the other in the order given, all of one
    schema; the destination takes them as the dispositions say and no other table
    changes; and the row count reported is theirs. *)
Theorem copy_job_result (j : jobRecord) (s s' : server) (st : jobStatistics) :
  executeCopyJob now root files j s = (s', Ok st) →
  ∃ sch parts,
    Forall2 (source_rows (jr_ProjectID j) s sch) (jp_SourceTables (jr_Payload j)) parts ∧
    destination_written now s s' (job_destination j) sch (concat parts) (jr_CreateDisposition j) (jr_WriteDisposition j) ∧
    st_OutputRows st = Z.of_nat (length (concat parts)).
Proof.
  intros Hrun. unfold executeCopyJob in Hrun. do 4 run Hrun.
  assert (gentle_step now s s3) as Hs.
  { eapply reads_ok; [apply reads_ensure| |exact E2]. eapply reads_ok; [apply reads_exists| |exact E1].
    eapply reads_ok; [apply reads_ensure| |exact E0]. eapply reads_ok; [apply reads_ensure| |exact E]. reflexivity. }
  run Hrun. destruct a3 as [sch rows]. run Hrun. injection Hrun as <- <-.
  destruct (copy_sources_spec _ _ _ _ _ _ _ _ Hs E3) as [_ (parts & Hp & ->)].
  assert (gentle_step now s s4) as Hs4 by (eapply reads_ok; [apply reads_sources|exact Hs|exact E3]).
  destruct (destination_spec _ _ _ _ _ _ _ _ _ _ Hs4 E4) as [-> Hw].
  exists sch, parts. by split_and!.
Qed.
End Results.

(** ** Concrete jobs *)

Section Concrete.
#[local] Existing Instance unix_seconds.
#[local] Existing Instance exact_floats.
#[local] Existing Instance integer_text.
#[local] Existing Instance demo_codecs.
#[local] Instance no_parser_ : GoogleSqlParser := λ _, None.
#[local] Instance no_engine : QueryEngine := {| engine_open := λ _, false; engine_query := λ _ _ _, None |}.
#[local] Existing Instance no_schemas.

Definition demo_payload (inline : string) (sources : list tableReference) : jobPayload :=
  JobPayload sources demo_schema [] (Some inline) "upload" true "CSV" "" 0 "" false
    (TableRef "" "analytics" "events") ["/tmp/events.csv"] "" "" true "" "" [].
Definition demo_job (target : string) (payload : jobPayload) : jobRecord :=
  JobRecord "p" "j" "" "LOAD" "" "" payload "analytics" target "" "" jobStatePending "" "" "" false "" (JobStatistics "" false 0 0 0 "" 0 None [])
    0 0 0 false "" "" [].
Definition demo_server : server := Server newDatasetService newTableService.
Definition demo_order (n : nat) (m : gmap string json) : list (string * json) := map_to_list m.

Definition demo_load_job : jobRecord := demo_job "loaded" (demo_payload (lines ["1,a"; "2,b"]) []).
Definition demo_wide_job : jobRecord := demo_job "loaded" (demo_payload (lines ["1,a,b"]) []).
Definition demo_copy_job : jobRecord :=
  demo_job "copied" (demo_payload "" [TableRef "" "analytics" "events"; TableRef "p" "analytics" "events"]).

Lemma failed_file_job_changes_nothing_witness :
  let out := executeLoadJob 5 "" demo_order ∅ demo_wide_job demo_server in
  out.2 = Err (FilesFailed (RowWidth 1)) ∧ gentle_step 5 demo_server out.1 ∧
  lookup_table (srv_tables out.1) "p" "analytics" "loaded" = None.
Proof.
  intros out. assert (out.2 = Err (FilesFailed (RowWidth 1))) as E by (vm_compute; reflexivity).
  split_and!; [exact E| |vm_compute; reflexivity].
  apply (proj1 (proj2 (failed_file_job_changes_nothing 5 "" demo_order everywhere "" ∅ demo_wide_job demo_server)) out.1 out.2).
  - unfold out. by destruct (executeLoadJob _ _ _ _ _ _).
  - by rewrite E.
Defined.

Lemma load_job_result_witness :
  let out := executeLoadJob 5 "" demo_order ∅ demo_load_job demo_server in
  (tr_Rows <$> lookup_table (srv_tables out.1) "p" "analytics" "loaded") = Some [["1"; "a"]; ["2"; "b"]] ∧
  ∃ sch rows bytes, out.2 = Ok (file_statistics "load" 55 bytes (Z.of_nat (length rows))) ∧
    destination_written 5 demo_server out.1 (job_destination demo_load_job) sch rows "" "".
Proof.
  intros out. split; [vm_compute; reflexivity|].
  assert (out.2 = Ok (file_statistics "load" 55 7 2)) as E by (vm_compute; reflexivity).
  destruct (load_job_result 5 "" demo_order ∅ demo_load_job demo_server out.1 (file_statistics "load" 55 7 2))
    as (sch & rows & bytes & Hst & Hw & _).
  - rewrite <-E. unfold out. by destruct (executeLoadJob _ _ _ _ _ _).
  - exists sch, rows, bytes. split; [by rewrite E, Hst|exact Hw].
Defined.

Lemma copy_job_result_witness :
  let out := executeCopyJob 5 "" ∅ demo_copy_job demo_server in
  (length ∘ tr_Rows <$> lookup_table (srv_tables out.1) "p" "analytics" "copied") = Some 8%nat ∧
  ∃ sch parts, Forall2 (source_rows 5 "" ∅ "p" demo_server sch) (jp_SourceTables (jr_Payload demo_copy_job)) parts ∧
    destination_written 5 demo_server out.1 (job_destination demo_copy_job) sch (concat parts) "" "".
Proof.
  intros out. split; [vm_compute; reflexivity|].
  assert (out.2 = Ok (file_statistics "copy" 30 1024 8)) as E by (vm_compute; reflexivity).
  destruct (copy_job_result 5 "" ∅ demo_copy_job demo_server out.1 (file_statistics "copy" 30 1024 8))
    as (sch & parts & Hp & Hw & _).
  - rewrite <-E. unfold out. by destruct (executeCopyJob _ _ _ _ _).
  - exists sch, parts. split; [exact Hp|exact Hw].
Defined.
End Concrete.
