(* ===== verification/FakeGcs.v ===== *)
(** * The local Cloud Storage server (fake_gcs_service.go)

    The handlers of the JSON API over the directory LOCAQL_FAKE_GCS_ROOT: buckets
    are its directories, objects the files below them.  [fs] maps the clean paths
    of the machine to files and directories, and the [os] calls of the code are
    operations on it with the errors Unix gives; there are no symbolic links, and
    names are ones the file system accepts.  A request carries the decoded URL
    path, its query and the headers the handlers read.  MD5 and the [mime] and
    [mime/multipart] readers are parameters, and what [http.ServeContent] does
    with the content handed to it (ranges, conditional requests) is not modelled. *)

From S2P Require Import Prelude GoStrings GoPath GoTime GoJson Partitioning.
From Stdlib Require Import Ascii.

(** ** The file system *)

Inductive node := FileNode (content : string) (mtime : Z) | DirNode.
Abbreviation fs := (gmap string node).

#[export] Instance node_eq_dec : EqDecision node.
Proof. solve_decision. Defined.

Inductive osErr := NoEntry | IsADirectory | NotADirectory | NotEmptyDirectory.

(** [d] followed by a separator begins the path. *)
Definition under (d p : string) : bool := has_prefix p (d +:+ "/").

(** What is at a clean path; the root of the file system and the working
    directory exist. *)
Definition node_at (f : fs) (p : string) : option node :=
  if String.eqb p "/" || String.eqb p "." then Some DirNode else f !! p.

(** The path of [q] relative to the directory [d] that contains it. *)
Definition below (d q : string) : option string :=
  if String.eqb d "/" then (if is_abs q then Some (trim_prefix q "/") else None)
  else if String.eqb d "." then (if is_abs q || has_prefix (q +:+ "/") "../" then None else Some q)
  else if under d q then Some (trim_prefix q (d +:+ "/")) else None.

(** [filepath.Dir] of a clean path. *)
Definition parent (p : string) : string :=
  match dir p with EmptyString => "/" | d => d end.

(** The directories above a clean path other than [/] and [.], the outermost first. *)
Definition parents (p : string) : list string :=
  let cs := split_on "/" p in
  filter (.≠ "") ((λ n, join "/" (take n cs)) <$> seq 1 (length cs - 1)).

(** [os.MkdirAll] *)
Fixpoint mkdir_each (f : fs) (ps : list string) : fs * option osErr :=
  match ps with
  | [] => (f, None)
  | p :: ps =>
      match node_at f p with
      | Some DirNode => mkdir_each f ps
      | Some (FileNode _ _) => (f, Some NotADirectory)
      | None => mkdir_each (<[p := DirNode]> f) ps
      end
  end.
Definition mkdirAll (f : fs) (p : string) : fs * option osErr := mkdir_each f (parents p ++ [p]).

(** [os.WriteFile] at time [now] *)
Definition writeFile (f : fs) (p content : string) (now : Z) : fs * option osErr :=
  match node_at f p with
  | Some DirNode => (f, Some IsADirectory)
  | _ =>
      match node_at f (parent p) with
      | Some DirNode => (<[p := FileNode content now]> f, None)
      | Some (FileNode _ _) => (f, Some NotADirectory)
      | None => (f, Some NoEntry)
      end
  end.

(** What lies below a directory. *)
Definition subtree (f : fs) (p : string) : fs := filter (λ e, is_Some (below p e.1)) f.

(** [os.Remove] of a file or an empty directory *)
Definition remove (f : fs) (p : string) : fs * option osErr :=
  match node_at f p with
  | None => (f, Some NoEntry)
  | Some (FileNode _ _) => (delete p f, None)
  | Some DirNode =>
      if bool_decide (subtree f p = ∅) && negb (String.eqb p "/" || String.eqb p ".") then (delete p f, None)
      else (f, Some NotEmptyDirectory)
  end.

(** [os.ReadDir]: the names in a directory and whether they are directories, in
    order; a missing directory is no error to the caller. *)
Definition readDir (f : fs) (p : string) : list (string * bool) + osErr :=
  match node_at f p with
  | None => inl []
  | Some (FileNode _ _) => inr NotADirectory
  | Some DirNode =>
      let entries : gmap string bool := list_to_map (omap (λ '(q, n),
        rest ← below p q;
        if str_mem "/" rest then None
        else Some (rest, match n with DirNode => true | FileNode _ _ => false end)) (map_to_list (subtree f p))) in
      inl (omap (λ k, pair k <$> entries !! k) (sorted_keys entries))
  end.

(** The files [filepath.WalkDir] visits below a path, by their path relative to
    it, which joined to the directory names the file again; a missing path is
    skipped, and a file is visited itself. *)
Definition walk_files (f : fs) (p : string) : gmap string (string * Z) :=
  match node_at f p with
  | None => ∅
  | Some (FileNode content mtime) => {["." := (content, mtime)]}
  | Some DirNode =>
      list_to_map (omap (λ '(q, n),
        match n, below p q with
        | FileNode content mtime, Some name => Some (name, (content, mtime))
        | _, _ => None
        end) (map_to_list (subtree f p)))
  end.

(** ** Requests and replies *)

Record request := mkRequest {
  q_Method : string;
  q_Path : string;
  q_query : string → string;
  q_Host : string;
  q_TLS : bool;
  q_Forwarded : string;
  q_ContentType : string;
  q_Body : option string;
}.

Inductive gcsErr :=
| RootNotSet | Outside (bucket object : string)
| InvalidBucketBody | NameRequired | BucketRequired | UnrecognizedPath | UnrecognizedDownload
| BucketNotFound (bucket : string) | ObjectNotFound (bucket object : string) | MethodNotAllowed
| BodyUnreadable | UploadTypeUnsupported (uploadType : string) | ObjectNameRequired
| NotMultipart | NoBoundary | PartUnreadable | OsFailed (e : osErr).

Inductive reply :=
| RJson (status : Z) (body : json)
| RError (status : Z) (e : gcsErr)
| RContent (headers : list (string * string)) (name : string) (mtime : Z) (content : string)
| RNoContent.

(** The [Name] of a struct whose one field is tagged [name]: keys match without
    regard to case, the last string wins, [null] leaves the field as it is, and
    another type is an error the decoder reports at the end. *)
Definition decode_name (v : json) : string * bool :=
  match v with
  | JNull => ("", true)
  | JObj ms =>
      foldl (λ '(name, ok) '(k, v),
        if equal_fold k "name" then
          match v with JStr s => (s, ok) | JNull => (name, ok) | _ => (name, false) end
        else (name, ok)) ("", true) ms
  | _ => ("", false)
  end.

(** [url.PathEscape] *)
Definition path_safe (c : ascii) : bool :=
  byte_in 48 57 c || byte_in 65 90 c || byte_in 97 122 c || str_mem c "-_.~$&+:=@".
Definition upper_hex (n : nat) : ascii := ascii_of_nat (if (n <? 10)%nat then 48 + n else 55 + n).
Fixpoint path_escape (s : string) : string :=
  match s with
  | EmptyString => EmptyString
  | String c r =>
      if path_safe c then String c (path_escape r)
      else String "%" (String (upper_hex (nat_of_ascii c / 16)) (String (upper_hex (nat_of_ascii c mod 16)) (path_escape r)))
  end.

(** [strings.Cut(s, "/")] *)
Definition cut_slash (s : string) : string * string * bool :=
  match split_on "/" s with
  | a :: (b :: rest) => (a, join "/" (b :: rest), true)
  | _ => (s, "", false)
  end.

Definition trim_suffix (s suf : string) : string :=
  let n := (String.length s - String.length suf)%nat in
  if (String.length suf <=? String.length s)%nat && String.eqb (str_drop n s) suf then str_take n s else s.

Definition storage_prefix : string := "/storage/v1/b/".
Definition download_prefix : string := "/download/storage/v1/b/".
Definition upload_prefix : string := "/upload/storage/v1/b/".

Section Handlers.
(** [env] is LOCAQL_FAKE_GCS_ROOT; [md5] gives a digest in base64;
    [parseMediaType] the media type of a Content-Type with its boundary;
    [readParts] the contents of a body's parts, and whether the reader reached
    the end of the body rather than an error. *)
Context (env : string) (md5 : string → string)
  (parseMediaType : string → option (string * option string))
  (readParts : string → option string → list string * bool).

Definition fakeGCSRoot : string + gcsErr :=
  let root := trim_space env in
  if String.eqb root "" then inr RootNotSet else inl (clean root).

Definition fakeGCSObjectPath (root bucket object : string) : string + gcsErr :=
  let joined := join_path [root; bucket; object] in
  if negb (String.eqb joined root) && negb (under root joined) then inr (Outside bucket object)
  else inl joined.

Definition renderGCSBucketResource (name : string) : json :=
  JObj [("kind", JStr "storage#bucket"); ("id", JStr name); ("name", JStr name);
        ("selfLink", JStr ("/storage/v1/b/" +:+ name))].

Definition scheme_of (r : request) : string :=
  let forwarded := trim_space (match split_on "," (q_Forwarded r) with a :: _ => a | [] => "" end) in
  if String.eqb forwarded "http" || String.eqb forwarded "https" then forwarded
  else if q_TLS r then "https" else "http".

(** A digest in base64 needs no escape inside the quotes of the ETag. *)
Definition quoted (s : string) : string := str1 34 +:+ s +:+ str1 34.

Definition renderGCSObjectResource (r : request) (bucket object content : string) (mtime : Z) : json :=
  let t := format_rfc3339 mtime in
  let bucketPath := path_escape bucket in
  let objectPath := path_escape object in
  let mediaLink := "/download/storage/v1/b/" +:+ bucketPath +:+ "/o/" +:+ objectPath +:+ "?alt=media" in
  JObj [("kind", JStr "storage#object"); ("id", JStr (bucket +:+ "/" +:+ object)); ("name", JStr object);
        ("bucket", JStr bucket); ("size", JStr (format_int (Z.of_nat (String.length content))));
        ("contentType", JStr "application/octet-stream"); ("md5Hash", JStr (md5 content));
        ("etag", JStr (quoted (md5 content))); ("timeCreated", JStr t); ("updated", JStr t);
        ("selfLink", JStr ("/storage/v1/b/" +:+ bucketPath +:+ "/o/" +:+ objectPath));
        ("mediaLink", JStr (if String.eqb (q_Host r) "" then mediaLink
                            else scheme_of r +:+ "://" +:+ q_Host r +:+ mediaLink))].

(** *** Buckets *)

Definition gcsBucketsCollection (f : fs) (r : request) : fs * reply :=
  match fakeGCSRoot with
  | inr e => (f, RError 503 e)
  | inl root =>
      if String.eqb (q_Method r) "GET" then
        match readDir f root with
        | inr e => (f, RError 500 (OsFailed e))
        | inl entries =>
            (f, RJson 200 (JObj [("kind", JStr "storage#buckets");
                                 ("items", JArr (renderGCSBucketResource <$>
                                    (fst <$> filter (λ e, e.2 = true) entries)))]))
        end
      else if String.eqb (q_Method r) "POST" then
        match (b ← q_Body r; '(v, _) ← parse_value (2 * String.length b + 2) b;
               let '(name, ok) := decode_name v in if ok : bool then Some name else None) with
        | None => (f, RError 400 InvalidBucketBody)
        | Some name =>
            let name := trim_space name in
            if String.eqb name "" then (f, RError 400 NameRequired) else
            match fakeGCSObjectPath root name "" with
            | inr e => (f, RError 400 e)
            | inl path =>
                match mkdirAll f path with
                | (f, Some e) => (f, RError 500 (OsFailed e))
                | (f, None) => (f, RJson 200 (renderGCSBucketResource name))
                end
            end
        end
      else (f, RError 405 MethodNotAllowed)
  end.

Definition gcsGetBucket (f : fs) (root bucket : string) : reply :=
  match fakeGCSObjectPath root bucket "" with
  | inr e => RError 400 e
  | inl path =>
      match node_at f path with
      | Some DirNode => RJson 200 (renderGCSBucketResource bucket)
      | _ => RError 404 (BucketNotFound bucket)
      end
  end.

(** *** Objects *)

Definition gcsListObjects (f : fs) (r : request) (root bucket : string) : reply :=
  match fakeGCSObjectPath root bucket "" with
  | inr e => RError 400 e
  | inl bucketPath =>
      let prefix := q_query r "prefix" in
      let files := walk_files f bucketPath in
      let names := filter (λ n, String.eqb prefix "" || has_prefix n prefix = true) (sorted_keys files) in
      RJson 200 (JObj [("kind", JStr "storage#objects");
                       ("items", JArr (omap (λ name,
                          '(content, mtime) ← files !! name;
                          Some (renderGCSObjectResource r bucket name content mtime)) names))])
  end.

Definition gcsGetObjectMetadata (f : fs) (r : request) (root bucket object : string) : reply :=
  match fakeGCSObjectPath root bucket object with
  | inr e => RError 400 e
  | inl path =>
      match node_at f path with
      | Some (FileNode content mtime) => RJson 200 (renderGCSObjectResource r bucket object content mtime)
      | _ => RError 404 (ObjectNotFound bucket object)
      end
  end.

Definition gcsDownloadObject (f : fs) (root bucket object : string) : reply :=
  match fakeGCSObjectPath root bucket object with
  | inr e => RError 400 e
  | inl path =>
      match node_at f path with
      | Some (FileNode content mtime) =>
          RContent [("Content-Type", "application/octet-stream"); ("Accept-Ranges", "bytes");
                    ("ETag", quoted (md5 content)); ("X-Goog-Hash", "md5=" +:+ md5 content)]
            object mtime content
      | _ => RError 404 (ObjectNotFound bucket object)
      end
  end.

Definition gcsDeleteObject (f : fs) (root bucket object : string) : fs * reply :=
  match fakeGCSObjectPath root bucket object with
  | inr e => (f, RError 400 e)
  | inl path =>
      match remove f path with
      | (f, Some _) => (f, RError 404 (ObjectNotFound bucket object))
      | (f, None) => (f, RNoContent)
      end
  end.

Definition gcsBucketScope (f : fs) (r : request) : fs * reply :=
  match fakeGCSRoot with
  | inr e => (f, RError 503 e)
  | inl root =>
      let '(bucket, tail, hasTail) := cut_slash (trim_prefix (q_Path r) storage_prefix) in
      let bucket := trim_space bucket in
      if String.eqb bucket "" then (f, RError 400 BucketRequired)
      else if negb hasTail then (f, gcsGetBucket f root bucket)
      else if String.eqb tail "o" then (f, gcsListObjects f r root bucket)
      else
        let object := trim_prefix tail "o/" in
        if String.eqb object tail || String.eqb object "" then (f, RError 404 UnrecognizedPath)
        else if String.eqb (q_Method r) "GET" || String.eqb (q_Method r) "HEAD" then
          if String.eqb (q_query r "alt") "media" then (f, gcsDownloadObject f root bucket object)
          else if String.eqb (q_Method r) "HEAD" then (f, RError 405 MethodNotAllowed)
          else (f, gcsGetObjectMetadata f r root bucket object)
        else if String.eqb (q_Method r) "DELETE" then gcsDeleteObject f root bucket object
        else (f, RError 405 MethodNotAllowed)
  end.

Definition gcsDownloadScope (f : fs) (r : request) : fs * reply :=
  match fakeGCSRoot with
  | inr e => (f, RError 503 e)
  | inl root =>
      if negb (String.eqb (q_Method r) "GET") && negb (String.eqb (q_Method r) "HEAD")
      then (f, RError 405 MethodNotAllowed)
      else
        let '(bucket, tail, hasTail) := cut_slash (trim_prefix (q_Path r) download_prefix) in
        let object := trim_prefix tail "o/" in
        if negb hasTail || String.eqb (trim_space bucket) "" || String.eqb object tail || String.eqb object ""
        then (f, RError 404 UnrecognizedDownload)
        else (f, gcsDownloadObject f root bucket object)
  end.

(** *** Uploads *)

(** The name in the first part and the content of the last part after it. *)
Fixpoint read_parts (index : nat) (ps : list string) (name data : string) : string * string :=
  match ps with
  | [] => (name, data)
  | p :: ps =>
      match index with
      | O => read_parts 1 ps (match json_unmarshal p with Some v => (decode_name v).1 | None => name end) data
      | S i => read_parts (S index) ps name p
      end
  end.

Definition parseGCSMultipartUpload (r : request) : (string * string) + gcsErr :=
  match parseMediaType (q_ContentType r) with
  | Some (mediaType, boundary) =>
      if negb (has_prefix mediaType "multipart/") then inr NotMultipart else
      match boundary with
      | None => inr NoBoundary
      | Some boundary =>
          let '(parts, ended) := readParts boundary (q_Body r) in
          if ended then let '(name, data) := read_parts 0 parts "" "" in inl (trim_space name, data)
          else inr PartUnreadable
      end
  | None => inr NotMultipart
  end.

Definition writeGCSObject (f : fs) (now : Z) (root bucket object data : string) : fs * ((string * Z) + gcsErr) :=
  match fakeGCSObjectPath root bucket object with
  | inr e => (f, inr e)
  | inl path =>
      match mkdirAll f (parent path) with
      | (f, Some e) => (f, inr (OsFailed e))
      | (f, None) =>
          match writeFile f path data now with
          | (f, Some e) => (f, inr (OsFailed e))
          | (f, None) =>
              match node_at f path with
              | Some (FileNode content mtime) => (f, inl (content, mtime))
              | _ => (f, inr (OsFailed NoEntry))
              end
          end
      end
  end.

(** The object and data of an upload, by its type. *)
Definition upload_content (r : request) : (string * string) + (Z * gcsErr) :=
  let uploadType := q_query r "uploadType" in
  if String.eqb uploadType "" || String.eqb uploadType "media" then
    match q_Body r with
    | None => inr (400, BodyUnreadable)
    | Some data => inl (trim_space (q_query r "name"), data)
    end
  else if String.eqb uploadType "multipart" then
    match parseGCSMultipartUpload r with
    | inr e => inr (400, e)
    | inl (object, data) =>
        inl (if String.eqb object "" then trim_space (q_query r "name") else object, data)
    end
  else inr (501, UploadTypeUnsupported uploadType).

Definition gcsObjectUpload (f : fs) (now : Z) (r : request) : fs * reply :=
  if negb (String.eqb (q_Method r) "POST") then (f, RError 405 MethodNotAllowed) else
  match fakeGCSRoot with
  | inr e => (f, RError 503 e)
  | inl root =>
      let bucket := trim_space (trim_suffix (trim_prefix (q_Path r) upload_prefix) "/o") in
      if String.eqb bucket "" then (f, RError 400 BucketRequired) else
      match upload_content r with
      | inr (status, e) => (f, RError status e)
      | inl (object, data) =>
          if String.eqb object "" then (f, RError 400 ObjectNameRequired) else
          match writeGCSObject f now root bucket object data with
          | (f, inr e) => (f, RError 500 e)
          | (f, inl (content, mtime)) => (f, RJson 200 (renderGCSObjectResource r bucket object content mtime))
          end
      end
  end.

(** The handler a request's path is routed to ([server.go]). *)
Definition gcs_handle (f : fs) (now : Z) (r : request) : fs * reply :=
  if String.eqb (q_Path r) "/storage/v1/b" then gcsBucketsCollection f r
  else if has_prefix (q_Path r) storage_prefix then gcsBucketScope f r
  else if has_prefix (q_Path r) download_prefix then gcsDownloadScope f r
  else gcsObjectUpload f now r.

End Handlers.

(** ** No request leaves the root *)

Lemma under_spec d p : under d p = true ↔ ∃ r, p = d +:+ "/" +:+ r.
Proof.
  unfold under. rewrite has_prefix_spec. by setoid_rewrite str_app_assoc.
Qed.

Lemma under_trans a b c : under a b = true → under b c = true → under a c = true.
Proof.
  rewrite !under_spec. intros (r & ->) (s & ->). exists (r +:+ "/" +:+ s). by rewrite !str_app_assoc.
Qed.

(** Two paths with separators inside one path are one above the other. *)
Lemma common_path a b x y :
  a +:+ "/" +:+ x = b +:+ "/" +:+ y → a = b ∨ under a b = true ∨ under b a = true.
Proof.
  revert b. induction a as [|c a IH]; intros [|d b].
  - by left.
  - rewrite str_app_nil, str_app_cons. intros [= <- _]. right; left. apply under_spec.
    exists b. by rewrite str_app_nil, (str_app_cons "/" ""), str_app_nil.
  - rewrite str_app_nil, str_app_cons. intros [= -> _]. right; right. apply under_spec.
    exists a. by rewrite str_app_nil, (str_app_cons "/" ""), str_app_nil.
  - rewrite !str_app_cons. intros [= -> E]. destruct (IH b E) as [->|[H1|H1]]; [by left|right; left|right; right];
      apply under_spec in H1 as (r & ->); apply under_spec; exists r; by rewrite !str_app_cons.
Qed.

Lemma take_join_under n cs :
  (n < length cs)%nat → (0 < n)%nat → under (join "/" (take n cs)) (join "/" cs) = true.
Proof.
  intros Hn H0. apply under_spec. exists (join "/" (drop n cs)). rewrite <-join_app.
  - by rewrite take_drop.
  - destruct cs; [simpl in Hn; lia|]. destruct n; [lia|done].
  - intros E. apply (f_equal length) in E. rewrite length_drop in E. simpl in E. lia.
Qed.

Lemma elem_of_parents a p : a ∈ parents p → a ≠ "" ∧ under a p = true.
Proof.
  unfold parents. intros [Hne (n & -> & Hn)%list_elem_of_fmap]%list_elem_of_filter. split; [done|].
  apply elem_of_seq in Hn. pose proof (join_split "/" p) as Hj. change (String "/" "") with "/" in Hj.
  remember (split_on "/" p) as cs eqn:Ecs. clear Ecs. rewrite <-Hj. apply take_join_under; lia.
Qed.

Lemma parent_above p : parent p = "/" ∨ parent p = "." ∨ under (parent p) p = true.
Proof.
  unfold parent, dir. pose proof (join_split "/" p) as Hj. change (String "/" "") with "/" in Hj.
  destruct (rev (split_on "/" p)) as [|x [|y up]] eqn:E; [by right; left..|].
  assert (Es : split_on "/" p = rev (y :: up) ++ [x]).
  { rewrite <-(rev_involutive (split_on "/" p)), E. done. }
  destruct (join "/" (rev (y :: up))) as [|c d] eqn:Ed; [by left|]. right; right.
  rewrite <-Ed, <-Hj, Es. clear. apply under_spec. exists x. rewrite join_app; [done| |done].
  simpl. by destruct (rev up).
Qed.

Section Containment.
Context (root : string).

Definition inside (p : string) : Prop := p = root ∨ is_Some (below root p).
Definition above (p : string) : Prop := under p root = true.

(** Two states of the machine a server over [root] does not tell apart. *)
Definition agree (f g : fs) : Prop := ∀ p, inside p ∨ above p → f !! p = g !! p.

(** All that changed is inside the root, and the directories above it that were
    missing. *)
Definition confined (f f' : fs) : Prop :=
  ∀ p, f' !! p = f !! p ∨ inside p ∨ (f !! p = None ∧ f' !! p = Some DirNode ∧ above p).

Definition contained {A} (op : fs → fs * A) : Prop :=
  ∀ f, confined f (op f).1 ∧ ∀ g, agree f g → (op g).2 = (op f).2 ∧ agree (op f).1 (op g).1.

Definition visible (p : string) : Prop := inside p ∨ above p ∨ p = "/" ∨ p = ".".

Lemma confined_refl f : confined f f.
Proof. intros p. by left. Qed.

Lemma confined_trans f g h : confined f g → confined g h → confined f h.
Proof.
  intros Hfg Hgh p. destruct (Hgh p) as [->|[?|(Hn & Hd & Ha)]]; [apply Hfg|by right; left|].
  destruct (Hfg p) as [Hp|[?|(_ & Hd' & _)]]; [|by right; left|congruence].
  right; right. split_and!; [congruence|done..].
Qed.

Lemma contained_read {A} (h : fs → A) :
  (∀ f g, agree f g → h f = h g) → contained (λ f, (f, h f)).
Proof.
  intros Hh f. split; [apply confined_refl|]. intros g Hg. split; [|done]. symmetry. by apply Hh.
Qed.

Lemma contained_const {A} (a : A) : contained (λ f, (f, a)).
Proof. by apply contained_read. Qed.

Lemma contained_seq {A B} (op : fs → fs * A) (k : A → fs → fs * B) (h : fs → fs * B) :
  contained op → (∀ a, contained (k a)) → (∀ f, h f = k (op f).2 (op f).1) → contained h.
Proof.
  intros Hop Hk Hh f. rewrite Hh. destruct (Hop f) as [Hc Hg]. destruct (Hk (op f).2 (op f).1) as [Hc' Hg'].
  split; [by eapply confined_trans|]. intros g Hfg. destruct (Hg g Hfg) as [Hr Ha]. rewrite Hh, Hr. by apply Hg'.
Qed.

Lemma contained_insert p n : inside p → contained (λ f, (<[p := n]> f, @None osErr)).
Proof.
  intros Hp f. split.
  - intros q. simpl. destruct (decide (q = p)) as [->|]; [by right; left|]. left. by rewrite lookup_insert_ne.
  - intros g Hg. split; [done|]. intros q Hq. simpl.
    destruct (decide (q = p)) as [->|]; [by rewrite !lookup_insert_eq|]. rewrite !lookup_insert_ne by done. by apply Hg.
Qed.

Lemma contained_delete p : inside p → contained (λ f, (delete p f, @None osErr)).
Proof.
  intros Hp f. split.
  - intros q. simpl. destruct (decide (q = p)) as [->|]; [by right; left|]. left. by rewrite lookup_delete_ne.
  - intros g Hg. split; [done|]. intros q Hq. simpl.
    destruct (decide (q = p)) as [->|]; [by rewrite !lookup_delete_eq|]. rewrite !lookup_delete_ne by done. by apply Hg.
Qed.

Lemma node_at_agree f g p : agree f g → visible p → node_at f p = node_at g p.
Proof.
  unfold node_at. intros Hfg Hp. destruct (String.eqb_spec p "/") as [?|H1], (String.eqb_spec p ".") as [?|H2]; try done.
  simpl. apply Hfg. destruct Hp as [?|[?|[?|?]]]; auto; done.
Qed.

Lemma contained_mkdir ps : Forall visible ps → contained (λ f, mkdir_each f ps).
Proof.
  induction 1 as [|p ps Hp Hps IH]; [apply contained_const|].
  intros f. simpl. destruct (node_at f p) as [[c t|]|] eqn:E.
  - split; [apply confined_refl|]. intros g Hg. by rewrite <-(node_at_agree f g p Hg Hp), E.
  - destruct (IH f) as [Hc Hr]. split; [done|]. intros g Hg. rewrite <-(node_at_agree f g p Hg Hp), E. by apply Hr.
  - assert (Hio : (inside p ∨ above p) ∧ f !! p = None).
    { unfold node_at in E. destruct (String.eqb_spec p "/") as [?|H1], (String.eqb_spec p ".") as [?|H2]; try done.
      split; [|done]. destruct Hp as [?|[?|[?|?]]]; auto; done. }
    destruct (IH (<[p := DirNode]> f)) as [Hc Hr]. split.
    + eapply confined_trans; [|exact Hc]. intros q.
      destruct (decide (q = p)) as [->|]; [|left; by rewrite lookup_insert_ne].
      destruct Hio as [[?|?] Hn]; [by right; left|]. right; right. by rewrite lookup_insert_eq.
    + intros g Hg. rewrite <-(node_at_agree f g p Hg Hp), E. apply Hr. intros q Hq.
      destruct (decide (q = p)) as [->|]; [by rewrite !lookup_insert_eq|]. rewrite !lookup_insert_ne by done. by apply Hg.
Qed.

Context (Hroot : root ≠ "").

Lemma inside_under q : under root q = true → inside q.
Proof.
  intros Hq. right. unfold below. pose proof Hq as (r & ->)%under_spec.
  destruct (String.eqb_spec root "/") as [->|]; [by eexists|].
  destruct (String.eqb_spec root ".") as [->|]; [by eexists|]. rewrite Hq. by eexists.
Qed.

Lemma subtree_inside p q : p = root ∨ under root p = true → is_Some (below p q) → inside q.
Proof.
  intros [->|Hp] Hq; [by right|]. apply inside_under. revert Hq. unfold below.
  pose proof Hp as (r & E)%under_spec.
  destruct root as [|c ro]; [done|]. rewrite str_app_cons in E.
  destruct (String.eqb_spec p "/") as [->|]; [injection E as <- E; by destruct ro|].
  destruct (String.eqb_spec p ".") as [->|]; [injection E as <- E; by destruct ro|].
  destruct (under p q) eqn:Eq; [|by intros [? ?]]. intros _. by eapply under_trans.
Qed.

Lemma subtree_agree f g p : agree f g → p = root ∨ under root p = true → subtree f p = subtree g p.
Proof.
  intros Hfg Hp. apply map_eq. intros q. apply option_eq. intros n. unfold subtree.
  rewrite !map_lookup_filter_Some. simpl. split; intros [Hl Hq]; (split; [|done]).
  - rewrite <-(Hfg q); [done|]. left. by eapply subtree_inside.
  - rewrite (Hfg q); [done|]. left. by eapply subtree_inside.
Qed.

Lemma objectPath_visible bucket object p :
  fakeGCSObjectPath root bucket object = inl p → p = root ∨ under root p = true.
Proof.
  unfold fakeGCSObjectPath. destruct (String.eqb_spec (join_path [root; bucket; object]) root) as [->|]; simpl.
  { intros [= <-]. by left. }
  destruct (under root _) eqn:E; simpl; [|done]. intros [= <-]. by right.
Qed.

Lemma inside_root_or p : p = root ∨ under root p = true → inside p.
Proof. intros [->|?]; [by left|by apply inside_under]. Qed.

Lemma prefix_visible p a : p = root ∨ under root p = true → under a p = true → visible a.
Proof.
  intros [->|Hp] Ha; [by right; left|]. apply under_spec in Ha as (x & ->). apply under_spec in Hp as (y & E).
  destruct (common_path _ _ _ _ E) as [->|[?|?]]; [by left; left|by right; left|left; by apply inside_under].
Qed.

Lemma parents_visible p : p = root ∨ under root p = true → Forall visible (parents p ++ [p]).
Proof.
  intros Hp. apply Forall_app. split; [|constructor; [left; by apply inside_root_or|done]].
  apply Forall_forall. intros a [_ Ha]%elem_of_parents. by eapply prefix_visible.
Qed.

Lemma parent_parents_visible p : p = root ∨ under root p = true → Forall visible (parents (parent p) ++ [parent p]).
Proof.
  intros Hp. destruct (parent_above p) as [->|[->|Ha]].
  - constructor; [|done]. right; right. by left.
  - constructor; [|done]. right; right. by right.
  - apply Forall_app. split; [|constructor; [by eapply prefix_visible|done]].
    apply Forall_forall. intros a [_ Hb]%elem_of_parents. eapply prefix_visible; [exact Hp|]. by eapply under_trans.
Qed.

Lemma contained_remove p : p = root ∨ under root p = true → contained (λ f, remove f p).
Proof.
  intros Hp. pose proof (inside_root_or p Hp) as Hin.
  apply (contained_seq (λ f, (f, (node_at f p, bool_decide (subtree f p = ∅))))
    (λ o f, match o.1 with
            | None => (f, Some NoEntry) | Some (FileNode _ _) => (delete p f, None)
            | Some DirNode => if o.2 && negb (String.eqb p "/" || String.eqb p ".") then (delete p f, None)
                              else (f, Some NotEmptyDirectory) end)); [| |done].
  - apply contained_read. intros f g Hfg. rewrite (subtree_agree f g p Hfg Hp). f_equal.
    apply node_at_agree; [done|by left].
  - intros [[[c t|]|] e]; simpl; [by apply contained_delete| |apply contained_const].
    destruct (_ && _); [by apply contained_delete|apply contained_const].
Qed.

Lemma contained_write p content now :
  p = root ∨ under root p = true → contained (λ f, writeFile f p content now).
Proof.
  intros Hp. pose proof (inside_root_or p Hp) as Hin.
  assert (Hpar : visible (parent p)).
  { pose proof (parent_parents_visible p Hp) as H1. apply Forall_app in H1 as [_ H1]. by inversion H1. }
  apply (contained_seq (λ f, (f, (node_at f p, node_at f (parent p))))
    (λ o f, match o.1 with
            | Some DirNode => (f, Some IsADirectory)
            | _ => match o.2 with
                   | Some DirNode => (<[p := FileNode content now]> f, None)
                   | Some (FileNode _ _) => (f, Some NotADirectory)
                   | None => (f, Some NoEntry) end end)); [| |done].
  - apply contained_read. intros f g Hfg. f_equal; apply node_at_agree; try done. by left.
  - intros [[[c t|]|] [[c' t'|]|]]; simpl; try apply contained_const; by apply contained_insert.
Qed.

End Containment.

Section Handlers_contained.
Context (env : string) (md5 : string → string) (parseMediaType : string → option (string * option string))
  (readParts : string → option string → list string * bool).

Lemma fakeGCSRoot_ne root : fakeGCSRoot env = inl root → root ≠ "".
Proof. unfold fakeGCSRoot. destruct (String.eqb _ _); [done|]. intros [= <-]. apply clean_ne. Qed.

Context (root : string) (Hroot : root ≠ "").

Lemma node_path_agree f g bucket object p :
  agree root f g → fakeGCSObjectPath root bucket object = inl p → node_at f p = node_at g p.
Proof.
  intros Hfg Hp. apply (node_at_agree root); [done|]. left. apply inside_root_or; [done|].
  by eapply objectPath_visible.
Qed.

Lemma getBucket_read f g bucket : agree root f g → gcsGetBucket f root bucket = gcsGetBucket g root bucket.
Proof.
  intros Hfg. unfold gcsGetBucket. destruct (fakeGCSObjectPath _ _ _) eqn:Hp; [|done].
  by rewrite (node_path_agree f g _ _ _ Hfg Hp).
Qed.

Lemma metadata_read f g r bucket object :
  agree root f g → gcsGetObjectMetadata md5 f r root bucket object = gcsGetObjectMetadata md5 g r root bucket object.
Proof.
  intros Hfg. unfold gcsGetObjectMetadata. destruct (fakeGCSObjectPath _ _ _) eqn:Hp; [|done].
  by rewrite (node_path_agree f g _ _ _ Hfg Hp).
Qed.

Lemma download_read f g bucket object :
  agree root f g → gcsDownloadObject md5 f root bucket object = gcsDownloadObject md5 g root bucket object.
Proof.
  intros Hfg. unfold gcsDownloadObject. destruct (fakeGCSObjectPath _ _ _) eqn:Hp; [|done].
  by rewrite (node_path_agree f g _ _ _ Hfg Hp).
Qed.

Lemma walk_agree f g p :
  agree root f g → p = root ∨ under root p = true → walk_files f p = walk_files g p.
Proof.
  intros Hfg Hp. unfold walk_files. rewrite (subtree_agree root Hroot f g p Hfg Hp).
  by rewrite (node_at_agree root f g p Hfg (or_introl (inside_root_or root Hroot p Hp))).
Qed.

Lemma list_read f g r bucket :
  agree root f g → gcsListObjects md5 f r root bucket = gcsListObjects md5 g r root bucket.
Proof.
  intros Hfg. unfold gcsListObjects. destruct (fakeGCSObjectPath _ _ _) eqn:Hp; [|done].
  by rewrite (walk_agree f g _ Hfg (objectPath_visible root _ _ _ Hp)).
Qed.

Lemma readDir_agree f g : agree root f g → readDir f root = readDir g root.
Proof.
  intros Hfg. unfold readDir. rewrite (subtree_agree root Hroot f g root Hfg (or_introl eq_refl)).
  by rewrite (node_at_agree root f g root Hfg (or_introl (or_introl eq_refl))).
Qed.

Lemma delete_contained bucket object : contained root (λ f, gcsDeleteObject f root bucket object).
Proof.
  unfold gcsDeleteObject. destruct (fakeGCSObjectPath _ _ _) as [p|] eqn:Hp; [|apply contained_const].
  apply objectPath_visible in Hp.
  apply (contained_seq root (λ f, remove f p)
    (λ e f, match e with Some _ => (f, RError 404 (ObjectNotFound bucket object)) | None => (f, RNoContent) end)).
  - by apply contained_remove.
  - intros []; apply contained_const.
  - intros f. by destruct (remove f p) as [? []].
Qed.

Lemma scope_contained r :
  fakeGCSRoot env = inl root → contained root (λ f, gcsBucketScope env md5 f r).
Proof.
  intros Hr. unfold gcsBucketScope. rewrite Hr.
  destruct (cut_slash _) as [[bucket tail] hasTail].
  repeat match goal with |- contained _ (λ f, if ?b then _ else _) => destruct b end;
    try apply contained_const; try apply delete_contained; apply contained_read; intros f g Hfg.
  - by apply getBucket_read.
  - by apply list_read.
  - by apply download_read.
  - by apply metadata_read.
Qed.

Lemma writeObject_contained bucket object data now :
  contained root (λ f, writeGCSObject f now root bucket object data).
Proof.
  unfold writeGCSObject. destruct (fakeGCSObjectPath _ _ _) as [p|] eqn:Hp; [|apply contained_const].
  apply objectPath_visible in Hp.
  apply (contained_seq root (λ f, mkdirAll f (parent p))
    (λ e f, match e with
            | Some e => (f, inr (OsFailed e))
            | None =>
                match writeFile f p data now with
                | (f, Some e) => (f, inr (OsFailed e))
                | (f, None) => match node_at f p with
                               | Some (FileNode content mtime) => (f, inl (content, mtime))
                               | _ => (f, inr (OsFailed NoEntry)) end end end)).
  - apply contained_mkdir. by apply parent_parents_visible.
  - intros [e|]; [apply contained_const|].
    apply (contained_seq root (λ f, writeFile f p data now)
      (λ e f, match e with
              | Some e => (f, inr (OsFailed e))
              | None => match node_at f p with
                        | Some (FileNode content mtime) => (f, inl (content, mtime))
                        | _ => (f, inr (OsFailed NoEntry)) end end)).
    + by apply contained_write.
    + intros [e|]; [apply contained_const|].
      apply (contained_seq root (λ f, (f, node_at f p))
        (λ n f, match n with Some (FileNode content mtime) => (f, inl (content, mtime))
                        | _ => (f, inr (OsFailed NoEntry)) end)); [| |done].
      * apply contained_read. intros f g Hfg. apply (node_at_agree root); [done|]. left. by apply inside_root_or.
      * intros [[]|]; apply contained_const.
    + intros f. by destruct (writeFile f p data now) as [? []].
  - intros f. by destruct (mkdirAll f (parent p)) as [? []].
Qed.

Lemma upload_contained r now :
  fakeGCSRoot env = inl root →
  contained root (λ f, gcsObjectUpload env md5 parseMediaType readParts f now r).
Proof.
  intros Hr. unfold gcsObjectUpload. rewrite Hr.
  destruct (negb _); [apply contained_const|]. cbv zeta. destruct (String.eqb _ ""); [apply contained_const|].
  destruct (upload_content _ _ _) as [[object data]|[status e]]; [|apply contained_const].
  destruct (String.eqb object ""); [apply contained_const|]. set (b := trim_space _).
  apply (contained_seq root (λ f, writeGCSObject f now root b object data)
    (λ w f, match w with inr e => (f, RError 500 e)
            | inl (content, mtime) => (f, RJson 200 (renderGCSObjectResource md5 r b object content mtime)) end)).
  - apply writeObject_contained.
  - intros [[]|]; apply contained_const.
  - intros f. by destruct (writeGCSObject _ _ _ _ _ _) as [? [[]|]].
Qed.

Lemma buckets_contained r :
  fakeGCSRoot env = inl root → contained root (λ f, gcsBucketsCollection env f r).
Proof.
  intros Hr. unfold gcsBucketsCollection. rewrite Hr. destruct (String.eqb (q_Method r) "GET").
  { apply (contained_seq root (λ f, (f, readDir f root))
      (λ d f, match d with inr e => (f, RError 500 (OsFailed e))
              | inl entries => (f, RJson 200 (JObj [("kind", JStr "storage#buckets");
                                 ("items", JArr (renderGCSBucketResource <$>
                                    (fst <$> filter (λ e, e.2 = true) entries)))])) end)); [| |done].
    - apply contained_read. apply readDir_agree.
    - intros []; apply contained_const. }
  destruct (String.eqb (q_Method r) "POST"); [|apply contained_const].
  destruct (mbind _ _) as [name|]; [|apply contained_const]. cbv zeta.
  destruct (String.eqb _ ""); [apply contained_const|].
  destruct (fakeGCSObjectPath _ _ _) as [p|] eqn:Hp; [|apply contained_const]. set (n := trim_space name).
  apply (contained_seq root (λ f, mkdirAll f p)
    (λ e f, match e with Some e => (f, RError 500 (OsFailed e)) | None => (f, RJson 200 (renderGCSBucketResource n)) end)).
  - apply contained_mkdir. apply parents_visible; [done|]. by eapply objectPath_visible.
  - intros []; apply contained_const.
  - intros f. by destruct (mkdirAll f p) as [? []].
Qed.

End Handlers_contained.

(** C24. No request to the storage API reaches outside the root, whatever its
    path, names and body: on two machines that agree on the paths below
    LOCAQL_FAKE_GCS_ROOT and the directories above it the request gets the same
    reply, and it changes nothing else than paths below the root and directories
    above it that were missing.  Without a root nothing changes. *)
Theorem gcs_requests_contained (env : string) (md5 : string → string)
    (parseMediaType : string → option (string * option string))
    (readParts : string → option string → list string * bool) (f : fs) (now : Z) (r : request) :
  let '(f', rep) := gcs_handle env md5 parseMediaType readParts f now r in
  match fakeGCSRoot env with
  | inr _ => f' = f ∧ (rep = RError 503 RootNotSet ∨ rep = RError 405 MethodNotAllowed)
  | inl root =>
      confined root f f' ∧
      ∀ g, agree root f g →
        (gcs_handle env md5 parseMediaType readParts g now r).2 = rep ∧
        agree root f' (gcs_handle env md5 parseMediaType readParts g now r).1
  end.
Proof.
  destruct (gcs_handle env md5 parseMediaType readParts f now r) as [f' rep] eqn:E.
  destruct (fakeGCSRoot env) as [root|e] eqn:Hr.
  - pose proof (fakeGCSRoot_ne env root Hr) as Hne.
    assert (Hc : contained root (λ f, gcs_handle env md5 parseMediaType readParts f now r)).
    { unfold gcs_handle.
      repeat match goal with |- contained _ (λ f, if ?b then _ else _) => destruct b end.
      - by apply buckets_contained.
      - by apply scope_contained.
      - unfold gcsDownloadScope. rewrite Hr. destruct (_ && _); [apply contained_const|].
        destruct (cut_slash _) as [[bucket tail] hasTail]. cbv zeta. destruct (_ || _); [apply contained_const|].
        apply contained_read. intros ? ? ?. by apply (download_read md5 root Hne).
      - by apply upload_contained. }
    destruct (Hc f) as [H1 H2]. rewrite E in H1, H2. by split.
  - assert (e = RootNotSet) as -> by (unfold fakeGCSRoot in Hr; destruct (String.eqb _ _); by simplify_eq).
    revert E. unfold gcs_handle, gcsBucketsCollection, gcsBucketScope, gcsDownloadScope, gcsObjectUpload. rewrite Hr.
    repeat case_match; intros; simplify_eq; auto.
Qed.
