(* ===== verification/FakeGcsStore.v ===== *)
(** * The storage API as an object store

    Requests for plain bucket and object names, on any disk without files at or
    above the root, answer and change the directory the way a flat store of
    objects does, with the folders the names create. *)

From S2P Require Import Prelude GoStrings GoPath GoTime GoJson JsonText Partitioning FileFormats FakeGcs.
From Stdlib Require Import Ascii.

(** ** Paths as lists of components *)

Lemma split_on_app c a r : split_on c (a +:+ String c r) = split_on c a ++ split_on c r.
Proof.
  induction a as [|d a IH].
  - rewrite str_app_nil. simpl. by rewrite bool_decide_true.
  - rewrite str_app_cons. simpl. rewrite IH. case_bool_decide; [done|].
    destruct (split_on c a) as [|x l] eqn:E; [by apply split_on_ne in E|done].
Qed.

Lemma app_sep_cons a (c : ascii) r : a +:+ String c "" +:+ r = a +:+ String c r.
Proof. by rewrite (str_app_cons c ""), str_app_nil. Qed.

Lemma abs_path_ne cs : Forall file_name cs → cs ≠ [] → abs_path cs ≠ "/" ∧ abs_path cs ≠ ".".
Proof.
  intros Hcs Hne. split; [|done]. intros E. apply (abs_path_inj cs []) in E; [done..|constructor].
Qed.

Lemma node_at_abs f cs : Forall file_name cs → cs ≠ [] → node_at f (abs_path cs) = f !! abs_path cs.
Proof.
  intros Hcs Hne. unfold node_at. destruct (abs_path_ne cs Hcs Hne).
  destruct (String.eqb_spec (abs_path cs) "/"); [done|]. by destruct (String.eqb_spec (abs_path cs) ".").
Qed.

Lemma under_abs cs ds :
  Forall file_name cs → Forall file_name ds → cs ≠ [] →
  under (abs_path cs) (abs_path ds) = true ↔ ∃ e, e ≠ [] ∧ ds = cs ++ e.
Proof.
  intros Hcs Hds Hne. rewrite under_spec. split.
  - intros (r & E). destruct (decide (ds = [])) as [->|Hd].
    { exfalso. apply (f_equal (split_on "/")) in E.
      rewrite app_sep_cons, split_on_app, (split_abs_path cs) in E by done. simpl in E. injection E as E.
      apply (f_equal length) in E. rewrite length_app in E. destruct cs; [done|].
      destruct (split_on "/" r) eqn:Er; [by apply split_on_ne in Er|]. simpl in E. lia. }
    apply (f_equal (split_on "/")) in E. rewrite app_sep_cons, split_on_app, !split_abs_path in E by done.
    injection E as ->. exists (split_on "/" r). split; [apply split_on_ne|done].
  - intros (e & He & ->). exists (join "/" e). by rewrite abs_path_app.
Qed.

Lemma below_abs cs ds x :
  Forall file_name cs → Forall file_name ds → cs ≠ [] →
  below (abs_path cs) (abs_path ds) = Some x ↔ ∃ e, e ≠ [] ∧ ds = cs ++ e ∧ x = join "/" e.
Proof.
  intros Hcs Hds Hne. destruct (abs_path_ne cs Hcs Hne) as [H1 H2]. unfold below.
  destruct (String.eqb_spec (abs_path cs) "/"); [done|]. destruct (String.eqb_spec (abs_path cs) "."); [done|].
  pose proof (under_abs cs ds Hcs Hds Hne) as Hu. destruct (under (abs_path cs) (abs_path ds)).
  - destruct (proj1 Hu eq_refl) as (e & He & ->). rewrite abs_path_app, <-str_app_assoc, trim_prefix_app by done.
    split; [intros [= <-]; eauto|]. intros (e' & _ & ->%app_inv_head & ->). done.
  - split; [done|]. intros (e & He & -> & _). discriminate (proj2 Hu (ex_intro _ e (conj He eq_refl))).
Qed.

(** The paths above and at [cs]. *)
Definition prefixes (cs : list string) : list (list string) := (λ n, take n cs) <$> seq 1 (length cs).

Lemma elem_of_prefixes cs ds : ds ∈ prefixes cs ↔ ds ≠ [] ∧ ∃ e, cs = ds ++ e.
Proof.
  unfold prefixes. rewrite list_elem_of_fmap. split.
  - intros (n & -> & Hn%elem_of_seq). split.
    + destruct cs; [simpl in Hn; lia|]. by destruct n; [lia|].
    + exists (drop n cs). by rewrite take_drop.
  - intros (Hne & e & ->). exists (length ds). rewrite take_app_length. split; [done|].
    apply elem_of_seq. rewrite length_app. destruct ds; [done|]. simpl. lia.
Qed.

Lemma join_take_abs n cs :
  join "/" (take (S n) ("" :: cs)) = match take n cs with [] => "" | ds => abs_path ds end.
Proof.
  simpl. unfold abs_path. destruct (take n cs); [done|]. by rewrite str_app_nil.
Qed.

Lemma mkdir_paths cs :
  Forall file_name cs → cs ≠ [] → parents (abs_path cs) ++ [abs_path cs] = abs_path <$> prefixes cs.
Proof.
  intros Hcs Hne. unfold parents, prefixes. rewrite split_abs_path by done. simpl length.
  rewrite Nat.sub_1_r, Nat.pred_succ.
  destruct (length cs) as [|k] eqn:Hk; [by destruct cs|].
  assert (Hr : abs_path <$> ((λ n, take n cs) <$> seq 1 (S k)) =
               (abs_path <$> ((λ n, take n cs) <$> seq 1 k)) ++ [abs_path cs]).
  { rewrite (seq_S k 1), !fmap_app. simpl. by rewrite take_ge by lia. }
  rewrite Hr. f_equal.
  change (seq 1 (S k)) with (1%nat :: seq 2 k). rewrite fmap_cons, filter_cons_False by (simpl; naive_solver).
  rewrite <-(seq_shift k 1), <-list_fmap_compose.
  assert (Hm : ((λ n, join "/" (take n ("" :: cs))) ∘ S) <$> seq 1 k = abs_path <$> ((λ n, take n cs) <$> seq 1 k)).
  { rewrite <-list_fmap_compose. apply list_fmap_ext. intros i n [-> Hn]%lookup_seq. unfold compose.
    rewrite join_take_abs. simpl. by destruct cs. }
  rewrite Hm. apply filter_all. intros x (y & -> & _)%list_elem_of_fmap. done.
Qed.

Lemma prefixes_app cs ds : prefixes (cs ++ ds) = prefixes cs ++ ((cs ++.) <$> prefixes ds).
Proof.
  unfold prefixes. rewrite length_app, seq_app, fmap_app. f_equal.
  - apply list_fmap_ext. intros i n [-> Hn]%lookup_seq. by rewrite take_app_le by lia.
  - rewrite Nat.add_comm, <-fmap_add_seq, <-!list_fmap_compose. apply list_fmap_ext.
    intros i n [-> Hn]%lookup_seq. unfold compose. by rewrite take_app_add.
Qed.

Lemma prefixes_snoc cs c : prefixes (cs ++ [c]) = prefixes cs ++ [cs ++ [c]].
Proof. by rewrite prefixes_app. Qed.

Lemma parent_abs cs c : Forall file_name (cs ++ [c]) → cs ≠ [] → parent (abs_path (cs ++ [c])) = abs_path cs.
Proof.
  intros Hcs Hne. unfold parent, dir. rewrite split_abs_path by (done || by destruct cs).
  rewrite app_comm_cons, rev_app_distr. remember ("" :: cs) as l eqn:El. simpl.
  destruct (rev l) as [|x y] eqn:E; [by apply (f_equal length) in E; rewrite length_rev, El in E|].
  rewrite <-E, rev_involutive, El. pose proof (join_take_abs (length cs) cs) as H.
  rewrite take_ge in H by done. rewrite H, take_ge by done. by destruct cs.
Qed.

(** ** Trees of files *)

(** Keys are absolute paths, and above every node there are directories. *)
Record machine (f : fs) : Prop := {
  m_keys : ∀ q n, f !! q = Some n → ∃ cs, cs ≠ [] ∧ Forall file_name cs ∧ q = abs_path cs;
  m_up : ∀ cs e n, Forall file_name (cs ++ e) → cs ≠ [] → e ≠ [] →
         f !! abs_path (cs ++ e) = Some n → f !! abs_path cs = Some DirNode;
}.

Definition no_file (f : fs) (cs : list string) : Prop := ∀ c t, f !! abs_path cs ≠ Some (FileNode c t).

Lemma gcs_mkdir_each_ok f ps :
  (∀ p, p ∈ ps → p ≠ "/" ∧ p ≠ "." ∧ ∀ c t, f !! p ≠ Some (FileNode c t)) →
  ∃ f', mkdir_each f ps = (f', None) ∧ ∀ q, f' !! q = if decide (q ∈ ps) then Some DirNode else f !! q.
Proof.
  revert f. induction ps as [|p ps IH]; intros f Hps.
  { exists f. split; [done|]. intros q. by rewrite decide_False by apply not_elem_of_nil. }
  destruct (Hps p) as (H1 & H2 & H3); [left|]. simpl.
  assert (node_at f p = f !! p) as ->.
  { unfold node_at. destruct (String.eqb_spec p "/"); [done|]. by destruct (String.eqb_spec p "."). }
  assert (Hstep : ∀ f1, f1 !! p = Some DirNode → (∀ q, q ≠ p → f1 !! q = f !! q) →
    ∃ f', mkdir_each f1 ps = (f', None) ∧ ∀ q, f' !! q = if decide (q ∈ p :: ps) then Some DirNode else f !! q).
  { intros f1 Hp Hq. destruct (IH f1) as (f' & -> & Hf').
    { intros q Hin. destruct (Hps q) as (? & ? & H4); [by right|]. split_and!; [done..|]. intros c t.
      destruct (decide (q = p)) as [->|]; [by rewrite Hp|]. rewrite Hq by done. apply H4. }
    exists f'. split; [done|]. intros q. rewrite Hf'.
    destruct (decide (q ∈ ps)) as [Hin|Hin], (decide (q ∈ p :: ps)) as [Hin'|Hin']; try done.
    - destruct Hin'. by right.
    - apply elem_of_cons in Hin' as [->|?]; done.
    - apply Hq. intros ->. destruct Hin'. by left. }
  destruct (f !! p) as [[c t|]|] eqn:E.
  - by destruct (H3 c t).
  - by apply Hstep.
  - apply Hstep; [by rewrite lookup_insert_eq|]. intros q Hq. by rewrite lookup_insert_ne.
Qed.

Lemma mkdir_each_dirs f ps l : (∀ a, a ∈ ps → node_at f a = Some DirNode) → mkdir_each f (ps ++ l) = mkdir_each f l.
Proof.
  induction ps as [|p ps IH]; intros Hps; [done|]. simpl. rewrite Hps by left. apply IH. intros a Ha. apply Hps. by right.
Qed.

Section Machine.
Context (f : fs) (Hm : machine f).

Lemma prefixes_names cs p : Forall file_name cs → p ∈ prefixes cs → p ≠ [] ∧ Forall file_name p.
Proof. intros Hcs [Hne (e & ->)]%elem_of_prefixes. split; [done|]. by apply Forall_app in Hcs as [? _]. Qed.

Lemma gcs_mkdirAll_ok cs :
  Forall file_name cs → cs ≠ [] → (∀ p, p ∈ prefixes cs → no_file f p) →
  ∃ f', mkdirAll f (abs_path cs) = (f', None) ∧ machine f' ∧
    ∀ ds, Forall file_name ds → ds ≠ [] →
      f' !! abs_path ds = if decide (ds ∈ prefixes cs) then Some DirNode else f !! abs_path ds.
Proof.
  intros Hcs Hne Hfree. unfold mkdirAll. rewrite mkdir_paths by done.
  destruct (gcs_mkdir_each_ok f (abs_path <$> prefixes cs)) as (f' & -> & Hf').
  { intros p (ds & -> & Hds)%list_elem_of_fmap. destruct (prefixes_names cs ds Hcs Hds).
    destruct (abs_path_ne ds) as [? ?]; [done..|]. split_and!; [done..|]. by apply Hfree. }
  assert (Hlook : ∀ ds, Forall file_name ds → ds ≠ [] →
    f' !! abs_path ds = if decide (ds ∈ prefixes cs) then Some DirNode else f !! abs_path ds).
  { intros ds Hds Hd. rewrite Hf'. destruct (decide (ds ∈ prefixes cs)) as [Hin|Hin].
    - rewrite decide_True; [done|]. by apply list_elem_of_fmap_2.
    - rewrite decide_False; [done|]. intros (e & E & He)%list_elem_of_fmap.
      apply abs_path_inj in E as ->; [done|done|]. by destruct (prefixes_names cs e). }
  exists f'. split; [done|]. split; [|done]. split.
  - intros q n. rewrite Hf'. case_decide as Hin; [|by apply Hm]. intros _.
    apply list_elem_of_fmap in Hin as (ds & -> & Hds). exists ds. by destruct (prefixes_names cs ds).
  - intros ds e n Hn Hd He. pose proof Hn as [Hn1 _]%Forall_app.
    rewrite !Hlook; [|done|done|done|by destruct ds].
    destruct (decide (ds ∈ prefixes cs)) as [Hin|Hin]; [done|]. case_decide as Hin'.
    + apply elem_of_prefixes in Hin' as (_ & x & ->). destruct Hin. apply elem_of_prefixes.
      split; [done|]. exists (e ++ x). by rewrite app_assoc.
    + by apply Hm.
Qed.

Lemma mkdirAll_blocked cs p c t :
  Forall file_name cs → p ∈ prefixes cs → f !! abs_path p = Some (FileNode c t) →
  mkdirAll f (abs_path cs) = (f, Some NotADirectory).
Proof.
  intros Hcs Hp Hf. destruct (prefixes_names cs p Hcs Hp) as [Hpne Hpn].
  pose proof Hp as (_ & e & ->)%elem_of_prefixes. destruct (exists_last Hpne) as (d & x & ->).
  unfold mkdirAll. rewrite mkdir_paths; [|done|by destruct d].
  rewrite prefixes_app, prefixes_snoc, <-app_assoc, fmap_app. rewrite mkdir_each_dirs.
  - simpl. rewrite node_at_abs by done. by rewrite Hf.
  - intros a (ds & -> & Hds)%list_elem_of_fmap. apply Forall_app in Hpn as [Hd Hx].
    destruct (prefixes_names d ds Hd Hds) as [Hdne Hdn].
    rewrite node_at_abs by done. apply elem_of_prefixes in Hds as (_ & y & ->).
    apply (m_up f Hm ds (y ++ [x]) (FileNode c t)); [|done|by destruct y|by rewrite app_assoc].
    rewrite app_assoc. by apply Forall_app.
Qed.

Lemma machine_insert cs n :
  Forall file_name cs → cs ≠ [] →
  (∀ d e, d ≠ [] → e ≠ [] → cs = d ++ e → f !! abs_path d = Some DirNode) →
  (∀ e, e ≠ [] → Forall file_name (cs ++ e) → f !! abs_path (cs ++ e) = None) →
  machine (<[abs_path cs := n]> f).
Proof.
  intros Hcs Hne Habove Hbelow. split.
  - intros q n' [[<- _]|[_ Hq]]%lookup_insert_Some; [by exists cs|by apply (m_keys f Hm q n')].
  - intros ds e n' Hn Hd He Hl. pose proof Hn as [Hn1 _]%Forall_app.
    apply lookup_insert_Some in Hl as [[E _]|[_ Hl]].
    + apply abs_path_inj in E as ->; [|done..]. rewrite lookup_insert_ne; [by eapply Habove|].
      intros E. apply abs_path_inj in E; [|done..]. apply (f_equal length) in E. rewrite length_app in E.
      destruct e; [done|simpl in E; lia].
    + destruct (decide (ds = cs)) as [->|Hdc]; [by rewrite Hbelow in Hl|].
      rewrite lookup_insert_ne; [by eapply (m_up f Hm)|]. intros E. by apply abs_path_inj in E.
Qed.

Lemma machine_delete cs :
  Forall file_name cs → cs ≠ [] →
  (∀ e, e ≠ [] → Forall file_name (cs ++ e) → f !! abs_path (cs ++ e) = None) →
  machine (delete (abs_path cs) f).
Proof.
  intros Hcs Hne Hbelow. split.
  - intros q n [_ Hq]%lookup_delete_Some. by apply (m_keys f Hm q n).
  - intros ds e n Hn Hd He [_ Hl]%lookup_delete_Some. pose proof Hn as [Hn1 _]%Forall_app.
    destruct (decide (ds = cs)) as [->|Hdc]; [by rewrite Hbelow in Hl|].
    rewrite lookup_delete_ne; [by eapply (m_up f Hm)|]. intros E. by apply abs_path_inj in E.
Qed.

Lemma subtree_empty cs :
  Forall file_name cs → cs ≠ [] →
  subtree f (abs_path cs) = ∅ ↔ ∀ e, e ≠ [] → Forall file_name (cs ++ e) → f !! abs_path (cs ++ e) = None.
Proof.
  intros Hcs Hne. unfold subtree. split.
  - intros E e He Hn. destruct (f !! abs_path (cs ++ e)) as [n|] eqn:Hl; [|done].
    apply (f_equal (lookup (abs_path (cs ++ e)))) in E. rewrite lookup_empty in E.
    apply map_lookup_filter_None in E as [E|E]; [congruence|]. destruct (E n Hl). simpl.
    exists (join "/" e). apply below_abs; eauto.
  - intros Hb. apply map_empty. intros q. apply map_lookup_filter_None. right. intros n Hl [x Hx]. simpl in Hx.
    destruct (m_keys f Hm q n Hl) as (ds & Hd & Hdn & ->).
    apply below_abs in Hx as (e & He & -> & _); [|done..]. by rewrite Hb in Hl.
Qed.
End Machine.

(** ** The store *)

(** Objects and folders by bucket and the components of their names; a bucket is
    a folder of one component. *)
Record store := Store {
  st_objects : gmap (list string) (string * Z);
  st_folders : gset (list string);
}.

Definition okey (bucket object : string) : list string := bucket :: split_on "/" object.

(** Something is stored below a key. *)
Definition occupied (st : store) (k : list string) : bool :=
  existsb (λ k', bool_decide (k `prefix_of` k' ∧ k ≠ k'))
    ((map_to_list (st_objects st)).*1 ++ elements (st_folders st)).

Inductive op :=
| OpCreateBucket (bucket : string) | OpBuckets | OpGetBucket (bucket : string)
| OpUpload (bucket object data : string) | OpMetadata (bucket object : string)
| OpDownload (bucket object : string) | OpDelete (bucket object : string)
| OpList (bucket prefix : string).

Section Spec.
Context (md5 : string → string) (r : request).

Definition objects_of (st : store) (bucket : string) : gmap string (string * Z) :=
  list_to_map (omap (λ '(k, v),
    match k with b :: e => if String.eqb b bucket then Some (join "/" e, v) else None | [] => None end)
    (map_to_list (st_objects st))).

Definition buckets_of (st : store) : list string :=
  sort_strings (elements (set_omap (λ k, match k with [b] => Some b | _ => None end) (st_folders st) : gset string)).

(** What each operation does to the store, and its reply to a request with the
    headers of [r]. *)
Definition spec (st : store) (now : Z) (o : op) : store * reply :=
  match o with
  | OpCreateBucket b =>
      (Store (st_objects st) ({[[b]]} ∪ st_folders st), RJson 200 (renderGCSBucketResource b))
  | OpBuckets =>
      (st, RJson 200 (JObj [("kind", JStr "storage#buckets"); ("items", JArr (renderGCSBucketResource <$> buckets_of st))]))
  | OpGetBucket b =>
      (st, if bool_decide ([b] ∈ st_folders st) then RJson 200 (renderGCSBucketResource b) else RError 404 (BucketNotFound b))
  | OpUpload b o data =>
      let k := okey b o in
      let above := prefixes (removelast k) in
      if existsb (λ a, bool_decide (a ∈ dom (st_objects st))) above then (st, RError 500 (OsFailed NotADirectory))
      else if bool_decide (k ∈ st_folders st) then (st, RError 500 (OsFailed IsADirectory))
      else (Store (<[k := (data, now)]> (st_objects st)) (list_to_set above ∪ st_folders st),
            RJson 200 (renderGCSObjectResource md5 r b o data now))
  | OpMetadata b o =>
      (st, match st_objects st !! okey b o with
           | Some (data, t) => RJson 200 (renderGCSObjectResource md5 r b o data t)
           | None => RError 404 (ObjectNotFound b o)
           end)
  | OpDownload b o =>
      (st, match st_objects st !! okey b o with
           | Some (data, t) =>
               RContent [("Content-Type", "application/octet-stream"); ("Accept-Ranges", "bytes");
                         ("ETag", quoted (md5 data)); ("X-Goog-Hash", "md5=" +:+ md5 data)] o t data
           | None => RError 404 (ObjectNotFound b o)
           end)
  | OpDelete b o =>
      let k := okey b o in
      if bool_decide (k ∈ dom (st_objects st)) then (Store (delete k (st_objects st)) (st_folders st), RNoContent)
      else if bool_decide (k ∈ st_folders st) && negb (occupied st k)
      then (Store (st_objects st) (st_folders st ∖ {[k]}), RNoContent)
      else (st, RError 404 (ObjectNotFound b o))
  | OpList b prefix =>
      let files := objects_of st b in
      let names := filter (λ n, String.eqb prefix "" || has_prefix n prefix = true) (sorted_keys files) in
      (st, RJson 200 (JObj [("kind", JStr "storage#objects");
                            ("items", JArr (omap (λ name,
                               '(content, mtime) ← files !! name;
                               Some (renderGCSObjectResource md5 r b name content mtime)) names))]))
  end.

(** The request that asks for an operation. *)
Definition request_of (o : op) : request :=
  let ask method path query body :=
    mkRequest method path query (q_Host r) (q_TLS r) (q_Forwarded r) (q_ContentType r) body in
  match o with
  | OpCreateBucket b => ask "POST" "/storage/v1/b" (λ _, "") (Some (object_text [("name", json_quote b)]))
  | OpBuckets => ask "GET" "/storage/v1/b" (λ _, "") None
  | OpGetBucket b => ask "GET" (storage_prefix +:+ b) (λ _, "") None
  | OpUpload b o data =>
      ask "POST" (upload_prefix +:+ b +:+ "/o") (λ k, if String.eqb k "name" then o else "") (Some data)
  | OpMetadata b o => ask "GET" (storage_prefix +:+ b +:+ "/o/" +:+ o) (λ _, "") None
  | OpDownload b o => ask "GET" (download_prefix +:+ b +:+ "/o/" +:+ o) (λ _, "") None
  | OpDelete b o => ask "DELETE" (storage_prefix +:+ b +:+ "/o/" +:+ o) (λ _, "") None
  | OpList b prefix =>
      ask "GET" (storage_prefix +:+ b +:+ "/o") (λ k, if String.eqb k "prefix" then prefix else "") None
  end.

End Spec.

Definition bucket_name (b : string) : Prop := file_name b ∧ trim_space b = b ∧ utf8_clean b = b.
Definition object_name (o : string) : Prop := Forall plain (split_on "/" o) ∧ trim_space o = o.

Definition op_ok (o : op) : Prop :=
  match o with
  | OpBuckets => True
  | OpCreateBucket b | OpGetBucket b | OpList b _ => bucket_name b
  | OpUpload b o _ | OpMetadata b o | OpDownload b o | OpDelete b o => bucket_name b ∧ object_name o
  end.

#[export] Instance plain_dec c : Decision (plain c).
Proof. unfold plain. apply _. Defined.
#[export] Instance file_name_dec c : Decision (file_name c).
Proof. unfold file_name. apply _. Defined.
#[export] Instance op_ok_dec o : Decision (op_ok o).
Proof. destruct o; simpl; unfold bucket_name, object_name; apply _. Defined.

Section Represents.
Context (rcs : list string).

Definition node_of (st : store) (k : list string) : option node :=
  match st_objects st !! k with
  | Some (c, t) => Some (FileNode c t)
  | None => if decide (k ∈ st_folders st) then Some DirNode else None
  end.

(** The directory at [rcs] holds the store. *)
Record represents (f : fs) (st : store) : Prop := {
  rp_machine : machine f;
  rp_root : ∀ p, p ∈ prefixes rcs → no_file f p;
  rp_view : ∀ k, k ≠ [] → Forall file_name k → f !! abs_path (rcs ++ k) = node_of st k;
  rp_keys : ∀ k, k ∈ dom (st_objects st) ∨ k ∈ st_folders st → k ≠ [] ∧ Forall file_name k;
  rp_bucket : ∀ b, st_objects st !! [b] = None;
  rp_apart : ∀ k, k ∈ dom (st_objects st) → k ∉ st_folders st;
}.

Context (Hrcs : Forall file_name rcs) (Hne : rcs ≠ []).

Lemma object_path b cs :
  file_name b → Forall file_name cs →
  fakeGCSObjectPath (abs_path rcs) b (join "/" cs) = inl (abs_path (rcs ++ b :: cs)).
Proof.
  intros Hb Hcs. assert (Hall : Forall file_name (rcs ++ b :: cs)) by by apply Forall_app; split; [|constructor].
  assert (Hj : join_path [abs_path rcs; b; join "/" cs] = abs_path (rcs ++ b :: cs)).
  { unfold join_path. destruct Hb as [(Hb & _ & _) _].
    rewrite filter_cons_True by done. rewrite filter_cons_True by done. destruct (decide (cs = [])) as [->|Hc].
    - rewrite filter_cons_False by (simpl; naive_solver). rewrite filter_nil.
      change (join "/" [abs_path rcs; b]) with (abs_path rcs +:+ "/" +:+ join "/" [b]).
      rewrite <-abs_path_app by done. apply clean_abs_path; [done|by destruct rcs].
    - assert (join "/" cs ≠ "").
      { destruct cs as [|x [|y cs]]; [done|by apply Forall_inv in Hcs as [(? & _) _]|].
        apply Forall_inv in Hcs as [(Hx & _) _]. by destruct x. }
      rewrite filter_cons_True by done. rewrite filter_nil.
      change (join "/" [abs_path rcs; b; join "/" cs]) with (abs_path rcs +:+ "/" +:+ join "/" [b; join "/" cs]).
      change (join "/" [b; join "/" cs]) with (join "/" [b] +:+ "/" +:+ join "/" cs).
      rewrite <-join_app by done. simpl app. rewrite <-abs_path_app by done.
      apply clean_abs_path; [done|by destruct rcs]. }
  unfold fakeGCSObjectPath. rewrite Hj.
  assert (under (abs_path rcs) (abs_path (rcs ++ b :: cs)) = true) as -> by (apply under_abs; [done..|by exists (b :: cs)]).
  by destruct (String.eqb _ _).
Qed.

Lemma object_components o : object_name o → Forall file_name (split_on "/" o).
Proof.
  intros [Hp _]. apply Forall_and. split; [done|apply split_on_no_sep].
Qed.

Lemma okey_path b o :
  bucket_name b → object_name o →
  fakeGCSObjectPath (abs_path rcs) b o = inl (abs_path (rcs ++ okey b o)) ∧
  Forall file_name (okey b o) ∧ Forall file_name (rcs ++ okey b o).
Proof.
  intros [Hb _] Ho. pose proof (object_components o Ho) as Hc.
  assert (Forall file_name (okey b o)) by by constructor.
  split_and!; [|done|by apply Forall_app]. rewrite <-(join_split "/" o) at 1. by apply object_path.
Qed.

Lemma bucket_path b :
  bucket_name b → fakeGCSObjectPath (abs_path rcs) b "" = inl (abs_path (rcs ++ [b])) ∧ Forall file_name (rcs ++ [b]).
Proof.
  intros [Hb _]. split; [apply (object_path b []); [done|constructor]|]. apply Forall_app. split; [done|by constructor].
Qed.

Section View.
Context (f : fs) (st : store) (Hf : represents f st).

Lemma view_node k : k ≠ [] → Forall file_name k → node_at f (abs_path (rcs ++ k)) = node_of st k.
Proof.
  intros Hk Hn. rewrite node_at_abs; [by apply (rp_view f st Hf)|by apply Forall_app|by destruct rcs].
Qed.

Lemma node_of_file k c t : node_of st k = Some (FileNode c t) ↔ st_objects st !! k = Some (c, t).
Proof. clear. unfold node_of. destruct (st_objects st !! k) as [[]|]; [|case_decide]; naive_solver. Qed.

Lemma node_of_dir k : node_of st k = Some DirNode ↔ k ∈ st_folders st.
Proof.
  clear Hrcs Hne. unfold node_of. destruct (st_objects st !! k) as [[]|] eqn:E; [|case_decide; naive_solver].
  split; [done|]. intros Hk. destruct (rp_apart f st Hf k); [|done]. by eapply elem_of_dom_2.
Qed.

Lemma node_of_above d e : d ≠ [] → e ≠ [] → is_Some (node_of st (d ++ e)) → Forall file_name (d ++ e) →
  node_of st d = Some DirNode.
Proof.
  intros Hd He [n Hn] Hde. pose proof Hde as [Hdn _]%Forall_app. rewrite <-(rp_view f st Hf) by done.
  apply (m_up f (rp_machine f st Hf) _ e n); [by rewrite <-app_assoc; apply Forall_app|by destruct rcs|done|].
  rewrite <-app_assoc, (rp_view f st Hf); [done|by destruct d|done].
Qed.
End View.
End Represents.

(** ** Operations on a represented store *)

Section Simulation.
Context (rcs : list string) (Hrcs : Forall file_name rcs) (Hne : rcs ≠ []).
Context (f : fs) (st : store) (Hf : represents rcs f st).

Lemma relative_prefix k l : k ≠ [] → rcs ++ k ∈ prefixes (rcs ++ l) ↔ k ∈ prefixes l.
Proof.
  intros Hk. rewrite !elem_of_prefixes. split.
  - intros (_ & e & E). split; [done|]. rewrite <-app_assoc in E. apply app_inv_head in E as ->. eauto.
  - intros (_ & e & ->). split; [by destruct rcs|]. exists e. by rewrite app_assoc.
Qed.

Lemma abs_rel_inj k l : Forall file_name k → Forall file_name l → abs_path (rcs ++ k) = abs_path (rcs ++ l) → k = l.
Proof. intros Hk Hl E. apply abs_path_inj in E; [|by apply Forall_app..]. by apply app_inv_head in E. Qed.

Lemma represents_mkdir l :
  Forall file_name l → l ≠ [] → (∀ p, p ∈ prefixes l → p ∉ dom (st_objects st)) →
  ∃ f', mkdirAll f (abs_path (rcs ++ l)) = (f', None) ∧
    represents rcs f' (Store (st_objects st) (list_to_set (prefixes l) ∪ st_folders st)).
Proof.
  intros Hl Hlne Hfree. assert (Hall : Forall file_name (rcs ++ l)) by by apply Forall_app.
  destruct (gcs_mkdirAll_ok f (rp_machine rcs f st Hf) (rcs ++ l)) as (f' & -> & Hm & Hlook); [done|by destruct rcs| |].
  { intros p Hp c t E. rewrite prefixes_app in Hp. apply elem_of_app in Hp as [Hp|(k & -> & Hk)%list_elem_of_fmap].
    - by apply (rp_root rcs f st Hf p Hp c t).
    - destruct (prefixes_names l k Hl Hk) as [Hk1 Hk2]. rewrite (rp_view rcs f st Hf) in E by done.
      apply node_of_file in E. apply (Hfree k Hk). by eapply elem_of_dom_2. }
  exists f'. split; [done|]. split.
  - done.
  - intros p Hp c t. assert (p ≠ [] ∧ Forall file_name p) as [Hp1 Hp2] by (by eapply (prefixes_names rcs)).
    rewrite Hlook by done. case_decide; [done|]. by apply (rp_root rcs f st Hf).
  - intros k Hk Hkn. rewrite Hlook; [|by apply Forall_app|by destruct rcs].
    rewrite (rp_view rcs f st Hf) by done. unfold node_of. simpl. destruct (decide (rcs ++ k ∈ prefixes (rcs ++ l))) as [Hin|Hin].
    + rewrite relative_prefix in Hin by done. rewrite decide_True by set_solver.
      destruct (st_objects st !! k) as [[]|] eqn:E; [|done]. destruct (Hfree k Hin). by eapply elem_of_dom_2.
    + rewrite relative_prefix in Hin by done. destruct (st_objects st !! k) as [[]|]; [done|].
      destruct (decide (k ∈ st_folders st)) as [H1|H1]; [by rewrite decide_True by set_solver|].
      rewrite decide_False; [done|]. set_solver.
  - simpl. intros k [Hk|[Hk|Hk]%elem_of_union]; [apply (rp_keys rcs f st Hf); by left| |apply (rp_keys rcs f st Hf); by right].
    apply elem_of_list_to_set in Hk. by apply (prefixes_names l).
  - apply (rp_bucket rcs f st Hf).
  - simpl. intros k Hk [Hk'|Hk']%elem_of_union; [|by apply (rp_apart rcs f st Hf k)].
    apply elem_of_list_to_set in Hk'. by apply (Hfree k).
Qed.

Lemma represents_insert k x c t :
  let key := k ++ [x] in
  Forall file_name key → k ≠ [] → key ∉ st_folders st → (∀ p, p ∈ prefixes k → p ∈ st_folders st) →
  represents rcs (<[abs_path (rcs ++ key) := FileNode c t]> f) (Store (<[key := (c, t)]> (st_objects st)) (st_folders st)).
Proof.
  intros key Hkey Hk Hnot Habove. assert (Hkey0 : key ≠ []) by by destruct k. split.
  - apply machine_insert; [apply (rp_machine rcs f st Hf)|by apply Forall_app|by destruct rcs|..].
    + intros d e Hd He E. destruct (exists_last He) as (e' & y & ->). unfold key in E. rewrite !app_assoc in E.
      apply app_inj_tail in E as [E _].
      assert (Hp : d ∈ prefixes (rcs ++ k)) by (rewrite E; apply elem_of_prefixes; eauto).
      assert (Hn : Forall file_name d).
      { apply Forall_app in Hkey as [Hk' _]. apply (prefixes_names (rcs ++ k)); [by apply Forall_app|done]. }
      rewrite prefixes_app in Hp. apply elem_of_app in Hp as [Hp|(p & -> & Hp)%list_elem_of_fmap].
      * apply elem_of_prefixes in Hp as (_ & z & ->). apply (m_up f (rp_machine _ f st Hf) d (z ++ k) DirNode).
        -- rewrite app_assoc. apply Forall_app in Hkey as [? _]. by apply Forall_app.
        -- done.
        -- by destruct z.
        -- rewrite app_assoc, (rp_view _ f st Hf); [|done|by apply Forall_app in Hkey as [? _]].
           apply (node_of_dir (d ++ z) f st Hf). apply Habove. apply elem_of_prefixes. split; [done|]. exists []. by rewrite app_nil_r.
      * destruct (prefixes_names k p) as [? ?]; [by apply Forall_app in Hkey as [? _]|done|].
        rewrite (rp_view _ f st Hf) by done.
        apply (node_of_dir rcs f st Hf). by apply Habove.
    + intros e He Hn. destruct (f !! _) as [n|] eqn:E; [|done]. destruct Hnot. apply (node_of_dir rcs f st Hf).
      rewrite <-(rp_view _ f st Hf) by done. apply (m_up f (rp_machine _ f st Hf) _ e n); try done. by destruct rcs.
  - intros p Hp c' t'. destruct (prefixes_names rcs p Hrcs Hp). rewrite lookup_insert_ne; [by apply (rp_root _ f st Hf)|].
    intros E. apply abs_path_inj in E; [|by apply Forall_app|done]. apply elem_of_prefixes in Hp as (_ & e & Ee).
    rewrite Ee, <-app_assoc in E. apply (f_equal length) in E. rewrite !length_app in E.
    destruct key; [done|simpl in E; lia].
  - intros k' Hk' Hn. unfold node_of. simpl. destruct (decide (k' = key)) as [->|Hd].
    + by rewrite !lookup_insert_eq.
    + rewrite !lookup_insert_ne by (done || (intros E; by apply abs_rel_inj in E)). by apply (rp_view _ f st Hf).
  - simpl. intros k' [Hk'|Hk']; [|apply (rp_keys _ f st Hf); by right]. rewrite dom_insert in Hk'.
    apply elem_of_union in Hk' as [->%elem_of_singleton|Hk']; [done|apply (rp_keys _ f st Hf); by left].
  - simpl. intros b. rewrite lookup_insert_ne; [apply (rp_bucket _ f st Hf)|].
    intros E. apply (f_equal length) in E. unfold key in E. rewrite length_app in E. destruct k; [done|simpl in E; lia].
  - simpl. intros k' Hk'. rewrite dom_insert in Hk'.
    apply elem_of_union in Hk' as [->%elem_of_singleton|Hk']; [done|by apply (rp_apart _ f st Hf)].
Qed.

Lemma represents_delete k :
  Forall file_name k → k ≠ [] → (∀ e, e ≠ [] → Forall file_name (k ++ e) → node_of st (k ++ e) = None) →
  represents rcs (delete (abs_path (rcs ++ k)) f) (Store (delete k (st_objects st)) (st_folders st ∖ {[k]})).
Proof.
  intros Hk Hk0 Hbelow. split.
  - apply machine_delete; [apply (rp_machine _ f st Hf)|by apply Forall_app|by destruct rcs|].
    intros e He Hn. rewrite <-app_assoc in Hn |- *. apply Forall_app in Hn as [_ Hn].
    rewrite (rp_view _ f st Hf); [by apply Hbelow|by destruct k|done].
  - intros p Hp c t [_ E]%lookup_delete_Some. by apply (rp_root _ f st Hf p Hp c t).
  - intros k' Hk' Hn. unfold node_of. simpl. destruct (decide (k' = k)) as [->|Hd].
    + rewrite !lookup_delete_eq. rewrite decide_False; [done|set_solver].
    + rewrite !lookup_delete_ne by (done || (intros E; by apply abs_rel_inj in E)).
      rewrite (rp_view _ f st Hf) by done. unfold node_of. destruct (st_objects st !! k') as [[]|]; [done|].
      destruct (decide (k' ∈ st_folders st)); [rewrite decide_True by set_solver|rewrite decide_False by set_solver]; done.
  - simpl. intros k' [Hk'|Hk']; apply (rp_keys _ f st Hf); [left|right]; set_solver.
  - simpl. intros b. apply lookup_delete_None. right. apply (rp_bucket _ f st Hf).
  - simpl. intros k' Hk'. pose proof (rp_apart _ f st Hf k'). set_solver.
Qed.
End Simulation.

(** ** Listings *)

Lemma lookup_list_to_map_fun {A} (l : list (string * A)) i x :
  (∀ k y z, (k, y) ∈ l → (k, z) ∈ l → y = z) →
  (list_to_map l : gmap string A) !! i = Some x ↔ (i, x) ∈ l.
Proof.
  intros Hl. split; [apply elem_of_list_to_map_2|]. intros Hx. apply elem_of_list_to_map_1'; [|done].
  intros y Hy. by eapply Hl.
Qed.

(** Two duplicate-free sorted lists of the same elements. *)
Lemma sorted_same (l k : list string) :
  NoDup l → NoDup k → StronglySorted String.le l → StronglySorted String.le k → (∀ x, x ∈ l ↔ x ∈ k) → l = k.
Proof. intros. apply (StronglySorted_unique String.le); [done..|by apply NoDup_Permutation]. Qed.

Section Listing.
Context (rcs : list string) (Hrcs : Forall file_name rcs) (Hne : rcs ≠ []).
Context (f : fs) (st : store) (Hf : represents rcs f st).

Lemma below_rel k l x :
  Forall file_name k → Forall file_name l → k ≠ [] →
  below (abs_path k) (abs_path l) = Some x ↔ ∃ e, e ≠ [] ∧ l = k ++ e ∧ x = join "/" e ∧ Forall file_name e.
Proof.
  intros Hk Hl Hk0. rewrite below_abs by done. split.
  - intros (e & He & -> & ->). apply Forall_app in Hl as [_ He']. eauto.
  - intros (e & He & -> & -> & _). eauto.
Qed.

Lemma join_inj e e' : Forall file_name e → Forall file_name e' → join "/" e = join "/" e' → e = e'.
Proof. intros He He' E. apply abs_path_inj; [done..|]. unfold abs_path. by rewrite E. Qed.

(** What lies below a directory of the root, by the components that follow. *)
Lemma subtree_lookup k q n :
  Forall file_name k →
  subtree f (abs_path (rcs ++ k)) !! q = Some n ↔
  ∃ e, e ≠ [] ∧ Forall file_name e ∧ q = abs_path (rcs ++ k ++ e) ∧ node_of st (k ++ e) = Some n.
Proof.
  intros Hk. assert (Hrk : Forall file_name (rcs ++ k)) by by apply Forall_app.
  assert (Hrk0 : rcs ++ k ≠ []) by by destruct rcs.
  unfold subtree. rewrite map_lookup_filter_Some. simpl. split.
  - intros [Hq [x Hx]]. destruct (m_keys f (rp_machine _ f st Hf) q n Hq) as (cs & Hcs & Hcn & ->).
    apply below_rel in Hx as (e & He & -> & -> & Hen); [|done..]. rewrite <-app_assoc in Hq |- *.
    exists e. split_and!; [done..|]. rewrite <-(rp_view _ f st Hf); [done|by destruct k|by apply Forall_app].
  - intros (e & He & Hen & -> & Hn). split.
    + rewrite (rp_view _ f st Hf); [done|by destruct k|by apply Forall_app].
    + exists (join "/" e). apply below_rel; [done| |done|].
      * rewrite app_assoc. by apply Forall_app.
      * exists e. by rewrite app_assoc.
Qed.

Lemma walk_objects b : file_name b → walk_files f (abs_path (rcs ++ [b])) = objects_of st b.
Proof.
  intros Hb. assert (Hbn : Forall file_name [b]) by by constructor.
  assert (Hb1 : Forall file_name (rcs ++ [b])) by by apply Forall_app.
  assert (Hbe : ∀ e, Forall file_name e → Forall file_name ((rcs ++ [b]) ++ e)) by (intros; by apply Forall_app).
  assert (Hb0 : rcs ++ [b] ≠ []) by by destruct rcs.
  set (l := omap (λ '(k, v), match k with b' :: e => if String.eqb b' b then Some (join "/" e, v) else None | [] => None end)
              (map_to_list (st_objects st))).
  assert (Hin : ∀ x v, (x, v) ∈ l ↔ ∃ e, st_objects st !! (b :: e) = Some v ∧ x = join "/" e).
  { intros x v. unfold l. rewrite list_elem_of_omap. split.
    - intros ([k v'] & Hk & E). apply elem_of_map_to_list in Hk. destruct k as [|b' e]; [done|].
      destruct (String.eqb_spec b' b) as [->|]; [|done]. injection E as <- <-. eauto.
    - intros (e & He & ->). exists (b :: e, v). split; [by apply elem_of_map_to_list|]. by rewrite String.eqb_refl. }
  assert (Hnames : ∀ e v, st_objects st !! (b :: e) = Some v → Forall file_name e ∧ e ≠ []).
  { intros e v He. destruct (rp_keys _ f st Hf (b :: e)) as [_ Hn]; [left; by eapply elem_of_dom_2|].
    inversion Hn; subst. split; [done|]. intros ->. by rewrite (rp_bucket _ f st Hf) in He. }
  assert (Hfun : ∀ k y z, (k, y) ∈ l → (k, z) ∈ l → y = z).
  { intros k y z (e & He & ->)%Hin (e' & He' & E)%Hin. apply join_inj in E as ->; [congruence|by apply (Hnames _ _ He)|by apply (Hnames _ _ He')]. }
  unfold objects_of. fold l. apply map_eq. intros x. apply option_eq. intros v. rewrite lookup_list_to_map_fun by done.
  unfold walk_files. rewrite (view_node rcs Hrcs Hne f st Hf) by done. destruct (node_of st [b]) as [[c t|]|] eqn:E.
  - apply node_of_file in E. by rewrite (rp_bucket _ f st Hf) in E.
  - assert (Hl : ∀ y w, (y, w) ∈ omap (λ '(q, n), match n, below (abs_path (rcs ++ [b])) q with
        | FileNode content mtime, Some name => Some (name, (content, mtime)) | _, _ => None end)
        (map_to_list (subtree f (abs_path (rcs ++ [b])))) ↔ (y, w) ∈ l).
    { intros y w. rewrite Hin, list_elem_of_omap. split.
      - intros ([q n] & Hq%elem_of_map_to_list & Ew). apply subtree_lookup in Hq as (e & He & Hen & -> & Hn); [|done].
        destruct n as [c t|]; [|done]. destruct (below _ _) as [z|] eqn:Ez; [|done]. injection Ew as <- <-.
        rewrite app_assoc in Ez. apply below_rel in Ez as (e' & _ & Ee & -> & _);
          [|done|by apply Hbe|done]. apply app_inv_head in Ee as <-.
        apply node_of_file in Hn. eauto.
      - intros (e & He & ->). destruct (Hnames e w He) as [Hen He0]. destruct w as [c t].
        exists (abs_path (rcs ++ [b] ++ e), FileNode c t). split.
        + apply elem_of_map_to_list, subtree_lookup; [done|]. exists e. split_and!; [done..|]. by apply node_of_file.
        + assert (below (abs_path (rcs ++ [b])) (abs_path (rcs ++ [b] ++ e)) = Some (join "/" e)) as ->; [|done].
          rewrite app_assoc. apply below_rel; [done|by apply Hbe|done|by exists e]. }
    rewrite lookup_list_to_map_fun; [apply Hl|]. intros k y z Hy%Hl Hz%Hl. by eapply Hfun.
  - rewrite lookup_empty. split; [done|]. intros (e & He & _)%Hin. destruct (Hnames e v He) as [Hen He0].
    assert (node_of st [b] = Some DirNode) as Ha; [|congruence].
    apply (node_of_above rcs Hrcs Hne f st Hf [b] e); [done|done| |by constructor]. destruct v as [c t].
    exists (FileNode c t). by apply node_of_file.
Qed.

Lemma filter_entries {A} (m : gmap string A) (p : A → bool) (l : list string) :
  (filter (λ e, p e.2 = true) (omap (λ k, pair k <$> m !! k) l)).*1 = filter (λ k, p <$> m !! k = Some true) l.
Proof.
  induction l as [|k l IH]; [done|]. cbn [omap list_omap]. destruct (m !! k) as [a|] eqn:E.
  - cbn [fmap option_fmap option_map]. destruct (p a) eqn:Ep.
    + rewrite !filter_cons_True; [|rewrite E; simpl; by rewrite Ep|done]. rewrite fmap_cons. by f_equal.
    + rewrite !filter_cons_False; [done|rewrite E; simpl; by rewrite Ep|simpl; by rewrite Ep].
  - cbn [fmap option_fmap option_map]. rewrite (filter_cons_False _ k); [done|]. by rewrite E.
Qed.

Lemma filter_sorted (P : string → Prop) `{∀ x, Decision (P x)} l :
  StronglySorted String.le l → StronglySorted String.le (filter P l).
Proof.
  induction 1 as [|x l Hl IH Hx]; [constructor|]. rewrite filter_cons. case_decide; [|done].
  constructor; [done|]. apply Forall_forall. intros y [_ Hy]%list_elem_of_filter. by eapply Forall_forall in Hx.
Qed.

Lemma buckets_listed :
  ∃ entries, readDir f (abs_path rcs) = inl entries ∧ (filter (λ e, e.2 = true) entries).*1 = buckets_of st.
Proof.
  assert (Hbk : ∀ b, b ∈ buckets_of st ↔ node_of st [b] = Some DirNode).
  { intros b. unfold buckets_of. rewrite elem_of_sort_strings, elem_of_elements, elem_of_set_omap, (node_of_dir rcs f st Hf). split.
    - intros ([|x [|? ?]] & Hx & E); by simplify_eq.
    - intros Hx. by exists [b]. }
  assert (Hsub : ∀ q n, subtree f (abs_path rcs) !! q = Some n ↔
    ∃ e, e ≠ [] ∧ Forall file_name e ∧ q = abs_path (rcs ++ e) ∧ node_of st e = Some n).
  { intros q n. pose proof (subtree_lookup [] q n) as Hs. rewrite app_nil_r in Hs. by apply Hs. }
  set (l := omap (λ '(q, n),
        rest ← below (abs_path rcs) q;
        if str_mem "/" rest then None
        else Some (rest, match n with DirNode => true | FileNode _ _ => false end)) (map_to_list (subtree f (abs_path rcs)))).
  assert (Hl : ∀ x v, (x, v) ∈ l ↔ ∃ n, node_of st [x] = Some n ∧ v = match n with DirNode => true | FileNode _ _ => false end).
  { intros x v. unfold l. rewrite list_elem_of_omap. split.
    - intros ([q n] & (e & He & Hen & -> & Hn)%elem_of_map_to_list%Hsub & E).
      assert (Hb : below (abs_path rcs) (abs_path (rcs ++ e)) = Some (join "/" e)).
      { apply below_rel; [done|by apply Forall_app|done|by exists e]. }
      rewrite Hb in E. simpl in E. destruct (str_mem "/" (join "/" e)) eqn:Em; [done|]. injection E as <- <-.
      destruct e as [|x [|y e]]; [done| |].
      + simpl. eauto.
      + change (join "/" (x :: y :: e)) with (x +:+ "/" +:+ join "/" (y :: e)) in Em.
        rewrite !str_mem_app in Em. simpl in Em. by rewrite orb_true_r in Em.
    - intros (n & Hn & ->). assert (Hx : Forall file_name [x]).
      { apply (rp_keys _ f st Hf). destruct n as [c t|]; [left|right].
        - apply node_of_file in Hn. by eapply elem_of_dom_2.
        - by apply (node_of_dir rcs f st Hf). }
      exists (abs_path (rcs ++ [x]), n). split.
      + apply elem_of_map_to_list, Hsub. by exists [x].
      + assert (Hb : below (abs_path rcs) (abs_path (rcs ++ [x])) = Some (join "/" [x])).
        { apply below_rel; [done|by apply Forall_app|done|by exists [x]]. }
        rewrite Hb. simpl. apply Forall_inv in Hx as [_ ->]. done. }
  assert (Hfun : ∀ k y z, (k, y) ∈ l → (k, z) ∈ l → y = z).
  { intros k y z (n & Hn & ->)%Hl (n' & Hn' & ->)%Hl. by simplify_eq. }
  unfold readDir. rewrite node_at_abs by done. destruct (f !! abs_path rcs) as [[c t|]|] eqn:E.
  - exfalso. apply (rp_root _ f st Hf rcs) in E; [done|]. apply elem_of_prefixes. split; [done|]. exists []. by rewrite app_nil_r.
  - eexists. split; [done|]. fold l. etransitivity; [apply (filter_entries _ (λ b : bool, b))|]. apply sorted_same.
    + apply NoDup_filter, NoDup_sorted_keys.
    + apply NoDup_sort_strings, NoDup_elements.
    + apply filter_sorted, sorted_keys_sorted.
    + apply sort_strings_sorted.
    + intros b. rewrite Hbk, list_elem_of_filter, elem_of_sorted_keys. split.
      * intros [Ht _]. destruct (_ !! b) as [v|] eqn:Ev in Ht; [|done]. simpl in Ht.
        apply lookup_list_to_map_fun in Ev; [|done]. apply Hl in Ev as (n & Hn & ->). by destruct n.
      * intros Hn. assert ((list_to_map l : gmap string bool) !! b = Some true) as ->; [|by split; [|eexists]].
        apply lookup_list_to_map_fun; [done|]. apply Hl. by exists DirNode.
  - exists []. split; [done|]. simpl. symmetry. apply elem_of_nil_inv. intros b Hb%Hbk.
    assert (Hx : Forall file_name [b]).
    { apply (rp_keys _ f st Hf). right. by apply (node_of_dir rcs f st Hf). }
    rewrite <-(rp_view _ f st Hf) in Hb by done.
    rewrite (m_up f (rp_machine _ f st Hf) rcs [b] DirNode) in E; [done|by apply Forall_app|done..].
Qed.
End Listing.

(** ** Refinement *)

Lemma cut_plain b : file_name b → cut_slash b = (b, "", false).
Proof. intros [_ Hb]. unfold cut_slash. by rewrite split_on_plain. Qed.

Lemma cut_bucket b x : file_name b → cut_slash (b +:+ "/" +:+ x) = (b, x, true).
Proof.
  intros [_ Hb]. unfold cut_slash. rewrite app_sep_cons, split_on_sep by done.
  destruct (split_on "/" x) as [|y l] eqn:E; [by apply split_on_ne in E|].
  rewrite <-E. change "/" with (String "/" "") at 1. by rewrite join_split.
Qed.

Lemma drop_prefix_length a b : str_drop (String.length a) (a +:+ b) = b.
Proof. apply str_drop_app. Qed.

Lemma take_prefix_length a b : str_take (String.length a) (a +:+ b) = a.
Proof. induction a as [|c a IH]; [done|]. rewrite str_app_cons. simpl. by rewrite IH. Qed.

Lemma trim_suffix_app a s : trim_suffix (a +:+ s) s = a.
Proof.
  unfold trim_suffix. rewrite str_length_app, Nat.add_sub, drop_prefix_length, String.eqb_refl, take_prefix_length.
  by rewrite (proj2 (Nat.leb_le _ _)) by lia.
Qed.

Section Refinement.
Context (env : string) (md5 : string → string) (parseMediaType : string → option (string * option string))
  (readParts : string → option string → list string * bool) (r : request).
Context (rcs : list string) (Hrcs : Forall file_name rcs) (Hne : rcs ≠ []).
Context (Henv : fakeGCSRoot env = inl (abs_path rcs)).

Definition handle (f : fs) (now : Z) (o : op) : fs * reply :=
  gcs_handle env md5 parseMediaType readParts f now (request_of r o).

Lemma storage_path_ne x : String.eqb (storage_prefix +:+ x) "/storage/v1/b" = false.
Proof. unfold storage_prefix. rewrite !str_app_cons. reflexivity. Qed.

Lemma download_path x :
  String.eqb (download_prefix +:+ x) "/storage/v1/b" = false ∧ has_prefix (download_prefix +:+ x) storage_prefix = false.
Proof. unfold download_prefix. rewrite !str_app_cons. done. Qed.

Lemma upload_path x :
  String.eqb (upload_prefix +:+ x) "/storage/v1/b" = false ∧ has_prefix (upload_prefix +:+ x) storage_prefix = false ∧
  has_prefix (upload_prefix +:+ x) download_prefix = false.
Proof. unfold upload_prefix. rewrite !str_app_cons. done. Qed.

Lemma scope_route f now q x :
  q_Path q = storage_prefix +:+ x →
  gcs_handle env md5 parseMediaType readParts f now q = gcsBucketScope env md5 f q.
Proof. intros E. unfold gcs_handle. rewrite E, has_prefix_app. by rewrite (storage_path_ne x). Qed.

Lemma object_route f now method query body b o q :
  bucket_name b → object_name o →
  q = mkRequest method (storage_prefix +:+ b +:+ "/o/" +:+ o) query (q_Host r) (q_TLS r) (q_Forwarded r) (q_ContentType r) body →
  gcs_handle env md5 parseMediaType readParts f now q =
    if String.eqb method "GET" || String.eqb method "HEAD" then
      if String.eqb (query "alt") "media" then (f, gcsDownloadObject md5 f (abs_path rcs) b o)
      else if String.eqb method "HEAD" then (f, RError 405 MethodNotAllowed)
      else (f, gcsGetObjectMetadata md5 f q (abs_path rcs) b o)
    else if String.eqb method "DELETE" then gcsDeleteObject f (abs_path rcs) b o
    else (f, RError 405 MethodNotAllowed).
Proof.
  intros (Hb & Htb & _) [Ho _] ->. erewrite scope_route; [|done]. unfold gcsBucketScope. rewrite Henv. simpl q_Path.
  rewrite trim_prefix_app. change ("/o/" +:+ o) with ("/" +:+ ("o/" +:+ o)). rewrite cut_bucket, Htb by done.
  pose proof Hb as [(Hb0 & _) _]. rewrite (proj2 (String.eqb_neq b "")) by done. simpl negb.
  destruct (plain_path_ne o Ho) as [Ho0 _].
  rewrite (proj2 (String.eqb_neq ("o/" +:+ o) "o")) by done. cbv zeta. rewrite trim_prefix_app.
  rewrite (proj2 (String.eqb_neq o ("o/" +:+ o))).
  - by rewrite (proj2 (String.eqb_neq o "")).
  - intros E. apply (f_equal String.length) in E. rewrite str_length_app in E. simpl in E. lia.
Qed.

Lemma bucket_route f now method query b q :
  bucket_name b →
  q = mkRequest method (storage_prefix +:+ b) query (q_Host r) (q_TLS r) (q_Forwarded r) (q_ContentType r) None →
  gcs_handle env md5 parseMediaType readParts f now q = (f, gcsGetBucket f (abs_path rcs) b).
Proof.
  intros (Hb & Htb & _) ->. erewrite scope_route; [|done]. unfold gcsBucketScope. rewrite Henv. simpl q_Path.
  rewrite trim_prefix_app, cut_plain, Htb by done. pose proof Hb as [(Hb0 & _) _].
  by rewrite (proj2 (String.eqb_neq b "")).
Qed.

Lemma list_route f now method query b q :
  bucket_name b →
  q = mkRequest method (storage_prefix +:+ b +:+ "/o") query (q_Host r) (q_TLS r) (q_Forwarded r) (q_ContentType r) None →
  gcs_handle env md5 parseMediaType readParts f now q = (f, gcsListObjects md5 f q (abs_path rcs) b).
Proof.
  intros (Hb & Htb & _) ->. erewrite scope_route; [|done]. unfold gcsBucketScope. rewrite Henv. simpl q_Path.
  rewrite trim_prefix_app. change "/o" with ("/" +:+ "o"). rewrite cut_bucket, Htb by done. pose proof Hb as [(Hb0 & _) _].
  by rewrite (proj2 (String.eqb_neq b "")).
Qed.

Lemma download_route f now b o :
  bucket_name b → object_name o → handle f now (OpDownload b o) = (f, gcsDownloadObject md5 f (abs_path rcs) b o).
Proof.
  intros (Hb & Htb & _) [Ho _]. unfold handle, gcs_handle, request_of. simpl q_Path.
  destruct (download_path (b +:+ "/o/" +:+ o)) as [-> ->]. rewrite has_prefix_app.
  unfold gcsDownloadScope. rewrite Henv. simpl q_Path. simpl q_Method. cbv iota beta. simpl negb.
  rewrite trim_prefix_app. change ("/o/" +:+ o) with ("/" +:+ ("o/" +:+ o)). rewrite cut_bucket by done.
  cbv zeta. rewrite trim_prefix_app, Htb. pose proof Hb as [(Hb0 & _) _]. destruct (plain_path_ne o Ho) as [Ho0 _].
  rewrite (proj2 (String.eqb_neq b "")), (proj2 (String.eqb_neq o "")) by done.
  rewrite (proj2 (String.eqb_neq o ("o/" +:+ o))); [done|].
  intros E. apply (f_equal String.length) in E. rewrite str_length_app in E. simpl in E. lia.
Qed.

Lemma upload_route f now b o data :
  bucket_name b → object_name o →
  handle f now (OpUpload b o data) =
  match writeGCSObject f now (abs_path rcs) b o data with
  | (f, inr e) => (f, RError 500 e)
  | (f, inl (content, mtime)) =>
      (f, RJson 200 (renderGCSObjectResource md5 (request_of r (OpUpload b o data)) b o content mtime))
  end.
Proof.
  intros (Hb & Htb & _) [Ho Hto]. unfold handle, gcs_handle. simpl q_Path at 1 2 3.
  destruct (upload_path (b +:+ "/o")) as (-> & -> & ->).
  unfold gcsObjectUpload. rewrite Henv. simpl q_Path. simpl q_Method. cbv iota beta. simpl negb. cbv zeta.
  rewrite trim_prefix_app, trim_suffix_app, Htb. pose proof Hb as [(Hb0 & _) _]. destruct (plain_path_ne o Ho) as [Ho0 _].
  rewrite (proj2 (String.eqb_neq b "")) by done. unfold upload_content. simpl q_Body. simpl q_query. cbv iota beta zeta.
  change (String.eqb "uploadType" "name") with false. change (String.eqb "name" "name") with true. simpl orb. cbv iota.
  rewrite Hto, (proj2 (String.eqb_neq o "")) by done. reflexivity.
Qed.

(** One operation: the server's reply and directory follow the store. *)
Definition follows (f : fs) (st : store) (now : Z) (o : op) : Prop :=
  ∃ f', handle f now o = (f', (spec md5 r st now o).2) ∧ represents rcs f' (spec md5 r st now o).1.

Section Step.
Context (f : fs) (st : store) (now : Z) (Hf : represents rcs f st).

Lemma follows_read o :
  handle f now o = (f, (spec md5 r st now o).2) → (spec md5 r st now o).1 = st → follows f st now o.
Proof. intros E E'. exists f. by rewrite E'. Qed.

Lemma create_bucket_follows b : bucket_name b → follows f st now (OpCreateBucket b).
Proof.
  intros Hb. pose proof Hb as (Hbn & Htb & Hclean). destruct (bucket_path rcs Hrcs Hne b Hb) as [Hp Hpn].
  assert (Hbody : ∀ body, body = object_text [("name", json_quote b)] →
    parse_value (2 * String.length body + 2) body = Some (JObj [("name", JStr b)], "")).
  { intros body ->. assert (Hpr : prints (JObj [("name", JStr b)]) (object_text [("name", json_quote b)])).
    { apply prints_object. constructor; [|constructor]. split; [done|]. simpl. rewrite <-Hclean at 1. apply prints_string. }
    destruct Hpr as (_ & _ & _ & Hpr).
    specialize (Hpr "" (2 * String.length (object_text [("name", json_quote b)]) + 2)%nat I ltac:(lia)).
    by rewrite str_app_nil_r in Hpr. }
  destruct (represents_mkdir rcs Hrcs Hne f st Hf [b]) as (f' & Hmk & Hrep); [by constructor|done| |].
  { intros p Hp' Hin. apply elem_of_prefixes in Hp' as (Hp0 & e & E). destruct p as [|x p]; [done|].
    injection E as -> E. symmetry in E. apply app_eq_nil in E as [-> ->].
    apply elem_of_dom in Hin. rewrite (rp_bucket _ f st Hf) in Hin. by destruct Hin. }
  exists f'. split.
  - unfold handle, gcs_handle, request_of. simpl q_Path. cbv beta iota. simpl String.eqb. unfold gcsBucketsCollection.
    rewrite Henv. simpl q_Method. simpl q_Body. simpl String.eqb. cbv iota. cbn [mbind option_bind].
    rewrite (Hbody _ eq_refl). cbn [mbind option_bind decode_name foldl]. cbv iota beta zeta.
    change (equal_fold "name" "name") with true. cbv iota. rewrite Htb. destruct Hbn as [(Hb0 & _) _].
    rewrite (proj2 (String.eqb_neq b "")), Hp, Hmk by done. done.
  - simpl. assert (E : (list_to_set (prefixes [b]) : gset (list string)) = {[ [b] ]}) by (change (prefixes [b]) with [[b]]; by rewrite list_to_set_cons, list_to_set_nil, (right_id_L ∅ (∪))).
    by rewrite E in Hrep.
Qed.

Lemma upload_follows b o data : bucket_name b → object_name o → follows f st now (OpUpload b o data).
Proof.
  intros Hb Ho. destruct (okey_path rcs Hrcs Hne b o Hb Ho) as (Hp & Hk & Hkn).
  destruct (exists_last (split_on_ne "/" o)) as (init & x & Es).
  assert (Ek : okey b o = (b :: init) ++ [x]) by (unfold okey; by rewrite Es).
  assert (Er : removelast (okey b o) = b :: init) by (rewrite Ek; apply removelast_last).
  assert (Hin : Forall file_name (b :: init)) by (rewrite Ek in Hk; by apply Forall_app in Hk as [? _]).
  unfold follows. rewrite upload_route by done. unfold writeGCSObject. rewrite Hp. cbn [spec]. cbv zeta.
  assert (Hpar : parent (abs_path (rcs ++ okey b o)) = abs_path (rcs ++ b :: init)).
  { rewrite Ek, app_assoc. apply parent_abs; [by rewrite <-app_assoc, <-Ek|by destruct rcs]. }
  rewrite Hpar, Er. destruct (existsb _ (prefixes (b :: init))) eqn:Eblk.
  - apply existsb_exists in Eblk as (a & Ha & Hd%bool_decide_eq_true). apply list_elem_of_In in Ha.
    apply elem_of_dom in Hd as [[c t] Hd]. destruct (prefixes_names _ a Hin Ha) as [Ha0 Han].
    rewrite (mkdirAll_blocked f (rp_machine _ f st Hf) (rcs ++ b :: init) (rcs ++ a) c t).
    + exists f. by split.
    + by apply Forall_app.
    + by rewrite (relative_prefix rcs Hrcs Hne).
    + rewrite (rp_view _ f st Hf) by done. by apply node_of_file.
  - assert (Hfree : ∀ p, p ∈ prefixes (b :: init) → p ∉ dom (st_objects st)).
    { intros p Hpp Hd. apply not_true_iff_false in Eblk. apply Eblk. apply existsb_exists. exists p.
      split; [by apply list_elem_of_In|by apply bool_decide_eq_true]. }
    destruct (represents_mkdir rcs Hrcs Hne f st Hf (b :: init) Hin ltac:(done) Hfree) as (f1 & -> & H1).
    set (st1 := Store (st_objects st) _) in H1. unfold writeFile.
    rewrite (view_node rcs Hrcs Hne f1 st1 H1) by done. rewrite Hpar, (view_node rcs Hrcs Hne f1 st1 H1) by done.
    assert (Hdir : node_of st1 (b :: init) = Some DirNode).
    { apply (node_of_dir rcs f1 st1 H1). unfold st1. cbn [st_folders].
      rewrite elem_of_union, elem_of_list_to_set, elem_of_prefixes. left. split; [done|]. exists []. by rewrite app_nil_r. }
    rewrite Hdir. case_bool_decide as Hfold.
    + assert (E : st1 = st).
      { unfold st1. assert (list_to_set (prefixes (b :: init)) ∪ st_folders st = st_folders st) as ->; [|by destruct st].
        apply set_eq. intros p. rewrite elem_of_union, elem_of_list_to_set.
        split; [|by right]. intros [Hpp|?]; [|done]. apply (node_of_dir rcs f st Hf).
        pose proof Hpp as (Hp0 & e & Ee)%elem_of_prefixes.
        apply (node_of_above rcs Hrcs Hne f st Hf p (e ++ [x])); [done|by destruct e| |].
        - rewrite app_assoc, <-Ee, <-Ek. exists DirNode. by apply (node_of_dir rcs f st Hf).
        - by rewrite app_assoc, <-Ee, <-Ek. }
      rewrite (proj2 (node_of_dir rcs f1 st1 H1 (okey b o))); [|by rewrite E].
      exists f1. split; [done|]. simpl. by rewrite <-E.
    + assert (Hnk : okey b o ∉ st_folders st1).
      { unfold st1. cbn [st_folders]. rewrite elem_of_union, elem_of_list_to_set, elem_of_prefixes.
        intros [(_ & e & Ee)|?]; [|done].
        rewrite Ek in Ee. apply (f_equal length) in Ee. rewrite !length_app in Ee. simpl in Ee. lia. }
      pose proof (represents_insert rcs Hrcs Hne f1 st1 H1 (b :: init) x data now) as Hins. cbv zeta in Hins.
      rewrite <-Ek in Hins. specialize (Hins Hk ltac:(done) Hnk).
      assert (Hins' := Hins (λ p Hpp, proj2 (elem_of_union _ _ _) (or_introl (proj2 (elem_of_list_to_set _ _) Hpp)))).
      eexists. split; [|exact Hins'].
      destruct (node_of st1 (okey b o)) as [[c t|]|] eqn:En; simpl.
      all: try (by apply (node_of_dir rcs f1 st1 H1) in En).
      all: rewrite (view_node rcs Hrcs Hne _ _ Hins') by done; unfold node_of; simpl; rewrite lookup_insert_eq; reflexivity.
Qed.

(** The node of an object as the handlers read it. *)
Lemma object_node b o :
  bucket_name b → object_name o →
  fakeGCSObjectPath (abs_path rcs) b o = inl (abs_path (rcs ++ okey b o)) ∧
  node_at f (abs_path (rcs ++ okey b o)) = node_of st (okey b o).
Proof.
  intros Hb Ho. destruct (okey_path rcs Hrcs Hne b o Hb Ho) as (Hp & Hk & _). split; [done|].
  by apply (view_node rcs Hrcs Hne f st Hf).
Qed.

Lemma metadata_follows b o : bucket_name b → object_name o → follows f st now (OpMetadata b o).
Proof.
  intros Hb Ho. apply follows_read; [|done]. unfold handle. erewrite object_route; [|done..]. simpl. f_equal.
  unfold gcsGetObjectMetadata. destruct (object_node b o Hb Ho) as [-> ->]. unfold node_of.
  destruct (st_objects st !! okey b o) as [[c t]|]; [done|]. by destruct (decide _).
Qed.

Lemma download_follows b o : bucket_name b → object_name o → follows f st now (OpDownload b o).
Proof.
  intros Hb Ho. apply follows_read; [|done]. rewrite download_route by done. cbn [spec snd]. f_equal.
  unfold gcsDownloadObject. destruct (object_node b o Hb Ho) as [-> ->]. unfold node_of.
  destruct (st_objects st !! okey b o) as [[c t]|]; [done|]. by destruct (decide _).
Qed.

Lemma getBucket_follows b : bucket_name b → follows f st now (OpGetBucket b).
Proof.
  intros Hb. apply follows_read; [|done]. unfold handle. erewrite bucket_route; [|done..]. cbn [spec snd]. f_equal.
  unfold gcsGetBucket. destruct (bucket_path rcs Hrcs Hne b Hb) as [-> Hn].
  destruct Hb as [Hb _]. rewrite (view_node rcs Hrcs Hne f st Hf) by (done || by constructor).
  case_bool_decide as Hin.
  - by rewrite (proj2 (node_of_dir rcs f st Hf [b])).
  - destruct (node_of st [b]) as [[c t|]|] eqn:E; try done. by apply (node_of_dir rcs f st Hf) in E.
Qed.

Lemma list_follows b p : bucket_name b → follows f st now (OpList b p).
Proof.
  intros Hb. apply follows_read; [|done]. unfold handle. erewrite list_route; [|done..]. cbn [spec snd]. f_equal.
  unfold gcsListObjects. destruct (bucket_path rcs Hrcs Hne b Hb) as [-> Hn].
  destruct Hb as [Hb _]. rewrite (walk_objects rcs Hrcs Hne f st Hf) by done. reflexivity.
Qed.

Lemma buckets_follows : follows f st now OpBuckets.
Proof.
  apply follows_read; [|done]. destruct (buckets_listed rcs Hrcs Hne f st Hf) as (entries & He & Hb).
  unfold handle, gcs_handle, request_of. simpl q_Path. cbv beta iota. simpl String.eqb. unfold gcsBucketsCollection.
  rewrite Henv. simpl q_Method. simpl String.eqb. cbv iota. rewrite He. cbn [spec snd]. by rewrite <-Hb.
Qed.

Lemma occupied_spec k :
  Forall file_name k → occupied st k = false → ∀ e, e ≠ [] → node_of st (k ++ e) = None.
Proof.
  intros Hk Ho e He. destruct (node_of st (k ++ e)) as [n|] eqn:E; [|done]. exfalso.
  apply not_true_iff_false in Ho. apply Ho. apply existsb_exists. exists (k ++ e). split.
  - apply list_elem_of_In, elem_of_app. destruct n as [c t|].
    + left. apply node_of_file in E. apply list_elem_of_fmap. exists (k ++ e, (c, t)). split; [done|]. by apply elem_of_map_to_list.
    + right. apply elem_of_elements. by apply (node_of_dir rcs f st Hf).
  - apply bool_decide_eq_true. split; [by eexists|]. intros E'. apply (f_equal length) in E'. rewrite length_app in E'.
    destruct e; [done|simpl in E'; lia].
Qed.

Lemma occupied_node k : occupied st k = true → ∃ e, e ≠ [] ∧ Forall file_name (k ++ e) ∧ is_Some (node_of st (k ++ e)).
Proof.
  intros (k' & Hk' & [[e ->] Hne']%bool_decide_eq_true)%existsb_exists. exists e.
  assert (e ≠ []) by (intros ->; by rewrite app_nil_r in Hne').
  apply list_elem_of_In, elem_of_app in Hk' as [([k' [c t]] & E & Hin%elem_of_map_to_list)%list_elem_of_fmap|Hin%elem_of_elements].
  - simpl in E. subst k'. split_and!; [done| |exists (FileNode c t); by apply node_of_file].
    apply (rp_keys _ f st Hf). left. by eapply elem_of_dom_2.
  - split_and!; [done| |exists DirNode; by apply (node_of_dir rcs f st Hf)]. apply (rp_keys _ f st Hf). by right.
Qed.

Lemma delete_follows b o : bucket_name b → object_name o → follows f st now (OpDelete b o).
Proof.
  intros Hb Ho. unfold follows, handle. erewrite object_route; [|done..].
  change (String.eqb "DELETE" "GET" || String.eqb "DELETE" "HEAD") with false. change (String.eqb "DELETE" "DELETE") with true.
  cbv iota. unfold gcsDeleteObject. destruct (object_node b o Hb Ho) as [-> Hn].
  destruct (okey_path rcs Hrcs Hne b o Hb Ho) as (_ & Hk & Hrk).
  assert (Hrk0 : rcs ++ okey b o ≠ []) by by destruct rcs.
  unfold remove. rewrite Hn. cbn [spec]. cbv zeta. set (k := okey b o) in *.
  destruct (node_of st k) as [[c t|]|] eqn:E.
  - pose proof (proj1 (node_of_file st k c t) E) as E'. rewrite bool_decide_true by by eapply elem_of_dom_2.
    eexists. split; [done|]. cbn [fst].
    assert (Hfo : st_folders st = st_folders st ∖ {[k]}).
    { pose proof (rp_apart _ f st Hf k (elem_of_dom_2 _ _ _ E')). set_solver. }
    rewrite Hfo. apply (represents_delete rcs Hrcs Hne f st Hf); [done|done|].
    intros e He Hen. destruct (node_of st (k ++ e)) as [n|] eqn:En; [|done].
    rewrite (node_of_above rcs Hrcs Hne f st Hf k e) in E; [done|done|done|by eexists|done].
  - pose proof (proj1 (node_of_dir rcs f st Hf k) E) as Hfold.
    rewrite (bool_decide_false (k ∈ dom _)) by (intros Hd; by apply (rp_apart _ f st Hf k)).
    rewrite (bool_decide_true (k ∈ st_folders st)) by done.
    destruct (abs_path_ne (rcs ++ k) Hrk Hrk0) as [H1 H2].
    rewrite (proj2 (String.eqb_neq _ _) H1), (proj2 (String.eqb_neq _ _) H2). simpl negb. rewrite andb_true_r. simpl andb.
    destruct (occupied st k) eqn:Eo.
    + rewrite bool_decide_false; [by exists f|]. rewrite subtree_empty by (done || apply (rp_machine _ f st Hf)).
      intros Hall. destruct (occupied_node k Eo) as (e & He & Hen & [n Hn']).
      rewrite <-(rp_view _ f st Hf) in Hn' by done. rewrite app_assoc, Hall in Hn'; [done|done|].
      rewrite <-app_assoc. by apply Forall_app.
    + pose proof (occupied_spec k Hk Eo) as Hnone.
      rewrite bool_decide_true.
      * eexists. split; [done|]. cbn [fst].
        assert (Hob : st_objects st = delete k (st_objects st)).
        { symmetry. apply delete_id. destruct (st_objects st !! k) as [[c t]|] eqn:Eob; [|done].
          rewrite (proj2 (node_of_file st k c t) Eob) in E. done. }
        rewrite Hob at 1. apply (represents_delete rcs Hrcs Hne f st Hf); [done|done|]. intros e He _. by apply Hnone.
      * apply subtree_empty; [apply (rp_machine _ f st Hf)|done|done|]. intros e He Hen.
        rewrite <-app_assoc in Hen |- *. apply Forall_app in Hen as [_ Hen].
        rewrite (rp_view _ f st Hf); [by apply Hnone|done|done].
  - rewrite bool_decide_false, (bool_decide_false (k ∈ st_folders st)).
    + by exists f.
    + intros Hd. by rewrite (proj2 (node_of_dir rcs f st Hf k) Hd) in E.
    + intros [[c t] Hd]%elem_of_dom. by rewrite (proj2 (node_of_file st k c t) Hd) in E.
Qed.

Lemma op_follows o : op_ok o → follows f st now o.
Proof.
  destruct o; simpl.
  - apply create_bucket_follows.
  - intros _. apply buckets_follows.
  - apply getBucket_follows.
  - intros []. by apply upload_follows.
  - intros []. by apply metadata_follows.
  - intros []. by apply download_follows.
  - intros []. by apply delete_follows.
  - apply list_follows.
Qed.
End Step.

Fixpoint run_server (f : fs) (ops : list (Z * op)) : fs * list reply :=
  match ops with
  | [] => (f, [])
  | (now, o) :: ops =>
      let '(f, rep) := handle f now o in
      let '(f, reps) := run_server f ops in (f, rep :: reps)
  end.

End Refinement.

Fixpoint run_store (md5 : string → string) (r : request) (st : store) (ops : list (Z * op)) : store * list reply :=
  match ops with
  | [] => (st, [])
  | (now, o) :: ops =>
      let '(st, rep) := spec md5 r st now o in
      let '(st, reps) := run_store md5 r st ops in (st, rep :: reps)
  end.

(** C23. The storage API is an object store: over any directory that holds a
    store, every sequence of requests with plain names gets, reply by reply, what
    the flat store of objects and folders answers - the content, size, digest and
    time of the last upload, 404 after a delete, the names of a bucket in order
    and by prefix, 500 without any change when a name runs through an object or is
    a folder - and leaves the directory that holds the resulting store. *)
Theorem storage_api_refines_store (env : string) (md5 : string → string)
    (parseMediaType : string → option (string * option string))
    (readParts : string → option string → list string * bool) (r : request)
    (rcs : list string) (f : fs) (st : store) (ops : list (Z * op)) :
  Forall file_name rcs → rcs ≠ [] → fakeGCSRoot env = inl (abs_path rcs) →
  represents rcs f st → Forall (λ o, op_ok o.2) ops →
  let '(f', replies) := run_server env md5 parseMediaType readParts r f ops in
  replies = (run_store md5 r st ops).2 ∧ represents rcs f' (run_store md5 r st ops).1.
Proof.
  intros Hrcs Hne Henv Hf Hops. revert f st Hf. induction Hops as [|[now o] ops Ho Hops IH]; intros f st Hf; [done|].
  simpl in Ho |- *. destruct (op_follows env md5 parseMediaType readParts r rcs Hrcs Hne Henv f st now Hf o Ho) as (f1 & -> & H1).
  destruct (spec md5 r st now o) as [st1 rep]. simpl in H1 |- *. specialize (IH f1 st1 H1).
  destruct (run_server _ _ _ _ _ f1 ops) as [f2 reps], (run_store md5 r st1 ops) as [st2 reps']. simpl in *.
  destruct IH as [-> IH]. done.
Qed.

(** ** The same files as gs:// paths *)

(** A [gs://] path of a load or extract job names the file the storage API
    keeps the object in, and is refused when the API refuses the names. *)
Lemma gs_uri_same_file (env b key : string) :
  b ≠ "" → str_mem "/" b = false →
  resolveFakeGCSPath env ("gs://" +:+ b +:+ "/" +:+ key) =
  match fakeGCSRoot env with
  | inr _ => Err (GcsNotConfigured ("gs://" +:+ b +:+ "/" +:+ key))
  | inl root =>
      match fakeGCSObjectPath root b key with
      | inl path => Ok path
      | inr _ => Err (OutsideRoot ("gs://" +:+ b +:+ "/" +:+ key))
      end
  end.
Proof.
  intros Hb0 Hb. unfold resolveFakeGCSPath, fakeGCSRoot, fakeGCSObjectPath. rewrite trim_prefix_app. cbv zeta.
  rewrite app_sep_cons, split_on_sep by done. change "/" with (String "/" "") at 1. rewrite join_split.
  rewrite (bool_decide_false (b = "")) by done.
  destruct (String.eqb_spec (trim_space env) "") as [->|He]; [done|]. rewrite bool_decide_false by done.
  set (root := clean (trim_space env)). set (p := join_path [root; b; key]). unfold under.
  destruct (String.eqb_spec p root) as [->|Hp]; simpl; [by rewrite bool_decide_true|].
  rewrite bool_decide_false by done. simpl. by destruct (has_prefix p (root +:+ "/")).
Qed.

(** ** A run, and behaviours at the edge of the contract *)

Definition demo_request : request := mkRequest "" "" (λ _, "") "localhost:9050" false "" "" None.
Definition demo_handle (f : fs) (now : Z) (r : request) : fs * reply :=
  gcs_handle "/gcs/" (λ s, s) (λ _, Some ("multipart/related", Some "b")) (λ _ _, ([], true)) f now r.
Definition demo_ops : list (Z * op) :=
  [(1, OpCreateBucket "data"); (2, OpUpload "data" "in/a.csv" "x,y"); (3, OpUpload "data" "in/b.csv" "z");
   (4, OpUpload "data" "in" "no"); (5, OpList "data" "in/b"); (6, OpDelete "data" "in/b.csv");
   (7, OpMetadata "data" "in/b.csv"); (8, OpDownload "data" "in/a.csv"); (9, OpBuckets)].

Lemma empty_store_represented rcs : Forall file_name rcs → represents rcs ∅ (Store ∅ ∅).
Proof.
  intros Hrcs. split.
  - split; intros *; rewrite lookup_empty; done.
  - intros p Hp c t. by rewrite lookup_empty.
  - intros k _ _. done.
  - simpl. intros k [Hk|Hk]; set_solver.
  - done.
  - set_solver.
Qed.

Lemma storage_api_refines_store_witness :
  let run := run_server "/gcs/" (λ s, s) (λ _, None) (λ _ _, ([], true)) demo_request ∅ demo_ops in
  run.2 = (run_store (λ s, s) demo_request (Store ∅ ∅) demo_ops).2 ∧
  represents ["gcs"] run.1 (run_store (λ s, s) demo_request (Store ∅ ∅) demo_ops).1 ∧
  (RError 500 (OsFailed IsADirectory) ∈ run.2 ∧ RError 404 (ObjectNotFound "data" "in/b.csv") ∈ run.2).
Proof.
  pose proof (storage_api_refines_store "/gcs/" (λ s, s) (λ _, None) (λ _ _, ([], true)) demo_request
    ["gcs"] ∅ (Store ∅ ∅) demo_ops) as H.
  assert (Hg : Forall file_name ["gcs"]) by (apply (bool_decide_unpack _); vm_compute; exact I).
  assert (Hops : Forall (λ o : Z * op, op_ok o.2) demo_ops).
  { apply (bool_decide_unpack _). vm_compute. exact I. }
  specialize (H Hg ltac:(done) ltac:(vm_compute; reflexivity) (empty_store_represented _ Hg) Hops).
  destruct (run_server _ _ _ _ _ ∅ demo_ops) as [f' reps] eqn:E. destruct H as [H1 H2]. simpl. split_and!; [done|done|..].
  - rewrite H1. vm_compute. do 3 right. left.
  - rewrite H1. vm_compute. do 6 right. left.
Defined.

(** The comment on [parseGCSMultipartUpload] says that parts after the second are
    ignored; the last part is what is stored. *)
Example multipart_last_part_wins :
  let parts := [object_text [("name", json_quote "a.txt")]; "first"; "second"] in
  parseGCSMultipartUpload (λ _, Some ("multipart/related", Some "b")) (λ _ _, (parts, true)) demo_request =
    inl ("a.txt", "second").
Proof. vm_compute. reflexivity. Qed.

(** A name with [..] is checked against the root only: an upload to one bucket
    writes into another. *)
Example upload_crosses_buckets :
  let r := mkRequest "POST" "/upload/storage/v1/b/mine/o" (λ k, if String.eqb k "name" then "../theirs/x" else "")
             "" false "" "" (Some "data") in
  (demo_handle ∅ 5 r).1 !! "/gcs/theirs/x" = Some (FileNode "data" 5).
Proof. vm_compute. reflexivity. Qed.

(** [gcsGetBucket] and [gcsListObjects] do not look at the method: deleting a
    bucket is answered as if it had been read. *)
Example bucket_delete_ignored :
  let r method := mkRequest method "/storage/v1/b/data" (λ _, "") "" false "" "" None in
  let f := (demo_handle ∅ 1 (request_of demo_request (OpCreateBucket "data"))).1 in
  demo_handle f 2 (r "DELETE") = demo_handle f 2 (r "GET") ∧
  demo_handle f 2 (r "DELETE") = (f, RJson 200 (renderGCSBucketResource "data")).
Proof. split; vm_compute; reflexivity. Qed.

(** The folders of a deleted object stay and take the place of an object with
    their name; deleting the name as an object removes the folder. *)
Example folder_outlives_objects :
  run_store (λ s, s) demo_request (Store ∅ ∅)
    [(1, OpUpload "b" "a/x" "1"); (2, OpDelete "b" "a/x"); (3, OpUpload "b" "a" "2"); (4, OpDelete "b" "a");
     (5, OpUpload "b" "a" "3"); (6, OpDownload "b" "a")] =
  (Store {[["b"; "a"] := ("3", 5)]} {[["b"]]},
   [RJson 200 (renderGCSObjectResource (λ s, s) demo_request "b" "a/x" "1" 1); RNoContent;
    RError 500 (OsFailed IsADirectory); RNoContent;
    RJson 200 (renderGCSObjectResource (λ s, s) demo_request "b" "a" "3" 5);
    RContent [("Content-Type", "application/octet-stream"); ("Accept-Ranges", "bytes");
              ("ETag", quoted "3"); ("X-Goog-Hash", "md5=3")] "a" 5 "3"]).
Proof. vm_compute. reflexivity. Qed.
