(* ===== verification/Workspace.v ===== *)
(** * Workspaces: validation, plan, diff and apply

    [internal/workspace/validator.go] and [planner.go].  A workspace is a
    directory tree of files named by slash-separated relative paths; [tree]
    holds its files and directories, and the [os] calls of the code are the
    operations on it below, with the errors Unix gives.  A [disk] maps absolute
    roots to trees that do not overlap; there are no symbolic links.  SHA-256
    and [filepath.Abs] are parameters. *)

From S2P Require Import Prelude GoStrings GoPath.
From Stdlib Require Import Ascii.

(** ** Paths *)

(** The directories above a path, the outermost first. *)
Definition ancestors (p : string) : list string :=
  let cs := split_on "/" p in
  (λ n, join "/" (take n cs)) <$> seq 1 (length cs - 1).

(** The path of [rel] inside a root ([""] for the root itself): what
    [filepath.Join(root, clean)] names. *)
Definition resolveWithin (rel : string) : option string :=
  let c := clean (trim_space rel) in
  if String.eqb c "." || String.eqb c "" then Some ""
  else if has_prefix c ".." || is_abs c then None
  else Some c.

(** ** Trees *)

Record tree := Tree { t_files : gmap string string; t_dirs : gset string }.
#[export] Instance tree_eta : Eta tree := λ t, Tree (t_files t) (t_dirs t).

Inductive fsErr :=
| NotExist (p : string)
| NotDirectory (p : string)
| IsDirectory (p : string)
| InvalidPath (p : string)
| RootRequired
| RootNotDirectory.

(** [os.Stat]: whether the path is a directory. *)
Definition stat (t : tree) (p : string) : option bool :=
  if bool_decide (p ∈ dom (t_files t)) then Some false
  else if bool_decide (p = "" ∨ p ∈ t_dirs t) then Some true
  else None.

(** [os.MkdirAll] *)
Fixpoint mkdir_each (t : tree) (ps : list string) : tree * option fsErr :=
  match ps with
  | [] => (t, None)
  | p :: ps =>
      if bool_decide (p ∈ dom (t_files t)) then (t, Some (NotDirectory p))
      else mkdir_each (t <| t_dirs ::= λ d, {[p]} ∪ d |>) ps
  end.

Definition mkdirAll (t : tree) (p : string) : tree * option fsErr :=
  if String.eqb p "." || String.eqb p "" then (t, None) else mkdir_each t (ancestors p ++ [p]).

(** [os.Create] and the write of the whole content. *)
Definition create (t : tree) (p content : string) : tree * option fsErr :=
  if bool_decide (p ∈ t_dirs t) then (t, Some (IsDirectory p))
  else if bool_decide (Forall (λ a, a ∈ t_dirs t) (ancestors p))
  then (t <| t_files ::= <[p := content]> |>, None)
  else (t, Some (NotExist p)).

(** [os.Rename] of a file. *)
Definition rename (t : tree) (old new : string) : tree * option fsErr :=
  match t_files t !! old with
  | None => (t, Some (NotExist old))
  | Some content =>
      if bool_decide (new ∈ t_dirs t) then (t, Some (IsDirectory new))
      else (t <| t_files ::= λ f, <[new := content]> (delete old f) |>, None)
  end.

(** [os.Remove] of a file; a missing one is no error to the callers. *)
Definition remove (t : tree) (p : string) : tree := t <| t_files ::= delete p |>.

(** [copyFile] from the file [src] of one tree to [dst] of another. *)
Definition copyFile (s t : tree) (src dst : string) : tree * option fsErr :=
  match t_files s !! src with
  | None => (t, Some (NotExist src))
  | Some content =>
      match mkdirAll t (dir dst) with
      | (t, Some e) => (t, Some e)
      | (t, None) =>
          let tmp := dst +:+ ".tmp" in
          match create t tmp content with
          | (t, Some e) => (t, Some e)
          | (t, None) =>
              match rename t tmp dst with
              | (t, Some e) => (remove t tmp, Some e)
              | (t, None) => (t, None)
              end
          end
      end
  end.

(** ** Validation *)

Record Rule := mkRule { ru_Path : string; ru_Kind : string; ru_Required : bool }.

Definition Rules : list Rule := [
  mkRule "manifest.yaml" "file" true; mkRule "datasets" "dir" true; mkRule "schemas" "dir" true;
  mkRule "queries" "dir" true; mkRule "profiles" "dir" true; mkRule "migrations" "dir" false;
  mkRule "views" "dir" false; mkRule "routines" "dir" false; mkRule "pipelines" "dir" false;
  mkRule "seed" "dir" false; mkRule "tests" "dir" false].

Record Result := mkResult {
  r_Root : string;
  r_Found : list string;
  r_MissingRequired : list string;
  r_MissingRecommended : list string;
}.

Definition matchKind (t : tree) (p kind : string) : bool * bool :=
  match stat t p with
  | None => (false, false)
  | Some isDir =>
      if String.eqb kind "dir" then (true, isDir)
      else if String.eqb kind "file" then (true, negb isDir)
      else (true, false)
  end.

Definition rule_found (t : tree) (r : Rule) : bool :=
  let '(ok, kindOk) := matchKind t (ru_Path r) (ru_Kind r) in ok && kindOk.

(** [Validate] of the directory at [root]. *)
Definition validate_tree (root : string) (t : tree) : Result :=
  let missing := filter (λ r, rule_found t r = false) Rules in
  mkResult root
    (sort_strings (ru_Path <$> filter (λ r, rule_found t r = true) Rules))
    (sort_strings (ru_Path <$> filter (λ r, ru_Required r = true) missing))
    (sort_strings (ru_Path <$> filter (λ r, ru_Required r = false) missing)).

Definition IsValid (r : Result) : bool := bool_decide (r_MissingRequired r = []).

(** What is at an absolute path that may be a workspace root. *)
Inductive root_node := RootDir (t : tree) | RootFile.
Abbreviation disk := (gmap string root_node).

(** ** Plan, diff and apply *)

Record FileEntry := mkEntry { fe_Path : string; fe_Size : Z; fe_SHA256 : string }.
Record FileChange := mkChange { fc_Path : string; fc_Source : FileEntry; fc_Target : FileEntry }.
Record DiffResult := mkDiff {
  d_SourceRoot : string;
  d_TargetRoot : string;
  d_OnlyInSource : list FileEntry;
  d_OnlyInTarget : list FileEntry;
  d_Changed : list FileChange;
}.
Record ApplyAction := mkAction { aa_Action : string; aa_Path : string }.
#[export] Instance action_eq_dec : EqDecision ApplyAction.
Proof. solve_decision. Defined.

Definition under (d p : string) : bool := has_prefix p (d +:+ "/").

(** The files [filepath.WalkDir] finds below a rule's directory. *)
Definition walk_rule (t : tree) (r : Rule) : list string :=
  if String.eqb (ru_Path r) "manifest.yaml" then [] else
  match stat t (ru_Path r) with
  | Some true => filter (λ p, under (ru_Path r) p = true) (elements (dom (t_files t)))
  | _ => []
  end.

(** The walk's own order is undone by the sort. *)
Definition listTrackedWorkspacePaths (t : tree) : list string :=
  sort_strings (remove_dups (filter (λ p, p ≠ "")
    (trim_space <$> "manifest.yaml" :: concat (walk_rule t <$> Rules)))).

Definition action_le (a b : ApplyAction) : Prop :=
  if decide (aa_Action a = aa_Action b) then String.le (aa_Path a) (aa_Path b)
  else String.le (aa_Action a) (aa_Action b).
#[export] Instance action_le_dec a b : Decision (action_le a b).
Proof. unfold action_le. destruct (decide _); apply _. Defined.

Section Planner.
Context (sha256 : string → string) (abs : string → string).

Definition file_entry (p content : string) : FileEntry :=
  mkEntry p (Z.of_nat (String.length content)) (sha256 content).

Fixpoint scan_paths (t : tree) (ps : list string) : list FileEntry + fsErr :=
  match ps with
  | [] => inl []
  | p :: ps =>
      match stat t p with
      | None => inr (NotExist p)
      | Some isDir =>
          match scan_paths t ps with
          | inr e => inr e
          | inl es =>
              inl match t_files t !! p with
                  | Some content => if (isDir : bool) then es else file_entry p content :: es
                  | None => es
                  end
          end
      end
  end.

Definition scanWorkspaceFiles (t : tree) : list FileEntry + fsErr :=
  scan_paths t (listTrackedWorkspacePaths t).

Definition Validate (d : disk) (root : string) : (Result * tree) + fsErr :=
  let c := trim_space root in
  if String.eqb c "" then inr RootRequired else
  match d !! abs c with
  | None => inr (NotExist (abs c))
  | Some RootFile => inr RootNotDirectory
  | Some (RootDir t) => inl (validate_tree (abs c) t, t)
  end.

Definition BuildPlan (d : disk) (root : string) : (Result * list FileEntry) + fsErr :=
  match Validate d root with
  | inr e => inr e
  | inl (v, t) =>
      match scanWorkspaceFiles t with
      | inr e => inr e
      | inl files => inl (v, files)
      end
  end.

Definition by_path (l : list FileEntry) : gmap string FileEntry :=
  list_to_map ((λ f, (fe_Path f, f)) <$> l).

Definition diff_files (sourceRoot targetRoot : string) (source target : list FileEntry) : DiffResult :=
  let s := by_path source in
  let t := by_path target in
  mkDiff sourceRoot targetRoot
    (omap (λ p, match t !! p with None => s !! p | Some _ => None end) (sorted_keys s))
    (omap (λ p, match s !! p with None => t !! p | Some _ => None end) (sorted_keys t))
    (omap (λ p,
       match s !! p, t !! p with
       | Some a, Some b =>
           if negb (String.eqb (fe_SHA256 a) (fe_SHA256 b)) || negb (fe_Size a =? fe_Size b)
           then Some (mkChange p a b) else None
       | _, _ => None
       end) (sorted_keys s)).

Definition Diff (d : disk) (sourceRoot targetRoot : string) : DiffResult + fsErr :=
  match BuildPlan d sourceRoot with
  | inr e => inr e
  | inl (sv, sf) =>
      match BuildPlan d targetRoot with
      | inr e => inr e
      | inl (tv, tf) => inl (diff_files (r_Root sv) (r_Root tv) sf tf)
      end
  end.

Definition plan_actions (diff : DiffResult) (deleteMissing : bool) : list ApplyAction :=
  let dirs := remove_dups (filter (λ x, x ≠ "." ∧ x ≠ "") ((λ f, dir (fe_Path f)) <$> d_OnlyInSource diff)) in
  merge_sort action_le
    ((mkAction "mkdir" <$> sort_strings dirs) ++
     ((λ f, mkAction "copy" (fe_Path f)) <$> d_OnlyInSource diff) ++
     ((λ f, mkAction "update" (fc_Path f)) <$> d_Changed diff) ++
     (if deleteMissing then (λ f, mkAction "delete" (fe_Path f)) <$> d_OnlyInTarget diff else [])).

Definition BuildApplyDryRunWithOptions (d : disk) (sourceRoot targetRoot : string) (deleteMissing : bool)
    : (DiffResult * list ApplyAction) + fsErr :=
  match Diff d sourceRoot targetRoot with
  | inr e => inr e
  | inl diff => inl (diff, plan_actions diff deleteMissing)
  end.

(** One iteration of [Apply]'s loop on the target tree. *)
Definition apply_action (s t : tree) (a : ApplyAction) : tree * option fsErr :=
  match resolveWithin (aa_Path a) with
  | None => (t, Some (InvalidPath (aa_Path a)))
  | Some p =>
      if String.eqb (aa_Action a) "mkdir" then mkdirAll t p
      else if String.eqb (aa_Action a) "copy" || String.eqb (aa_Action a) "update" then copyFile s t p p
      else if String.eqb (aa_Action a) "delete" then (remove t p, None)
      else (t, None)
  end.

Fixpoint apply_actions (s t : tree) (actions : list ApplyAction) : tree * option fsErr :=
  match actions with
  | [] => (t, None)
  | a :: actions =>
      match apply_action s t a with
      | (t, None) => apply_actions s t actions
      | (t, Some e) => (t, Some e)
      end
  end.

Definition tree_at (d : disk) (root : string) : tree :=
  match d !! root with Some (RootDir t) => t | _ => Tree ∅ ∅ end.

(** [Apply]: the disk and the actions done, or the error that stopped it. *)
Definition Apply (d : disk) (sourceRoot targetRoot : string) (deleteMissing : bool)
    : disk * (list ApplyAction + fsErr) :=
  match BuildApplyDryRunWithOptions d sourceRoot targetRoot deleteMissing with
  | inr e => (d, inr e)
  | inl (diff, actions) =>
      let src := tree_at d (d_SourceRoot diff) in
      let '(t, e) := apply_actions src (tree_at d (d_TargetRoot diff)) actions in
      (<[d_TargetRoot diff := RootDir t]> d,
       match e with None => inl actions | Some e => inr e end)
  end.

End Planner.
