(* ===== verification/WorkspaceApply.v ===== *)
(** * Applying a workspace

    A relative path never leaves its root; applying one workspace to another
    makes the second equal to the first on the tracked files, with the actions
    a dry run announces.  The last section shows what the temporary file of
    [copyFile] and the order of the actions do to trees outside the theorem's
    hypotheses. *)

From S2P Require Import Prelude GoStrings GoPath Workspace.
From Stdlib Require Import Ascii.

(** ** Paths *)

(** The stack of [filepath.Clean] on a relative path: plain components over the
    [..]s that leave the root. *)
Lemma clean_step_stack ups down c :
  Forall plain down →
  ∃ ups' down', clean_step false (down ++ replicate ups "..") c = down' ++ replicate ups' ".." ∧
    Forall plain down' ∧ ∀ x, x ∈ down' → x ∈ down ∨ x = c.
Proof.
  intros Hd. unfold clean_step. destruct (String.eqb_spec c "") as [->|H1]; simpl.
  { exists ups, down. split_and!; auto. }
  destruct (String.eqb_spec c ".") as [->|H2]; simpl.
  { exists ups, down. split_and!; auto. }
  destruct (String.eqb_spec c "..") as [->|H3].
  - destruct down as [|x down]; simpl.
    + exists (S ups), []. split_and!; [by destruct ups|done|]. by intros x ?%elem_of_nil.
    + inversion Hd as [|? ? Hx Hd']; subst. destruct Hx as (_ & _ & Hx).
      destruct (String.eqb_spec x ".."); [done|]. exists ups, down. split_and!; [done..|].
      intros y Hy. left. by right.
  - exists ups, (c :: down). split_and!; [done|by constructor|]. intros x [->|Hx]%elem_of_cons; auto.
Qed.

Lemma clean_stack cs ups down :
  Forall plain down →
  ∃ ups' down', foldl (clean_step false) (down ++ replicate ups "..") cs = down' ++ replicate ups' ".." ∧
    Forall plain down' ∧ ∀ c, c ∈ down' → c ∈ down ∨ c ∈ cs.
Proof.
  revert ups down. induction cs as [|c cs IH]; intros ups down Hd; simpl.
  { exists ups, down. split_and!; auto. }
  destruct (clean_step_stack ups down c Hd) as (u1 & d1 & -> & Hd1 & Hin1).
  destruct (IH u1 d1 Hd1) as (u2 & d2 & -> & Hd2 & Hin2). exists u2, d2. split_and!; [done..|].
  intros x Hx. destruct (Hin2 x Hx) as [Hx'|Hx']; [|right; by right].
  destruct (Hin1 x Hx') as [?| ->]; [by left|right; left].
Qed.

Lemma join_cons_prefix c l : has_prefix (join "/" (c :: l)) c = true.
Proof.
  destruct l as [|x l]; simpl; [|apply has_prefix_app]. apply has_prefix_spec. exists "".
  induction c as [|a c IH]; [done|]. rewrite str_app_cons. by f_equal.
Qed.

(** A relative path stays inside its root: whatever path a caller gives,
    it is refused or resolves to the root itself or to a path below it without
    an empty, [.] or [..] component, so no action of an apply reads or writes
    outside the two workspaces. *)
Theorem resolveWithin_contained (rel p : string) :
  resolveWithin rel = Some p → p ≠ "" → Forall plain (split_on "/" p).
Proof.
  unfold resolveWithin. set (q := trim_space rel).
  destruct (String.eqb_spec (clean q) "."); simpl; [by intros [= <-]|].
  destruct (String.eqb_spec (clean q) ""); simpl; [by intros [= <-]|].
  destruct (has_prefix (clean q) "..") eqn:Hup; [done|]. destruct (is_abs (clean q)) eqn:Habs; [done|].
  intros [= <-] _. unfold clean in *. destruct (is_abs q) eqn:Hq; [by unfold is_abs in Habs; rewrite has_prefix_app in Habs|].
  unfold clean_parts in *. rewrite Hq in *.
  destruct (clean_stack (split_on "/" q) 0 [] (Forall_nil_2 _)) as (ups & down & E & Hd & Hin).
  simpl app in E. rewrite E in *. rewrite rev_app_distr in *.
  assert (Hrev : rev (replicate ups "..") = replicate ups "..").
  { rewrite rev_alt. apply reverse_replicate. }
  rewrite Hrev in *. destruct ups as [|ups].
  - simpl in *. case_match; [done|]. destruct down as [|c down]; [done|].
    rewrite split_join; [by apply Forall_rev|..].
    + simpl. by destruct (rev down).
    + apply Forall_forall. intros x Hx. rewrite list_elem_of_In, <-in_rev, <-list_elem_of_In in Hx.
      destruct (Hin x Hx) as [?%elem_of_nil|Hx']; [done|].
      pose proof (split_on_no_sep "/" q) as Hno. rewrite Forall_forall in Hno. by apply Hno.
  - exfalso. cbn [replicate app] in Hup.
    pose proof (join_cons_prefix ".." (replicate ups ".." ++ rev down)) as Hpre.
    destruct (String.eqb_spec (join "/" (".." :: replicate ups ".." ++ rev down)) "") as [E0|];
      [by rewrite E0 in Hpre|congruence].
Qed.

Lemma resolveWithin_contained_witness :
  resolveWithin " queries/../views//daily.sql " = Some "views/daily.sql" ∧
  Forall plain (split_on "/" "views/daily.sql").
Proof.
  assert (E : resolveWithin " queries/../views//daily.sql " = Some "views/daily.sql") by (vm_compute; reflexivity).
  split; [exact E|]. apply (resolveWithin_contained " queries/../views//daily.sql "); [exact E|discriminate].
Defined.

(** A path that [resolveWithin] leaves as it is. *)
Definition plain_path (p : string) : Prop :=
  trim_space p = p ∧ has_prefix p ".." = false ∧ Forall plain (split_on "/" p).

Lemma resolve_plain p : plain_path p → resolveWithin p = Some p.
Proof.
  intros (Ht & Hup & Hp). unfold resolveWithin. rewrite Ht.
  assert (Habs : is_abs p = false).
  { destruct (is_abs p) eqn:E; [|done]. apply has_prefix_spec in E as (r & ->).
    simpl in Hp. inversion Hp as [|? ? (Hne & _)]; done. }
  destruct (plain_path_ne p Hp) as [H1 H2].
  assert (clean p = p) as ->.
  { unfold clean, clean_parts. rewrite Habs, clean_plain, app_nil_r, rev_involutive by done.
    change "/" with (String "/" ""). rewrite join_split. by destruct (String.eqb_spec p ""). }
  destruct (String.eqb_spec p "."), (String.eqb_spec p ""); try done. simpl. by rewrite Hup, Habs.
Qed.

Lemma split_on_snoc c p s :
  str_mem c s = false →
  ∃ init last, split_on c p = init ++ [last] ∧ split_on c (p +:+ s) = init ++ [last +:+ s].
Proof.
  intros Hs. induction p as [|a p (init & last & E & E')].
  - exists [], "". rewrite str_app_nil. simpl. by rewrite split_on_plain.
  - rewrite str_app_cons. simpl. rewrite E, E'. case_bool_decide.
    + by exists ("" :: init), last.
    + destruct init as [|i init]; simpl.
      * exists [], (String a last). by rewrite str_app_cons.
      * by exists (String a i :: init), last.
Qed.

Lemma split_ends c p : ∃ init last, split_on c p = init ++ [last].
Proof. destruct (split_on_snoc c p "" eq_refl) as (i & l & E & _). eauto. Qed.

Lemma ancestors_init p init last :
  split_on "/" p = init ++ [last] → ancestors p = (λ n, join "/" (take n init)) <$> seq 1 (length init).
Proof.
  intros E. unfold ancestors. rewrite E, length_app. simpl. replace (length init + 1 - 1)%nat with (length init) by lia.
  apply list_fmap_ext. intros i n [-> Hn]%lookup_seq. by rewrite take_app_le by lia.
Qed.

Lemma ancestors_suffix p s : str_mem "/" s = false → ancestors (p +:+ s) = ancestors p.
Proof.
  intros Hs. destruct (split_on_snoc "/" p s Hs) as (init & last & E & E').
  by rewrite (ancestors_init _ _ _ E), (ancestors_init _ _ _ E').
Qed.

Lemma dir_parent p :
  Forall plain (split_on "/" p) →
  (dir p = "." ∧ ancestors p = []) ∨
  (dir p ≠ "." ∧ dir p ≠ "" ∧ ancestors p = ancestors (dir p) ++ [dir p]).
Proof.
  intros Hp. destruct (split_ends "/" p) as (init & last & E). rewrite (ancestors_init _ _ _ E).
  pose proof (split_on_no_sep "/" p) as Hns. rewrite E in Hns, Hp. apply Forall_app in Hns as [Hns _].
  apply Forall_app in Hp as [Hp _]. unfold dir. rewrite E, rev_app_distr. simpl.
  destruct (decide (init = [])) as [->|Hne]; [by left|]. right.
  assert (Hrev : rev init ≠ []).
  { intros Hr. apply Hne. by rewrite <-(rev_involutive init), Hr. }
  destruct (rev init) as [|x l] eqn:Er; [done|]. rewrite <-Er, rev_involutive.
  assert (Hsplit : split_on "/" (join "/" init) = init) by by apply split_join.
  destruct (plain_path_ne (join "/" init)) as [H1 H2]; [by rewrite Hsplit|]. split_and!; [done..|].
  destruct (exists_last Hne) as (i2 & l2 & ->).
  rewrite (ancestors_init _ _ _ Hsplit), length_app. simpl. rewrite seq_app, fmap_app. f_equal.
  - apply list_fmap_ext. intros i n [-> Hn]%lookup_seq. by rewrite take_app_le by lia.
  - simpl. f_equal. rewrite take_ge; [done|]. rewrite length_app. simpl. lia.
Qed.

Lemma under_ancestor r p :
  str_mem "/" r = false → r ≠ "" → under r p = true → r ∈ ancestors p.
Proof.
  intros Hr Hne. unfold under. intros (rest & ->)%has_prefix_spec. rewrite str_app_assoc.
  assert (E : split_on "/" (r +:+ "/" +:+ rest) = r :: split_on "/" rest) by by apply split_on_sep.
  unfold ancestors. rewrite E. simpl. destruct (split_on "/" rest) as [|x l] eqn:E'; [by apply split_on_ne in E'|].
  simpl. left.
Qed.

(** ** What the planner sees of a tree *)

Definition tracked (p : string) : bool :=
  String.eqb p "manifest.yaml" ||
  existsb (λ r, negb (String.eqb (ru_Path r) "manifest.yaml") && under (ru_Path r) p) Rules.

Definition tracked_files (t : tree) : gmap string string :=
  filter (λ kv, tracked kv.1 = true) (t_files t).

(** A tree as an operating system keeps it, with the manifest. *)
Record scannable (t : tree) : Prop := {
  sc_manifest : "manifest.yaml" ∈ dom (t_files t);
  sc_path p : p ∈ dom (t_files t) → plain_path p;
  sc_file p : p ∈ dom (t_files t) → p ∉ t_dirs t;
  sc_parents p a : p ∈ dom (t_files t) → a ∈ ancestors p → a ∈ t_dirs t;
}.

Lemma rules_plain r : r ∈ Rules → str_mem "/" (ru_Path r) = false ∧ ru_Path r ≠ "".
Proof.
  intros Hr. assert (Hall : forallb (λ r, negb (str_mem "/" (ru_Path r)) && negb (String.eqb (ru_Path r) "")) Rules = true)
    by reflexivity.
  rewrite forallb_forall in Hall. specialize (Hall r ltac:(by apply list_elem_of_In)). bools. done.
Qed.

Lemma walked_rule t r p :
  scannable t → r ∈ Rules → p ∈ dom (t_files t) → under (ru_Path r) p = true → stat t (ru_Path r) = Some true.
Proof.
  intros Hs Hr Hp Hu. destruct (rules_plain r Hr) as [H1 H2].
  assert (ru_Path r ∈ t_dirs t) as Hd by (eapply sc_parents; [done..|]; by apply under_ancestor).
  unfold stat. rewrite bool_decide_false by (intros ?%(sc_file _ Hs); done). by rewrite bool_decide_true by by right.
Qed.

Lemma listTracked_spec t p :
  scannable t → p ∈ listTrackedWorkspacePaths t ↔ p ∈ dom (t_files t) ∧ tracked p = true.
Proof.
  intros Hs. unfold listTrackedWorkspacePaths.
  rewrite elem_of_sort_strings, elem_of_remove_dups, list_elem_of_filter, list_elem_of_fmap.
  assert (Hwalk : ∀ q, q ∈ concat (walk_rule t <$> Rules) ↔ q ∈ dom (t_files t) ∧
      existsb (λ r, negb (String.eqb (ru_Path r) "manifest.yaml") && under (ru_Path r) q) Rules = true).
  { intros q. rewrite list_elem_of_In, in_concat, existsb_exists. split.
    - intros (l & Hl & Hq). apply list_elem_of_In in Hl, Hq. apply list_elem_of_fmap_1 in Hl as (r & -> & Hr). unfold walk_rule in Hq.
      destruct (String.eqb (ru_Path r) "manifest.yaml") eqn:Em; [by apply elem_of_nil in Hq|].
      destruct (stat t (ru_Path r)) as [[]|]; [|by apply elem_of_nil in Hq..].
      apply list_elem_of_filter in Hq as [Hu Hq%elem_of_elements]. split; [done|].
      exists r. split; [by apply list_elem_of_In|]. by rewrite Em, Hu.
    - intros (Hq & r & Hr%list_elem_of_In & Hb). bools. eexists. split.
      + apply list_elem_of_In, list_elem_of_fmap_2, Hr.
      + apply list_elem_of_In. unfold walk_rule. destruct (String.eqb_spec (ru_Path r) "manifest.yaml"); [done|].
        rewrite (walked_rule t r q) by done. apply list_elem_of_filter. split; [done|]. by apply elem_of_elements. }
  assert (Htrim : ∀ q, q ∈ dom (t_files t) → trim_space q = q).
  { intros q Hq. by apply (sc_path _ Hs). }
  assert (Hne : ∀ q, q ∈ dom (t_files t) → q ≠ "").
  { intros q Hq. apply plain_path_ne. by apply (sc_path _ Hs). }
  unfold tracked. rewrite orb_true_iff, String.eqb_eq. split.
  - intros (_ & q & -> & [->|[Hq Hx]%Hwalk]%elem_of_cons).
    + split; [apply (sc_manifest _ Hs)|by left].
    + rewrite Htrim by done. auto.
  - intros [Hp [->|Hx]].
    + split; [done|]. exists "manifest.yaml". split; [done|left].
    + split; [by apply Hne|]. exists p. split; [by rewrite Htrim|]. right. by apply Hwalk.
Qed.

Section Diff.
Context (sha256 : string → string) (abs : string → string).

Lemma scan_ok t ps :
  Forall (λ p, p ∈ dom (t_files t)) ps →
  scan_paths sha256 t ps = inl (omap (λ p, file_entry sha256 p <$> t_files t !! p) ps).
Proof.
  induction 1 as [|p ps Hp _ IH]; [done|]. simpl. unfold stat. rewrite bool_decide_true by done. rewrite IH.
  by apply elem_of_dom in Hp as [c ->].
Qed.

Lemma by_path_cons e l : by_path (e :: l) = <[fe_Path e := e]> (by_path l).
Proof. done. Qed.

Lemma by_path_omap (f : gmap string string) ps p :
  by_path (omap (λ p, file_entry sha256 p <$> f !! p) ps) !! p =
  if decide (p ∈ ps) then file_entry sha256 p <$> f !! p else None.
Proof.
  induction ps as [|q ps IH]; [done|].
  assert (∀ g : string → option FileEntry, omap g (q :: ps) = match g q with Some x => x :: omap g ps | None => omap g ps end)
    as -> by done.
  destruct (f !! q) as [c|] eqn:Hq; cbn [fmap option_fmap option_map].
  - rewrite by_path_cons. simpl fe_Path. destruct (decide (p = q)) as [->|Hne].
    + rewrite lookup_insert_eq, decide_True by left. by rewrite Hq.
    + rewrite lookup_insert_ne, IH by done. apply decide_ext. rewrite elem_of_cons. naive_solver.
  - rewrite IH. destruct (decide (p = q)) as [->|Hne].
    + rewrite Hq. by repeat case_decide.
    + apply decide_ext. rewrite elem_of_cons. naive_solver.
Qed.

(** The inventory of a tree is its tracked files. *)
Lemma scan_tracked t :
  scannable t → ∃ es, scanWorkspaceFiles sha256 t = inl es ∧
    ∀ p, by_path es !! p = file_entry sha256 p <$> tracked_files t !! p.
Proof.
  intros Hs. unfold scanWorkspaceFiles. rewrite scan_ok.
  - eexists. split; [done|]. intros p. rewrite by_path_omap. unfold tracked_files.
    destruct (tracked p) eqn:Ht.
    + rewrite map_lookup_filter. destruct (t_files t !! p) as [c|] eqn:Hp; simpl; [|by case_decide].
      rewrite decide_True; [by rewrite option_guard_True|]. apply listTracked_spec; [done|].
      split; [by apply elem_of_dom|done].
    + rewrite decide_False by (intros [_ ?]%listTracked_spec; congruence).
      rewrite map_lookup_filter. destruct (t_files t !! p); simpl; [|done]. by rewrite option_guard_False by congruence.
  - apply Forall_forall. intros p Hp. by apply listTracked_spec in Hp as [? _].
Qed.

Lemma plan_of d root t :
  trim_space root ≠ "" → d !! abs (trim_space root) = Some (RootDir t) → scannable t →
  ∃ es, BuildPlan sha256 abs d root = inl (validate_tree (abs (trim_space root)) t, es) ∧
    ∀ p, by_path es !! p = file_entry sha256 p <$> tracked_files t !! p.
Proof.
  intros Hne Hd Hs. destruct (scan_tracked t Hs) as (es & He & Hp). exists es. split; [|done].
  unfold BuildPlan, Validate. destruct (String.eqb_spec (trim_space root) ""); [done|]. by rewrite Hd, He.
Qed.

Lemma tracked_files_lookup t p :
  tracked_files t !! p = if tracked p then t_files t !! p else None.
Proof.
  unfold tracked_files. rewrite map_lookup_filter. destruct (t_files t !! p); simpl; [|by destruct (tracked p)].
  destruct (tracked p) eqn:E; [by rewrite option_guard_True|by rewrite option_guard_False].
Qed.

(** Paths of the diff in terms of the tracked files of both sides. *)
Lemma elem_of_diff_source sr tr es et p (s t : tree) :
  (∀ p, by_path es !! p = file_entry sha256 p <$> tracked_files s !! p) →
  (∀ p, by_path et !! p = file_entry sha256 p <$> tracked_files t !! p) →
  (∃ e, e ∈ d_OnlyInSource (diff_files sr tr es et) ∧ fe_Path e = p) ↔
  is_Some (tracked_files s !! p) ∧ tracked_files t !! p = None.
Proof.
  intros Hs Ht. simpl. split.
  - intros (e & He & <-). apply list_elem_of_omap in He as (q & _ & He). rewrite Ht, Hs in He.
    destruct (tracked_files t !! q) eqn:Etq; [done|]. simpl in He.
    destruct (tracked_files s !! q) as [c|] eqn:Esq; [|done]. simpl in He. simplify_eq. simpl. rewrite Esq. eauto.
  - intros [[c Hc] Hn]. exists (file_entry sha256 p c). split; [|done]. apply list_elem_of_omap. exists p.
    rewrite elem_of_sorted_keys, Ht, Hs, Hc, Hn. by split.
Qed.

Lemma elem_of_diff_target sr tr es et p (s t : tree) :
  (∀ p, by_path es !! p = file_entry sha256 p <$> tracked_files s !! p) →
  (∀ p, by_path et !! p = file_entry sha256 p <$> tracked_files t !! p) →
  (∃ e, e ∈ d_OnlyInTarget (diff_files sr tr es et) ∧ fe_Path e = p) ↔
  is_Some (tracked_files t !! p) ∧ tracked_files s !! p = None.
Proof. intros Hs Ht. apply (elem_of_diff_source tr sr et es p t s); done. Qed.

Lemma diff_changed_differ sr tr es et e (s t : tree) :
  (∀ p, by_path es !! p = file_entry sha256 p <$> tracked_files s !! p) →
  (∀ p, by_path et !! p = file_entry sha256 p <$> tracked_files t !! p) →
  e ∈ d_Changed (diff_files sr tr es et) →
  ∃ c c', tracked_files s !! fc_Path e = Some c ∧ tracked_files t !! fc_Path e = Some c' ∧ c ≠ c'.
Proof.
  intros Hs Ht He. apply list_elem_of_omap in He as (q & _ & He). rewrite Ht, Hs in He.
  destruct (tracked_files s !! q) as [c|] eqn:Esq; [|done].
  destruct (tracked_files t !! q) as [c'|] eqn:Etq; [|done]. simpl in He. case_match eqn:Hb; [|done].
  simplify_eq. simpl. exists c, c'. split_and!; [done..|]. intros <-.
  by rewrite String.eqb_refl, Z.eqb_refl in Hb.
Qed.

Lemma elem_of_diff_changed sr tr es et p (s t : tree) :
  (∀ p, by_path es !! p = file_entry sha256 p <$> tracked_files s !! p) →
  (∀ p, by_path et !! p = file_entry sha256 p <$> tracked_files t !! p) →
  (∀ q q' c c', t_files s !! q = Some c → t_files t !! q' = Some c' → sha256 c = sha256 c' → c = c') →
  (∃ e, e ∈ d_Changed (diff_files sr tr es et) ∧ fc_Path e = p) ↔
  ∃ c c', tracked_files s !! p = Some c ∧ tracked_files t !! p = Some c' ∧ c ≠ c'.
Proof.
  intros Hs Ht Hinj. split.
  - intros (e & He & <-). by eapply diff_changed_differ.
  - intros (c & c' & Hc & Hc' & Hne). exists (mkChange p (file_entry sha256 p c) (file_entry sha256 p c')).
    split; [|done]. apply list_elem_of_omap. exists p. rewrite elem_of_sorted_keys, Ht, Hs, Hc, Hc'.
    split; [done|]. simpl. destruct (String.eqb_spec (sha256 c) (sha256 c')) as [E|]; [|done].
    exfalso. apply Hne. rewrite tracked_files_lookup in Hc, Hc'. destruct (tracked p); [|done]. by eapply Hinj.
Qed.
End Diff.

(** ** One action *)

(** Trees that can be merged: no file of one is a directory of the other, and
    the name of no temporary file is taken. *)
Definition compatible (s t : tree) : Prop :=
  (∀ p, p ∈ dom (t_files s) → p ∉ t_dirs t) ∧ (∀ p, p ∈ dom (t_files t) → p ∉ t_dirs s) ∧
  ∀ p, p ∈ dom (t_files s) → p +:+ ".tmp" ∉ dom (t_files s) ∪ dom (t_files t) ∪ t_dirs s ∪ t_dirs t.

Definition wf_dirs (t : tree) : Prop :=
  ∀ d, d ∈ t_dirs t → plain_path d ∧ ∀ a, a ∈ ancestors d → a ∈ t_dirs t.

Section Steps.
Context (s t : tree) (Hs : scannable s) (Hsd : wf_dirs s) (Ht : scannable t) (Hc : compatible s t).

(** A tree between the target and the result. *)
Definition between (k : tree) : Prop :=
  dom (t_files k) ⊆ dom (t_files s) ∪ dom (t_files t) ∧
  t_dirs t ⊆ t_dirs k ∧ t_dirs k ⊆ t_dirs s ∪ t_dirs t ∧
  ∀ p a, p ∈ dom (t_files k) → a ∈ ancestors p → a ∈ t_dirs k.

Lemma mkdir_each_ok k ps :
  (∀ p, p ∈ ps → p ∉ dom (t_files k)) →
  mkdir_each k ps = (Tree (t_files k) (list_to_set ps ∪ t_dirs k), None).
Proof.
  revert k. induction ps as [|p ps IH]; intros k Hps; simpl.
  - destruct k as [f ds]. simpl. do 2 f_equal. set_solver.
  - rewrite bool_decide_false by (apply Hps; left). rewrite IH by (intros; apply Hps; by right). simpl.
    do 2 f_equal. set_solver.
Qed.

Lemma source_dir_free k a : between k → a ∈ t_dirs s → a ∉ dom (t_files k).
Proof.
  intros (Hf & _) Ha Hin. apply Hf, elem_of_union in Hin as [Hin|Hin].
  - by apply (sc_file _ Hs a).
  - destruct Hc as (_ & Hc2 & _). by apply (Hc2 a).
Qed.

Lemma mkdirAll_ok k d :
  between k → d ∈ t_dirs s →
  mkdirAll k d = (Tree (t_files k) (list_to_set (ancestors d ++ [d]) ∪ t_dirs k), None).
Proof.
  intros Hk Hd. destruct (Hsd d Hd) as [(_ & _ & Hp) Ha]. destruct (plain_path_ne d Hp) as [H1 H2].
  unfold mkdirAll. destruct (String.eqb_spec d "."), (String.eqb_spec d ""); try done. simpl.
  apply mkdir_each_ok. intros a [Hin| ->%list_elem_of_singleton]%elem_of_app; apply source_dir_free; auto.
Qed.

Lemma copyFile_ok k p c :
  between k → t_files s !! p = Some c →
  copyFile s k p p = (Tree (<[p := c]> (t_files k)) (list_to_set (ancestors p) ∪ t_dirs k), None).
Proof.
  intros Hk Hp. assert (Hin : p ∈ dom (t_files s)) by by apply elem_of_dom.
  destruct (sc_path _ Hs p Hin) as (_ & _ & Hpp). unfold copyFile. rewrite Hp.
  set (k1 := Tree (t_files k) (list_to_set (ancestors p) ∪ t_dirs k)).
  assert (mkdirAll k (dir p) = (k1, None)) as ->.
  { destruct (dir_parent p Hpp) as [[-> Ea]|(_ & _ & Ea)].
    - unfold mkdirAll, k1. rewrite Ea. simpl. destruct k as [f ds]. simpl. do 2 f_equal. set_solver.
    - rewrite mkdirAll_ok; [by unfold k1; rewrite Ea|done|]. eapply sc_parents; [done..|]. rewrite Ea.
      apply elem_of_app. right. left. }
  assert (Hd1 : t_dirs k1 ⊆ t_dirs s ∪ t_dirs t).
  { simpl. intros a [Ha%elem_of_list_to_set|Ha]%elem_of_union; [|by apply Hk].
    apply elem_of_union. left. by eapply sc_parents. }
  destruct Hc as (Hc1 & _ & Hc3). specialize (Hc3 p Hin). rewrite !not_elem_of_union in Hc3.
  destruct Hc3 as (((Hn1 & Hn2) & Hn3) & Hn4).
  assert (Hpd : p ∉ t_dirs k1).
  { intros [Hx|Hx]%Hd1%elem_of_union; [by apply (sc_file _ Hs p)|by apply (Hc1 p)]. }
  unfold create. rewrite bool_decide_false by (intros [?|?]%Hd1%elem_of_union; done).
  rewrite bool_decide_true.
  2: { rewrite ancestors_suffix by done. apply Forall_forall. intros a Ha. simpl.
       apply elem_of_union. left. by apply elem_of_list_to_set. }
  unfold rename. simpl t_files. rewrite lookup_insert_eq. simpl t_dirs.
  rewrite bool_decide_false by done. do 2 f_equal. simpl. f_equal.
  rewrite delete_insert_id; [done|]. apply not_elem_of_dom.
  destruct Hk as (Hf & _). intros [?|?]%Hf%elem_of_union; done.
Qed.

(** ** The loop *)

Inductive planned (del : bool) : ApplyAction → Prop :=
| planned_mkdir p :
    is_Some (tracked_files s !! p) → dir p ≠ "." → dir p ≠ "" → planned del (mkAction "mkdir" (dir p))
| planned_copy p :
    is_Some (tracked_files s !! p) → planned del (mkAction "copy" p)
| planned_update p :
    is_Some (tracked_files s !! p) → planned del (mkAction "update" p)
| planned_delete p :
    del = true → is_Some (tracked_files t !! p) → tracked_files s !! p = None →
    planned del (mkAction "delete" p).

(** The files after the actions [done]. *)
Definition files_after (l : list ApplyAction) (p : string) : option string :=
  if decide (mkAction "copy" p ∈ l ∨ mkAction "update" p ∈ l) then t_files s !! p
  else if decide (mkAction "delete" p ∈ l) then None else t_files t !! p.

Lemma tracked_is_file (x : tree) p : is_Some (tracked_files x !! p) → ∃ c, t_files x !! p = Some c.
Proof. rewrite tracked_files_lookup. destruct (tracked p); [by intros [c ->]; exists c|by intros []]. Qed.

Lemma planned_path del a : planned del a → plain_path (aa_Path a).
Proof.
  intros [p Hp Hd1 Hd2|p Hp|p Hp|p _ Hp _]; simpl.
  - apply tracked_is_file in Hp as [c Hp]. apply elem_of_dom_2 in Hp.
    destruct (sc_path _ Hs p Hp) as (_ & _ & Hpp). destruct (dir_parent p Hpp) as [[? _]|(_ & _ & Ea)]; [done|].
    apply Hsd. eapply sc_parents; [done..|]. rewrite Ea. apply elem_of_app. right; left.
  - apply tracked_is_file in Hp as [c Hp]. by apply elem_of_dom_2, (sc_path _ Hs) in Hp.
  - apply tracked_is_file in Hp as [c Hp]. by apply elem_of_dom_2, (sc_path _ Hs) in Hp.
  - apply tracked_is_file in Hp as [c Hp]. by apply elem_of_dom_2, (sc_path _ Ht) in Hp.
Qed.

Lemma files_after_skip l a p :
  a ≠ mkAction "copy" p → a ≠ mkAction "update" p → a ≠ mkAction "delete" p →
  files_after (l ++ [a]) p = files_after l p.
Proof.
  intros H1 H2 H3. unfold files_after.
  assert (Hiff : ∀ x, x ≠ a → x ∈ l ++ [a] ↔ x ∈ l).
  { intros x Hx. rewrite elem_of_app, list_elem_of_singleton. naive_solver. }
  rewrite !(decide_ext _ _ _ _ (Hiff _ (not_eq_sym H3))).
  apply decide_ext. rewrite !Hiff by done. done.
Qed.

Lemma files_after_written l a p :
  a = mkAction "copy" p ∨ a = mkAction "update" p → files_after (l ++ [a]) p = t_files s !! p.
Proof.
  intros Ha. unfold files_after. rewrite decide_True; [done|].
  rewrite !elem_of_app, !list_elem_of_singleton. naive_solver.
Qed.

Lemma between_copy k p c :
  between k → t_files s !! p = Some c →
  between (Tree (<[p := c]> (t_files k)) (list_to_set (ancestors p) ∪ t_dirs k)).
Proof.
  intros (Hf & Hd1 & Hd2 & Ha) Hp. assert (Hin := elem_of_dom_2 _ _ _ Hp). split_and!; simpl.
  - rewrite dom_insert. set_solver.
  - set_solver.
  - intros a [Hx%elem_of_list_to_set|Hx]%elem_of_union; [|by apply Hd2].
    apply elem_of_union. left. by eapply (sc_parents _ Hs).
  - intros q a Hq Haq. apply elem_of_union. rewrite dom_insert, elem_of_union, elem_of_singleton in Hq.
    destruct Hq as [->|Hq]; [left; by apply elem_of_list_to_set|right; by eapply Ha].
Qed.

Lemma apply_copy_ok k l p a :
  between k → (∀ q, t_files k !! q = files_after l q) →
  is_Some (tracked_files s !! p) → a = mkAction "copy" p ∨ a = mkAction "update" p →
  ∃ k', copyFile s k p p = (k', None) ∧ between k' ∧ ∀ q, t_files k' !! q = files_after (l ++ [a]) q.
Proof.
  intros Hk Hl Hp Ha. apply tracked_is_file in Hp as [c Hp]. rewrite (copyFile_ok k p c) by done.
  eexists. split_and!; [done|by apply between_copy|]. intros q. simpl.
  destruct (decide (q = p)) as [->|Hne].
  - by rewrite lookup_insert_eq, files_after_written.
  - rewrite lookup_insert_ne, Hl by done. symmetry. apply files_after_skip; destruct Ha as [->| ->]; congruence.
Qed.

Lemma apply_action_ok del k l a :
  between k → (∀ q, t_files k !! q = files_after l q) → Forall (planned del) l → planned del a →
  ∃ k', apply_action s k a = (k', None) ∧ between k' ∧ ∀ q, t_files k' !! q = files_after (l ++ [a]) q.
Proof.
  intros Hk Hl Hpl Ha. unfold apply_action. rewrite (resolve_plain _ (planned_path _ _ Ha)).
  destruct Ha as [p Hp Hd1 Hd2|p Hp|p Hp|p Hdel Hp Hno]; simpl.
  - apply tracked_is_file in Hp as [c Hp]. assert (Hin := elem_of_dom_2 _ _ _ Hp).
    destruct (sc_path _ Hs p Hin) as (_ & _ & Hpp). destruct (dir_parent p Hpp) as [[? _]|(_ & _ & Ea)]; [done|].
    assert (Hds : ∀ x, x ∈ ancestors p → x ∈ t_dirs s) by (intros; by eapply (sc_parents _ Hs)).
    rewrite mkdirAll_ok; [|done|apply Hds; rewrite Ea; apply elem_of_app; right; left]. rewrite <-Ea.
    eexists. split; [done|]. destruct Hk as (Hf & H1 & H2 & H3). split.
    + split_and!; simpl; [done|set_solver| |].
      * intros x [Hx%elem_of_list_to_set|Hx]%elem_of_union; [apply elem_of_union; left; by apply Hds|by apply H2].
      * intros q x Hq Hx. apply elem_of_union. right. by eapply H3.
    + intros q. simpl. rewrite Hl. symmetry. by apply files_after_skip.
  - by apply apply_copy_ok; auto.
  - by apply apply_copy_ok; auto.
  - eexists. split; [done|]. destruct Hk as (Hf & H1 & H2 & H3). split.
    + split_and!; simpl; [rewrite dom_delete; set_solver|done|done|].
      intros q x Hq. apply H3. rewrite dom_delete in Hq. set_solver.
    + intros q. simpl. destruct (decide (q = p)) as [->|Hne].
      * rewrite lookup_delete_eq. unfold files_after. rewrite decide_False, decide_True; [done|..].
        -- apply elem_of_app. right; left.
        -- rewrite !elem_of_app, !list_elem_of_singleton. rewrite Forall_forall in Hpl.
           intros [[Hx%Hpl|Hx]|[Hx%Hpl|Hx]]; simplify_eq; inversion Hx as [| ? Hx' | ? Hx' |];
             simplify_eq; rewrite Hno in Hx'; by destruct Hx'.
      * rewrite lookup_delete_ne, Hl by done. symmetry. apply files_after_skip; congruence.
Qed.

Lemma apply_actions_ok del k l acts :
  between k → (∀ q, t_files k !! q = files_after l q) → Forall (planned del) l → Forall (planned del) acts →
  ∃ k', apply_actions s k acts = (k', None) ∧ between k' ∧ ∀ q, t_files k' !! q = files_after (l ++ acts) q.
Proof.
  intros Hk Hl Hpl Hacts. revert k l Hk Hl Hpl.
  induction Hacts as [|a acts Ha Hacts IH]; intros k l Hk Hl Hpl; simpl.
  - exists k. rewrite app_nil_r. done.
  - destruct (apply_action_ok del k l a Hk Hl Hpl Ha) as (k1 & -> & Hk1 & Hl1).
    destruct (IH k1 (l ++ [a]) Hk1 Hl1) as (k' & -> & Hk' & Hl').
    + apply Forall_app. split; [done|]. by constructor.
    + exists k'. split_and!; [done..|]. intros q. rewrite Hl'. by rewrite <-app_assoc.
Qed.
End Steps.

(** ** Convergence *)

Lemma plan_actions_planned (sha256 : string → string) sr tr es et s t del a :
  (∀ p, by_path es !! p = file_entry sha256 p <$> tracked_files s !! p) →
  (∀ p, by_path et !! p = file_entry sha256 p <$> tracked_files t !! p) →
  (∀ q q' c c', t_files s !! q = Some c → t_files t !! q' = Some c' → sha256 c = sha256 c' → c = c') →
  let acts := plan_actions (diff_files sr tr es et) del in
  (a ∈ acts → planned s t del a) ∧
  (∀ p, mkAction "copy" p ∈ acts ↔ is_Some (tracked_files s !! p) ∧ tracked_files t !! p = None) ∧
  (∀ p, mkAction "update" p ∈ acts ↔
     ∃ c c', tracked_files s !! p = Some c ∧ tracked_files t !! p = Some c' ∧ c ≠ c') ∧
  (∀ p, mkAction "delete" p ∈ acts ↔
     del = true ∧ is_Some (tracked_files t !! p) ∧ tracked_files s !! p = None).
Proof.
  intros Hes Het Hinj. cbv zeta. set (diff := diff_files sr tr es et).
  pose proof (λ p, elem_of_diff_source sha256 sr tr es et p s t Hes Het) as H1.
  pose proof (λ p, elem_of_diff_target sha256 sr tr es et p s t Hes Het) as H2.
  pose proof (λ p, elem_of_diff_changed sha256 sr tr es et p s t Hes Het Hinj) as H3.
  fold diff in H1, H2, H3.
  assert (Hact : ∀ b, b ∈ plan_actions diff del ↔
    (∃ f, f ∈ d_OnlyInSource diff ∧ dir (fe_Path f) ≠ "." ∧ dir (fe_Path f) ≠ "" ∧ b = mkAction "mkdir" (dir (fe_Path f))) ∨
    (∃ f, f ∈ d_OnlyInSource diff ∧ b = mkAction "copy" (fe_Path f)) ∨
    (∃ f, f ∈ d_Changed diff ∧ b = mkAction "update" (fc_Path f)) ∨
    (del = true ∧ ∃ f, f ∈ d_OnlyInTarget diff ∧ b = mkAction "delete" (fe_Path f))).
  { intros b. unfold plan_actions. rewrite merge_sort_Permutation, !elem_of_app, !list_elem_of_fmap.
    setoid_rewrite elem_of_sort_strings. setoid_rewrite elem_of_remove_dups. setoid_rewrite list_elem_of_filter.
    setoid_rewrite list_elem_of_fmap.
    assert (b ∈ (if del then (λ f, mkAction "delete" (fe_Path f)) <$> d_OnlyInTarget diff else []) ↔
            del = true ∧ ∃ f, f ∈ d_OnlyInTarget diff ∧ b = mkAction "delete" (fe_Path f)) as ->.
    { destruct del; [rewrite list_elem_of_fmap; naive_solver|]. rewrite elem_of_nil. naive_solver. }
    naive_solver. }
  split_and!.
  - intros [(f & Hf & Hd1 & Hd2 & ->)|[(f & Hf & ->)|[(f & Hf & ->)|(Hdel & f & Hf & ->)]]]%Hact.
    + apply planned_mkdir; [|done..]. apply (H1 (fe_Path f)). eauto.
    + apply planned_copy. apply (H1 (fe_Path f)). eauto.
    + apply planned_update. destruct (proj1 (H3 (fc_Path f))) as (c & c' & -> & _); eauto.
    + destruct (proj1 (H2 (fe_Path f))) as [? ?]; [by eauto|]. by apply planned_delete.
  - intros p. rewrite Hact, <-H1. naive_solver.
  - intros p. rewrite Hact, <-H3. naive_solver.
  - intros p. rewrite Hact, <-H2. naive_solver.
Qed.

(** The tracked files of the target after an apply. *)
Definition applied_file (s t : tree) (del : bool) (p : string) : option string :=
  if tracked p then
    match t_files s !! p with
    | Some c => Some c
    | None => if del then None else t_files t !! p
    end
  else t_files t !! p.

Lemma files_after_applied sha256 sr tr es et s t del p :
  (∀ p, by_path es !! p = file_entry sha256 p <$> tracked_files s !! p) →
  (∀ p, by_path et !! p = file_entry sha256 p <$> tracked_files t !! p) →
  (∀ q q' c c', t_files s !! q = Some c → t_files t !! q' = Some c' → sha256 c = sha256 c' → c = c') →
  files_after s t (plan_actions (diff_files sr tr es et) del) p = applied_file s t del p.
Proof.
  intros Hes Het Hinj.
  destruct (plan_actions_planned sha256 sr tr es et s t del (mkAction "" "") Hes Het Hinj) as (_ & Hc & Hu & Hd).
  specialize (Hc p). specialize (Hu p). specialize (Hd p). rewrite !tracked_files_lookup in Hc, Hu, Hd.
  unfold files_after, applied_file.
  destruct (tracked p).
  2: { rewrite decide_False by (rewrite Hc, Hu; intros [[[] _]|(? & ? & ? & _)]; done).
       by rewrite decide_False by (rewrite Hd; intros (_ & [] & _); done). }
  destruct (t_files s !! p) as [c|], (t_files t !! p) as [c'|].
  - destruct (decide (c = c')) as [->|Hne].
    + rewrite decide_False by (rewrite Hc, Hu; intros [[_ ?]|(? & ? & ? & ? & ?)]; congruence).
      by rewrite decide_False by (rewrite Hd; intros (_ & _ & ?); done).
    + rewrite decide_True; [done|]. right. apply Hu. eauto.
  - rewrite decide_True; [done|]. left. apply Hc. eauto.
  - rewrite decide_False by (rewrite Hc, Hu; intros [[[] _]|(? & ? & ? & _)]; done). destruct del.
    + rewrite decide_True; [done|]. apply Hd. eauto.
    + by rewrite decide_False by (rewrite Hd; intros [? _]; done).
  - rewrite decide_False by (rewrite Hc, Hu; intros [[[] _]|(? & ? & ? & _)]; done).
    rewrite decide_False by (rewrite Hd; intros (_ & [] & _); done). by destruct del.
Qed.

Lemma applied_scannable s t t' del :
  scannable s → scannable t → compatible s t → between s t t' →
  (∀ p, t_files t' !! p = applied_file s t del p) → scannable t'.
Proof.
  intros Hs Ht (Hc1 & Hc2 & _) (Hf & Hd1 & Hd2 & Ha) Happ. split.
  - destruct (proj1 (elem_of_dom _ _) (sc_manifest _ Hs)) as [c Hm]. apply elem_of_dom. exists c.
    rewrite Happ. unfold applied_file. by rewrite Hm.
  - intros p [Hp|Hp]%Hf%elem_of_union; [by apply (sc_path _ Hs)|by apply (sc_path _ Ht)].
  - intros p [Hp|Hp]%Hf%elem_of_union [Hx|Hx]%Hd2%elem_of_union.
    + by apply (sc_file _ Hs p).
    + by apply (Hc1 p).
    + by apply (Hc2 p).
    + by apply (sc_file _ Ht p).
  - done.
Qed.

Lemma applied_tracked s t t' del p :
  (∀ p, t_files t' !! p = applied_file s t del p) →
  tracked_files t' !! p =
    match tracked_files s !! p with Some c => Some c | None => if del then None else tracked_files t !! p end.
Proof.
  intros Happ. rewrite !tracked_files_lookup, Happ. unfold applied_file. destruct (tracked p); [done|by destruct del].
Qed.

(** C29. An apply converges and does what its dry run said: for workspaces whose
    trees do not conflict, it succeeds, performs exactly the announced actions,
    makes the tracked files of the target those of the source - keeping the
    target's own unless asked to delete them - and touches no other file; a
    diff taken afterwards is empty up to the files it was asked to keep. *)
Theorem apply_converges (sha256 abs : string → string) (d : disk) (src tgt : string) (s t : tree) (del : bool) :
  let sroot := abs (trim_space src) in
  let troot := abs (trim_space tgt) in
  trim_space src ≠ "" → trim_space tgt ≠ "" → sroot ≠ troot →
  d !! sroot = Some (RootDir s) → d !! troot = Some (RootDir t) →
  scannable s → wf_dirs s → scannable t → compatible s t →
  (∀ q q' c c', t_files s !! q = Some c → t_files t !! q' = Some c' → sha256 c = sha256 c' → c = c') →
  ∃ diff actions t',
    BuildApplyDryRunWithOptions sha256 abs d src tgt del = inl (diff, actions) ∧
    Apply sha256 abs d src tgt del = (<[troot := RootDir t']> d, inl actions) ∧
    (∀ p, t_files t' !! p = applied_file s t del p) ∧
    ∃ diff', Diff sha256 abs (<[troot := RootDir t']> d) src tgt = inl diff' ∧
      d_OnlyInSource diff' = [] ∧ d_Changed diff' = [] ∧ (del = true → d_OnlyInTarget diff' = []).
Proof.
  intros sroot troot Hsrc Htgt Hne Hds Hdt Hs Hsd Ht Hc Hinj.
  destruct (plan_of sha256 abs d src s Hsrc Hds Hs) as (es & Eps & Hes).
  destruct (plan_of sha256 abs d tgt t Htgt Hdt Ht) as (et & Ept & Het).
  set (diff := diff_files sroot troot es et). set (acts := plan_actions diff del).
  assert (Edry : BuildApplyDryRunWithOptions sha256 abs d src tgt del = inl (diff, acts)).
  { unfold BuildApplyDryRunWithOptions, Diff. by rewrite Eps, Ept. }
  assert (Hplan : Forall (planned s t del) acts).
  { apply Forall_forall. intros a Ha.
    by apply (plan_actions_planned sha256 sroot troot es et s t del a Hes Het Hinj). }
  destruct (apply_actions_ok s t Hs Hsd Ht Hc del t [] acts) as (t' & Erun & Hbt & Hft); [|done|done|done|].
  { split_and!; [set_solver..|]. apply (sc_parents _ Ht). }
  simpl in Hft. assert (Happ : ∀ p, t_files t' !! p = applied_file s t del p).
  { intros p. rewrite Hft. by apply (files_after_applied sha256). }
  exists diff, acts, t'. split_and!; [done| |done|].
  { unfold Apply. rewrite Edry. unfold tree_at. cbn [d_SourceRoot d_TargetRoot diff diff_files].
    by rewrite Hds, Hdt, Erun. }
  pose proof (applied_scannable s t t' del Hs Ht Hc Hbt Happ) as Ht'.
  destruct (plan_of sha256 abs (<[troot := RootDir t']> d) src s Hsrc) as (es' & Eps' & Hes'); [|done|].
  { by rewrite lookup_insert_ne. }
  destruct (plan_of sha256 abs (<[troot := RootDir t']> d) tgt t' Htgt) as (et' & Ept' & Het'); [|done|].
  { apply lookup_insert_eq. }
  pose proof (λ p, applied_tracked s t t' del p Happ) as Htr.
  eexists. split; [unfold Diff; rewrite Eps', Ept'; done|]. split_and!.
  - apply elem_of_nil_inv. intros e He.
    destruct (proj1 (elem_of_diff_source sha256 sroot troot es' et' (fe_Path e) s t' Hes' Het')) as [[c Hcs] Hn]; [eauto|].
    by rewrite Htr, Hcs in Hn.
  - apply elem_of_nil_inv. intros e He.
    destruct (diff_changed_differ sha256 sroot troot es' et' e s t' Hes' Het' He) as (c & c' & H1 & H2 & Hcc).
    rewrite Htr, H1 in H2. congruence.
  - intros ->. apply elem_of_nil_inv. intros e He.
    destruct (proj1 (elem_of_diff_target sha256 sroot troot es' et' (fe_Path e) s t' Hes' Het')) as [[c Hct] Hn]; [eauto|].
    by rewrite Htr, Hn in Hct.
Qed.

(** ** Instances *)

Definition demo_source : tree :=
  Tree {["manifest.yaml" := "v2"; "queries/a.sql" := "SELECT 2"; "queries/new/b.sql" := "SELECT 3"]}
       {["queries"; "queries/new"]}.
Definition demo_target : tree :=
  Tree {["manifest.yaml" := "v1"; "queries/a.sql" := "SELECT 1"; "queries/old.sql" := "SELECT 0"; "notes.txt" := "keep"]}
       {["queries"]}.
Definition demo_disk (s t : tree) : disk := {["/src" := RootDir s; "/tgt" := RootDir t]}.
Definition demo_apply (s t : tree) (del : bool) : tree * (list ApplyAction + fsErr) :=
  let '(d, r) := Apply id id (demo_disk s t) "/src" "/tgt" del in (tree_at d "/tgt", r).

#[local] Ltac plain_path_tac := split_and!; [reflexivity|reflexivity|repeat constructor; discriminate].

(** Case analysis on the members of a concrete tree. *)
#[local] Ltac members H :=
  vm_compute in H; repeat (apply elem_of_cons in H as [->|H]); try (by apply elem_of_nil in H).

Lemma demo_source_ok : scannable demo_source ∧ wf_dirs demo_source.
Proof.
  assert (Hf : ∀ p, p ∈ dom (t_files demo_source) → p ∈ ["manifest.yaml"; "queries/a.sql"; "queries/new/b.sql"]).
  { intros p Hp. simpl in Hp. rewrite !dom_insert_L, dom_singleton_L in Hp. set_solver. }
  split; [split|].
  - apply (bool_decide_unpack _). vm_compute. exact I.
  - intros p Hp%Hf. members Hp; plain_path_tac.
  - intros p Hp%Hf. members Hp; apply (bool_decide_unpack _); vm_compute; exact I.
  - intros p a Hp%Hf Ha. members Hp; members Ha; apply (bool_decide_unpack _); vm_compute; exact I.
  - intros x Hx. assert (Hd : x ∈ ["queries"; "queries/new"]) by (simpl in Hx; set_solver).
    members Hd; (split; [plain_path_tac|]; intros a Ha; members Ha; apply (bool_decide_unpack _); vm_compute; exact I).
Qed.

Lemma demo_target_ok : scannable demo_target.
Proof.
  assert (Hf : ∀ p, p ∈ dom (t_files demo_target) →
    p ∈ ["manifest.yaml"; "queries/a.sql"; "queries/old.sql"; "notes.txt"]).
  { intros p Hp. simpl in Hp. rewrite !dom_insert_L, dom_singleton_L in Hp. set_solver. }
  split.
  - apply (bool_decide_unpack _). vm_compute. exact I.
  - intros p Hp%Hf. members Hp; plain_path_tac.
  - intros p Hp%Hf. members Hp; apply (bool_decide_unpack _); vm_compute; exact I.
  - intros p a Hp%Hf Ha. members Hp; members Ha; apply (bool_decide_unpack _); vm_compute; exact I.
Qed.

Lemma demo_compatible : compatible demo_source demo_target.
Proof.
  split_and!; intros p Hp; simpl in Hp; rewrite !dom_insert_L, dom_singleton_L in Hp.
  - assert (Hd : p ∈ ["manifest.yaml"; "queries/a.sql"; "queries/new/b.sql"]) by set_solver.
    members Hd; apply (bool_decide_unpack _); vm_compute; exact I.
  - assert (Hd : p ∈ ["manifest.yaml"; "queries/a.sql"; "queries/old.sql"; "notes.txt"]) by set_solver.
    members Hd; apply (bool_decide_unpack _); vm_compute; exact I.
  - assert (Hd : p ∈ ["manifest.yaml"; "queries/a.sql"; "queries/new/b.sql"]) by set_solver.
    members Hd; apply (bool_decide_unpack _); vm_compute; exact I.
Qed.

Lemma apply_converges_witness :
  ∃ diff actions t',
    BuildApplyDryRunWithOptions id id (demo_disk demo_source demo_target) "/src" "/tgt" true = inl (diff, actions) ∧
    Apply id id (demo_disk demo_source demo_target) "/src" "/tgt" true =
      (<["/tgt" := RootDir t']> (demo_disk demo_source demo_target), inl actions) ∧
    ∀ p, t_files t' !! p = applied_file demo_source demo_target true p.
Proof.
  destruct (apply_converges id id (demo_disk demo_source demo_target) "/src" "/tgt" demo_source demo_target true)
    as (diff & actions & t' & H1 & H2 & H3 & _).
  - discriminate.
  - discriminate.
  - discriminate.
  - reflexivity.
  - reflexivity.
  - apply demo_source_ok.
  - apply demo_source_ok.
  - apply demo_target_ok.
  - apply demo_compatible.
  - intros q q' c c' _ _ E. exact E.
  - exists diff, actions, t'. split; [exact H1|]. split; [exact H2|exact H3].
Defined.

(** The temporary file of an update is not a fresh name: updating [a.sql]
    destroys the target's [a.sql.tmp], a tracked file both sides had. *)
Lemma update_destroys_tmp_file :
  let s := Tree {["manifest.yaml" := "v"; "queries/a.sql" := "2"; "queries/a.sql.tmp" := "draft"]} {["queries"]} in
  let t := Tree {["manifest.yaml" := "v"; "queries/a.sql" := "1"; "queries/a.sql.tmp" := "draft"]} {["queries"]} in
  let '(t', r) := demo_apply s t false in
  r = inl [mkAction "update" "queries/a.sql"] ∧ t_files t' !! "queries/a.sql.tmp" = None.
Proof. vm_compute. split; reflexivity. Qed.

(** Actions run in the order of their names, copies before deletions: a file of
    the target that is a directory in the source stops the apply that was asked
    to delete it. *)
Lemma delete_comes_too_late :
  let s := Tree {["manifest.yaml" := "v"; "queries/a/b.sql" := "2"]} {["queries"; "queries/a"]} in
  let t := Tree {["manifest.yaml" := "v"; "queries/a" := "1"]} {["queries"]} in
  snd (demo_apply s t true) = inr (NotDirectory "queries/a").
Proof. vm_compute. reflexivity. Qed.
