(* ===== verification/Supervisor.v ===== *)
(** * The process supervisor

    [internal/procsupervisor/procsupervisor.go]: restart a crashed child, but
    not more often than a sliding window allows.  Starting and waiting for a
    process and the two races with the context are inputs: one [childRun] per
    iteration of the loop says what the operating system and the clock did. *)

From S2P Require Import Prelude.

Record RestartPolicy := mkPolicy { MaxRestarts : Z; Window : Z; Backoff : Z }.

Inductive childRun :=
(** [cmd.Start] failed *)
| StartFailed (err : string)
(** The child ended with [err] ([None]: exit status 0) at [now]; [cancelled] is
    whether [ctx] was cancelled by then, [cancelledInBackoff] whether it was
    before the backoff timer fired. *)
| Exited (cancelled : bool) (err : option string) (now : Z) (cancelledInBackoff : bool).

(** What [Supervise] returned ([None] for a nil error), or that it waits for
    another run of the child with these recent crashes. *)
Inductive superviseOutcome :=
| Returned (err : option string)
| Restarted (recentCrashes : list Z).

Definition PruneOlderThan (times : list Z) (cutoff : Z) : list Z := filter (λ t, cutoff < t) times.

(** The loop, with the number of times the child was started. *)
Fixpoint supervise_from (policy : RestartPolicy) (recent : list Z) (runs : list childRun) : superviseOutcome * nat :=
  match runs with
  | [] => (Restarted recent, 0%nat)
  | StartFailed err :: _ => (Returned (Some err), 0%nat)
  | Exited cancelled err now cancelledInBackoff :: runs =>
      if cancelled then (Returned None, 1%nat) else
      match err with
      | None => (Returned None, 1%nat)
      | Some e =>
          let recent := PruneOlderThan (recent ++ [now]) (now - Window policy) in
          if MaxRestarts policy <? Z.of_nat (length recent) then (Returned (Some e), 1%nat)
          else if cancelledInBackoff then (Returned None, 1%nat)
          else let '(out, n) := supervise_from policy recent runs in (out, S n)
      end
  end.

Definition Supervise (policy : RestartPolicy) (runs : list childRun) : superviseOutcome * nat :=
  supervise_from policy [] runs.

(** ** The window *)

(** A child that crashes at each of these times. *)
Definition crash (t : Z) : childRun := Exited false (Some "exit status 2") t false.

(** The crashes up to the [i]-th that lie within the window that ends with it. *)
Definition crashes_in_window (policy : RestartPolicy) (times : list Z) (i : nat) : Z :=
  match times !! i with
  | None => 0
  | Some now => Z.of_nat (length (filter (λ t, now - Window policy < t) (take (S i) times)))
  end.

Definition nondecreasing (times : list Z) : Prop :=
  ∀ i k t u, (i ≤ k)%nat → times !! i = Some t → times !! k = Some u → t ≤ u.

(** Pruning after every crash keeps exactly the crashes of the last window. *)
Lemma prune_step (policy : RestartPolicy) before last now :
  last ≤ now →
  PruneOlderThan (filter (λ t, last - Window policy < t) before ++ [now]) (now - Window policy) =
  filter (λ t, now - Window policy < t) (before ++ [now]).
Proof.
  intros Hle. unfold PruneOlderThan. rewrite !filter_app. f_equal.
  rewrite list_filter_filter. apply list_filter_iff. intros t. lia.
Qed.

Lemma supervise_window policy before rest recent last :
  nondecreasing (before ++ rest) →
  (before = [] ∧ recent = [] ∨
   (∀ t, t ∈ rest → last ≤ t) ∧ recent = filter (λ t, last - Window policy < t) before) →
  let '(out, n) := supervise_from policy recent (crash <$> rest) in
  (∀ k, (k < n)%nat → (length before + k < length before + length rest)%nat) ∧
  match out with
  | Restarted _ =>
      n = length rest ∧
      ∀ k, (k < n)%nat → crashes_in_window policy (before ++ rest) (length before + k) ≤ MaxRestarts policy
  | Returned _ =>
      (0 < n)%nat ∧ MaxRestarts policy < crashes_in_window policy (before ++ rest) (length before + (n - 1)) ∧
      ∀ k, (k < n - 1)%nat → crashes_in_window policy (before ++ rest) (length before + k) ≤ MaxRestarts policy
  end.
Proof.
  revert before recent last. induction rest as [|now rest IH]; intros before recent last Hnd Hrec; simpl.
  { split; [lia|]. split; [done|]. lia. }
  set (recent' := PruneOlderThan (recent ++ [now]) (now - Window policy)).
  assert (Hr : recent' = filter (λ t, now - Window policy < t) (before ++ [now])).
  { unfold recent'. destruct Hrec as [[-> ->]|[Hl ->]]; [done|]. apply prune_step. apply Hl. left. }
  assert (Hhere : crashes_in_window policy (before ++ now :: rest) (length before) = Z.of_nat (length recent')).
  { unfold crashes_in_window. rewrite list_lookup_middle by done. do 2 f_equal. rewrite Hr. f_equal.
    rewrite cons_middle, app_assoc, take_app_length'; [done|]. rewrite length_app. simpl. lia. }
  destruct (MaxRestarts policy <? Z.of_nat (length recent')) eqn:Hmax; bools; cbn iota.
  { split; [intros; lia|]. split; [lia|]. rewrite Nat.add_0_r, Hhere. split; [done|]. lia. }
  change (list_fmap Z childRun crash rest) with (crash <$> rest).
  specialize (IH (before ++ [now]) recent' now).
  rewrite <-app_assoc in IH. simpl in IH.
  destruct (supervise_from policy recent' (crash <$> rest)) as [out n] eqn:Hsup.
  destruct IH as [Hlen IH]; [done| |].
  { right. split; [|done]. intros t Ht. apply list_elem_of_lookup_1 in Ht as [k Hk].
    apply (Hnd (length before) (length before + S k)%nat); [lia|by rewrite list_lookup_middle|].
    rewrite lookup_app_r by lia. by replace (length before + S k - length before)%nat with (S k) by lia. }
  rewrite length_app in Hlen, IH. simpl in Hlen, IH.
  assert (Hshift : ∀ k, (length before + 1 + k = length before + S k)%nat) by lia.
  split.
  - intros [|k] Hk; [lia|]. specialize (Hlen k). lia.
  - destruct out as [err|rec].
    + destruct IH as (Hn & Hbad & Hok). split; [lia|]. split.
      * replace (length before + (S n - 1))%nat with (length before + 1 + (n - 1))%nat by lia. done.
      * intros [|k] Hk; [rewrite Nat.add_0_r, Hhere; lia|]. rewrite <-Hshift. apply Hok. lia.
    + destruct IH as (Hn & Hok). split; [lia|]. intros [|k] Hk; [rewrite Nat.add_0_r, Hhere; lia|].
      rewrite <-Hshift. apply Hok. lia.
Qed.


